(* ===== verification/_CoqProject ===== *)
-Q . S2P
Prelude.v
Memory.v
Fmt.v
FrameAlloc.v
Frames.v
FramesSpec.v
FramesBoot.v
FramesProps.v
Paging.v
PagingWalk.v
PagingTables.v
PagingMap.v
PagingRange.v
PagingSpace.v
PagingOwn.v
PagingKeep.v
PagingProps.v
KernelMap.v
Kernel.v
Sched.v
Notify.v
Ipc.v
Tasks.v
Syscall.v
KernelInv.v
SchedSpec.v
CallInv.v
SyscallInv.v
ImageMem.v
KernelMem.v
Devices.v
Exceptions.v
Assembly.v
AssemblyProps.v
Mmu.v
MmuProps.v
System.v
SystemMem.v
SchedProps.v
IpcProps.v
KernelProps.v
SystemProps.v
MemProps.v
Fdt.v
FdtSpec.v
FdtTree.v
FdtBuild.v
FdtWalk.v
FdtFind.v
FdtTest.v
FdtProps.v
Virtio.v
Virtqueue.v
VirtqueueSpec.v
VirtioProps.v
DeviceProps.v
IrqProps.v
Sync.v
Uart.v
Boot.v
BootSpec.v
BootProps.v
DeviceMap.v
Startup.v
Protection.v
DiscoverProps.v
A64.v
UserPrograms.v
Threads.v
Reports.v
TaskTests.v
TestRuns.v
ThreadProps.v
KernelMain.v
BootRun.v
KernelMainProps.v
