(* ===== verification/Prelude.v ===== *)
(** * the_rack, verified: overview and prelude

    the_rack ([src/kernel/src]) is a microkernel for one aarch64 core on QEMU's
    [virt] board: it allocates physical frames, builds translation tables, runs
    tasks by priority, passes messages between them with leases on memory, turns
    interrupts into notifications, restarts tasks for a supervisor, and finds
    its devices in the device tree.  This development models that code in Rocq
    and proves what it promises.  It assumes nothing: every theorem is closed.

    ** How the code is modelled

    A definition keeps the name of the function it translates and reads like it,
    guard by guard.  A function that reads or writes state is in the monad
    [M S A := S -> res (A * S)] below: [Done] with a result and a new state, or
    [Panic], where Rust would panic; the kernel is built with overflow checks,
    so [add64] and its kin panic, and only what the source writes as wrapping or
    saturating wraps or saturates.  Errors the source returns are [Result] and
    [option].  Integers are [Z], kept at their width by those operations.
    Physical memory is a function from addresses to bytes ([Memory]); a pointer
    the kernel dereferences is the physical address behind it, except in [Fdt],
    which is about the pointers themselves.

    A component's state is a record of the statics of its file: [machine] (the
    allocator and memory), [kernel] (tasks, messages, notifications and the
    machine), [devices] (the bus, with the interrupt controller and timer on
    it), [console], and at boot [system], which holds a machine, a console and
    what was discovered.  A [board] is a kernel with its devices, a [core] a board
    with the translation registers, a [world] a core with time and the statics of
    the test threads, and the [computer] that boots a core with the statics of the
    drivers.  [zoom] runs an operation of a part on the whole.

    Three things the source cannot show are parameters: what a device answers
    ([respond], from the history of the bus) and what it writes to memory ([dma]),
    the layout the linker chooses ([layout], [kernel_end], entry points), and the
    counter and its frequency.

    ** The parts, in order

    - [Memory], [FrameAlloc]: bytes, and the interface ([FrameAlloc], with the
      contract [FrameAllocLaws]) through which page tables and virtqueues get
      frames; its clients are proved against the contract alone.  [Fmt]: numbers
      as the kernel prints them.
    - [Frames] with [FramesSpec], [FramesBoot], [FramesProps] ([frames.rs]): the
      bitmap allocator refines a set of free frames, and discharges the contract.
    - [Paging] with [PagingWalk], [PagingTables], [PagingMap], [PagingRange],
      [PagingSpace], [PagingProps] ([paging.rs]): descriptors, the hardware's walk,
      the tables as a forest, and what mapping, checking, copying and tearing
      down do to what addresses translate to.  [PagingOwn] and [PagingKeep]: the
      account of which space owns which frame, and that every operation on a
      space keeps the account and leaves other memory alone.
    - [KernelMap], [Mmu], [MmuProps] ([paging.rs]): what [build_tables] lays for the
      kernel, region by region; the registers that turn it on, accesses as the
      hardware makes them at either exception level, and the self test that
      probes them.
    - [Kernel], [Sched], [Notify], [Ipc], [Tasks], [Syscall] ([tasks.rs], [notify.rs],
      [ipc.rs], [syscall.rs]): the tables and the calls on them.  A call that can
      switch away is in pieces: what runs before the switch, and a continuation
      ([context]) that a later switch back resumes.
    - [Devices], [Exceptions], [System] ([gic.rs], [timer.rs], [exceptions.rs]): the bus,
      every way into the kernel, and the whole as a transition system ([reachable]):
      traps, interrupts, system calls, kernel-thread calls and the stores of the
      program that runs at EL0, in any order.  Interrupts are masked while a lock
      is held, and the source does all of a call's work on the tables under one,
      but for a kernel thread that ends: [finish_live] is [task_finished] with the
      interrupts that may arrive between its critical sections.
    - [Assembly], [AssemblyProps] ([boot.S], [vectors.S], [switch.S]): the instructions
      below Rust, executed: the start, the frame a trap builds and the return
      from it, the switch of stacks and how a new task gets onto its own.
    - [ImageMem], [KernelMem], [SystemMem], [MemProps]: memory in every reachable
      state.  Building a program's image, every call of the kernel and every step
      of the system keep the account ([mem_ok]) of frames held by live tasks.
      [Startup]: what the device tree adds to the kernel's map before the first
      task, the rest of RAM and the windows of the devices.  [Protection] joins
      the two: what every access reaches, at EL0 and EL1, in every reachable state.
    - [KernelInv], [SchedSpec], [CallInv], [SyscallInv]: the invariant of the tables and
      that every call keeps it; [SchedProps], [IpcProps], [KernelProps], [SystemProps]
      draw the consequences.
    - [Fdt] with [FdtSpec], [FdtTree], [FdtBuild], [FdtWalk], [FdtFind], [FdtTest], [FdtProps]
      ([fdt.rs]): reading a device tree, the trees its own self tests write, and
      that reading inverts writing.
    - [Virtio], [Virtqueue] with [VirtqueueSpec], [VirtioProps] ([virtio.rs],
      [virtqueue.rs]): the handshake, and the rings as a ledger of descriptors.
    - [DeviceProps]: the timer's deadlines.  [IrqProps]: an interrupt on its whole way
      from the controller to the task.  [Sync] ([sync.rs]): interrupt masking as
      critical sections.  [Uart] ([uart.rs]): the console.
    - [Boot] with [BootSpec], [BootProps] ([main.rs]): the components together, from
      reset to the adopted memory map, and what they print.  [DeviceMap],
      [DiscoverProps] (discovery of [virtio.rs]): mapping one window after another,
      and the scan of the slots.
    - [A64], [UserPrograms] ([user.S]): the instructions the user programs are made
      of, their encoding, and the twelve programs assembled to bytes.  [Threads]:
      kernel threads as interaction trees and user programs as bytes in memory,
      run a [turn] at a time on the kernel, with its timer.  [TaskTests] ([tasks.rs],
      [main.rs]): the boot task from [init_address_spaces] to [halt], with the
      threads and programs of the self tests.  [TestRuns]: those tests run on a
      board.  [ThreadProps]: a run of threads is a run of the transition system.
    - [Reports], [KernelMain] ([main.rs] and the self tests it calls): the texts the
      kernel prints of its state, and [kernel_main] and [kernel_main_high] line by
      line.  [BootRun]: a board that boots.  [KernelMainProps]: one that does not.

    ** What the theorems show

    Properties are numbered C1, C2, ... in their doc comments; each with a
    hypothesis has a [_witness], a closed instance of it.

    - Memory: allocation returns the lowest free frame, zeroed; freeing,
      reserving, adopting and first fit do exactly what they say, on every
      branch.  Mapping changes exactly the addresses asked for and keeps every
      space free of memory both writable and executable; the checks on user
      pointers say what EL0 may do up to [2 ^ 48], and it is shown what they say
      above; copies between spaces touch only the bytes asked for, and a message
      goes over exactly when both sides may; tearing a space down frees each
      frame once.
    - Isolation: in every state reached from start-up no two tasks map a common
      frame, every frame of the pool is free or held by exactly one holder, every
      task's tables are well formed, and no step writes the kernel's text, its
      constants or its own tables; a user program's store lands only in pages its
      own space maps writable.  Once the kernel has started, a program reaches
      exactly the text and the stack of its own image, and the kernel exactly what
      the linker's layout and the device tree let it and the pages of the running
      task, neither of them able to write what it executes; the self test of
      [paging.rs] passes on every machine.
    - Runs: kernel threads, programs at EL0 and the timer, taking turns as the
      scheduler says, do only what the transition system does; and on a board
      just booted the self tests run to their end: cooperation, preemption,
      private address spaces, a user program, life cycle, faults, priorities,
      messages, notifications and a forged reply, with the console's text to the
      letter.
    - Below Rust: a trap saves the interrupted code in a [TrapFrame] and the return
      brings back what the frame says; a switch away and back is the identity on
      what a call preserves; a new task starts at its entry function; [SP_EL0] is
      in neither frame.
    - Tasks: the scheduler picks the highest priority, round robin; in every
      reachable state someone can run, waiters wait on living tasks or on a thread
      cut off as it ended, leases live only while their owner waits, forged
      replies are refused, and a borrow stays inside the lease and the borrower's
      buffer, whether it succeeds or fails half way.
    - Device tree: what the header check accepts, that reading never leaves the
      blob and always ends, and round trips through written trees.
    - Drivers: the virtio handshake access by access, the queue as a refinement
      of its ledger, the console's bytes in order, deadlines without drift,
      masks restored however sections nest.
    - Boot: a board boots and prints its log; the memory map adopted with the blob
      kept out of the pool; the virtio transports found are exactly the slots of
      the tree that answer as one.
    - Where the code falls short of what it says, a theorem shows that too:
      overflow in [reserve_range], non-canonical and null user pointers that stop
      the kernel, restarting a healthy task, a thread whose end is interrupted and
      leaves its senders waiting, crooked blobs, regions that are not reserved, a
      stack pointer programs share, and a boot without a device tree that is
      announced and cannot succeed.

    ** Bounds and fuel

    A loop that is not structural takes fuel and panics with "out of fuel" when
    it runs out; the theorems above prove [Done], so their fuel was enough.
    [map_range] turns at least a page a round ([size / 4096 + 1]); [user_range] and
    [copy_across] likewise a page or a byte; a walk of the device tree moves four
    bytes a token ([rounds]); the tables' depth bounds [free_table]; a chain of
    descriptors is no longer than the queue ([CHAIN_FUEL]); discovery looks at
    [MAX_TRANSPORTS] slots.  [turns n] takes up to [2 ^ n] turns and says whether the
    running thread could go on; the tests end within [2 ^ 16].  Loops that wait
    for a device take the polls they are given ([polls]), and their theorems
    assume the device answers within them.

    ** What is not modelled, and why

    - The join of [Assembly] with the rest.  In the system a switch exchanges
      continuations and a vector delivers a trap frame; that the instructions do
      this to registers and memory is proved on their own state.  A continuation
      stands for a stack: a stack's frames are counted, its contents not read.
    - Barriers, TLB maintenance and memory ordering: one core, a model that is
      sequential and has no stale translations.
    - The driver under what the handlers print: [write] and the line for an
      unhandled interrupt add their bytes to the [console] of the kernel.  The
      texts of an exception and of a task's fault are in [Reports], but only the
      breakpoint test sends one.  Once the tasks run, the boot task's lines are
      collected in the order it prints them.
    - The kernel's statics as bytes.  They are records beside memory, not places in
      it: what the theorems say of the kernel's own memory is about its text, its
      constants and its translation tables, and of [.data], [.bss] and the boot
      stack only that nothing reaches them by address.
    - Preemption between the critical sections of [spawn_in] and [reap_zombies]: in
      [System] they are one step, so the frames a thread has taken and not entered
      anywhere yet are never seen between two steps.  ([kill] holds its lock
      throughout.)
    - The panic handler and [semihosting.rs], one debugger call that ends the
      emulator: a panic is the end of a run, with its message.
    - In [System] programs are any sequence of stores and system calls and threads
      any sequence of calls; [Threads] runs particular ones.  Instructions [user.S]
      does not use are not decoded and trap as undefined.

    ** What is left open

    [BootRun] starts with the MMU on over a small map, because evaluating
    [make_tables] over all of RAM is too slow in a memory that is a function;
    [MmuProps] proves of every machine what it leaves.  For the same reason the
    task tests after [priority_self_test] run one at a time in [TestRuns], each on a
    board that has just booted, rather than one after another as the boot task has
    them, and those of leases and supervision, which are defined as the others
    are, do not run there. *)

From Stdlib Require Export ZArith Lia.
From stdpp Require Export base numbers list gmap strings.

Global Open Scope Z_scope.

(** ** Results and the state-and-panic monad

    The kernel is built with [panic = "abort"], so a panic ends the machine and
    carries nothing but a message. *)

Inductive res (A : Type) : Type :=
  | Done (a : A)
  | Panic (why : string).
Arguments Done {A} _.
Arguments Panic {A} _%_string.

Global Instance res_ret : MRet res := λ A a, Done a.
Global Instance res_bind : MBind res := λ A B f m,
  match m with Done a => f a | Panic w => Panic w end.

(** Rust's [Result], for the errors the source returns as values. *)
Inductive Result (A E : Type) : Type :=
  | Ok (a : A)
  | Err (e : E).
Arguments Ok {A E} _.
Arguments Err {A E} _.

Global Instance Result_eq_dec {A E} `{EqDecision A, EqDecision E} : EqDecision (Result A E).
Proof. solve_decision. Defined.

(** A kernel operation over a state [S]: it returns a value and the next
    state, or it panics. *)
Definition M (S A : Type) : Type := S → res (A * S).

Global Instance M_ret {S} : MRet (M S) := λ A a s, Done (a, s).
Global Instance M_bind {S} : MBind (M S) := λ A B f m s,
  match m s with Done (a, s') => f a s' | Panic w => Panic w end.

Definition panic {S A} (why : string) : M S A := λ _, Panic why.
Definition getS {S} : M S S := λ s, Done (s, s).
Definition putS {S} (s : S) : M S unit := λ _, Done (tt, s).
Definition gets {S A} (f : S → A) : M S A := λ s, Done (f s, s).
Definition modify {S} (f : S → S) : M S unit := λ s, Done (tt, f s).
Definition lift {S A} (r : res A) : M S A := λ s,
  match r with Done a => Done (a, s) | Panic w => Panic w end.

(** [assert!], [expect] and [unwrap]. *)
Definition assertM {S} (b : bool) (why : string) : M S unit :=
  if b then mret tt else panic why.
Definition expectM {S A} (o : option A) (why : string) : M S A :=
  match o with Some a => mret a | None => panic why end.

(** Run an operation of one component inside a larger state. *)
Definition zoom {K S A} (get : K → S) (put : S → K → K) (m : M S A) : M K A := λ k,
  match m (get k) with Done (a, s) => Done (a, put s k) | Panic w => Panic w end.

(** The bytes of a literal. *)
Definition bytes_of (s : string) : list Z := (λ a, Z.of_N (Ascii.N_of_ascii a)) <$> String.list_ascii_of_string s.

(** A [for] loop whose body may panic; the list is the iterated range. *)
Fixpoint forM {S A} (l : list A) (body : A → M S unit) : M S unit :=
  match l with
  | [] => mret tt
  | a :: l' => body a ≫= λ _, forM l' body
  end.

(** [iter().find]: the first element the (panicking) test accepts. *)
Fixpoint findM {S A} (l : list A) (test : A → M S bool) : M S (option A) :=
  match l with
  | [] => mret None
  | a :: l' => test a ≫= λ b, if b : bool then mret (Some a) else findM l' test
  end.

(** The range [lo..hi]. *)
Fixpoint range_from (lo : Z) (n : nat) : list Z :=
  match n with
  | O => []
  | S n' => lo :: range_from (lo + 1) n'
  end.
Definition range (lo hi : Z) : list Z := range_from lo (Z.to_nat (hi - lo)).

(** ** Partial correctness made total: [wp m s Q] says that [m] does not panic
    from [s] and that its result and final state satisfy [Q]. *)

Definition wp {S A} (m : M S A) (s : S) (Q : A → S → Prop) : Prop :=
  match m s with Done (a, s') => Q a s' | Panic _ => False end.

Lemma wp_ret {S A} (a : A) (s : S) (Q : A → S → Prop) : Q a s → wp (mret a) s Q.
Proof. done. Qed.

Lemma wp_bind {S A B} (m : M S A) (f : A → M S B) s Q :
  wp m s (λ a s', wp (f a) s' Q) → wp (m ≫= f) s Q.
Proof.
  unfold wp, mbind, M_bind. destruct (m s) as [[a s']|]; naive_solver.
Qed.

Lemma wp_assoc {S A B C} (m : M S A) (f : A → M S B) (g : B → M S C) s Q :
  wp ((m ≫= f) ≫= g) s Q → wp (a ← m; f a ≫= g) s Q.
Proof. unfold wp, mbind, M_bind. by destruct (m s) as [[a s']|]. Qed.

Lemma wp_mono {S A} (m : M S A) s (P Q : A → S → Prop) :
  wp m s P → (∀ a s', P a s' → Q a s') → wp m s Q.
Proof. unfold wp. destruct (m s) as [[a s']|]; naive_solver. Qed.

Lemma wp_Ok {S A} (m : M S A) s a s' (Q : A → S → Prop) :
  m s = Done (a, s') → Q a s' → wp m s Q.
Proof. unfold wp. by intros ->. Qed.

Lemma wp_elim {S A} (m : M S A) s (Q : A → S → Prop) :
  wp m s Q → ∃ a s', m s = Done (a, s') ∧ Q a s'.
Proof. unfold wp. destruct (m s) as [[a s']|]; naive_solver. Qed.

Lemma wp_gets {S A} (f : S → A) (s : S) (Q : A → S → Prop) : Q (f s) s → wp (gets f) s Q.
Proof. done. Qed.

Lemma wp_modify {S} (f : S → S) (s : S) Q : Q tt (f s) → wp (modify f) s Q.
Proof. done. Qed.

Lemma wp_putS {S} (s s0 : S) Q : Q tt s → wp (putS s) s0 Q.
Proof. done. Qed.

Lemma wp_lift {S A} (r : res A) a (s : S) (Q : A → S → Prop) :
  r = Done a → Q a s → wp (lift r) s Q.
Proof. by intros ->. Qed.

Lemma wp_assertM {S} b why (s : S) Q : b = true → Q tt s → wp (assertM b why) s Q.
Proof. by intros ->. Qed.

Lemma wp_expectM {S A} (o : option A) a why (s : S) (Q : A → S → Prop) :
  o = Some a → Q a s → wp (expectM o why) s Q.
Proof. by intros ->. Qed.

Lemma wp_zoom {K S A} (get : K → S) (put : S → K → K) (m : M S A) k (Q : A → K → Prop) :
  wp m (get k) (λ a s, Q a (put s k)) → wp (zoom get put m) k Q.
Proof. unfold wp, zoom. destruct (m (get k)) as [[a s]|]; done. Qed.

(** Loop rule: an invariant indexed by the part of the range already done. *)
Lemma wp_forM {S A} (body : A → M S unit) (l : list A) (I : list A → S → Prop)
    (Q : unit → S → Prop) s :
  I [] s →
  (∀ done a s, I done s → (∃ rest, l = done ++ a :: rest) →
     wp (body a) s (λ _ s', I (done ++ [a]) s')) →
  (∀ s, I l s → Q tt s) →
  wp (forM l body) s Q.
Proof.
  intros H0 Hstep HQ.
  cut (∀ rest done s, l = done ++ rest → I done s → wp (forM rest body) s Q).
  { intros Hc. apply (Hc l []); done. }
  clear s H0. induction rest as [|a rest IH]; intros done s Hl HI; simpl.
  - rewrite app_nil_r in Hl. subst. by apply HQ.
  - apply wp_bind. eapply wp_mono; [eapply Hstep; eauto|].
    intros [] s' HI'. apply (IH (done ++ [a])); [|done].
    by rewrite <-app_assoc.
Qed.

(** A search whose test reads the state and decides [p]. *)
Lemma wp_findM {S A} (test : A → M S bool) (p : A → bool) (l : list A) s
    (Q : option A → S → Prop) :
  (∀ a, a ∈ l → wp (test a) s (λ b s', b = p a ∧ s' = s)) →
  match list_find (λ a, p a) l with
  | Some (_, a) => Q (Some a) s
  | None => Q None s
  end →
  wp (findM l test) s Q.
Proof.
  revert Q. induction l as [|a l IH]; intros Q Ht HQ; simpl; [done|].
  apply wp_bind. eapply wp_mono; [apply Ht; set_solver|].
  intros b s' [-> ->]. simpl in HQ. destruct (decide (p a)) as [Hp|Hp].
  - rewrite (Is_true_eq_true _ Hp). by apply wp_ret.
  - destruct (p a); [done|]. apply IH; [set_solver|].
    destruct (list_find _ l) as [[i x]|]; done.
Qed.

(** Early termination of a range: [range.take_while(p)], evaluated lazily. *)
Fixpoint take_while_from (p : Z → bool) (lo : Z) (n : nat) : list Z :=
  match n with
  | O => []
  | S n' => if p lo then lo :: take_while_from p (lo + 1) n' else []
  end.
Definition range_take_while (p : Z → bool) (lo hi : Z) : list Z :=
  take_while_from p lo (Z.to_nat (hi - lo)).

Ltac wp_step :=
  match goal with
  | |- wp (_ ≫= _) _ _ => apply wp_bind
  | |- wp (mret _) _ _ => apply wp_ret
  | |- wp (gets _) _ _ => apply wp_gets
  | |- wp getS _ _ => apply wp_gets
  | |- wp (modify _) _ _ => apply wp_modify
  | |- wp (putS _) _ _ => apply wp_putS
  | |- wp (lift _) _ _ => eapply wp_lift; [first [eassumption | reflexivity] |]
  | |- wp (assertM _ _) _ _ => apply wp_assertM
  end.
Lemma if_bool_decide_ext {A} (P Q : Prop) `{!Decision P, !Decision Q} (x y : A) :
  (P ↔ Q) → (if bool_decide P then x else y) = (if bool_decide Q then x else y).
Proof. intros HPQ. repeat case_bool_decide; naive_solver. Qed.

Ltac wp_steps := repeat wp_step.

(** ** Partial correctness: [pc m s Q] says what holds if [m] does not panic. *)

Definition pc {S A} (m : M S A) (s : S) (Q : A → S → Prop) : Prop :=
  match m s with Done (a, s') => Q a s' | Panic _ => True end.

Lemma pc_ret {S A} (a : A) (s : S) (Q : A → S → Prop) : Q a s → pc (mret a) s Q.
Proof. done. Qed.
Lemma pc_bind {S A B} (m : M S A) (f : A → M S B) s Q :
  pc m s (λ a s', pc (f a) s' Q) → pc (m ≫= f) s Q.
Proof. unfold pc, mbind, M_bind. destruct (m s) as [[a s']|]; done. Qed.
Lemma pc_mono {S A} (m : M S A) s (P Q : A → S → Prop) :
  pc m s P → (∀ a s', P a s' → Q a s') → pc m s Q.
Proof. unfold pc. destruct (m s) as [[a s']|]; auto. Qed.
Lemma pc_conj {S A} (m : M S A) s (P Q : A → S → Prop) : pc m s P → pc m s Q → pc m s (λ a s', P a s' ∧ Q a s').
Proof. unfold pc. destruct (m s) as [[a s']|]; auto. Qed.
Lemma pc_gets {S A} (f : S → A) (s : S) (Q : A → S → Prop) : Q (f s) s → pc (gets f) s Q.
Proof. done. Qed.
Lemma pc_modify {S} (f : S → S) (s : S) Q : Q tt (f s) → pc (modify f) s Q.
Proof. done. Qed.
Lemma pc_panic {S A} why (s : S) (Q : A → S → Prop) : pc (panic why) s Q.
Proof. done. Qed.
Lemma pc_assertM {S} b why (s : S) Q : (b = true → Q tt s) → pc (assertM b why) s Q.
Proof. unfold pc, assertM. by destruct b; [intros H; apply H|]. Qed.
Lemma pc_expectM {S A} (o : option A) why (s : S) (Q : A → S → Prop) :
  (∀ a, o = Some a → Q a s) → pc (expectM o why) s Q.
Proof. unfold pc, expectM. by destruct o; [intros H; apply H|]. Qed.
Lemma pc_zoom {K S A} (get : K → S) (put : S → K → K) (m : M S A) k (Q : A → K → Prop) :
  (∀ a s, m (get k) = Done (a, s) → Q a (put s k)) → pc (zoom get put m) k Q.
Proof. unfold pc, zoom. destruct (m (get k)) as [[a s]|]; auto. Qed.
Lemma pc_elim {S A} (m : M S A) s a s' (Q : A → S → Prop) : pc m s Q → m s = Done (a, s') → Q a s'.
Proof. unfold pc. intros H He. by rewrite He in H. Qed.

Lemma pc_zoom_in {K S A} (get : K → S) (put : S → K → K) (m : M S A) k (Q : A → K → Prop) :
  pc m (get k) (λ a s, Q a (put s k)) → pc (zoom get put m) k Q.
Proof. intros H. apply pc_zoom. intros a s Hm. eapply pc_elim in H; [|exact Hm]. exact H. Qed.

Lemma pc_lift {S A} (r : res A) (s : S) (Q : A → S → Prop) : (∀ a, r = Done a → Q a s) → pc (lift r) s Q.
Proof. unfold pc, lift. destruct r; auto. Qed.
Lemma pc_of_wp {S A} (op : M S A) s Q : wp op s Q → pc op s Q.
Proof. intros (a & s' & He & HQ)%wp_elim. unfold pc. by rewrite He. Qed.

(** Loop rule: an invariant every round keeps. *)
Lemma pc_forM {S A} (body : A → M S unit) (l : list A) (I : S → Prop) (Q : unit → S → Prop) s :
  I s → (∀ a s, a ∈ l → I s → pc (body a) s (λ _ s', I s')) → (∀ s, I s → Q tt s) →
  pc (forM l body) s Q.
Proof.
  revert s. induction l as [|a l IH]; intros s H0 Hb HQ; simpl; [by apply HQ|].
  apply pc_bind. eapply pc_mono; [apply Hb; [by left|done]|]. intros [] s' Hs'.
  apply IH; [done| |done]. intros b s'' Hin. apply Hb. by right.
Qed.

(** ... and one indexed by the part of the list already done. *)
Lemma pc_forM_done {S A} (body : A → M S unit) (l : list A) (I : list A → S → Prop)
    (Q : unit → S → Prop) s :
  I [] s →
  (∀ done a s, a ∈ l → I done s → pc (body a) s (λ _ s', I (done ++ [a]) s')) →
  (∀ s, I l s → Q tt s) →
  pc (forM l body) s Q.
Proof.
  intros H0 Hstep HQ.
  cut (∀ rest done s, l = done ++ rest → I done s → pc (forM rest body) s Q).
  { intros Hc. apply (Hc l []); done. }
  clear s H0. induction rest as [|a rest IH]; intros done s Hl HI; simpl.
  - rewrite app_nil_r in Hl. subst. by apply HQ.
  - apply pc_bind. eapply pc_mono; [apply Hstep; [rewrite Hl, elem_of_app; right; by left|done]|].
    intros [] s' HI'. apply (IH (done ++ [a])); [|done]. by rewrite <-app_assoc.
Qed.

Ltac pc_step :=
  match goal with
  | |- pc (_ ≫= _) _ _ => apply pc_bind
  | |- pc (mret _) _ _ => apply pc_ret
  | |- pc (gets _) _ _ => apply pc_gets
  | |- pc getS _ _ => apply pc_gets
  | |- pc (modify _) _ _ => apply pc_modify
  | |- pc (panic _) _ _ => apply pc_panic
  | |- pc (assertM _ _) _ _ => apply pc_assertM; intros ?
  | |- pc (expectM _ _) _ _ => apply pc_expectM; intros ? ?
  end.
Ltac pc_steps := repeat pc_step.

(** ** What an operation leaves alone *)

(** A part of the state that an operation keeps whenever it returns. *)
Definition steady {S A X} (f : S → X) (op : M S A) : Prop := ∀ s a s', op s = Done (a, s') → f s' = f s.

Section steady.
Context {S X : Type} (f : S → X).

Lemma steady_ret {A} (a : A) : steady f (mret a : M S A).
Proof. by intros s a' s' [= _ <-]. Qed.
Lemma steady_bind {A B} (op : M S A) (k : A → M S B) : steady f op → (∀ a, steady f (k a)) → steady f (op ≫= k).
Proof.
  intros H Hk s b s' He. unfold mbind, M_bind in He. destruct (op s) as [[a s1]|] eqn:Ho; [|done].
  by rewrite (Hk a s1 b s' He), (H s a s1 Ho).
Qed.
Lemma steady_gets {A} (g : S → A) : steady f (gets g).
Proof. by intros s a s' [= _ <-]. Qed.
Lemma steady_lift {A} (r : res A) : steady f (lift r).
Proof. intros s a s'. unfold lift. destruct r; [by intros [= _ <-]|done]. Qed.
Lemma steady_panic {A} w : steady f (panic w : M S A).
Proof. by intros s a s'. Qed.
Lemma steady_assertM b w : steady f (assertM b w : M S unit).
Proof. unfold assertM. destruct b; [apply steady_ret|apply steady_panic]. Qed.
Lemma steady_expectM {A} (o : option A) w : steady f (expectM o w : M S A).
Proof. unfold expectM. destruct o; [apply steady_ret|apply steady_panic]. Qed.
Lemma steady_modify g : (∀ s, f (g s) = f s) → steady f (modify g).
Proof. intros Hg s a s' [= _ <-]. apply Hg. Qed.

Lemma steady_wp {A} (op : M S A) s Q : steady f op → wp op s Q → wp op s (λ a s', Q a s' ∧ f s' = f s).
Proof.
  intros Hs Hw. apply wp_elim in Hw as (a & s' & He & HQ). unfold wp. rewrite He. split; [done|by eapply Hs].
Qed.
End steady.

Create HintDb steady discriminated.
#[export] Hint Resolve steady_ret steady_gets steady_lift steady_panic steady_assertM steady_expectM : steady.
Lemma steady_pc {S X A} (f : S → X) (op : M S A) s (Q : A → S → Prop) :
  steady f op → (∀ a s', f s' = f s → Q a s') → pc op s Q.
Proof. unfold pc. intros H HQ. destruct (op s) as [[a s']|] eqn:He; [|done]. by apply HQ, (H s a s'). Qed.

(** An operation that only looks. *)
Abbreviation reads := (steady (λ s, s)) (only parsing).

Lemma steady_reads {S X A} (f : S → X) (op : M S A) : reads op → steady f op.
Proof. intros H s a s' He. by rewrite (H s a s' He). Qed.

Lemma pc_reads {S A} (op : M S A) s (Q : A → S → Prop) : reads op → (∀ a, Q a s) → pc op s Q.
Proof. intros H HQ. apply (steady_pc (λ s, s)); [done|]. intros a s' ->. apply HQ. Qed.

(** Facts about memory contents. *)
Create HintDb kmem discriminated.

(** ** Machine integers

    A [u64] (or [usize]) is a [Z] in [0 .. 2^64).  In the development profile,
    which [cargo run] builds, an addition, subtraction or multiplication that
    leaves the range panics; [checked_add] and [saturating_add] are written out
    where the source calls them. *)

Abbreviation u64_max := 0xFFFFFFFFFFFFFFFF (only parsing).
Abbreviation u32_max := 0xFFFFFFFF (only parsing).

Definition is_u64 (x : Z) : Prop := 0 ≤ x ≤ u64_max.
Definition is_u32 (x : Z) : Prop := 0 ≤ x ≤ u32_max.

Definition add64 (a b : Z) : res Z :=
  if a + b <=? u64_max then Done (a + b) else Panic "attempt to add with overflow".
Definition sub64 (a b : Z) : res Z :=
  if b <=? a then Done (a - b) else Panic "attempt to subtract with overflow".
Definition mul64 (a b : Z) : res Z :=
  if a * b <=? u64_max then Done (a * b) else Panic "attempt to multiply with overflow".
Definition add32 (a b : Z) : res Z :=
  if a + b <=? u32_max then Done (a + b) else Panic "attempt to add with overflow".

Definition checked_add64 (a b : Z) : option Z :=
  if a + b <=? u64_max then Some (a + b) else None.
Definition checked_add32 (a b : Z) : option Z :=
  if a + b <=? u32_max then Some (a + b) else None.
Definition saturating_add64 (a b : Z) : Z := Z.min (a + b) u64_max.
Definition saturating_add32 (a b : Z) : Z := Z.min (a + b) u32_max.

Definition div_ceil (a b : Z) : Z := if a mod b =? 0 then a / b else a / b + 1.
Definition is_multiple_of (a b : Z) : bool := a mod b =? 0.
Definition next_multiple_of (a b : Z) : Z :=
  if a mod b =? 0 then a else a + (b - a mod b).

(** [-1i64 as u64] and its relatives. *)
Definition as_u64 (x : Z) : Z := x mod 2 ^ 64.

Lemma add64_ok a b : a + b ≤ u64_max → add64 a b = Done (a + b).
Proof. intros H. unfold add64. by rewrite (proj2 (Z.leb_le _ _) H). Qed.
Lemma sub64_ok a b : b ≤ a → sub64 a b = Done (a - b).
Proof. intros H. unfold sub64. by rewrite (proj2 (Z.leb_le _ _) H). Qed.
Lemma mul64_ok a b : a * b ≤ u64_max → mul64 a b = Done (a * b).
Proof. intros H. unfold mul64. by rewrite (proj2 (Z.leb_le _ _) H). Qed.
Lemma add32_ok a b : a + b ≤ u32_max → add32 a b = Done (a + b).
Proof. intros H. unfold add32. by rewrite (proj2 (Z.leb_le _ _) H). Qed.

Lemma checked_add64_Some a b c : checked_add64 a b = Some c ↔ c = a + b ∧ a + b ≤ u64_max.
Proof. unfold checked_add64. destruct (Z.leb_spec (a + b) u64_max); naive_solver lia. Qed.
Lemma checked_add32_Some a b c : checked_add32 a b = Some c ↔ c = a + b ∧ a + b ≤ u32_max.
Proof. unfold checked_add32. destruct (Z.leb_spec (a + b) u32_max); naive_solver lia. Qed.

(** Expose every quotient and remainder by a literal to [lia]. *)
Ltac zdiv := Z.div_mod_to_equations; lia.

Lemma div_ceil_spec a b : 0 < b → 0 ≤ a → div_ceil a b = (a + b - 1) / b.
Proof.
  intros Hb Ha. unfold div_ceil.
  destruct (Z.eqb_spec (a mod b) 0) as [He|He].
  - apply Z.div_unique with (b - 1); [lia|]. pose proof (Z.div_mod a b). lia.
  - pose proof (Z.mod_pos_bound a b). pose proof (Z.div_mod a b).
    apply Z.div_unique with (a mod b - 1); [lia|]. lia.
Qed.

Lemma next_multiple_of_spec a b :
  0 < b → 0 ≤ a → a ≤ next_multiple_of a b < a + b ∧ (next_multiple_of a b) mod b = 0.
Proof.
  intros Hb Ha. unfold next_multiple_of. pose proof (Z.mod_pos_bound a b Hb).
  destruct (Z.eqb_spec (a mod b) 0) as [He|He]; [lia|]. split; [lia|].
  replace (a + (b - a mod b)) with ((a / b + 1) * b).
  - apply Z.mod_mul. lia.
  - pose proof (Z.div_mod a b). lia.
Qed.

Lemma align_down_le a b : 0 < b → a / b * b ≤ a < a / b * b + b.
Proof. intros Hb. pose proof (Z.mod_pos_bound a b Hb). pose proof (Z.div_mod a b). lia. Qed.

(** ** Bits *)

(** A mask of the low [n] bits is a remainder, and clearing them rounds down. *)
Lemma land_low_ones a n : 0 ≤ n → Z.land a (Z.ones n) = a mod 2 ^ n.
Proof. apply Z.land_ones. Qed.

Lemma testbit_u64_high w i : 0 ≤ w ≤ u64_max → 64 ≤ i → Z.testbit w i = false.
Proof.
  intros Hw Hi. destruct (decide (w = 0)) as [->|]; [apply Z.testbit_0_l|].
  apply Z.bits_above_log2; [lia|].
  assert (Z.log2 w < 64); [|lia]. apply Z.log2_lt_pow2; lia.
Qed.

Lemma testbit_u64_ones i : 0 ≤ i < 64 → Z.testbit u64_max i = true.
Proof. intros Hi. change u64_max with (Z.ones 64). by apply Z.ones_spec_low. Qed.

(** The complement of a [u64]. *)
Definition not64 (x : Z) : Z := Z.lxor x u64_max.
Definition not32 (x : Z) : Z := Z.lxor x u32_max.

Lemma testbit_not64 x i : 0 ≤ i < 64 → Z.testbit (not64 x) i = negb (Z.testbit x i).
Proof.
  intros Hi. unfold not64. rewrite Z.lxor_spec, testbit_u64_ones by done.
  by destruct (Z.testbit x i).
Qed.

Lemma land_range a b n : 0 ≤ a → 0 ≤ n → a < 2 ^ n → 0 ≤ Z.land a b < 2 ^ n.
Proof.
  intros Ha Hn Hlt. split; [apply Z.land_nonneg; auto|].
  destruct (decide (Z.land a b = 0)) as [->|Hne]; [lia|].
  assert (0 ≤ Z.land a b) by (apply Z.land_nonneg; auto).
  apply Z.log2_lt_pow2; [lia|].
  destruct (Z.log2_spec (Z.land a b)); [lia|].
  apply Z.nle_gt. intros Hge.
  assert (Hb : Z.testbit (Z.land a b) (Z.log2 (Z.land a b)) = true)
    by (apply Z.bit_log2; lia).
  rewrite Z.land_spec in Hb. apply andb_true_iff in Hb as [Hb _].
  rewrite Z.bits_above_log2 in Hb; [done|lia|].
  destruct (decide (a = 0)) as [->|]; [by rewrite Z.land_0_l in Hne|].
  assert (Z.log2 a < n); [by apply Z.log2_lt_pow2; lia|lia].
Qed.

Lemma lor_range a b n : 0 ≤ n → 0 ≤ a < 2 ^ n → 0 ≤ b < 2 ^ n → 0 ≤ Z.lor a b < 2 ^ n.
Proof.
  intros Hn Ha Hb. split; [apply Z.lor_nonneg; lia|].
  destruct (decide (Z.lor a b = 0)) as [->|Hne]; [lia|].
  assert (0 ≤ Z.lor a b) by (apply Z.lor_nonneg; lia).
  apply Z.log2_lt_pow2; [lia|]. rewrite Z.log2_lor by lia.
  assert (∀ x, 0 ≤ x < 2 ^ n → Z.log2 x < n ∨ x = 0) as Hl.
  { intros x Hx. destruct (decide (x = 0)); [by right|left]. apply Z.log2_lt_pow2; lia. }
  destruct (Hl a Ha) as [?| ->], (Hl b Hb) as [?| ->]; simpl; rewrite ?Z.lor_0_r in *; simpl in *;
    try lia.
  - assert (0 ≤ Z.log2 a) by apply Z.log2_nonneg. change (Z.log2 0) with 0. lia.
  - change (Z.log2 0) with 0. assert (0 ≤ Z.log2 b) by apply Z.log2_nonneg. lia.
Qed.

(** ** Ranges *)

Lemma range_seqZ lo hi : range lo hi = seqZ lo (hi - lo).
Proof.
  unfold range. remember (Z.to_nat (hi - lo)) as n eqn:Hn.
  revert lo Hn. induction n as [|n IH]; intros lo Hn; simpl.
  - by rewrite seqZ_nil by lia.
  - rewrite seqZ_cons by lia. rewrite (IH (lo + 1)) by lia.
    do 2 f_equal; lia.
Qed.

Lemma elem_of_range lo hi i : i ∈ range lo hi ↔ lo ≤ i < hi.
Proof. rewrite range_seqZ, elem_of_seqZ. lia. Qed.

Lemma length_range lo hi : length (range lo hi) = Z.to_nat (hi - lo).
Proof. by rewrite range_seqZ, length_seqZ. Qed.

Lemma NoDup_range lo hi : NoDup (range lo hi).
Proof. rewrite range_seqZ. apply NoDup_seqZ. Qed.

Lemma range_empty lo hi : hi ≤ lo → range lo hi = [].
Proof. intros H. unfold range. by replace (Z.to_nat (hi - lo)) with 0%nat by lia. Qed.

Lemma range_cons lo hi : lo < hi → range lo hi = lo :: range (lo + 1) hi.
Proof.
  intros H. rewrite !range_seqZ, seqZ_cons by lia.
  f_equal; f_equal; lia.
Qed.

Lemma range_split_done lo hi done a rest :
  range lo hi = done ++ a :: rest →
  a = lo + Z.of_nat (length done) ∧ lo ≤ a < hi ∧ ∀ x, x ∈ done ↔ lo ≤ x < a.
Proof.
  rewrite range_seqZ. intros H.
  assert (Hl : seqZ lo (hi - lo) !! length done = Some a).
  { rewrite H. rewrite lookup_app_r by lia. by rewrite Nat.sub_diag. }
  apply lookup_seqZ in Hl as [-> Hlt]. split; [lia|]. split; [lia|].
  intros x. split.
  - intros [k Hk]%list_elem_of_lookup.
    assert (Hx : seqZ lo (hi - lo) !! k = Some x).
    { rewrite H. apply lookup_app_l_Some; done. }
    apply lookup_seqZ in Hx as [-> _]. apply lookup_lt_Some in Hk. lia.
  - intros Hx. apply list_elem_of_lookup. exists (Z.to_nat (x - lo)).
    assert (Hx' : seqZ lo (hi - lo) !! Z.to_nat (x - lo) = Some x).
    { apply lookup_seqZ. lia. }
    rewrite H in Hx'. rewrite lookup_app_l in Hx' by lia. done.
Qed.

Lemma elem_of_take_while_from p n lo x :
  x ∈ take_while_from p lo n ↔ lo ≤ x < lo + Z.of_nat n ∧ ∀ y, lo ≤ y ≤ x → p y = true.
Proof.
  revert lo. induction n as [|n IH]; intros lo; simpl.
  - rewrite elem_of_nil. lia.
  - destruct (p lo) eqn:Hp.
    + rewrite elem_of_cons, IH. split.
      * intros [->|[Hx Hy]]; [split; [lia|]; intros y ?; by replace y with lo by lia|].
        split; [lia|]. intros y ?. destruct (decide (y = lo)) as [->|]; [done|apply Hy; lia].
      * intros [Hx Hy]. destruct (decide (x = lo)); [by left|right].
        split; [lia|]. intros y ?. apply Hy. lia.
    + rewrite elem_of_nil. split; [done|]. intros [Hx Hy].
      rewrite (Hy lo) in Hp; [done|lia].
Qed.

(** The prefix of [lo..hi] below the first multiple of [k]. *)
Lemma elem_of_unaligned_prefix k lo hi x :
  0 < k → 0 ≤ lo →
  x ∈ range_take_while (λ i, negb (is_multiple_of i k)) lo hi ↔
  lo ≤ x < hi ∧ x < next_multiple_of lo k.
Proof.
  intros Hk Hlo. unfold range_take_while. rewrite elem_of_take_while_from.
  destruct (next_multiple_of_spec lo k Hk Hlo) as [Hb Hm].
  set (nm := next_multiple_of lo k) in *.
  destruct (Z.le_gt_cases lo hi) as [Hle|Hgt]; [|replace (Z.to_nat (hi - lo)) with 0%nat by lia; lia].
  rewrite Z2Nat.id by lia. split.
  - intros [Hx Hy]. split; [lia|]. apply Z.nle_gt. intros Hge.
    specialize (Hy nm). unfold is_multiple_of in Hy. rewrite Hm in Hy. simpl in Hy. naive_solver lia.
  - intros [Hx Hn]. split; [lia|]. intros y Hy. unfold is_multiple_of.
    destruct (Z.eqb_spec (y mod k) 0) as [He|]; [|done]. exfalso.
    pose proof (Z.div_mod y k ltac:(lia)). pose proof (Z.div_mod nm k ltac:(lia)).
    assert (y / k < nm / k) by nia. nia.
Qed.

(** [for index in lo..hi] with an early exit on the first index that [p] holds of. *)
Lemma wp_find_range {S} (test : Z → M S bool) (p : Z → bool) lo hi s (Q : option Z → S → Prop) :
  (∀ i, lo ≤ i < hi → wp (test i) s (λ b s', b = p i ∧ s' = s)) →
  (∀ i, lo ≤ i < hi → p i = true → (∀ j, lo ≤ j < i → p j = false) → Q (Some i) s) →
  ((∀ j, lo ≤ j < hi → p j = false) → Q None s) →
  wp (findM (range lo hi) test) s Q.
Proof.
  unfold range. remember (Z.to_nat (hi - lo)) as n eqn:Hn. revert lo Hn.
  induction n as [|n IH]; intros lo Hn Ht HS HN; simpl.
  - apply HN. intros j Hj. lia.
  - apply wp_bind. eapply wp_mono; [apply Ht; lia|]. intros b s' [-> ->].
    destruct (p lo) eqn:Hp; [apply HS; [lia|done|lia]|].
    assert (Hext : ∀ j k, lo ≤ j < k → (∀ i, lo + 1 ≤ i < k → p i = false) → p j = false).
    { intros j k Hj Hi. destruct (decide (j = lo)) as [->|]; [done|apply Hi; lia]. }
    apply IH; [lia|intros; apply Ht; lia| |].
    + intros i Hi Hpi Hlow. apply HS; [lia|done|]. intros j Hj. by apply (Hext j i).
    + intros Hnone. apply HN. intros j Hj. by apply (Hext j hi).
Qed.
