(* ===== verification/Memory.v ===== *)
(** * Memory: physical memory as bytes

    Physical memory is a total function from physical addresses to bytes.  The
    kernel reaches every byte through [paging::phys_to_virt], a fixed offset
    added to the physical address, so the model indexes memory by the physical
    address itself.  Multi-byte accesses are little endian, as on aarch64. *)

From S2P Require Import Prelude.

Abbreviation mem := (Z → Z) (only parsing).

(** Every cell is a byte. *)
Definition bytes_ok (m : mem) : Prop := ∀ a, 0 ≤ m a < 256.

(** [read_volatile] of an [8 * n] bit integer. *)
Fixpoint read_le (n : nat) (m : mem) (a : Z) : Z :=
  match n with
  | O => 0
  | S n' => m a + 256 * read_le n' m (a + 1)
  end.

(** [write_volatile] of an [8 * n] bit integer. *)
Definition write_le (n : nat) (m : mem) (a v : Z) : mem := λ x,
  if (a <=? x) && (x <? a + Z.of_nat n) then Z.shiftr v (8 * (x - a)) mod 256 else m x.

(** [core::ptr::write_bytes(p, 0, n)]. *)
Definition zero_range (m : mem) (a n : Z) : mem := λ x,
  if (a <=? x) && (x <? a + n) then 0 else m x.

(** [core::ptr::write_bytes(p, v, n)] in general. *)
Definition fill_range (m : mem) (a n v : Z) : mem := λ x,
  if (a <=? x) && (x <? a + n) then v else m x.

(** [core::ptr::copy_nonoverlapping(src, dst, n)]. *)
Definition copy_range (m : mem) (src dst n : Z) : mem := λ x,
  if (dst <=? x) && (x <? dst + n) then m (src + (x - dst)) else m x.

Abbreviation read_u16 := (read_le 2).
Abbreviation read_u32 := (read_le 4).
Abbreviation read_u64 := (read_le 8).
Abbreviation write_u16 := (write_le 2).
Abbreviation write_u32 := (write_le 4).
Abbreviation write_u64 := (write_le 8).

(** Memories are compared byte by byte. *)
Definition mem_eq (m1 m2 : mem) : Prop := ∀ a, m1 a = m2 a.

(** They agree on the [n] bytes from [a]. *)
Definition mem_agree (m1 m2 : mem) (a n : Z) : Prop := ∀ x, a ≤ x < a + n → m1 x = m2 x.

Global Instance mem_eq_equiv : Equivalence mem_eq.
Proof. split; unfold mem_eq; repeat intro; congruence. Qed.

(** ** Reading *)

Lemma read_le_ext n m1 m2 a :
  mem_agree m1 m2 a (Z.of_nat n) → read_le n m1 a = read_le n m2 a.
Proof.
  revert a. induction n as [|n IH]; intros a H; simpl; [done|].
  rewrite (H a) by lia. rewrite (IH (a + 1)); [done|].
  intros x Hx. apply H. lia.
Qed.

Global Instance read_le_proper n : Proper (mem_eq ==> eq ==> eq) (read_le n).
Proof. intros m1 m2 Hm a ? <-. apply read_le_ext. intros x _. apply Hm. Qed.

Lemma read_le_bound n m a : bytes_ok m → 0 ≤ read_le n m a < 256 ^ Z.of_nat n.
Proof.
  intros Hm. revert a. induction n as [|n IH]; intros a.
  - done.
  - rewrite Nat2Z.inj_succ, Z.pow_succ_r by lia. simpl.
    pose proof (Hm a). pose proof (IH (a + 1)). lia.
Qed.

Lemma read_u64_bound m a : bytes_ok m → is_u64 (read_u64 m a).
Proof. intros Hm. pose proof (read_le_bound 8 m a Hm). unfold is_u64. change (256 ^ Z.of_nat 8) with (u64_max + 1) in H. lia. Qed.

(** ** Writing, then reading *)

Lemma write_le_bytes n m a v : bytes_ok m → bytes_ok (write_le n m a v).
Proof.
  intros Hm x. unfold write_le. case_match; [|apply Hm].
  apply Z.mod_pos_bound. lia.
Qed.

Lemma write_le_other n m a v x :
  ¬ (a ≤ x < a + Z.of_nat n) → write_le n m a v x = m x.
Proof.
  intros H. unfold write_le.
  destruct (Z.leb_spec a x), (Z.ltb_spec x (a + Z.of_nat n)); simpl; try done. lia.
Qed.

Lemma read_write_shift n k j m a v :
  (j + k)%nat = n →
  read_le k (write_le n m a v) (a + Z.of_nat j) = (v / 256 ^ Z.of_nat j) mod 256 ^ Z.of_nat k.
Proof.
  revert j. induction k as [|k IH]; intros j Hj.
  - simpl. by rewrite Z.mod_1_r.
  - simpl read_le. replace (a + Z.of_nat j + 1) with (a + Z.of_nat (S j)) by lia.
    rewrite IH by lia. unfold write_le at 1.
    rewrite (proj2 (Z.leb_le _ _)), (proj2 (Z.ltb_lt _ _)) by lia. simpl andb. cbv iota.
    replace (a + Z.of_nat j - a) with (Z.of_nat j) by lia.
    rewrite Z.shiftr_div_pow2, Z.pow_mul_r by lia. change (2 ^ 8) with 256.
    rewrite !Nat2Z.inj_succ, !Z.pow_succ_r by lia.
    assert (0 < 256 ^ Z.of_nat j) by (apply Z.pow_pos_nonneg; lia).
    rewrite (Z.mul_comm 256 (256 ^ Z.of_nat j)), <-Z.div_div by lia.
    rewrite Z.rem_mul_r by lia. done.
Qed.

Lemma read_write_same n m a v :
  0 ≤ v < 256 ^ Z.of_nat n → read_le n (write_le n m a v) a = v.
Proof.
  intros Hv. pose proof (read_write_shift n n 0 m a v eq_refl) as H.
  change (Z.of_nat 0) with 0 in H. rewrite Z.add_0_r, Z.div_1_r in H.
  rewrite H. by apply Z.mod_small.
Qed.

Lemma read_write_u64 m a v : is_u64 v → read_u64 (write_u64 m a v) a = v.
Proof. intros Hv. apply read_write_same. change (256 ^ Z.of_nat 8) with (u64_max + 1). unfold is_u64 in Hv. lia. Qed.

Lemma read_write_disjoint n k m a b v :
  a + Z.of_nat n ≤ b ∨ b + Z.of_nat k ≤ a →
  read_le k (write_le n m a v) b = read_le k m b.
Proof. intros H. apply read_le_ext. intros x Hx. apply write_le_other. lia. Qed.

(** ** Zeroing and copying *)

Lemma zero_range_in m a n x : a ≤ x < a + n → zero_range m a n x = 0.
Proof.
  intros H. unfold zero_range.
  by rewrite (proj2 (Z.leb_le _ _)), (proj2 (Z.ltb_lt _ _)) by lia.
Qed.

Lemma zero_range_out m a n x : ¬ (a ≤ x < a + n) → zero_range m a n x = m x.
Proof.
  intros H. unfold zero_range.
  destruct (Z.leb_spec a x), (Z.ltb_spec x (a + n)); simpl; try done. lia.
Qed.

Lemma zero_range_bytes m a n : bytes_ok m → bytes_ok (zero_range m a n).
Proof. intros Hm x. unfold zero_range. case_match; [lia|apply Hm]. Qed.

Lemma read_zeroed k m a n b :
  a ≤ b → b + Z.of_nat k ≤ a + n → read_le k (zero_range m a n) b = 0.
Proof.
  revert b. induction k as [|k IH]; intros b H1 H2; simpl; [done|].
  rewrite zero_range_in, IH by lia. done.
Qed.

Lemma read_zero_disjoint k m a n b :
  a + n ≤ b ∨ b + Z.of_nat k ≤ a → read_le k (zero_range m a n) b = read_le k m b.
Proof. intros H. apply read_le_ext. intros x Hx. apply zero_range_out. lia. Qed.

Lemma copy_range_in m src dst n x :
  dst ≤ x < dst + n → copy_range m src dst n x = m (src + (x - dst)).
Proof.
  intros H. unfold copy_range.
  by rewrite (proj2 (Z.leb_le _ _)), (proj2 (Z.ltb_lt _ _)) by lia.
Qed.

Lemma copy_range_out m src dst n x :
  ¬ (dst ≤ x < dst + n) → copy_range m src dst n x = m x.
Proof.
  intros H. unfold copy_range.
  destruct (Z.leb_spec dst x), (Z.ltb_spec x (dst + n)); simpl; try done. lia.
Qed.

Lemma copy_range_bytes m src dst n : bytes_ok m → bytes_ok (copy_range m src dst n).
Proof. intros Hm x. unfold copy_range. case_match; apply Hm. Qed.

#[export] Hint Resolve write_le_bytes zero_range_bytes copy_range_bytes : kmem.
