(* ===== verification/Fmt.v ===== *)
(** * Fmt: what [print!] makes of numbers

    The parts of [core::fmt] the kernel's messages use, as bytes: decimal and
    hexadecimal numbers, with a prefix, a width, and padding on either side. *)

From S2P Require Import Prelude.

(** The digit [d], in lower case. *)
Definition digit (d : Z) : Z := if d <? 10 then 48 + d else 87 + d.

(** A [u64] has at most 64 digits in any base. *)
Fixpoint digits_loop (fuel : nat) (base n : Z) (acc : list Z) : list Z :=
  match fuel with
  | O => acc
  | S fuel' =>
    let acc := digit (n mod base) :: acc in
    if n / base =? 0 then acc else digits_loop fuel' base (n / base) acc
  end.
Definition digits (base n : Z) : list Z := digits_loop 64 base n [].

Definition pad (c : Z) (width : nat) (s : list Z) : list Z := replicate (width - length s) c.

(** [{}], [{:#x}], [{:#0w$x}], [{:>w$}], [{:<w$}]. *)
Definition dec (n : Z) : list Z := digits 10 n.
Definition hex (n : Z) : list Z := [48; 120] ++ digits 16 n.
Definition hex0 (width : nat) (n : Z) : list Z := [48; 120] ++ pad 48 (width - 2) (digits 16 n) ++ digits 16 n.
Definition right (width : nat) (s : list Z) : list Z := pad 32 width s ++ s.
Definition left (width : nat) (s : list Z) : list Z := s ++ pad 32 width s.

(** [println!] of a text. *)
Definition ln (text : list Z) : list Z := text ++ [10].
Definition line (s : string) : list Z := ln (bytes_of s).

(** ** Reading numbers back *)

Definition value_of (c : Z) : Z := if c <? 58 then c - 48 else c - 87.
Definition number (base : Z) (s : list Z) : Z := foldl (λ n c, n * base + value_of c) 0 s.

Lemma value_digit d : 0 ≤ d < 16 → value_of (digit d) = d.
Proof. intros Hd. unfold value_of, digit. destruct (Z.ltb_spec d 10).
  - destruct (Z.ltb_spec (48 + d) 58); lia.
  - destruct (Z.ltb_spec (87 + d) 58); lia. Qed.

Lemma number_app base s t : number base (s ++ t) = foldl (λ n c, n * base + value_of c) (number base s) t.
Proof. apply foldl_app. Qed.

Lemma digits_loop_app fuel base n acc : digits_loop fuel base n acc = digits_loop fuel base n [] ++ acc.
Proof.
  revert n acc. induction fuel as [|fuel IH]; intros n acc; cbn [digits_loop]; [done|].
  destruct (_ =? 0); [done|]. rewrite (IH _ (_ :: acc)), (IH _ [_]), <-app_assoc. done.
Qed.

Lemma number_digits fuel base n : 2 ≤ base ≤ 16 → 0 ≤ n < base ^ Z.of_nat fuel →
  number base (digits_loop fuel base n []) = n.
Proof.
  intros Hb. revert n. induction fuel as [|fuel IH]; intros n Hn; [change (Z.of_nat 0) with 0 in Hn; rewrite Z.pow_0_r in Hn; unfold number; simpl; lia|].
  cbn [digits_loop]. pose proof (Z.mod_pos_bound n base ltac:(lia)) as Hm. pose proof (Z.div_mod n base ltac:(lia)) as Hdm.
  destruct (Z.eqb_spec (n / base) 0) as [Hz|Hnz].
  - unfold number. simpl. rewrite value_digit by lia. lia.
  - rewrite digits_loop_app, number_app. cbn [foldl]. rewrite value_digit by lia. rewrite IH; [lia|].
    rewrite Nat2Z.inj_succ, Z.pow_succ_r in Hn by lia. split; [apply Z.div_pos; lia|].
    apply Z.div_lt_upper_bound; lia.
Qed.

Lemma digits_length fuel base n k : 2 ≤ base → 0 ≤ n < base ^ Z.of_nat k → (1 ≤ k)%nat →
  (length (digits_loop fuel base n []) ≤ k)%nat.
Proof.
  intros Hb. revert n k. induction fuel as [|fuel IH]; intros n k Hn Hk; cbn [digits_loop]; [simpl; lia|].
  destruct (Z.eqb_spec (n / base) 0) as [Hz|Hnz]; [simpl; lia|].
  rewrite digits_loop_app, length_app. simpl. destruct k as [|k]; [lia|].
  rewrite Nat2Z.inj_succ, Z.pow_succ_r in Hn by lia.
  assert (Hd : 0 ≤ n / base < base ^ Z.of_nat k) by (split; [apply Z.div_pos; lia|apply Z.div_lt_upper_bound; lia]).
  assert (1 ≤ k)%nat by (destruct k; [simpl in Hd; lia|lia]). specialize (IH (n / base) k Hd ltac:(lia)). lia.
Qed.

Lemma u64_pow n : is_u64 n → 0 ≤ n < 2 ^ 64.
Proof. unfold is_u64. change (2 ^ 64) with (u64_max + 1). lia. Qed.

Lemma digits_u64 base n : 2 ≤ base ≤ 16 → is_u64 n → number base (digits base n) = n.
Proof.
  intros Hb Hn%u64_pow. apply number_digits; [done|]. split; [lia|]. eapply Z.lt_le_trans; [apply Hn|].
  change (Z.of_nat 64) with 64. apply Z.pow_le_mono_l. lia.
Qed.

(** Leading zeros do not count. *)
Lemma number_zeros base k s : number base (replicate k 48 ++ s) = number base s.
Proof. unfold number. rewrite foldl_app. f_equal. induction k as [|k IH]; [done|exact IH]. Qed.

(** Numbers in the kernel's messages read back: the decimal form of a [u64]
    and its hexadecimal form, padded with zeros or not, are the number again,
    and a padded one fills exactly the column it was given if it fits, as every
    [u64] does in the eighteen columns the kernel prints addresses in. *)
Theorem printed_numbers_read_back n : is_u64 n →
  number 10 (dec n) = n ∧ number 16 (drop 2 (hex n)) = n ∧ (∀ w, number 16 (drop 2 (hex0 w n)) = n) ∧
  length (hex0 18 n) = 18%nat ∧
  ∀ w, (length (dec n) ≤ w)%nat → length (right w (dec n)) = w ∧ length (left w (dec n)) = w.
Proof.
  intros Hn. unfold dec, hex, hex0, right, left, pad. cbn [skipn app].
  split; [by apply digits_u64|]. split; [by apply digits_u64|]. split; [|split].
  - intros w. rewrite drop_0, number_zeros. by apply digits_u64.
  - assert (H : (length (digits 16 n) ≤ 16)%nat).
    { apply digits_length; [lia| |lia]. apply u64_pow in Hn. change (16 ^ Z.of_nat 16) with (2 ^ 64). done. }
    simpl. rewrite length_app, length_replicate. lia.
  - intros w Hw. rewrite !length_app, !length_replicate. lia.
Qed.

Lemma printed_numbers_read_back_witness :
  is_u64 0x40080000 ∧ number 16 (drop 2 (hex0 18 0x40080000)) = 0x40080000 ∧ length (hex0 18 0x40080000) = 18%nat.
Proof.
  assert (Hn : is_u64 0x40080000) by (unfold is_u64; lia). split; [exact Hn|].
  destruct (printed_numbers_read_back 0x40080000 Hn) as (_ & _ & H & Hl & _). split; [exact (H 18%nat)|exact Hl].
Defined.
