(* ===== verification/FrameAlloc.v ===== *)
(** * FrameAlloc: what a frame allocator promises its clients

    Page tables, task stacks and virtqueues ask for frames through
    [frames::alloc] and [frames::free].  [FrameAlloc] is the interface those
    clients are written against and [FrameAllocLaws] the contract they rely on;
    [Frames.v] discharges it for the bitmap allocator. *)

From S2P Require Import Prelude Memory.

Class FrameAlloc (S : Type) : Type := {
  (** Physical memory, as the kernel sees it through the physical map. *)
  fa_mem : S → mem;
  fa_set_mem : mem → S → S;
  (** [frames::alloc] and [frames::free]. *)
  fa_alloc : M S (option Z);
  fa_free : Z → M S unit;
  (** Base addresses of the frames of RAM, and of those not handed out. *)
  fa_frame : S → Z → Prop;
  fa_avail : S → Z → Prop;
  (** The allocator's own invariant. *)
  fa_ok : S → Prop
}.

(** Frames [f] and [g] share no byte. *)
Definition frame_apart (f g : Z) : Prop := f + 4096 ≤ g ∨ g + 4096 ≤ f.

Class FrameAllocLaws (S : Type) `{FrameAlloc S} : Prop := {
  fa_get_set : ∀ m s, fa_mem (fa_set_mem m s) = m;
  fa_set_ok : ∀ m s, fa_ok s → bytes_ok m → fa_ok (fa_set_mem m s);
  fa_set_frame : ∀ m s f, fa_frame (fa_set_mem m s) f ↔ fa_frame s f;
  fa_set_avail : ∀ m s f, fa_avail (fa_set_mem m s) f ↔ fa_avail s f;
  fa_bytes : ∀ s, fa_ok s → bytes_ok (fa_mem s);
  fa_avail_frame : ∀ s f, fa_ok s → fa_avail s f → fa_frame s f;
  fa_frame_aligned : ∀ s f, fa_ok s → fa_frame s f →
    f mod 4096 = 0 ∧ 0 ≤ f ∧ f + 4096 ≤ 2 ^ 48;
  (** A fresh frame: the lowest one free before, taken after, zeroed, nothing
      else touched. *)
  fa_alloc_spec : ∀ s, fa_ok s →
    wp fa_alloc s (λ r s', fa_ok s' ∧ (∀ g, fa_frame s' g ↔ fa_frame s g) ∧
      match r with
      | Some f => fa_avail s f ∧ (∀ g, fa_avail s' g ↔ fa_avail s g ∧ g ≠ f) ∧
                  fa_mem s' = zero_range (fa_mem s) f 4096 ∧ (∀ g, fa_avail s g → f ≤ g)
      | None => s' = s ∧ ∀ g, ¬ fa_avail s g
      end);
  (** Freeing a taken frame makes it, and only it, available again. *)
  fa_free_spec : ∀ s f, fa_ok s → fa_frame s f → ¬ fa_avail s f →
    wp (fa_free f) s (λ _ s', fa_ok s' ∧ (∀ g, fa_frame s' g ↔ fa_frame s g) ∧
      (∀ g, fa_avail s' g ↔ fa_avail s g ∨ g = f) ∧ fa_mem s' = fa_mem s)
}.

Section frame_alloc_facts.
  Context {S : Type} `{FA : FrameAlloc S, !FrameAllocLaws S}.

(** Distinct frames are disjoint. *)
Lemma frames_apart s f g :
  fa_ok s → fa_frame s f → fa_frame s g → f ≠ g → frame_apart f g.
Proof.
  intros Hs Hf Hg Hne. pose proof (fa_frame_aligned _ _ Hs Hf).
  pose proof (fa_frame_aligned _ _ Hs Hg). unfold frame_apart. zdiv.
Qed.

Lemma fa_avail_aligned s f :
  fa_ok s → fa_avail s f → f mod 4096 = 0 ∧ 0 ≤ f ∧ f + 4096 ≤ 2 ^ 48.
Proof. intros Hs Hf. eapply fa_frame_aligned; [done|by apply fa_avail_frame]. Qed.

End frame_alloc_facts.
