(* ===== verification/Frames.v ===== *)
(** * Frames: the physical frame allocator ([src/kernel/src/frames.rs])

    [Module Bitmap] is the bitmap and its word-wise loops; the rest of the file
    is the allocator around it, over a machine made of the allocator's statics
    and physical memory.  [free_set] is the abstract view of a bitmap as the
    set of free frame indices, and [alloc_inv] the invariant every operation
    keeps. *)

From S2P Require Import Prelude Memory.

Definition DEFAULT_RAM_BASE : Z := 0x40000000.
Definition DEFAULT_RAM_SIZE : Z := 256 * 1024 * 1024.
Definition FRAME_SIZE : Z := 4096.
Definition MAX_RAM : Z := 4 * 1024 * 1024 * 1024.
Definition MAX_FRAMES : Z := MAX_RAM / FRAME_SIZE.
Definition BITMAP_WORDS : Z := MAX_FRAMES / 64.

Lemma MAX_FRAMES_val : MAX_FRAMES = 1048576.
Proof. reflexivity. Qed.
Lemma BITMAP_WORDS_val : BITMAP_WORDS = 16384.
Proof. reflexivity. Qed.
Lemma MAX_RAM_val : MAX_RAM = 4294967296.
Proof. reflexivity. Qed.

(** ** The bitmap *)

Module Bitmap.

Record t : Type := mk {
  bits : list Z;   (** [[u64; BITMAP_WORDS]], one bit per frame, set = taken *)
  free : Z;
  reserved : Z
}.

Definition new : t := mk (replicate (Z.to_nat BITMAP_WORDS) 0) 0 0.

Definition with_bits (b : t) (l : list Z) : t := mk l (free b) (reserved b).
Definition with_free (b : t) (n : Z) : t := mk (bits b) n (reserved b).
Definition with_reserved (b : t) (n : Z) : t := mk (bits b) (free b) n.

(** [self.bits[w]], which panics out of bounds. *)
Definition load (w : Z) : M t Z := λ b,
  match bits b !! Z.to_nat w with
  | Some x => Done (x, b)
  | None => Panic "index out of bounds"
  end.
Definition store (w x : Z) : M t unit := λ b,
  match bits b !! Z.to_nat w with
  | Some _ => Done (tt, with_bits b (<[Z.to_nat w := x]> (bits b)))
  | None => Panic "index out of bounds"
  end.

Definition mask (i : Z) : Z := Z.shiftl 1 (i mod 64).

Definition is_set (i : Z) : M t bool :=
  w ← load (i / 64); mret (negb (Z.land w (mask i) =? 0)).

Definition set (i : Z) : M t unit :=
  w ← load (i / 64); store (i / 64) (Z.lor w (mask i)).

Definition clear (i : Z) : M t unit :=
  w ← load (i / 64); store (i / 64) (Z.land w (not64 (mask i))).

(** [self.bits[lo..hi].fill(v)]. *)
Definition fill (lo hi v : Z) : M t unit := λ b,
  if (lo <=? hi) && (hi <=? Z.of_nat (length (bits b))) then
    Done (tt, with_bits b (take (Z.to_nat lo) (bits b)
                           ++ replicate (Z.to_nat (hi - lo)) v
                           ++ drop (Z.to_nat hi) (bits b)))
  else Panic "range end index out of range".

Definition set_range (lo hi : Z) : M t unit :=
  _ ← forM (range_take_while (λ i, negb (is_multiple_of i 64)) lo hi) set;
  let first_whole_word := next_multiple_of lo 64 in
  if first_whole_word >=? hi then mret tt else
  _ ← fill (first_whole_word / 64) (hi / 64) u64_max;
  forM (range (hi / 64 * 64) hi) set.

Definition clear_range (lo hi : Z) : M t unit :=
  _ ← forM (range_take_while (λ i, negb (is_multiple_of i 64)) lo hi) clear;
  let first_whole_word := next_multiple_of lo 64 in
  if first_whole_word >=? hi then mret tt else
  _ ← fill (first_whole_word / 64) (hi / 64) 0;
  forM (range (hi / 64 * 64) hi) clear.

(** [u64::trailing_ones]. *)
Fixpoint trailing_ones_from (n : nat) (w : Z) : Z :=
  match n with
  | O => 0
  | S n' => if Z.odd w then 1 + trailing_ones_from n' (Z.div2 w) else 0
  end.
Definition trailing_ones (w : Z) : Z := trailing_ones_from 64 w.

Fixpoint first_clear_from (word_index : Z) (l : list Z) : option Z :=
  match l with
  | [] => None
  | word :: l' =>
      if word =? u64_max then first_clear_from (word_index + 1) l'
      else Some (word_index * 64 + trailing_ones word)
  end.
Definition first_clear : M t (option Z) := gets (λ b, first_clear_from 0 (bits b)).

Global Instance eta_dec : EqDecision t.
Proof. solve_decision. Defined.

(** *** Bits as booleans *)

Definition bit (b : t) (i : Z) : bool :=
  Z.testbit (default 0 (bits b !! Z.to_nat (i / 64))) (i mod 64).

Definition shape (b : t) : Prop :=
  length (bits b) = Z.to_nat BITMAP_WORDS ∧ Forall is_u64 (bits b).

(** [b'] is [b] with the bits selected by [f], and the counters untouched. *)
Definition rebit (b b' : t) (f : Z → bool) : Prop :=
  shape b' ∧ free b' = free b ∧ reserved b' = reserved b ∧
  ∀ j, 0 ≤ j → bit b' j = f j.

Definition in_map (i : Z) : Prop := 0 ≤ i < MAX_FRAMES.

Lemma shape_word b w : shape b → 0 ≤ w < BITMAP_WORDS →
  ∃ x, bits b !! Z.to_nat w = Some x ∧ is_u64 x.
Proof.
  intros [Hl Hf] Hw. destruct (lookup_lt_is_Some_2 (bits b) (Z.to_nat w)) as [x Hx]; [lia|].
  exists x. split; [done|]. rewrite Forall_lookup in Hf. eauto.
Qed.

Lemma in_map_word i : in_map i → 0 ≤ i / 64 < BITMAP_WORDS ∧ 0 ≤ i mod 64 < 64.
Proof. unfold in_map. change MAX_FRAMES with 1048576. change BITMAP_WORDS with 16384. zdiv. Qed.

Lemma mask_bits i k : 0 ≤ k → Z.testbit (mask i) k = bool_decide (k = i mod 64).
Proof.
  intros Hk. unfold mask. rewrite Z.shiftl_1_l. assert (0 ≤ i mod 64 < 64) by zdiv.
  case_bool_decide as Hd; [subst; apply Z.pow2_bits_true; lia|].
  apply Z.pow2_bits_false. lia.
Qed.

Lemma mask_u64 i : is_u64 (mask i).
Proof.
  unfold mask, is_u64. rewrite Z.shiftl_1_l. assert (0 ≤ i mod 64 < 64) by zdiv.
  assert (2 ^ (i mod 64) ≤ 2 ^ 63) by (apply Z.pow_le_mono_r; lia).
  assert (0 < 2 ^ (i mod 64)) by (apply Z.pow_pos_nonneg; lia).
  change (2 ^ 63) with 9223372036854775808 in *. lia.
Qed.

Lemma land_mask_bit w i :
  0 ≤ w → negb (Z.land w (mask i) =? 0) = Z.testbit w (i mod 64).
Proof.
  intros Hw. assert (0 ≤ i mod 64 < 64) by zdiv.
  destruct (Z.testbit w (i mod 64)) eqn:Hb.
  - destruct (Z.eqb_spec (Z.land w (mask i)) 0) as [He|]; [|done].
    assert (Hc : Z.testbit (Z.land w (mask i)) (i mod 64) = true).
    { rewrite Z.land_spec, Hb, mask_bits, bool_decide_true by (done || lia). done. }
    rewrite He, Z.testbit_0_l in Hc. done.
  - destruct (Z.eqb_spec (Z.land w (mask i)) 0) as [|Hne]; [done|]. exfalso. apply Hne.
    apply Z.bits_inj_iff'. intros k Hk. rewrite Z.land_spec, Z.testbit_0_l, mask_bits by done.
    case_bool_decide; subst; rewrite ?Hb, ?andb_false_r; done.
Qed.

Lemma wp_load w b Q :
  shape b → 0 ≤ w < BITMAP_WORDS →
  (∀ x, bits b !! Z.to_nat w = Some x → is_u64 x → Q x b) → wp (load w) b Q.
Proof.
  intros Hs Hw HQ. destruct (shape_word b w Hs Hw) as (x & Hx & Hu).
  unfold wp, load. rewrite Hx. auto.
Qed.

Lemma wp_is_set i b Q : shape b → in_map i → Q (bit b i) b → wp (is_set i) b Q.
Proof.
  intros Hs Hi HQ. apply in_map_word in Hi as [Hw Hm]. unfold is_set.
  wp_step. apply wp_load; [done..|]. intros x Hx Hu. wp_step.
  rewrite land_mask_bit by (unfold is_u64 in Hu; lia).
  unfold bit in HQ. by rewrite Hx in HQ.
Qed.

(** Replacing one word changes exactly the bits of that word. *)
Lemma bit_store b w x i :
  shape b → 0 ≤ w < BITMAP_WORDS → 0 ≤ i →
  bit (with_bits b (<[Z.to_nat w := x]> (bits b))) i =
  if bool_decide (i / 64 = w) then Z.testbit x (i mod 64) else bit b i.
Proof.
  intros [Hl _] Hw Hi. unfold bit; simpl. assert (0 ≤ i / 64) by zdiv.
  case_bool_decide as Hd.
  - subst w. rewrite list_lookup_insert_eq by lia. done.
  - rewrite list_lookup_insert_ne by lia. done.
Qed.

Lemma shape_store b w x :
  shape b → is_u64 x → shape (with_bits b (<[Z.to_nat w := x]> (bits b))).
Proof.
  intros [Hl Hf] Hx. split; simpl; [by rewrite length_insert|].
  by apply Forall_insert.
Qed.

Lemma wp_update i b g Q :
  shape b → in_map i →
  (∀ x, is_u64 x → is_u64 (g x)) →
  (∀ x, is_u64 x → ∀ k, 0 ≤ k < 64 →
     Z.testbit (g x) k = if bool_decide (k = i mod 64) then Z.testbit (g 0) (i mod 64)
                         else Z.testbit x k) →
  (∀ b', rebit b b' (λ j, if bool_decide (j = i) then Z.testbit (g 0) (i mod 64) else bit b j) →
     Q tt b') →
  wp (w ← load (i / 64); store (i / 64) (g w)) b Q.
Proof.
  intros Hs Hi Hg Hb HQ. apply in_map_word in Hi as [Hw Hm].
  wp_step. apply wp_load; [done..|]. intros x Hx Hu.
  unfold wp, store. rewrite Hx. apply HQ.
  split_and!; [by apply shape_store; auto|done..|].
  intros j Hj. rewrite bit_store by done. assert (0 ≤ j mod 64 < 64) by zdiv.
  case_bool_decide as Hd.
  - rewrite Hb by (done || lia). case_bool_decide as Hd2.
    + rewrite bool_decide_true by zdiv. done.
    + rewrite bool_decide_false by zdiv. unfold bit. by rewrite Hd, Hx.
  - rewrite bool_decide_false by (intros ->; done). done.
Qed.

Lemma wp_set i b Q :
  shape b → in_map i →
  (∀ b', rebit b b' (λ j, bool_decide (j = i) || bit b j) → Q tt b') →
  wp (set i) b Q.
Proof.
  intros Hs Hi HQ. apply (wp_update i b (λ w, Z.lor w (mask i))); [done..| | |].
  - intros x Hx. pose proof (mask_u64 i). unfold is_u64 in *.
    pose proof (lor_range x (mask i) 64). change (2 ^ 64) with (u64_max + 1) in *. lia.
  - intros x Hx k Hk. rewrite !Z.lor_spec, !mask_bits, Z.testbit_0_l by zdiv.
    repeat case_bool_decide; subst; rewrite ?orb_true_r, ?orb_false_r; done.
  - intros b' (? & ? & ? & Hb). apply HQ. split_and!; [done..|].
    intros j Hj. rewrite Hb by done. rewrite Z.lor_spec, mask_bits, Z.testbit_0_l by zdiv.
    repeat case_bool_decide; done.
Qed.

Lemma wp_clear i b Q :
  shape b → in_map i →
  (∀ b', rebit b b' (λ j, negb (bool_decide (j = i)) && bit b j) → Q tt b') →
  wp (clear i) b Q.
Proof.
  intros Hs Hi HQ. apply (wp_update i b (λ w, Z.land w (not64 (mask i)))); [done..| | |].
  - intros x Hx. pose proof (land_range x (not64 (mask i)) 64). unfold is_u64 in *.
    change (2 ^ 64) with (u64_max + 1) in *. lia.
  - intros x Hx k Hk. rewrite !Z.land_spec, !testbit_not64, !mask_bits, Z.testbit_0_l by zdiv.
    repeat case_bool_decide; subst; simpl; rewrite ?andb_false_r, ?andb_true_r; done.
  - intros b' (? & ? & ? & Hb). apply HQ. split_and!; [done..|].
    intros j Hj. rewrite Hb by done. rewrite Z.land_spec, Z.testbit_0_l by zdiv.
    repeat case_bool_decide; done.
Qed.

(** A loop of [set] (or [clear]) paints the indices it visits. *)
Definition paints (op : Z → M t unit) (v : bool) : Prop :=
  ∀ i b Q, shape b → in_map i →
    (∀ b', rebit b b' (λ j, if bool_decide (j = i) then v else bit b j) → Q tt b') →
    wp (op i) b Q.

Lemma set_paints : paints set true.
Proof.
  intros i b Q Hs Hi HQ. apply wp_set; [done..|]. intros b' (? & ? & ? & Hb). apply HQ.
  split_and!; [done..|]. intros j Hj. rewrite Hb by done. by case_bool_decide.
Qed.
Lemma clear_paints : paints clear false.
Proof.
  intros i b Q Hs Hi HQ. apply wp_clear; [done..|]. intros b' (? & ? & ? & Hb). apply HQ.
  split_and!; [done..|]. intros j Hj. rewrite Hb by done. by case_bool_decide.
Qed.

Lemma wp_paint_loop op v l b Q :
  paints op v → shape b → (∀ i, i ∈ l → in_map i) →
  (∀ b', rebit b b' (λ j, if bool_decide (j ∈ l) then v else bit b j) → Q tt b') →
  wp (forM l op) b Q.
Proof.
  intros Hop. revert b Q. induction l as [|i l IH]; intros b Q Hs Hl HQ; simpl.
  - wp_step. apply HQ. split_and!; [done..|]. intros j _. by rewrite bool_decide_false by set_solver.
  - wp_step. apply Hop; [done|set_solver|]. intros b1 (Hs1 & Hf1 & Hr1 & Hb1).
    apply IH; [done|set_solver|]. intros b2 (Hs2 & Hf2 & Hr2 & Hb2). apply HQ.
    split_and!; [done|congruence..|]. intros j Hj. rewrite Hb2, Hb1 by done.
    repeat case_bool_decide; set_solver.
Qed.

Lemma wp_fill lo hi v b Q :
  shape b → 0 ≤ lo ≤ hi → hi ≤ BITMAP_WORDS → is_u64 v →
  (∀ b', rebit b b' (λ j, if bool_decide (lo ≤ j / 64 < hi) then Z.testbit v (j mod 64)
                          else bit b j) → Q tt b') →
  wp (fill lo hi v) b Q.
Proof.
  intros [Hl Hf] Hlo Hhi Hv HQ. unfold wp, fill.
  rewrite (proj2 (Z.leb_le lo hi)), (proj2 (Z.leb_le _ _)) by lia. simpl. apply HQ.
  assert (Hb : (Z.to_nat lo + (Z.to_nat (hi - lo) + (Z.to_nat BITMAP_WORDS - Z.to_nat hi)) =
            Z.to_nat BITMAP_WORDS)%nat) by lia.
  split_and!; [split; simpl|done..|].
  - rewrite !length_app, length_take, length_replicate, length_drop, Hl. lia.
  - apply Forall_app; split; [by apply Forall_take|].
    apply Forall_app; split; [by apply Forall_replicate|by apply Forall_drop].
  - intros j Hj. assert (0 ≤ j / 64) by zdiv. unfold bit at 1; simpl.
    case_bool_decide as Hd.
    + rewrite lookup_app_r by (rewrite length_take; lia).
      rewrite length_take, Hl, Nat.min_l by lia.
      rewrite lookup_app_l by (rewrite length_replicate; lia).
      rewrite lookup_replicate_2 by lia. done.
    + destruct (Z.lt_ge_cases (j / 64) lo) as [Hlt|Hge].
      * rewrite lookup_app_l by (rewrite length_take; lia).
        rewrite lookup_take_lt by lia. done.
      * rewrite lookup_app_r by (rewrite length_take; lia).
        rewrite length_take, Hl, Nat.min_l by lia.
        rewrite lookup_app_r by (rewrite length_replicate; lia).
        rewrite length_replicate, lookup_drop. unfold bit.
        do 3 f_equal. lia.
Qed.

(** The shape [set_range] and [clear_range] share: an unaligned head, whole
    words, and an unaligned tail. *)
Definition range_body (op : Z → M t unit) (v lo hi : Z) : M t unit :=
  _ ← forM (range_take_while (λ i, negb (is_multiple_of i 64)) lo hi) op;
  let first_whole_word := next_multiple_of lo 64 in
  if first_whole_word >=? hi then mret tt else
  _ ← fill (first_whole_word / 64) (hi / 64) v;
  forM (range (hi / 64 * 64) hi) op.

Lemma wp_range_body op (v : bool) w lo hi b Q :
  paints op v → shape b → 0 ≤ lo ≤ hi → hi ≤ MAX_FRAMES → is_u64 w →
  (∀ k, 0 ≤ k < 64 → Z.testbit w k = v) →
  (∀ b', rebit b b' (λ j, if bool_decide (lo ≤ j < hi) then v else bit b j) → Q tt b') →
  wp (range_body op w lo hi) b Q.
Proof.
  intros Hop Hs Hlo Hhi Hw Hwv HQ. change MAX_FRAMES with 1048576 in Hhi.
  destruct (next_multiple_of_spec lo 64) as [Hn Hm]; [lia..|].
  pose proof (λ x, elem_of_unaligned_prefix 64 lo hi x ltac:(lia) ltac:(lia)) as Hpre.
  unfold range_body. generalize dependent (next_multiple_of lo 64). intros nm Hn Hm Hpre.
  wp_step. apply (wp_paint_loop op v); [done..| |].
  { intros i Hi%Hpre. unfold in_map. change MAX_FRAMES with 1048576. lia. }
  intros b1 (Hs1 & Hf1 & Hr1 & Hb1). destruct (Z.geb_spec nm hi) as [Hge|Hlt].
  - wp_step. apply HQ. split_and!; [done..|]. intros j Hj. rewrite Hb1 by done.
    apply if_bool_decide_ext. rewrite Hpre. lia.
  - wp_step. apply wp_fill; [done|zdiv|change BITMAP_WORDS with 16384; zdiv|done|].
    intros b2 (Hs2 & Hf2 & Hr2 & Hb2). apply (wp_paint_loop op v); [done..| |].
    { intros i Hi%elem_of_range. unfold in_map. change MAX_FRAMES with 1048576. zdiv. }
    intros b3 (Hs3 & Hf3 & Hr3 & Hb3). apply HQ. split_and!; [done|congruence..|].
    intros j Hj. rewrite Hb3, Hb2, Hb1 by done. rewrite (Hwv (j mod 64)) by zdiv.
    repeat case_bool_decide; try done; exfalso;
      repeat match goal with
      | H : context [_ ∈ range _ _] |- _ => rewrite elem_of_range in H
      | H : context [_ ∈ range_take_while _ _ _] |- _ => rewrite Hpre in H
      end; zdiv.
Qed.

Lemma wp_set_range lo hi b Q :
  shape b → 0 ≤ lo ≤ hi → hi ≤ MAX_FRAMES →
  (∀ b', rebit b b' (λ j, if bool_decide (lo ≤ j < hi) then true else bit b j) → Q tt b') →
  wp (set_range lo hi) b Q.
Proof.
  intros Hs Hlo Hhi HQ. apply (wp_range_body set true u64_max); [apply set_paints|done..| | |done].
  - unfold is_u64. lia.
  - apply testbit_u64_ones.
Qed.

Lemma wp_clear_range lo hi b Q :
  shape b → 0 ≤ lo ≤ hi → hi ≤ MAX_FRAMES →
  (∀ b', rebit b b' (λ j, if bool_decide (lo ≤ j < hi) then false else bit b j) → Q tt b') →
  wp (clear_range lo hi) b Q.
Proof.
  intros Hs Hlo Hhi HQ. apply (wp_range_body clear false 0); [apply clear_paints|done..| | |done].
  - unfold is_u64. lia.
  - intros k _. apply Z.testbit_0_l.
Qed.

(** *** The lowest clear bit *)

Lemma trailing_ones_from_spec n w :
  0 ≤ trailing_ones_from n w ≤ Z.of_nat n ∧
  (∀ k, 0 ≤ k < trailing_ones_from n w → Z.testbit w k = true) ∧
  (trailing_ones_from n w < Z.of_nat n → Z.testbit w (trailing_ones_from n w) = false).
Proof.
  revert w. induction n as [|n IH]; intros w; simpl trailing_ones_from.
  - split_and!; lia.
  - destruct (Z.odd w) eqn:Ho; rewrite <-Z.bit0_odd in Ho.
    + destruct (IH (Z.div2 w)) as (Hb & Ht & Hf).
      assert (Hshift : ∀ k, 0 ≤ k → Z.testbit (Z.div2 w) k = Z.testbit w (k + 1)).
      { intros k Hk. by rewrite Z.div2_spec, Z.shiftr_spec. }
      split_and!; [lia|lia|..].
      * intros k Hk. destruct (decide (k = 0)) as [->|]; [done|].
        specialize (Ht (k - 1)). rewrite Hshift in Ht by lia.
        replace (k - 1 + 1) with k in Ht by lia. apply Ht. lia.
      * intros Hlt. rewrite Z.add_comm, <-Hshift by lia. apply Hf. lia.
    + split_and!; [lia|lia| |done]. intros k Hk. lia.
Qed.

Lemma trailing_ones_spec w :
  is_u64 w → w ≠ u64_max →
  0 ≤ trailing_ones w < 64 ∧ Z.testbit w (trailing_ones w) = false ∧
  ∀ k, 0 ≤ k < trailing_ones w → Z.testbit w k = true.
Proof.
  intros Hw Hne. destruct (trailing_ones_from_spec 64 w) as (Hb & Ht & Hf).
  unfold trailing_ones. destruct (decide (trailing_ones_from 64 w < 64)) as [Hlt|Hge].
  - split_and!; [lia|lia|by apply Hf|done].
  - exfalso. apply Hne. apply Z.bits_inj_iff'. intros k Hk.
    destruct (Z.lt_ge_cases k 64) as [Hlt|Hge'].
    + rewrite Ht by lia. by rewrite testbit_u64_ones by lia.
    + unfold is_u64 in Hw. rewrite !testbit_u64_high by lia. done.
Qed.

(** Every index below [i] is taken. *)
Definition taken_below (b : t) (i : Z) : Prop := ∀ j, 0 ≤ j < i → bit b j = true.

Lemma first_clear_from_spec l wi :
  match first_clear_from wi l with
  | Some i => ∃ k w, l !! k = Some w ∧ w ≠ u64_max ∧
      i = (wi + Z.of_nat k) * 64 + trailing_ones w ∧ ∀ k', (k' < k)%nat → l !! k' = Some u64_max
  | None => ∀ k w, l !! k = Some w → w = u64_max
  end.
Proof.
  revert wi. induction l as [|w l IH]; intros wi; simpl.
  - intros k w. by rewrite lookup_nil.
  - destruct (Z.eqb_spec w u64_max) as [He|Hne].
    + specialize (IH (wi + 1)). destruct (first_clear_from (wi + 1) l) as [i|].
      * destruct IH as (k & w' & Hk & Hne & Hi & Hlt). exists (S k), w'.
        split_and!; [done..|lia|]. intros [|k'] Hk'; simpl; [by rewrite He|apply Hlt; lia].
      * intros [|k] w' Hk; simpl in Hk; [congruence|eauto].
    + exists 0%nat, w. split_and!; [done..|lia|lia].
Qed.

Lemma first_clear_spec b :
  shape b →
  match first_clear_from 0 (bits b) with
  | Some i => in_map i ∧ bit b i = false ∧ taken_below b i
  | None => taken_below b MAX_FRAMES
  end.
Proof.
  intros [Hl Hf]. pose proof (first_clear_from_spec (bits b) 0) as H.
  destruct (first_clear_from 0 (bits b)) as [i|].
  - destruct H as (k & w & Hk & Hne & -> & Hlt).
    assert (Hw : is_u64 w) by (rewrite Forall_lookup in Hf; eauto).
    destruct (trailing_ones_spec w Hw Hne) as (Hb & Hfalse & Htrue).
    assert (Z.of_nat k < 16384).
    { apply lookup_lt_Some in Hk. change BITMAP_WORDS with 16384 in Hl. lia. }
    set (t := trailing_ones w) in *.
    assert (Hbit : ∀ j, 0 ≤ j < 64 → bit b ((0 + Z.of_nat k) * 64 + j) = Z.testbit w j).
    { intros j Hj. unfold bit. replace (((0 + Z.of_nat k) * 64 + j) / 64) with (Z.of_nat k) by zdiv.
      replace (((0 + Z.of_nat k) * 64 + j) mod 64) with j by zdiv.
      by rewrite Nat2Z.id, Hk. }
    split_and!.
    + unfold in_map. change MAX_FRAMES with 1048576. lia.
    + by rewrite Hbit.
    + intros j Hj. destruct (decide (j / 64 = Z.of_nat k)) as [He|Hk'].
      * replace j with ((0 + Z.of_nat k) * 64 + j mod 64) by zdiv.
        rewrite Hbit by zdiv. apply Htrue. zdiv.
      * unfold bit. rewrite Hlt by zdiv. simpl. apply testbit_u64_ones. zdiv.
  - intros j Hj. change MAX_FRAMES with 1048576 in Hj. unfold bit.
    destruct (lookup_lt_is_Some_2 (bits b) (Z.to_nat (j / 64))) as [w Hw].
    { rewrite Hl. change BITMAP_WORDS with 16384. zdiv. }
    rewrite Hw. rewrite (H _ _ Hw). simpl. apply testbit_u64_ones. zdiv.
Qed.

(** *** The set of free indices *)

Definition free_set (b : t) : gset Z :=
  list_to_set (filter (λ i, bit b i = false) (range 0 MAX_FRAMES)).

Lemma elem_of_free_set b i : i ∈ free_set b ↔ in_map i ∧ bit b i = false.
Proof.
  unfold free_set, in_map. rewrite elem_of_list_to_set, list_elem_of_filter, elem_of_range.
  naive_solver.
Qed.

Lemma free_set_rebit b b' f :
  rebit b b' f → ∀ i, i ∈ free_set b' ↔ in_map i ∧ f i = false.
Proof.
  intros (_ & _ & _ & Hb) i. rewrite elem_of_free_set. unfold in_map.
  split; intros [Hi Hf]; (split; [done|]); [rewrite <-Hb by lia|rewrite Hb by lia]; done.
Qed.

Lemma free_set_set b b' i :
  rebit b b' (λ j, bool_decide (j = i) || bit b j) → free_set b' = free_set b ∖ {[i]}.
Proof.
  intros Hr. apply set_eq. intros j. rewrite (free_set_rebit _ _ _ Hr), elem_of_difference,
    elem_of_free_set, elem_of_singleton. case_bool_decide; simpl; naive_solver.
Qed.

Lemma free_set_clear b b' i :
  in_map i →
  rebit b b' (λ j, negb (bool_decide (j = i)) && bit b j) → free_set b' = free_set b ∪ {[i]}.
Proof.
  intros Hi Hr. apply set_eq. intros j. rewrite (free_set_rebit _ _ _ Hr), elem_of_union,
    elem_of_free_set, elem_of_singleton. case_bool_decide; simpl; naive_solver.
Qed.

(** The counters are no part of the set. *)
Lemma free_set_with_free b n : free_set (with_free b n) = free_set b.
Proof. apply set_eq. intros i. by rewrite !elem_of_free_set. Qed.
Lemma free_set_with_reserved b n : free_set (with_reserved b n) = free_set b.
Proof. apply set_eq. intros i. by rewrite !elem_of_free_set. Qed.

Global Opaque free_set.

(** The indices of a range, as a set. *)
Definition span (lo hi : Z) : gset Z := list_to_set (range lo hi).
Lemma elem_of_span lo hi i : i ∈ span lo hi ↔ lo ≤ i < hi.
Proof. unfold span. by rewrite elem_of_list_to_set, elem_of_range. Qed.
Lemma size_span lo hi : size (span lo hi) = Z.to_nat (hi - lo).
Proof.
  unfold span. rewrite size_list_to_set by apply NoDup_range. apply length_range.
Qed.

Lemma free_set_set_range b b' lo hi :
  rebit b b' (λ j, if bool_decide (lo ≤ j < hi) then true else bit b j) →
  free_set b' = free_set b ∖ span lo hi.
Proof.
  intros Hr. apply set_eq. intros j. rewrite (free_set_rebit _ _ _ Hr), elem_of_difference,
    elem_of_free_set, elem_of_span. case_bool_decide; simpl; naive_solver.
Qed.

Lemma free_set_clear_range b b' lo hi :
  0 ≤ lo → hi ≤ MAX_FRAMES →
  rebit b b' (λ j, if bool_decide (lo ≤ j < hi) then false else bit b j) →
  free_set b' = free_set b ∪ span lo hi.
Proof.
  intros Hlo Hhi Hr. apply set_eq. intros j.
  rewrite (free_set_rebit _ _ _ Hr), elem_of_union, elem_of_free_set, elem_of_span.
  unfold in_map. case_bool_decide; simpl; intuition (congruence || lia).
Qed.

End Bitmap.

(** ** The allocator *)

(** The statics of [frames.rs]. *)
Record statics : Type := mkStatics {
  RAM_BASE_ADDR : Z;
  RAM_LENGTH : Z;
  IMAGE_END : Z;
  ALLOCATOR : Bitmap.t
}.

(** The allocator and the physical memory it hands out. *)
Record machine : Type := mkMachine {
  statics_of : statics;
  memory : mem
}.

Definition set_statics (st : statics) (m : machine) : machine := mkMachine st (memory m).
Definition set_memory (mm : mem) (m : machine) : machine := mkMachine (statics_of m) mm.
Definition bitmap (m : machine) : Bitmap.t := ALLOCATOR (statics_of m).
Definition set_bitmap (b : Bitmap.t) (m : machine) : machine :=
  let st := statics_of m in
  set_statics (mkStatics (RAM_BASE_ADDR st) (RAM_LENGTH st) (IMAGE_END st) b) m.

(** [ALLOCATOR.lock()]. *)
Definition with_allocator {A} (op : M Bitmap.t A) : M machine A := zoom bitmap set_bitmap op.

Definition ram_base (m : machine) : Z := RAM_BASE_ADDR (statics_of m).
Definition ram_size (m : machine) : Z := RAM_LENGTH (statics_of m).
Definition frame_count (m : machine) : Z := ram_size m / FRAME_SIZE.

Definition set_ram (base size : Z) : M machine unit := modify (λ m,
  let st := statics_of m in
  set_statics (mkStatics base size (IMAGE_END st) (ALLOCATOR st)) m).
Definition set_image_end (e : Z) : M machine unit := modify (λ m,
  let st := statics_of m in
  set_statics (mkStatics (RAM_BASE_ADDR st) (RAM_LENGTH st) e (ALLOCATOR st)) m).

(** [allocator.free += n] and [-= n]; [usize] arithmetic that panics. *)
Definition add_free (n : Z) : M Bitmap.t unit :=
  b ← getS; v ← lift (add64 (Bitmap.free b) n); putS (Bitmap.with_free b v).
Definition sub_free (n : Z) : M Bitmap.t unit :=
  b ← getS; v ← lift (sub64 (Bitmap.free b) n); putS (Bitmap.with_free b v).
Definition add_reserved (n : Z) : M Bitmap.t unit :=
  b ← getS; v ← lift (add64 (Bitmap.reserved b) n); putS (Bitmap.with_reserved b v).

(** A [Frame] is its physical base address. *)
Definition frame_index (m : machine) (frame : Z) : Z := (frame - ram_base m) / FRAME_SIZE.
Definition from_index (m : machine) (i : Z) : Z := ram_base m + i * FRAME_SIZE.
Definition from_addr {S} (addr : Z) : M S Z :=
  _ ← assertM (is_multiple_of addr FRAME_SIZE) "from_addr"; mret addr.

(** [kernel_end] is the linker's [__kernel_end]. *)
Definition init (kernel_end base size : Z) : M machine unit :=
  let size := Z.min size MAX_RAM / FRAME_SIZE * FRAME_SIZE in
  _ ← set_ram base size;
  let frames := size / FRAME_SIZE in
  first_free ← lift (mul64 (div_ceil kernel_end FRAME_SIZE) FRAME_SIZE);
  d ← lift (sub64 first_free base);
  let reserved_frames := d / FRAME_SIZE in
  _ ← with_allocator (
    _ ← Bitmap.set_range 0 reserved_frames;
    _ ← Bitmap.set_range frames MAX_FRAMES;
    _ ← modify (λ b, Bitmap.with_reserved b reserved_frames);
    f ← lift (sub64 frames reserved_frames);
    modify (λ b, Bitmap.with_free b f));
  set_image_end first_free.

Inductive ReserveError : Type :=
  | OutsideRam (addr : Z)
  | AlreadyTaken (addr : Z).

Global Instance ReserveError_eq_dec : EqDecision ReserveError.
Proof. solve_decision. Defined.

Definition reserve_range (base len : Z) : M machine (Result Z ReserveError) :=
  if len =? 0 then mret (Ok 0) else
  let start := base / FRAME_SIZE * FRAME_SIZE in
  match checked_add64 base len with
  | None => mret (Err (OutsideRam base))
  | Some sum =>
    end_ ← lift (mul64 (div_ceil sum FRAME_SIZE) FRAME_SIZE);
    m ← getS;
    outside ← (if start <? ram_base m then mret true else
               ram_end ← lift (add64 (ram_base m) (ram_size m)); mret (ram_end <? end_));
    if outside : bool then mret (Err (OutsideRam base)) else
    let first := (start - ram_base m) / FRAME_SIZE in
    count ← lift (sub64 end_ start);
    let count := count / FRAME_SIZE in
    taken ← with_allocator (findM (range first (first + count)) Bitmap.is_set);
    match taken with
    | Some index => mret (Err (AlreadyTaken (from_index m index)))
    | None =>
      _ ← with_allocator (
        _ ← forM (range first (first + count)) Bitmap.set;
        _ ← add_reserved count;
        sub_free count);
      mret (Ok count)
    end
  end.

Definition is_taken (addr : Z) : M machine bool :=
  m ← getS;
  ram_end ← lift (add64 (ram_base m) (ram_size m));
  if negb ((ram_base m <=? addr) && (addr <? ram_end)) then mret false else
  with_allocator (Bitmap.is_set ((addr - ram_base m) / FRAME_SIZE)).

(** Returns [new as i64 - old as i64]. *)
Definition adopt (base size : Z) : M machine (Result Z ReserveError) :=
  m ← getS;
  if negb (base =? ram_base m) then mret (Err (OutsideRam base)) else
  let size := Z.min size MAX_RAM / FRAME_SIZE * FRAME_SIZE in
  let old := frame_count m in
  let new := size / FRAME_SIZE in
  if old <? new then
    _ ← with_allocator (_ ← Bitmap.clear_range old new; add_free (new - old));
    _ ← set_ram (ram_base m) size;
    mret (Ok (new - old))
  else
    taken ← with_allocator (findM (range new old) Bitmap.is_set);
    match taken with
    | Some index => mret (Err (AlreadyTaken (from_index m index)))
    | None =>
      _ ← with_allocator (_ ← Bitmap.set_range new old; sub_free (old - new));
      _ ← set_ram (ram_base m) size;
      mret (Ok (new - old))
    end.

(** [core::ptr::write_bytes(frame.as_mut_ptr(), 0, n)]. *)
Definition zero_frames (frame n : Z) : M machine unit :=
  modify (λ m, set_memory (zero_range (memory m) frame n) m).

Definition alloc : M machine (option Z) :=
  index ← with_allocator Bitmap.first_clear;
  match index with
  | None => mret None
  | Some index =>
    _ ← with_allocator (_ ← Bitmap.set index; sub_free 1);
    m ← getS;
    let frame := from_index m index in
    _ ← zero_frames frame FRAME_SIZE;
    mret (Some frame)
  end.

(** The scan of [alloc_contiguous]: the start of the first run of [count] clear
    bits among the indices listed. *)
Fixpoint scan_run (l : list Z) (run_start run count : Z) : M Bitmap.t (option Z) :=
  match l with
  | [] => mret None
  | index :: l' =>
    taken ← Bitmap.is_set index;
    if taken : bool then scan_run l' run_start 0 count else
    let run_start := if run =? 0 then index else run_start in
    let run := run + 1 in
    if run <? count then scan_run l' run_start run count else mret (Some run_start)
  end.

Definition alloc_contiguous (count : Z) : M machine (option Z) :=
  _ ← assertM (0 <? count) "assertion failed: count > 0";
  m ← getS;
  found ← with_allocator (scan_run (range 0 (frame_count m)) 0 0 count);
  match found with
  | None => mret None
  | Some run_start =>
    _ ← with_allocator (
      _ ← forM (range run_start (run_start + count)) Bitmap.set;
      sub_free count);
    m ← getS;
    let frame := from_index m run_start in
    _ ← zero_frames frame (count * FRAME_SIZE);
    mret (Some frame)
  end.

Definition free (frame : Z) : M machine unit :=
  m ← getS;
  ram_end ← lift (add64 (ram_base m) (ram_size m));
  _ ← assertM ((ram_base m <=? frame) && (frame <? ram_end)) "freeing a frame outside RAM";
  _ ← assertM (is_multiple_of frame FRAME_SIZE) "freeing a misaligned frame";
  let index := frame_index m frame in
  with_allocator (
    taken ← Bitmap.is_set index;
    _ ← assertM taken "double free";
    _ ← Bitmap.clear index;
    add_free 1).

Definition free_contiguous (first count : Z) : M machine unit :=
  forM (range 0 count) (λ index,
    frame ← from_addr (first + index * FRAME_SIZE); free frame).

Definition free_frames (m : machine) : Z := Bitmap.free (bitmap m).
Definition reserved_frames (m : machine) : Z := Bitmap.reserved (bitmap m).

Definition is_zeroed (m : machine) (frame : Z) : bool :=
  forallb (λ a, memory m a =? 0) (range frame (frame + FRAME_SIZE)).

(** The machine at reset: nothing allocated, the compiled-in guesses. *)
Definition reset (mm : mem) : machine :=
  mkMachine (mkStatics DEFAULT_RAM_BASE DEFAULT_RAM_SIZE 0 Bitmap.new) mm.

(** [core::ptr::write_bytes(p, v, n)]. *)
Definition scribble (a n v : Z) : M machine unit :=
  modify (λ m, set_memory (fill_range (memory m) a n v) m).

(** What it reports is returned: the frame it used twice, and the free frames. *)
Definition self_test : M machine (Z * Z) :=
  before ← gets free_frames;
  a ← alloc; a ← expectM a "allocator had no frames";
  b ← alloc; b ← expectM b "allocator had no frames";
  _ ← assertM (negb (a =? b)) "allocator handed out the same frame twice";
  expected ← lift (sub64 before 2);
  m ← getS; _ ← assertM (free_frames m =? expected) "assertion failed";
  _ ← assertM (is_zeroed m a) "freshly allocated frame was not zeroed";
  _ ← scribble a FRAME_SIZE 0xab;
  m ← getS; _ ← assertM (negb (is_zeroed m a)) "scribble did not take";
  _ ← free a; _ ← free b;
  m ← getS; _ ← assertM (free_frames m =? before) "frames were not returned to the pool";
  reused ← alloc; reused ← expectM reused "allocator had no frames";
  _ ← assertM (reused =? a) "expected the lowest frame back";
  m ← getS; _ ← assertM (is_zeroed m reused) "reused frame still held the previous owner's data";
  _ ← free reused;
  m ← getS; _ ← assertM (free_frames m =? before) "assertion failed";
  low ← alloc; low ← expectM low "allocator had no frames";
  high ← alloc; high ← expectM high "allocator had no frames";
  _ ← free low;
  free_before ← gets free_frames; reserved_before ← gets reserved_frames;
  r ← reserve_range low (FRAME_SIZE * 2);
  _ ← assertM (bool_decide (r = Err (AlreadyTaken high)))
        "reserving over an allocated frame must be refused";
  m ← getS; _ ← assertM (free_frames m =? free_before) "a refused reservation took frames anyway";
  _ ← assertM (reserved_frames m =? reserved_before) "assertion failed";
  t ← is_taken low; _ ← assertM (negb t) "a refused reservation kept a frame";
  _ ← free high;
  m ← getS;
  let last := ram_base m + ram_size m - FRAME_SIZE in
  t ← is_taken last; _ ← assertM (negb t) "the top of RAM is spoken for";
  _ ← modify (λ m, set_memory (write_u64 (memory m) last 0x7261636b) m);
  m ← getS; _ ← assertM (read_u64 (memory m) last =? 0x7261636b)
                  "the last frame in RAM is not mapped";
  _ ← modify (λ m, set_memory (write_u64 (memory m) last 0) m);
  r ← adopt (ram_base m + FRAME_SIZE) (ram_size m);
  _ ← assertM (bool_decide (r = Err (OutsideRam (ram_base m + FRAME_SIZE)))) "assertion failed";
  r ← reserve_range 0x1000 FRAME_SIZE;
  _ ← assertM (bool_decide (r = Err (OutsideRam 0x1000))) "assertion failed";
  m ← getS; _ ← assertM (free_frames m =? before) "assertion failed";
  mret (a, before).
