(* ===== verification/FramesSpec.v ===== *)
(** * FramesSpec: what the frame allocator guarantees

    The abstract allocator is the set of free frame indices.  Every operation
    of [Frames.v] is shown to refine an operation on that set, on every branch,
    without panicking, and to keep [alloc_inv]. *)

From S2P Require Import Prelude Memory FrameAlloc Frames.

(** The abstract state: which frames of the map are free. *)
Definition free_of (m : machine) : gset Z := Bitmap.free_set (bitmap m).

Record alloc_inv (m : machine) : Prop := {
  inv_shape : Bitmap.shape (bitmap m);
  (** The counter the allocator keeps is the number of clear bits. *)
  inv_count : free_frames m = Z.of_nat (size (free_of m));
  inv_base : 0 ≤ ram_base m ∧ ram_base m mod FRAME_SIZE = 0;
  inv_size : 0 ≤ ram_size m ≤ MAX_RAM ∧ ram_size m mod FRAME_SIZE = 0;
  inv_top : ram_base m + ram_size m ≤ 2 ^ 48;
  (** Frames past the end of RAM look taken. *)
  inv_tail : ∀ i, i ∈ free_of m → i < frame_count m
}.

(** RAM itself: unchanged by everything but [init] and [adopt]. *)
Definition same_ram (m m' : machine) : Prop :=
  ram_base m' = ram_base m ∧ ram_size m' = ram_size m.

Lemma frame_count_bounds m : alloc_inv m →
  0 ≤ frame_count m ≤ MAX_FRAMES ∧ ram_size m = frame_count m * FRAME_SIZE.
Proof.
  intros [_ _ _ [H1 H2] _ _]. revert H1 H2. unfold frame_count.
  rewrite MAX_FRAMES_val, MAX_RAM_val. unfold FRAME_SIZE. intros. zdiv.
Qed.

Lemma free_of_range m i : alloc_inv m → i ∈ free_of m → 0 ≤ i < frame_count m.
Proof.
  intros Hm Hi. pose proof (inv_tail _ Hm i Hi). unfold free_of in Hi.
  apply Bitmap.elem_of_free_set in Hi as [[? _] _]. lia.
Qed.

(** A run of the bitmap inside the machine. *)
Lemma wp_with_allocator {A} (op : M Bitmap.t A) m Q :
  wp op (bitmap m) (λ a b, Q a (set_bitmap b m)) → wp (with_allocator op) m Q.
Proof. apply wp_zoom. Qed.

Lemma inv_with_bitmap m b :
  alloc_inv m → Bitmap.shape b → Bitmap.free b = Z.of_nat (size (Bitmap.free_set b)) →
  (∀ i, i ∈ Bitmap.free_set b → i < frame_count m) → alloc_inv (set_bitmap b m).
Proof. intros [] ???. by split. Qed.

Lemma inv_set_memory m mm : alloc_inv m → alloc_inv (set_memory mm m).
Proof. intros []. by split. Qed.

Lemma free_frames_bound m : alloc_inv m → 0 ≤ free_frames m ≤ MAX_FRAMES.
Proof.
  intros Hm. rewrite (inv_count _ Hm).
  assert (size (free_of m) ≤ size (Bitmap.span 0 MAX_FRAMES))%nat.
  { apply subseteq_size. intros i Hi. apply Bitmap.elem_of_span.
    pose proof (free_of_range _ _ Hm Hi). pose proof (frame_count_bounds _ Hm). lia. }
  rewrite Bitmap.size_span in *. rewrite MAX_FRAMES_val in *. lia.
Qed.

(** Removing frames from the free set, and adding some: the two ways an
    operation changes the abstract state. *)
Lemma inv_remove m b X :
  alloc_inv m → Bitmap.shape b → X ⊆ free_of m → Bitmap.free_set b = free_of m ∖ X →
  Bitmap.free b = free_frames m - Z.of_nat (size X) → alloc_inv (set_bitmap b m).
Proof.
  intros Hm Hs HX Hfs Hf. apply inv_with_bitmap; [done|done|rewrite Hf, Hfs, (inv_count _ Hm)|].
  - rewrite size_difference by done. apply subseteq_size in HX. lia.
  - rewrite Hfs. intros i Hi. apply (inv_tail _ Hm). set_solver.
Qed.

Lemma inv_add m b X :
  alloc_inv m → Bitmap.shape b → X ## free_of m → Bitmap.free_set b = free_of m ∪ X →
  (∀ i, i ∈ X → i < frame_count m) →
  Bitmap.free b = free_frames m + Z.of_nat (size X) → alloc_inv (set_bitmap b m).
Proof.
  intros Hm Hs HX Hfs Hr Hf. apply inv_with_bitmap; [done|done|rewrite Hf, Hfs, (inv_count _ Hm)|].
  - rewrite size_union by done. lia.
  - rewrite Hfs. intros i [Hi|Hi]%elem_of_union; [by apply (inv_tail _ Hm)|auto].
Qed.

Lemma set_bitmap_id m : set_bitmap (bitmap m) m = m.
Proof. by destruct m as [[] ?]. Qed.

(** [allocator.free -= n] after [n] frames of the free set were painted. *)
Lemma wp_remove m b X n Q :
  alloc_inv m → X ⊆ free_of m → n = Z.of_nat (size X) →
  Bitmap.shape b → Bitmap.free b = free_frames m → Bitmap.free_set b = free_of m ∖ X →
  (∀ b', alloc_inv (set_bitmap b' m) → Bitmap.free_set b' = free_of m ∖ X →
         Bitmap.reserved b' = Bitmap.reserved b → Q tt b') →
  wp (sub_free n) b Q.
Proof.
  intros Hm HX -> Hs Hf Hfs HQ. pose proof (inv_count _ Hm).
  pose proof (subseteq_size _ _ HX).
  unfold sub_free. wp_steps. eapply wp_lift; [apply sub64_ok; lia|]. wp_steps.
  apply HQ; [|by rewrite Bitmap.free_set_with_free|done].
  apply (inv_remove m _ X); [done|by split; apply Hs|done| |simpl; lia].
  by rewrite Bitmap.free_set_with_free.
Qed.

Lemma wp_add m b X n Q :
  alloc_inv m → X ## free_of m → n = Z.of_nat (size X) → (∀ i, i ∈ X → 0 ≤ i < frame_count m) →
  Bitmap.shape b → Bitmap.free b = free_frames m → Bitmap.free_set b = free_of m ∪ X →
  (∀ b', alloc_inv (set_bitmap b' m) → Bitmap.free_set b' = free_of m ∪ X →
         Bitmap.reserved b' = Bitmap.reserved b → Q tt b') →
  wp (add_free n) b Q.
Proof.
  intros Hm HX -> Hr Hs Hf Hfs HQ. pose proof (inv_count _ Hm) as Hc.
  pose proof (frame_count_bounds _ Hm) as [Hfc _]. rewrite MAX_FRAMES_val in Hfc.
  assert (size (free_of m ∪ X) ≤ size (Bitmap.span 0 (frame_count m)))%nat as Hsz.
  { apply subseteq_size. intros i [Hi|Hi]%elem_of_union; apply Bitmap.elem_of_span; [|auto].
    by apply (free_of_range m). }
  rewrite Bitmap.size_span, size_union in Hsz by set_solver.
  unfold add_free. wp_steps. eapply wp_lift; [apply add64_ok; lia|]. wp_steps.
  apply HQ; [|by rewrite Bitmap.free_set_with_free|done].
  apply (inv_add m _ X); [done|by split; apply Hs|done| |by intros; apply Hr|simpl; lia].
  by rewrite Bitmap.free_set_with_free.
Qed.

Lemma size_single (i : Z) : 1 = Z.of_nat (size ({[i]} : gset Z)).
Proof. by rewrite size_singleton. Qed.

(** [alloc] on both branches; the properties below are read off it. *)
Lemma wp_alloc m :
  alloc_inv m →
  wp alloc m (λ r m', alloc_inv m' ∧ same_ram m m' ∧ reserved_frames m' = reserved_frames m ∧
    match r with
    | Some frame => ∃ i, frame = from_index m i ∧ i ∈ free_of m ∧
        (∀ j, j ∈ free_of m → i ≤ j) ∧
        free_of m' = free_of m ∖ {[i]} ∧
        memory m' = zero_range (memory m) frame FRAME_SIZE
    | None => m' = m ∧ free_of m = ∅
    end).
Proof.
  intros Hm. unfold alloc. wp_step. apply wp_with_allocator. unfold Bitmap.first_clear. wp_step.
  pose proof (Bitmap.first_clear_spec _ (inv_shape _ Hm)) as Hfc.
  destruct (Bitmap.first_clear_from 0 _) as [i|].
  - destruct Hfc as (Him & Hib & Hbelow).
    assert (Hi : i ∈ free_of m) by by apply Bitmap.elem_of_free_set.
    rewrite set_bitmap_id. wp_step. apply wp_with_allocator. wp_step.
    apply Bitmap.wp_set; [apply Hm|done|]. intros b0 Hr0.
    pose proof (Bitmap.free_set_set _ _ _ Hr0) as Hfs0. destruct Hr0 as (Hs0 & Hf0 & Hres0 & _).
    apply (wp_remove m b0 {[i]}); [done|set_solver|apply size_single|done..|].
    intros b Hinv Hfs Hres. wp_steps. unfold zero_frames. wp_steps.
    split_and!; [by apply inv_set_memory|done..|unfold reserved_frames, bitmap in *; simpl; congruence|].
    exists i. split_and!; [done|done| |done|done].
    intros j Hj. apply Bitmap.elem_of_free_set in Hj as [[Hj0 _] Hjb].
    apply Z.nlt_ge. intros Hlt. rewrite Hbelow in Hjb by lia. done.
  - wp_step. rewrite set_bitmap_id.
    split_and!; [done..|]. apply set_eq. intros j. split; [|set_solver].
    intros [[? ?] Hj]%Bitmap.elem_of_free_set. rewrite Hfc in Hj by done. done.
Qed.


(** ** Runs of frames *)

Lemma wp_set_span m lo hi Q :
  alloc_inv m → 0 ≤ lo → hi ≤ MAX_FRAMES →
  (∀ b, Bitmap.shape b → Bitmap.free b = free_frames m → Bitmap.reserved b = reserved_frames m →
        Bitmap.free_set b = free_of m ∖ Bitmap.span lo hi → Q tt b) →
  wp (forM (range lo hi) Bitmap.set) (bitmap m) Q.
Proof.
  intros Hm Hlo Hhi HQ.
  apply (Bitmap.wp_paint_loop _ true); [apply Bitmap.set_paints|apply Hm|..].
  { intros i Hi%elem_of_range. unfold Bitmap.in_map. lia. }
  intros b Hr. pose proof Hr as (Hs & Hf & Hres & Hb). apply HQ; [done..|].
  apply Bitmap.free_set_set_range. split_and!; [done..|]. intros j Hj. rewrite Hb by done.
  apply if_bool_decide_ext. by rewrite elem_of_range.
Qed.

Definition run_free (m : machine) (lo n : Z) : Prop := ∀ i, lo ≤ i < lo + n → i ∈ free_of m.

(** The loop invariant of [alloc_contiguous]: the last [run] frames are free,
    and every window that starts before them meets a taken one. *)
Lemma wp_scan_run b count n lo start run Q :
  Bitmap.shape b → 0 ≤ lo → lo + Z.of_nat n ≤ MAX_FRAMES → 0 ≤ run < count → run ≤ lo →
  (0 < run → start = lo - run) →
  (∀ j, lo - run ≤ j < lo → Bitmap.bit b j = false) →
  (∀ s, 0 ≤ s < lo - run → ∃ j, s ≤ j < s + count ∧ Bitmap.bit b j = true) →
  (∀ s, 0 ≤ s → s + count ≤ lo + Z.of_nat n →
     (∀ j, s ≤ j < s + count → Bitmap.bit b j = false) →
     (∀ s', 0 ≤ s' < s → ∃ j, s' ≤ j < s' + count ∧ Bitmap.bit b j = true) → Q (Some s) b) →
  ((∀ s, 0 ≤ s → s + count ≤ lo + Z.of_nat n →
     ∃ j, s ≤ j < s + count ∧ Bitmap.bit b j = true) → Q None b) →
  wp (scan_run (range_from lo n) start run count) b Q.
Proof.
  intros Hs. revert lo start run. induction n as [|n IH]; intros lo start run Hlo Hn Hrun Hle
    Hst Hfree Hwin HS HN; simpl.
  - wp_step. apply HN. intros s Hs0 Hsc. apply Hwin. lia.
  - wp_step. apply Bitmap.wp_is_set; [done|unfold Bitmap.in_map; lia|].
    destruct (Bitmap.bit b lo) eqn:Hb.
    + apply IH; [lia..| | | |].
      * intros j Hj. lia.
      * intros s Hs0. destruct (decide (s < lo - run)); [apply Hwin; lia|].
        exists lo. split; [lia|done].
      * intros s ?? Hc Hw. apply HS; [lia..|done|done].
      * intros Hw. apply HN. intros. apply Hw; lia.
    + assert (Hfree' : ∀ j, lo + 1 - (run + 1) ≤ j < lo + 1 → Bitmap.bit b j = false).
      { intros j Hj. destruct (decide (j = lo)) as [->|]; [done|apply Hfree; lia]. }
      assert (Hst' : (if run =? 0 then lo else start) = lo - run).
      { destruct (Z.eqb_spec run 0); [lia|apply Hst; lia]. }
      rewrite Hst'. destruct (Z.ltb_spec (run + 1) count).
      * apply IH; [lia..|done| | |].
        -- intros s Hs0. apply Hwin. lia.
        -- intros s ?? Hc Hw. apply HS; [lia..|done|done].
        -- intros Hw. apply HN. intros. apply Hw; lia.
      * wp_step. apply HS; [lia..| |].
        -- intros j Hj. apply Hfree'. lia.
        -- intros s' Hs'. apply Hwin. lia.
Qed.

Lemma free_of_bit m i :
  0 ≤ i < MAX_FRAMES → (i ∈ free_of m ↔ Bitmap.bit (bitmap m) i = false).
Proof. intros Hi. unfold free_of. rewrite Bitmap.elem_of_free_set. unfold Bitmap.in_map. tauto. Qed.

(** First fit: the lowest run of [count] free frames, or none exists. *)
Lemma wp_alloc_contiguous m count :
  alloc_inv m → 0 < count →
  wp (alloc_contiguous count) m (λ r m',
    alloc_inv m' ∧ same_ram m m' ∧ reserved_frames m' = reserved_frames m ∧
    match r with
    | Some frame => ∃ i, frame = from_index m i ∧ run_free m i count ∧
        (∀ j, run_free m j count → i ≤ j) ∧
        free_of m' = free_of m ∖ Bitmap.span i (i + count) ∧
        memory m' = zero_range (memory m) frame (count * FRAME_SIZE)
    | None => m' = m ∧ ∀ i, ¬ run_free m i count
    end).
Proof.
  intros Hm Hc. pose proof (frame_count_bounds _ Hm) as [Hfc _].
  assert (Hbit : ∀ s j, 0 ≤ s → s ≤ j < s + count → run_free m s count →
            Bitmap.bit (bitmap m) j = false).
  { intros s j Hs Hj Hr. specialize (Hr j Hj).
    apply free_of_bit; [|done]. pose proof (free_of_range _ _ Hm Hr). lia. }
  assert (Hrun : ∀ s, run_free m s count → 0 ≤ s ∧ s + count ≤ frame_count m).
  { intros s Hr. pose proof (free_of_range _ _ Hm (Hr s ltac:(lia))).
    pose proof (free_of_range _ _ Hm (Hr (s + count - 1) ltac:(lia))). lia. }
  unfold alloc_contiguous. wp_step. apply wp_assertM; [by apply Z.ltb_lt|]. wp_steps.
  apply wp_with_allocator. unfold range. rewrite Z.sub_0_r.
  apply wp_scan_run; [apply Hm|lia..|intros; lia|intros; lia| |]; rewrite ?Z2Nat.id by lia.
  - intros s Hs0 Hsc Hfree Hbelow. rewrite set_bitmap_id.
    assert (Hr : run_free m s count).
    { intros j Hj. apply free_of_bit; [lia|]. by apply Hfree. }
    wp_step. apply wp_with_allocator. wp_step. apply wp_set_span; [done|lia..|].
    intros b0 Hs Hf Hres Hfs.
    apply (wp_remove m b0 (Bitmap.span s (s + count)));
      [done| |rewrite Bitmap.size_span; lia|done..|].
    { intros j Hj%Bitmap.elem_of_span. by apply Hr. }
    intros b Hinv Hfs' Hres'. wp_steps. unfold zero_frames. wp_steps.
    split_and!; [by apply inv_set_memory|done..|unfold reserved_frames, bitmap in *; simpl; congruence|].
    exists s. split_and!; [done..| |done|done].
    intros j Hj. apply Z.nlt_ge. intros Hlt. destruct (Hrun j Hj).
    destruct (Hbelow j) as (k & Hk & Hkb); [lia|]. by rewrite (Hbit j k) in Hkb by (done || lia).
  - intros Hnone. wp_step. rewrite set_bitmap_id. split_and!; [done..|].
    intros i Hr. destruct (Hrun i Hr). destruct (Hnone i) as (k & Hk & Hkb); [lia..|].
    by rewrite (Hbit i k) in Hkb by (done || lia).
Qed.

(** ** Freeing *)

(** The address of a frame of RAM. *)
Definition is_frame (m : machine) (f : Z) : Prop :=
  ∃ i, f = from_index m i ∧ 0 ≤ i < frame_count m.

Lemma frame_index_from_index m i : frame_index m (from_index m i) = i.
Proof.
  unfold frame_index, from_index. rewrite Z.add_simpl_l. apply Z.div_mul. discriminate.
Qed.

Lemma from_index_inj m i j : from_index m i = from_index m j → i = j.
Proof. unfold from_index, FRAME_SIZE. lia. Qed.

Lemma from_index_bounds m i :
  alloc_inv m → 0 ≤ i < frame_count m →
  ram_base m ≤ from_index m i ∧ from_index m i + FRAME_SIZE ≤ ram_base m + ram_size m ∧
  from_index m i mod FRAME_SIZE = 0.
Proof.
  intros Hm Hi. pose proof (frame_count_bounds _ Hm) as [_ Hsz]. destruct (inv_base _ Hm).
  unfold from_index. rewrite Hsz. unfold FRAME_SIZE in *. split_and!; zdiv.
Qed.

Lemma wp_free m i :
  alloc_inv m → 0 ≤ i < frame_count m → i ∉ free_of m →
  wp (free (from_index m i)) m (λ _ m',
    alloc_inv m' ∧ same_ram m m' ∧ reserved_frames m' = reserved_frames m ∧
    free_of m' = free_of m ∪ {[i]} ∧ memory m' = memory m).
Proof.
  intros Hm Hi Hni. pose proof (frame_count_bounds _ Hm) as [Hfc Hsz].
  pose proof (from_index_bounds _ _ Hm Hi) as (Hlo & Hhi & Hal).
  destruct (inv_base _ Hm), (inv_size _ Hm). pose proof (inv_top _ Hm) as Htop.
  assert (Him : Bitmap.in_map i) by (unfold Bitmap.in_map; lia).
  assert (Hbit : Bitmap.bit (bitmap m) i = true).
  { apply not_false_is_true. by rewrite <-free_of_bit. }
  unfold free. wp_step. wp_step. wp_step. eapply wp_lift; [apply add64_ok; lia|].
  wp_step. apply wp_assertM.
  { apply andb_true_iff. unfold FRAME_SIZE in *. split; [apply Z.leb_le|apply Z.ltb_lt]; lia. }
  wp_step. apply wp_assertM; [unfold is_multiple_of; by rewrite Hal|].
  rewrite frame_index_from_index. apply wp_with_allocator.
  wp_step. apply Bitmap.wp_is_set; [apply Hm|done|]. rewrite Hbit. wp_steps; [done|].
  apply Bitmap.wp_clear; [apply Hm|done|]. intros b0 Hr0.
  pose proof (Bitmap.free_set_clear _ _ _ Him Hr0) as Hfs0. destruct Hr0 as (Hs0 & Hf0 & Hres0 & _).
  apply (wp_add m b0 {[i]}); [done|set_solver|apply size_single|set_solver|done..|].
  intros b Hinv Hfs Hres. split_and!; [done..|unfold reserved_frames, bitmap in *; simpl; congruence|done|done].
Qed.

Lemma wp_free_contiguous m i count :
  alloc_inv m → 0 ≤ i → 0 ≤ count → i + count ≤ frame_count m →
  (∀ j, i ≤ j < i + count → j ∉ free_of m) →
  wp (free_contiguous (from_index m i) count) m (λ _ m',
    alloc_inv m' ∧ same_ram m m' ∧ reserved_frames m' = reserved_frames m ∧
    free_of m' = free_of m ∪ Bitmap.span i (i + count) ∧ memory m' = memory m).
Proof.
  intros Hm Hi Hc Hfc Htaken. unfold free_contiguous.
  apply (wp_forM _ _ (λ done m', alloc_inv m' ∧ same_ram m m' ∧
    reserved_frames m' = reserved_frames m ∧
    free_of m' = free_of m ∪ Bitmap.span i (i + Z.of_nat (length done)) ∧ memory m' = memory m)).
  - split_and!; try done. apply set_eq. intros j. rewrite elem_of_union, Bitmap.elem_of_span. simpl.
    split; [tauto|intros [?|?]; [done|lia]].
  - intros dn k m1 (Hm1 & [Hb1 Hs1] & Hr1 & Hf1 & Hmem1) [rest Hl].
    apply range_split_done in Hl as (-> & Hk & _).
    assert (Hfi : from_index m i + (0 + Z.of_nat (length dn)) * FRAME_SIZE =
                  from_index m1 (i + Z.of_nat (length dn)))
      by (unfold from_index; rewrite Hb1; unfold FRAME_SIZE; lia).
    assert (Hfc1 : frame_count m1 = frame_count m) by (unfold frame_count; by rewrite Hs1).
    rewrite Hfi. wp_step. unfold from_addr. wp_step. apply wp_assertM.
    { unfold is_multiple_of. apply Z.eqb_eq, (from_index_bounds m1); [done|lia]. }
    wp_step. eapply wp_mono; [apply wp_free; [done|lia|]|].
    { rewrite Hf1, not_elem_of_union, Bitmap.elem_of_span. split; [apply Htaken; lia|lia]. }
    intros _ m2 (Hm2 & [Hb2 Hs2] & Hr2 & Hf2 & Hmem2).
    split_and!; [done|split; congruence|congruence| |congruence].
    rewrite Hf2, Hf1. apply set_eq. intros j.
    rewrite !elem_of_union, !Bitmap.elem_of_span, length_app, elem_of_singleton. simpl. intuition lia.
  - intros m1 H. rewrite length_range, Z.sub_0_r, Z2Nat.id in H by lia. done.
Qed.

(** ** Reserving *)

(** Frame [i] holds a byte of [base .. base + len). *)
Definition touches (m : machine) (base len i : Z) : Prop :=
  from_index m i < base + len ∧ base < from_index m i + FRAME_SIZE.

Definition inside_ram (m : machine) (base len : Z) : Prop :=
  ram_base m ≤ base ∧ base + len ≤ ram_base m + ram_size m.

(** The frames a range of RAM touches are consecutive. *)
Lemma touches_span m base len i :
  alloc_inv m → inside_ram m base len → 0 < len →
  let first := (base / FRAME_SIZE * FRAME_SIZE - ram_base m) / FRAME_SIZE in
  let end_ := div_ceil (base + len) FRAME_SIZE * FRAME_SIZE in
  let count := (end_ - base / FRAME_SIZE * FRAME_SIZE) / FRAME_SIZE in
  (touches m base len i ↔ first ≤ i < first + count).
Proof.
  intros Hm [H1 H2] Hl. destruct (inv_base _ Hm). simpl.
  rewrite div_ceil_spec by (unfold FRAME_SIZE; lia).
  unfold touches, from_index, FRAME_SIZE in *. zdiv.
Qed.

Lemma outside_ram_iff m base len :
  alloc_inv m → 0 ≤ base → 0 < len →
  (base / FRAME_SIZE * FRAME_SIZE < ram_base m ∨
   ram_base m + ram_size m < div_ceil (base + len) FRAME_SIZE * FRAME_SIZE) ↔
  ¬ inside_ram m base len.
Proof.
  intros Hm Hb Hl. destruct (inv_base _ Hm). destruct (inv_size _ Hm).
  rewrite div_ceil_spec by (unfold FRAME_SIZE; lia).
  unfold inside_ram, FRAME_SIZE in *. zdiv.
Qed.

Lemma run_in_map m base len :
  alloc_inv m → inside_ram m base len → 0 < len →
  let first := (base / FRAME_SIZE * FRAME_SIZE - ram_base m) / FRAME_SIZE in
  let end_ := div_ceil (base + len) FRAME_SIZE * FRAME_SIZE in
  let count := (end_ - base / FRAME_SIZE * FRAME_SIZE) / FRAME_SIZE in
  0 ≤ first ∧ first + count ≤ frame_count m ∧ 0 < count.
Proof.
  intros Hm [H1 H2] Hl. destruct (inv_base _ Hm). destruct (inv_size _ Hm). simpl.
  rewrite div_ceil_spec by (unfold FRAME_SIZE; lia).
  unfold frame_count, FRAME_SIZE in *. zdiv.
Qed.

Lemma wp_find_taken m lo hi Q :
  alloc_inv m → 0 ≤ lo → hi ≤ MAX_FRAMES →
  (∀ i, lo ≤ i < hi → i ∉ free_of m → (∀ j, lo ≤ j < i → j ∈ free_of m) → Q (Some i) m) →
  ((∀ i, lo ≤ i < hi → i ∈ free_of m) → Q None m) →
  wp (with_allocator (findM (range lo hi) Bitmap.is_set)) m Q.
Proof.
  intros Hm Hlo Hhi HS HN. apply wp_with_allocator.
  apply (wp_find_range _ (Bitmap.bit (bitmap m))); rewrite ?set_bitmap_id.
  - intros i Hi. apply Bitmap.wp_is_set; [apply Hm|unfold Bitmap.in_map; lia|done].
  - intros i Hi Hbit Hlow. apply HS; [done| |].
    + rewrite free_of_bit by lia. congruence.
    + intros j Hj. rewrite free_of_bit by lia. by apply Hlow.
  - intros Hnone. apply HN. intros i Hi. rewrite free_of_bit by lia. by apply Hnone.
Qed.

(** What [reserve_range] returns, and what it does to the free set. *)
Definition reserve_post (m : machine) (base len : Z) (r : Result Z ReserveError) (m' : machine) : Prop :=
  match r with
  | Ok n => inside_ram m base len ∧
      (∀ i, touches m base len i → i ∈ free_of m) ∧
      (∀ i, i ∈ free_of m' ↔ i ∈ free_of m ∧ ¬ touches m base len i) ∧
      n = Z.of_nat (size (free_of m)) - Z.of_nat (size (free_of m')) ∧
      reserved_frames m' = reserved_frames m + n ∧ memory m' = memory m
  | Err (OutsideRam a) => m' = m ∧ a = base ∧ ¬ inside_ram m base len
  | Err (AlreadyTaken a) => m' = m ∧ inside_ram m base len ∧ ∃ i, a = from_index m i ∧
      touches m base len i ∧ i ∉ free_of m ∧ ∀ j, touches m base len j → j < i → j ∈ free_of m
  end.

(** The arithmetic around the rounding: no overflow once [base + len] leaves
    room for one more frame below [2^64]. *)
Lemma div_ceil_no_overflow x :
  0 ≤ x → x ≤ u64_max + 1 - FRAME_SIZE → div_ceil x FRAME_SIZE * FRAME_SIZE ≤ u64_max.
Proof.
  intros H1 H2. rewrite div_ceil_spec by (unfold FRAME_SIZE; lia). unfold FRAME_SIZE in *. zdiv.
Qed.

Lemma div_ceil_ge x : 0 ≤ x → x ≤ div_ceil x FRAME_SIZE * FRAME_SIZE.
Proof. intros H. rewrite div_ceil_spec by (unfold FRAME_SIZE; lia). unfold FRAME_SIZE. zdiv. Qed.

(** The second half of [reserve_range]: check every frame, then take them all. *)
Definition reserve_run (m : machine) (first count : Z) : M machine (Result Z ReserveError) :=
  taken ← with_allocator (findM (range first (first + count)) Bitmap.is_set);
  match taken with
  | Some index => mret (Err (AlreadyTaken (from_index m index)))
  | None =>
    _ ← with_allocator (
      _ ← forM (range first (first + count)) Bitmap.set;
      _ ← add_reserved count;
      sub_free count);
    mret (Ok count)
  end.

Lemma wp_reserve_run m base len first count :
  alloc_inv m → inside_ram m base len → 0 ≤ reserved_frames m →
  reserved_frames m + MAX_FRAMES ≤ u64_max →
  0 ≤ first → first + count ≤ frame_count m → 0 < count →
  (∀ i, touches m base len i ↔ first ≤ i < first + count) →
  wp (reserve_run m first count) m (λ r m',
    alloc_inv m' ∧ same_ram m m' ∧ reserve_post m base len r m').
Proof.
  intros Hm Hin Hr0 Hrm Hfirst Hlast Hcount Ht. pose proof (frame_count_bounds _ Hm) as [Hfc _].
  unfold reserve_run. wp_step. apply wp_find_taken; [done|lia..| |].
  - intros i Hi Hni Hlow. wp_step. split_and!; [done..|].
    simpl. split; [done|]. split; [done|].
    exists i. split_and!; [done|by apply Ht|done|].
    intros j Hj Hlt. apply Hlow. apply Ht in Hj. lia.
  - intros Hall. wp_step. apply wp_with_allocator. wp_step.
    apply wp_set_span; [done|lia..|]. intros b0 Hs Hf Hres Hfs.
    unfold add_reserved. wp_steps.
    eapply wp_lift; [apply add64_ok; rewrite Hres; lia|]. wp_steps.
    assert (Hsub : Bitmap.span first (first + count) ⊆ free_of m).
    { intros j Hj%Bitmap.elem_of_span. by apply Hall. }
    apply (wp_remove m _ (Bitmap.span first (first + count)));
      [done|done|rewrite Bitmap.size_span; lia|by split; apply Hs|done
      |by rewrite Bitmap.free_set_with_reserved|].
    intros b Hinv Hfs' Hres'. wp_step. split_and!; [done..|].
    split; [done|]. split_and!; [| | | |reflexivity].
    + intros i Hi. apply Hall. by apply Ht.
    + intros i. change (free_of (set_bitmap b m)) with (Bitmap.free_set b).
      rewrite Hfs', elem_of_difference, Bitmap.elem_of_span, Ht by done. done.
    + change (free_of (set_bitmap b m)) with (Bitmap.free_set b). rewrite Hfs'.
      pose proof (subseteq_size _ _ Hsub). rewrite size_difference by done.
      rewrite Bitmap.size_span in *. lia.
    + unfold reserved_frames, bitmap in *; simpl in *. rewrite Hres'. simpl. congruence.
Qed.

Lemma wp_reserve_range m base len :
  alloc_inv m → 0 ≤ base → 0 < len →
  base + len ≤ u64_max + 1 - FRAME_SIZE ∨ u64_max < base + len →
  0 ≤ reserved_frames m → reserved_frames m + MAX_FRAMES ≤ u64_max →
  wp (reserve_range base len) m (λ r m',
    alloc_inv m' ∧ same_ram m m' ∧ reserve_post m base len r m').
Proof.
  intros Hm Hb Hl Hov Hr0 Hrm. pose proof (frame_count_bounds _ Hm) as [Hfc _].
  destruct (inv_base _ Hm), (inv_size _ Hm). pose proof (inv_top _ Hm) as Htop.
  unfold reserve_range. destruct (Z.eqb_spec len 0); [lia|]. unfold checked_add64.
  destruct (Z.leb_spec (base + len) u64_max) as [Hle|Hgt].
  2: { wp_step. split_and!; [done..|]. unfold reserve_post, inside_ram. split_and!; [done..|].
       rewrite MAX_RAM_val in *. lia. }
  wp_step. eapply wp_lift; [apply mul64_ok, div_ceil_no_overflow; lia|]. wp_step. wp_step.
  pose proof (outside_ram_iff m base len Hm Hb Hl) as Hout.
  wp_step. eapply (wp_mono _ _ (λ o m', m' = m ∧ (o = true ↔ ¬ inside_ram m base len))).
  { destruct (Z.ltb_spec (base / FRAME_SIZE * FRAME_SIZE) (ram_base m)).
    - wp_step. split; [done|]. split; [intros _|done]. apply Hout. by left.
    - wp_step. eapply wp_lift; [apply add64_ok; rewrite MAX_RAM_val in *; lia|]. wp_step.
      split; [done|]. rewrite Z.ltb_lt, <-Hout. intuition lia. }
  intros [] ? [-> Ho].
  { wp_step. split_and!; [done..|]. split_and!; [done..|by apply Ho]. }
  assert (Hin : inside_ram m base len).
  { assert (Hdec : Decision (inside_ram m base len)) by (unfold inside_ram; apply _).
    destruct Hdec as [|Hn]; [done|]. by apply Ho in Hn. }
  pose proof (λ i, touches_span m base len i Hm Hin Hl) as Ht.
  pose proof (run_in_map m base len Hm Hin Hl) as (Hfirst & Hlast & Hcount).
  cbv zeta in Ht. wp_step. eapply wp_lift; [apply sub64_ok|by apply wp_reserve_run].
  pose proof (align_down_le base FRAME_SIZE eq_refl). pose proof (div_ceil_ge (base + len)). lia.
Qed.

(** ** Adopting the real memory map *)

Definition rounded (size : Z) : Z := Z.min size MAX_RAM / FRAME_SIZE * FRAME_SIZE.

Lemma rounded_bounds size :
  0 ≤ size → 0 ≤ rounded size ≤ MAX_RAM ∧ rounded size mod FRAME_SIZE = 0 ∧
  rounded size / FRAME_SIZE ≤ MAX_FRAMES ∧ 0 ≤ rounded size / FRAME_SIZE.
Proof.
  intros H. unfold rounded. rewrite MAX_FRAMES_val, MAX_RAM_val. unfold FRAME_SIZE. zdiv.
Qed.

Definition adopt_post (m : machine) (base size : Z) (r : Result Z ReserveError) (m' : machine) : Prop :=
  let old := frame_count m in
  let new := rounded size / FRAME_SIZE in
  match r with
  | Ok d => base = ram_base m ∧ d = new - old ∧ ram_base m' = ram_base m ∧
      ram_size m' = rounded size ∧
      (∀ i, new ≤ i < old → i ∈ free_of m) ∧
      (∀ i, i ∈ free_of m' ↔ i < new ∧ (i ∈ free_of m ∨ old ≤ i)) ∧
      reserved_frames m' = reserved_frames m ∧ memory m' = memory m
  | Err (OutsideRam a) => m' = m ∧ a = base ∧ base ≠ ram_base m
  | Err (AlreadyTaken a) => m' = m ∧ base = ram_base m ∧ ∃ i, a = from_index m i ∧
      new ≤ i < old ∧ i ∉ free_of m
  end.

(** Changing the size of RAM under a bitmap that fits the new size. *)
Lemma inv_resize m b st :
  alloc_inv m → 0 ≤ RAM_LENGTH st ≤ MAX_RAM → RAM_LENGTH st mod FRAME_SIZE = 0 →
  RAM_BASE_ADDR st = ram_base m → ram_base m + RAM_LENGTH st ≤ 2 ^ 48 → ALLOCATOR st = b →
  Bitmap.shape b → Bitmap.free b = Z.of_nat (size (Bitmap.free_set b)) →
  (∀ i, i ∈ Bitmap.free_set b → i < RAM_LENGTH st / FRAME_SIZE) →
  alloc_inv (set_statics st m).
Proof.
  intros [] ??? Htop <- ???. split; unfold ram_base, ram_size in *; simpl in *; rewrite ?H1; try done.
Qed.

(** The arm of [adopt] that grows RAM: [allocator.clear_range(old..new)]. *)
Lemma wp_adopt_grow m lo hi Q :
  alloc_inv m → lo = frame_count m → lo < hi → hi ≤ MAX_FRAMES →
  (∀ b, Bitmap.shape b → Bitmap.free b = Z.of_nat (size (Bitmap.free_set b)) →
     Bitmap.reserved b = reserved_frames m →
     Bitmap.free_set b = free_of m ∪ Bitmap.span lo hi → Q tt (set_bitmap b m)) →
  wp (with_allocator (_ ← Bitmap.clear_range lo hi; add_free (hi - lo))) m Q.
Proof.
  intros Hm -> Hlt Hhi HQ. pose proof (frame_count_bounds _ Hm) as [Hfc _].
  apply wp_with_allocator. wp_step. apply Bitmap.wp_clear_range; [apply Hm|lia|done|].
  intros b Hr. pose proof (Bitmap.free_set_clear_range _ _ _ _ (proj1 Hfc) Hhi Hr) as Hfs.
  destruct Hr as (Hs & Hf & Hres & _). pose proof (free_frames_bound _ Hm) as Hfb.
  rewrite MAX_FRAMES_val in *. unfold free_frames in Hfb.
  unfold add_free. wp_steps. eapply wp_lift; [apply add64_ok; lia|]. wp_steps. apply HQ.
  - by split; apply Hs.
  - rewrite Bitmap.free_set_with_free, Hfs, size_union, Bitmap.size_span.
    + simpl. rewrite Hf. pose proof (inv_count _ Hm). unfold free_frames, free_of in *. lia.
    + intros i Hi Hi'%Bitmap.elem_of_span. pose proof (free_of_range _ _ Hm Hi). lia.
  - done.
  - by rewrite Bitmap.free_set_with_free.
Qed.

Lemma wp_adopt_shrink m lo hi Q :
  alloc_inv m → hi = frame_count m → 0 ≤ lo ≤ hi → (∀ i, lo ≤ i < hi → i ∈ free_of m) →
  (∀ b, Bitmap.shape b → Bitmap.free b = Z.of_nat (size (Bitmap.free_set b)) →
     Bitmap.reserved b = reserved_frames m →
     Bitmap.free_set b = free_of m ∖ Bitmap.span lo hi → Q tt (set_bitmap b m)) →
  wp (with_allocator (_ ← Bitmap.set_range lo hi; sub_free (hi - lo))) m Q.
Proof.
  intros Hm -> Hle Hall HQ. pose proof (frame_count_bounds _ Hm) as [Hfc _].
  apply wp_with_allocator. wp_step. apply Bitmap.wp_set_range; [apply Hm|lia|lia|].
  intros b Hr. pose proof (Bitmap.free_set_set_range _ _ _ _ Hr) as Hfs.
  destruct Hr as (Hs & Hf & Hres & _).
  apply (wp_remove m b (Bitmap.span lo (frame_count m)));
    [done| |rewrite Bitmap.size_span; lia|done..|].
  { intros i Hi%Bitmap.elem_of_span. by apply Hall. }
  intros b' Hinv Hfs' Hres'. apply HQ; [apply Hinv|apply (inv_count _ Hinv)| |done].
  unfold reserved_frames. congruence.
Qed.

Lemma wp_adopt m base size :
  alloc_inv m → 0 ≤ size → ram_base m + rounded size ≤ 2 ^ 48 →
  wp (adopt base size) m (λ r m', alloc_inv m' ∧ adopt_post m base size r m').
Proof.
  intros Hm Hsz Htop. pose proof (frame_count_bounds _ Hm) as [Hfc _].
  destruct (rounded_bounds size Hsz) as (Hr1 & Hr2 & Hr3 & Hr4).
  unfold adopt. wp_step. wp_step. destruct (Z.eqb_spec base (ram_base m)) as [->|Hne]; cbn [negb]; cbv iota.
  2: { wp_step. split; [done|]. done. }
  change (Z.min size MAX_RAM / FRAME_SIZE * FRAME_SIZE) with (rounded size).
  destruct (Z.ltb_spec (frame_count m) (rounded size / FRAME_SIZE)) as [Hlt|Hge].
  - wp_step. apply wp_adopt_grow; [done..|]. intros b Hs Hf Hres Hfs. unfold set_ram. wp_steps.
    split.
    + eapply (inv_resize m b); try done. simpl. rewrite Hfs.
      intros i [Hi%(free_of_range _ _ Hm)|Hi%Bitmap.elem_of_span]%elem_of_union; lia.
    + split_and!; [reflexivity..|intros; lia| |done|reflexivity].
      intros i. unfold free_of at 1; simpl. unfold bitmap; simpl.
        rewrite Hfs, elem_of_union, Bitmap.elem_of_span. pose proof (free_of_range m i Hm). intuition lia.
  - wp_step. apply wp_find_taken; [done|lia..| |].
    + intros i Hi Hni _. wp_step. split; [done|]. simpl. naive_solver.
    + intros Hall. wp_step. apply wp_adopt_shrink; [done..|]. intros b Hs Hf Hres Hfs.
      unfold set_ram. wp_steps. split.
      * eapply (inv_resize m b); try done. simpl. rewrite Hfs.
        intros i [Hi%(free_of_range _ _ Hm) Hi']%elem_of_difference.
        rewrite Bitmap.elem_of_span in Hi'. lia.
      * split_and!; [reflexivity..|done| |done|reflexivity].
        intros i. unfold free_of at 1; simpl. unfold bitmap; simpl.
        rewrite Hfs, elem_of_difference, Bitmap.elem_of_span.
        pose proof (free_of_range m i Hm). intuition lia.
Qed.
