(* ===== verification/FramesBoot.v ===== *)
(** * FramesBoot: the allocator comes up, and keeps its contract

    [wp_init] establishes the invariant of [FramesSpec.v] from the machine at
    reset; the instances at the end discharge [FrameAllocLaws], so everything
    proved against the interface holds of the bitmap allocator; [self_test] is
    the boot-time check of [frames.rs], run as a definition. *)

From S2P Require Import Prelude Memory FrameAlloc Frames FramesSpec.

Lemma new_shape : Bitmap.shape Bitmap.new.
Proof.
  split; [apply length_replicate|]. apply Forall_replicate. unfold is_u64. lia.
Qed.

Lemma new_bit i : Bitmap.bit Bitmap.new i = false.
Proof.
  unfold Bitmap.bit. cbn [Bitmap.new Bitmap.bits].
  destruct (replicate (Z.to_nat BITMAP_WORDS) 0 !! Z.to_nat (i / 64)) as [x|] eqn:Hx.
  - apply lookup_replicate in Hx as [-> _]. apply Z.testbit_0_l.
  - apply Z.testbit_0_l.
Qed.

(** The first frame wholly past the kernel image. *)
Definition image_frames (kernel_end base : Z) : Z :=
  (div_ceil kernel_end FRAME_SIZE * FRAME_SIZE - base) / FRAME_SIZE.

(** A boot the kernel can make: RAM is frame aligned and below [2^48], and the
    image ends inside it. *)
Record bootable (kernel_end base size : Z) : Prop := {
  boot_base : 0 ≤ base ∧ base mod FRAME_SIZE = 0;
  boot_size : 0 ≤ size ∧ base + rounded size ≤ 2 ^ 48;
  boot_image : base ≤ kernel_end ≤ base + rounded size
}.

Lemma image_frames_bounds kernel_end base size :
  bootable kernel_end base size →
  0 ≤ image_frames kernel_end base ≤ rounded size / FRAME_SIZE ∧
  base ≤ div_ceil kernel_end FRAME_SIZE * FRAME_SIZE ≤ u64_max ∧
  ∀ i, image_frames kernel_end base ≤ i ↔ kernel_end ≤ base + i * FRAME_SIZE.
Proof.
  intros [[Hb Hb'] [Hs Ht] [Hk Hk']]. destruct (rounded_bounds size Hs) as (_ & Hr & _).
  unfold image_frames. rewrite div_ceil_spec by (unfold FRAME_SIZE; lia).
  unfold FRAME_SIZE in *. split_and!; try zdiv.
Qed.

Lemma wp_init kernel_end base size m :
  bitmap m = Bitmap.new → bootable kernel_end base size →
  wp (init kernel_end base size) m (λ _ m',
    alloc_inv m' ∧ ram_base m' = base ∧ ram_size m' = rounded size ∧
    (∀ i, i ∈ free_of m' ↔ kernel_end ≤ from_index m' i ∧ i < frame_count m') ∧
    reserved_frames m' = image_frames kernel_end base ∧
    memory m' = memory m ∧
    IMAGE_END (statics_of m') = div_ceil kernel_end FRAME_SIZE * FRAME_SIZE).
Proof.
  intros Hnew Hboot. destruct (boot_size _ _ _ Hboot) as [Hsz Htop].
  destruct (rounded_bounds size Hsz) as (Hr1 & Hr2 & Hr3 & Hr4).
  destruct (image_frames_bounds _ _ _ Hboot) as (Hk1 & Hk2 & Hk3).
  unfold init. change (Z.min size MAX_RAM / FRAME_SIZE * FRAME_SIZE) with (rounded size).
  unfold set_ram. wp_steps. eapply wp_lift; [apply mul64_ok; apply Hk2|]. wp_steps.
  eapply wp_lift; [apply sub64_ok; apply Hk2|]. wp_step.
  change ((div_ceil kernel_end FRAME_SIZE * FRAME_SIZE - base) / FRAME_SIZE)
    with (image_frames kernel_end base) in *.
  apply wp_with_allocator. change (bitmap (set_statics _ m)) with (bitmap m). rewrite Hnew.
  wp_step. apply Bitmap.wp_set_range; [apply new_shape|lia..|]. intros b1 (Hs1 & _ & _ & Hb1).
  wp_step. apply Bitmap.wp_set_range; [done|lia..|]. intros b2 (Hs2 & _ & _ & Hb2).
  wp_steps. eapply wp_lift; [apply sub64_ok; lia|]. wp_steps. unfold set_image_end. wp_steps.
  set (b := Bitmap.with_free _ _).
  assert (Hfs : Bitmap.free_set b =
    Bitmap.span (image_frames kernel_end base) (rounded size / FRAME_SIZE)).
  { apply set_eq. intros i. unfold b.
    rewrite Bitmap.free_set_with_free, Bitmap.free_set_with_reserved,
      Bitmap.elem_of_free_set, Bitmap.elem_of_span. unfold Bitmap.in_map. split.
    - intros [Hi Hbit]. rewrite Hb2, Hb1, new_bit in Hbit by lia.
      repeat case_bool_decide; done || lia.
    - intros Hi. split; [lia|]. rewrite Hb2, Hb1, new_bit by lia.
      repeat case_bool_decide; done || lia. }
  split_and!.
  - split; [by split; apply Hs2| |apply Hboot|done|done|].
    + unfold free_frames, free_of. change (bitmap _) with b. rewrite Hfs, Bitmap.size_span.
      unfold b. simpl. lia.
    + unfold free_of. change (bitmap _) with b. rewrite Hfs. intros i Hi%Bitmap.elem_of_span.
      apply Hi.
  - done.
  - done.
  - intros i. unfold free_of. change (bitmap _) with b. rewrite Hfs, Bitmap.elem_of_span, Hk3.
    done.
  - done.
  - done.
  - done.
Qed.

(** [is_taken] agrees with the abstract state. *)
Lemma wp_is_taken m addr :
  alloc_inv m →
  wp (is_taken addr) m (λ r m', m' = m ∧
    (r = true ↔ ∃ i, 0 ≤ i < frame_count m ∧ i ∉ free_of m ∧
       from_index m i ≤ addr < from_index m i + FRAME_SIZE)).
Proof.
  intros Hm. destruct (inv_base _ Hm), (inv_size _ Hm) as [Hsz Hsz']. pose proof (inv_top _ Hm).
  destruct (frame_count_bounds _ Hm) as [Hfc Hfs].
  unfold is_taken. wp_steps. eapply wp_lift; [apply add64_ok; rewrite MAX_RAM_val in *; lia|].
  destruct (Z.leb_spec (ram_base m) addr); simpl.
  2: { wp_step. split; [done|]. split; [done|]. intros (i & Hi & _ & Ha).
       pose proof (from_index_bounds _ _ Hm Hi). lia. }
  destruct (Z.ltb_spec addr (ram_base m + ram_size m)); simpl.
  2: { wp_step. split; [done|]. split; [done|]. intros (i & Hi & _ & Ha).
       pose proof (from_index_bounds _ _ Hm Hi). lia. }
  apply wp_with_allocator. set (k := (addr - ram_base m) / FRAME_SIZE).
  assert (Hk : 0 ≤ k < frame_count m ∧ from_index m k ≤ addr < from_index m k + FRAME_SIZE).
  { rewrite Hfs in *. unfold k, from_index, FRAME_SIZE in *. zdiv. }
  apply Bitmap.wp_is_set; [apply Hm|unfold Bitmap.in_map; lia|]. rewrite set_bitmap_id.
  split; [done|]. split.
  - intros Hb. exists k. split; [lia|]. split; [|lia]. rewrite free_of_bit by lia. congruence.
  - intros (i & Hi & Hni & Ha). assert (i = k) as ->.
    { unfold from_index, FRAME_SIZE in *. lia. }
    rewrite free_of_bit in Hni by lia. by apply not_false_is_true.
Qed.

(** ** The contract *)

Definition is_avail (m : machine) (f : Z) : Prop := ∃ i, f = from_index m i ∧ i ∈ free_of m.

#[export] Instance frames_alloc : FrameAlloc machine := {
  fa_mem := memory;
  fa_set_mem := set_memory;
  fa_alloc := alloc;
  fa_free := free;
  fa_frame := is_frame;
  fa_avail := is_avail;
  fa_ok := λ m, alloc_inv m ∧ bytes_ok (memory m)
}.

Lemma same_ram_frame m m' f : same_ram m m' → is_frame m' f ↔ is_frame m f.
Proof. intros [Hb Hs]. unfold is_frame, from_index, frame_count. by rewrite Hb, Hs. Qed.

Lemma same_ram_index m m' i : same_ram m m' → from_index m' i = from_index m i.
Proof. intros [Hb Hs]. unfold from_index. by rewrite Hb. Qed.

Lemma is_avail_index m i : is_avail m (from_index m i) ↔ i ∈ free_of m.
Proof.
  split; [|intros; by exists i]. intros (j & He & Hj). by apply from_index_inj in He as ->.
Qed.

#[export] Instance frames_laws : FrameAllocLaws machine.
Proof.
  split; simpl.
  - done.
  - intros mm m [Hm _] ?. split; [by apply inv_set_memory|done].
  - done.
  - done.
  - by intros m [_ ?].
  - intros m f [Hm _] (i & -> & Hi). exists i. split; [done|]. by apply free_of_range.
  - intros m f [Hm _] (i & -> & Hi). pose proof (from_index_bounds _ _ Hm Hi).
    pose proof (inv_top _ Hm). destruct (inv_base _ Hm). unfold FRAME_SIZE in *. lia.
  - intros m [Hm Hb]. eapply wp_mono; [by apply wp_alloc|].
    intros r m' (Hm' & Hram & _ & Hr). destruct r as [f|].
    + destruct Hr as (i & -> & Hi & Hlow & Hfs & Hmem). split_and!; [done| | | | |done|].
      * rewrite Hmem. by apply zero_range_bytes.
      * intros g. by apply same_ram_frame.
      * by apply is_avail_index.
      * intros g. unfold is_avail. setoid_rewrite (same_ram_index _ _ _ Hram).
        setoid_rewrite Hfs. setoid_rewrite elem_of_difference. setoid_rewrite elem_of_singleton.
        split; [intros (j & -> & ? & Hne); split; [eauto|]; by intros ?%from_index_inj|].
        intros [(j & -> & ?) Hne]. exists j. naive_solver.
      * intros g (j & -> & Hj). specialize (Hlow j Hj). unfold from_index, FRAME_SIZE. lia.
    + destruct Hr as [-> He]. split_and!; [done..|]. intros g (i & _ & Hi). set_solver.
  - intros m f [Hm Hb] (i & -> & Hi) Hna. rewrite is_avail_index in Hna.
    eapply wp_mono; [by apply wp_free|]. intros _ m' (Hm' & Hram & _ & Hfs & Hmem).
    split_and!; [done|by rewrite Hmem| | |done].
    + intros g. by apply same_ram_frame.
    + intros g. unfold is_avail. setoid_rewrite (same_ram_index _ _ _ Hram).
      setoid_rewrite Hfs. setoid_rewrite elem_of_union. setoid_rewrite elem_of_singleton.
      naive_solver.
Qed.

(** ** The boot-time self test *)

Lemma is_zeroed_spec m f :
  is_zeroed m f = true ↔ ∀ x, f ≤ x < f + FRAME_SIZE → memory m x = 0.
Proof.
  unfold is_zeroed. rewrite forallb_forall. split.
  - intros H x Hx. apply Z.eqb_eq, H. apply list_elem_of_In, elem_of_range. done.
  - intros H x Hx%list_elem_of_In%elem_of_range. by apply Z.eqb_eq, H.
Qed.

(** Zeroing keeps what was zero. *)
Lemma is_zeroed_fresh m f g mm :
  memory m = zero_range mm g FRAME_SIZE →
  f = g ∨ (∀ x, f ≤ x < f + FRAME_SIZE → mm x = 0) → is_zeroed m f = true.
Proof.
  intros Hm Hf. apply is_zeroed_spec. intros x Hx. rewrite Hm.
  destruct Hf as [<-|Hf]; [by apply zero_range_in|].
  unfold zero_range. case_match; [done|by apply Hf].
Qed.

(** [m] is [m0] with the free frames [X], whatever memory holds. *)
Record at_free (m0 m : machine) (X : gset Z) : Prop := {
  at_inv : alloc_inv m;
  at_ram : same_ram m0 m;
  at_reserved : reserved_frames m = reserved_frames m0;
  at_set : free_of m = X
}.

Lemma at_free_memory m0 m X mm : at_free m0 m X → at_free m0 (set_memory mm m) X.
Proof. intros []. split; [by apply inv_set_memory|done..]. Qed.

Lemma at_free_elim m0 m X : at_free m0 m X →
  alloc_inv m ∧ same_ram m0 m ∧ free_of m = X ∧ reserved_frames m = reserved_frames m0.
Proof. by intros []. Qed.

Lemma at_free_count m0 m X : at_free m0 m X → free_frames m = Z.of_nat (size X).
Proof. intros H. rewrite <-(at_set _ _ _ H). apply inv_count, H. Qed.

Lemma at_free_index m0 m X i : at_free m0 m X → from_index m i = from_index m0 i.
Proof. intros H. by apply same_ram_index, (at_ram _ _ _ H). Qed.

Lemma at_free_frames m0 m X : at_free m0 m X → frame_count m = frame_count m0.
Proof. intros H. unfold frame_count. by rewrite (proj2 (at_ram _ _ _ H)). Qed.

(** Allocation is lowest first and deterministic. *)
Lemma wp_alloc_at m0 m X i Q :
  at_free m0 m X → i ∈ X → (∀ j, j ∈ X → i ≤ j) →
  (∀ m', at_free m0 m' (X ∖ {[i]}) →
     memory m' = zero_range (memory m) (from_index m0 i) FRAME_SIZE →
     Q (Some (from_index m0 i)) m') →
  wp alloc m Q.
Proof.
  intros Hat Hi Hlow HQ. pose proof (at_free_index _ _ _ i Hat) as Hix.
  destruct Hat as [Hm [Hb Hs] Hres <-]. eapply wp_mono; [by apply wp_alloc|].
  intros r m' (Hm' & [Hb' Hs'] & Hres' & Hr). destruct r as [f|].
  - destruct Hr as (k & -> & Hk & Hkl & Hfs & Hmem).
    assert (k = i) as -> by (specialize (Hkl i Hi); specialize (Hlow k Hk); lia).
    rewrite Hix in *. apply HQ; [|done].
    split; [done|split; congruence|congruence|done].
  - destruct Hr as [_ He]. set_solver.
Qed.

Lemma wp_free_at m0 m X i Q :
  at_free m0 m X → 0 ≤ i < frame_count m0 → i ∉ X →
  (∀ m', at_free m0 m' (X ∪ {[i]}) → Q tt m') →
  wp (free (from_index m0 i)) m Q.
Proof.
  intros Hat Hi Hni HQ. rewrite <-(at_free_frames _ _ _ Hat) in Hi.
  rewrite <-(at_free_index _ _ _ i Hat). destruct Hat as [Hm [Hb Hs] Hres <-].
  eapply wp_mono; [by apply wp_free|]. intros [] m' (? & [? ?] & ? & ? & _).
  apply HQ. split; [done|split; congruence|congruence|done].
Qed.

Lemma wp_is_taken_free m0 m X i Q :
  at_free m0 m X → i ∈ X → Q false m → wp (is_taken (from_index m0 i)) m Q.
Proof.
  intros Hat Hi HQ. pose proof (at_free_index _ _ _ i Hat) as Hix.
  destruct Hat as [Hm _ _ HX]. eapply wp_mono; [by apply wp_is_taken|].
  intros [] m' [-> Hr]; [|done]. destruct (proj1 Hr eq_refl) as (j & _ & Hni & Ha).
  assert (j = i) as -> by (unfold from_index, FRAME_SIZE in *; lia). congruence.
Qed.

Lemma wp_expect_Some {S A} (a : A) why (s : S) (Q : A → S → Prop) :
  Q a s → wp (expectM (Some a) why) s Q.
Proof. done. Qed.

(** What [self_test] asks of the machine it runs on: the two lowest free frames
    are neighbours, the last frame is free, and RAM is neither at the bottom of
    memory nor close to wrapping. *)
Record testable (m : machine) (i : Z) : Prop := {
  ts_inv : alloc_inv m;
  ts_low : i ∈ free_of m ∧ ∀ j, j ∈ free_of m → i ≤ j;
  ts_next : i + 1 ∈ free_of m;
  ts_last : frame_count m - 1 ∈ free_of m;
  ts_base : 0x2000 ≤ ram_base m;
  ts_reserved : 0 ≤ reserved_frames m ∧ reserved_frames m + MAX_FRAMES ≤ u64_max
}.

(** A reservation of the two frames at [i], of which the second is taken. *)
Lemma wp_reserve_pair m0 m X i Q :
  at_free m0 m X → i ∈ X → i + 1 ∉ X → 0 ≤ i → i + 1 < frame_count m0 →
  0 ≤ reserved_frames m0 → reserved_frames m0 + MAX_FRAMES ≤ u64_max →
  Q (Err (AlreadyTaken (from_index m0 (i + 1)))) m →
  wp (reserve_range (from_index m0 i) (FRAME_SIZE * 2)) m Q.
Proof.
  intros Hat Hi Hni Hi0 Hic Hr0 Hr1 HQ. pose proof (at_free_frames _ _ _ Hat) as Hfc.
  rewrite <-(at_free_index _ _ _ i Hat). rewrite <-(at_free_index _ _ _ _ Hat) in HQ.
  destruct Hat as [Hm Hram Hres <-]. destruct (frame_count_bounds _ Hm) as [? Hsz].
  destruct (from_index_bounds m i Hm) as (Hlo & Hhi & _); [lia|].
  destruct (from_index_bounds m (i + 1) Hm) as (_ & Hhi' & _); [lia|].
  destruct (inv_base _ Hm). pose proof (inv_top _ Hm).
  assert (Htwo : ∀ j, touches m (from_index m i) (FRAME_SIZE * 2) j ↔ j = i ∨ j = i + 1).
  { intros j. unfold touches, from_index, FRAME_SIZE. lia. }
  eapply wp_mono; [apply wp_reserve_range; [done|lia|unfold FRAME_SIZE; lia| |lia|lia]|].
  { left. unfold from_index, FRAME_SIZE in *. lia. }
  intros r m' (_ & _ & Hp). destruct r as [n|[a|a]]; simpl in Hp.
  - destruct Hp as (_ & Hall & _). destruct Hni. apply Hall, Htwo. by right.
  - destruct Hp as (_ & _ & Hout). destruct Hout. unfold inside_ram, from_index, FRAME_SIZE in *. lia.
  - destruct Hp as (-> & _ & k & -> & Hk & Hnk & _). apply Htwo in Hk as [->| ->]; done.
Qed.

Lemma is_zeroed_false m f x :
  f ≤ x < f + FRAME_SIZE → memory m x ≠ 0 → is_zeroed m f = false.
Proof.
  intros Hx Hne. destruct (is_zeroed m f) eqn:Hz; [|done]. rewrite is_zeroed_spec in Hz.
  by destruct Hne; apply Hz.
Qed.

Lemma wp_refuse_move m0 m X base sz Q :
  at_free m0 m X → base = ram_base m → sz = ram_size m →
  Q (Err (OutsideRam (base + FRAME_SIZE))) m →
  wp (adopt (base + FRAME_SIZE) sz) m Q.
Proof.
  intros Hat -> -> HQ. pose proof (at_inv _ _ _ Hat) as Hm. destruct (inv_size _ Hm).
  eapply wp_mono; [apply wp_adopt; [done|lia|]|].
  { destruct (rounded_bounds (ram_size m)); [lia|].
    replace (rounded (ram_size m)) with (ram_size m); [apply (inv_top _ Hm)|].
    unfold rounded. rewrite Z.min_l by lia. unfold FRAME_SIZE in *. zdiv. }
  intros r m' [_ Hp]. destruct r as [n|[a|a]]; simpl in Hp.
  - exfalso. unfold FRAME_SIZE in *. lia.
  - by destruct Hp as (-> & -> & _).
  - exfalso. unfold FRAME_SIZE in *. lia.
Qed.

Lemma wp_refuse_low m0 m X Q :
  at_free m0 m X → 0x2000 ≤ ram_base m0 → 0 ≤ reserved_frames m0 →
  reserved_frames m0 + MAX_FRAMES ≤ u64_max →
  Q (Err (OutsideRam 0x1000)) m → wp (reserve_range 0x1000 FRAME_SIZE) m Q.
Proof.
  intros [Hm [Hb _] Hres _] Hbase Hr0 Hr1 HQ.
  eapply wp_mono; [apply wp_reserve_range; [done|unfold FRAME_SIZE; lia..]|].
  intros r m' (_ & _ & Hp). destruct r as [n|[a|a]]; simpl in Hp.
  - destruct Hp as ([? _] & _). lia.
  - by destruct Hp as (-> & -> & _).
  - destruct Hp as (_ & [? _] & _). lia.
Qed.

(** The free sets [self_test] passes through. *)
Lemma free_set_back (X : gset Z) i : i ∈ X → X ∖ {[i]} ∪ {[i]} = X.
Proof.
  intros Hi. apply set_eq. intros j. rewrite elem_of_union, elem_of_difference, elem_of_singleton.
  destruct (decide (j = i)); naive_solver.
Qed.
Lemma free_set_back2 (X : gset Z) i j :
  i ∈ X → j ∈ X → i ≠ j → X ∖ {[i]} ∖ {[j]} ∪ {[i]} = X ∖ {[j]} ∧ X ∖ {[j]} ∪ {[j]} = X.
Proof.
  intros Hi Hj Hne. split; [|by apply free_set_back]. apply set_eq. intros k.
  rewrite elem_of_union, !elem_of_difference, !elem_of_singleton.
  destruct (decide (k = i)); naive_solver.
Qed.
Lemma free_set_without (X : gset Z) i j :
  i ∈ X → j ∈ X → i ≠ j →
  i ∉ X ∖ {[i]} ∧ i ∉ X ∖ {[i]} ∖ {[j]} ∧ j ∉ X ∖ {[j]} ∧ i ∈ X ∖ {[j]} ∧ j ∈ X ∖ {[i]}.
Proof. set_solver. Qed.
Lemma size_minus (X : gset Z) i : i ∈ X → Z.of_nat (size (X ∖ {[i]})) = Z.of_nat (size X) - 1.
Proof.
  intros Hi. rewrite size_difference by set_solver. rewrite size_singleton.
  assert (size X ≠ 0%nat); [|lia]. intros H0%size_empty_inv. set_solver.
Qed.

(** ** A machine to apply them to: QEMU's [virt] board at its defaults *)

Definition virt_end : Z := 0x40200000.
Definition virt : machine :=
  match init virt_end DEFAULT_RAM_BASE DEFAULT_RAM_SIZE (reset (λ _, 0)) with
  | Done (_, m) => m
  | Panic _ => reset (λ _, 0)
  end.

Lemma virt_bootable : bootable virt_end DEFAULT_RAM_BASE DEFAULT_RAM_SIZE.
Proof. by repeat split. Qed.

Lemma virt_ok :
  alloc_inv virt ∧ ram_base virt = DEFAULT_RAM_BASE ∧ ram_size virt = DEFAULT_RAM_SIZE ∧
  (∀ i, i ∈ free_of virt ↔ virt_end ≤ from_index virt i ∧ i < frame_count virt) ∧
  reserved_frames virt = 512 ∧ memory virt = λ _, 0.
Proof.
  pose proof (wp_init _ _ _ (reset (λ _, 0)) eq_refl virt_bootable) as H.
  apply wp_elim in H as ([] & m & He & Hm & Hb & Hs & Hf & Hr & Hmem & _).
  assert (Hv : virt = m) by (unfold virt; rewrite He; reflexivity). rewrite Hv.
  split_and!; [assumption..| |assumption]. rewrite Hr. reflexivity.
Qed.

Global Opaque virt.

Lemma virt_free i : i ∈ free_of virt ↔ 512 ≤ i < 65536.
Proof.
  destruct virt_ok as (_ & Hb & Hs & Hf & _). rewrite Hf. unfold from_index, frame_count.
  rewrite Hb, Hs. unfold DEFAULT_RAM_BASE, DEFAULT_RAM_SIZE, virt_end, FRAME_SIZE. zdiv.
Qed.

Lemma virt_index i : from_index virt i = 0x40000000 + i * 4096.
Proof. unfold from_index. by destruct virt_ok as (_ & -> & _). Qed.

Lemma virt_frames : frame_count virt = 65536.
Proof. destruct virt_ok as (_ & _ & Hs & _). unfold frame_count. by rewrite Hs. Qed.

Lemma virt_contract : fa_ok virt ∧ ∀ i, 512 ≤ i < 65536 → fa_avail virt (from_index virt i).
Proof.
  destruct virt_ok as (Hm & _ & _ & _ & _ & Hmem). split.
  - split; [done|]. rewrite Hmem. intros a. lia.
  - intros i Hi. exists i. split; [done|]. by apply virt_free.
Qed.
