(* ===== verification/FramesProps.v ===== *)
(** * FramesProps: the properties of the frame allocator *)

From S2P Require Import Prelude Memory FrameAlloc Frames FramesSpec FramesBoot.

(** ** Helpers *)

(** Two well-shaped bitmaps with the same bits and counters are equal. *)
Lemma bitmap_ext b b' :
  Bitmap.shape b → Bitmap.shape b' → Bitmap.free b = Bitmap.free b' →
  Bitmap.reserved b = Bitmap.reserved b' →
  (∀ j, 0 ≤ j → Bitmap.bit b j = Bitmap.bit b' j) → b = b'.
Proof.
  destruct b as [l f r], b' as [l' f' r']; simpl. intros [Hl Hw] [Hl' Hw'] -> -> Hb.
  simpl in *. f_equal. apply list_eq_same_length with (n := length l); [congruence|done|].
  intros k x x' Hk Hx Hx'. rewrite Forall_lookup in Hw, Hw'.
  apply Hw in Hx as Hxu. apply Hw' in Hx' as Hxu'. apply Z.bits_inj_iff'. intros n Hn.
  destruct (Z.lt_ge_cases n 64) as [Hlt|Hge]; [|by rewrite !testbit_u64_high].
  specialize (Hb (Z.of_nat k * 64 + n) ltac:(lia)). unfold Bitmap.bit in Hb. simpl in Hb.
  replace ((Z.of_nat k * 64 + n) / 64) with (Z.of_nat k) in Hb by zdiv.
  replace ((Z.of_nat k * 64 + n) mod 64) with n in Hb by zdiv.
  rewrite Nat2Z.id, Hx, Hx' in Hb. done.
Qed.

(** ** Properties *)

(** [init] leaves the allocator in its invariant, with exactly the frames
    that lie wholly past the kernel image and inside RAM free, on every
    machine whose RAM is frame aligned and holds the image. *)
Theorem init_free_exact kernel_end base size m :
  bitmap m = Bitmap.new → bootable kernel_end base size →
  wp (init kernel_end base size) m (λ _ m',
    alloc_inv m' ∧ ram_base m' = base ∧ ram_size m' = rounded size ∧
    (∀ i, i ∈ free_of m' ↔ kernel_end ≤ from_index m' i ∧ i < frame_count m') ∧
    free_frames m' + reserved_frames m' = frame_count m' ∧ memory m' = memory m).
Proof.
  intros Hnew Hboot. eapply wp_mono; [by apply wp_init|].
  intros _ m' (Hm & Hb & Hs & Hf & Hr & Hmem & _). split_and!; [done..| |done].
  destruct (image_frames_bounds _ _ _ Hboot) as (Hk1 & _ & Hk3).
  assert (Hsp : free_of m' = Bitmap.span (image_frames kernel_end base) (frame_count m')).
  { apply set_eq. intros i. rewrite Hf, Bitmap.elem_of_span, Hk3. unfold from_index.
    by rewrite Hb. }
  rewrite (inv_count _ Hm), Hsp, Bitmap.size_span, Hr. unfold frame_count. rewrite Hs. lia.
Qed.

Lemma init_free_exact_witness :
  wp (init virt_end DEFAULT_RAM_BASE DEFAULT_RAM_SIZE) (reset (λ _, 0)) (λ _ m',
    alloc_inv m' ∧ ram_base m' = DEFAULT_RAM_BASE ∧ ram_size m' = rounded DEFAULT_RAM_SIZE ∧
    (∀ i, i ∈ free_of m' ↔ virt_end ≤ from_index m' i ∧ i < frame_count m') ∧
    free_frames m' + reserved_frames m' = frame_count m' ∧ memory m' = λ _, 0).
Proof.
  apply (init_free_exact virt_end DEFAULT_RAM_BASE DEFAULT_RAM_SIZE (reset (λ _, 0)));
    [reflexivity|apply virt_bootable].
Defined.

(** C11: [alloc] takes the lowest free frame and zeroes it, and nothing else
    changes; it fails only when no frame is free. *)
Theorem alloc_lowest m :
  alloc_inv m →
  wp alloc m (λ r m', alloc_inv m' ∧ same_ram m m' ∧ reserved_frames m' = reserved_frames m ∧
    match r with
    | Some frame => ∃ i, frame = from_index m i ∧ i ∈ free_of m ∧
        (∀ j, j ∈ free_of m → i ≤ j) ∧
        free_of m' = free_of m ∖ {[i]} ∧
        memory m' = zero_range (memory m) frame FRAME_SIZE
    | None => m' = m ∧ free_of m = ∅
    end).
Proof. apply wp_alloc. Qed.

Lemma alloc_lowest_witness :
  ∃ r m', alloc virt = Done (r, m') ∧ alloc_inv m' ∧ r ≠ None.
Proof.
  destruct (wp_elim _ _ _ (alloc_lowest virt (proj1 virt_ok))) as (r & m' & He & Hm & _ & _ & Hr).
  exists r, m'. split; [exact He|]. split; [exact Hm|]. intros ->. destruct Hr as [_ Hr].
  apply (not_elem_of_empty (C := gset Z) 512). rewrite <-Hr. apply virt_free. lia.
Defined.

(** [alloc_contiguous] is first fit: it takes the lowest run of [count]
    consecutive free frames and zeroes all of it, and fails only when there is
    no such run; the scan never reads past the last frame. *)
Theorem alloc_contiguous_first_fit m count :
  alloc_inv m → 0 < count →
  wp (alloc_contiguous count) m (λ r m',
    alloc_inv m' ∧ same_ram m m' ∧ reserved_frames m' = reserved_frames m ∧
    match r with
    | Some frame => ∃ i, frame = from_index m i ∧ run_free m i count ∧
        (∀ j, run_free m j count → i ≤ j) ∧
        free_of m' = free_of m ∖ Bitmap.span i (i + count) ∧
        memory m' = zero_range (memory m) frame (count * FRAME_SIZE)
    | None => m' = m ∧ ∀ i, ¬ run_free m i count
    end).
Proof. apply wp_alloc_contiguous. Qed.

Lemma alloc_contiguous_first_fit_witness :
  ∃ r m', alloc_contiguous 4 virt = Done (r, m') ∧ alloc_inv m' ∧ r ≠ None.
Proof.
  destruct (wp_elim _ _ _ (alloc_contiguous_first_fit virt 4 (proj1 virt_ok) ltac:(lia)))
    as (r & m' & He & Hm & _ & _ & Hr).
  exists r, m'. split; [exact He|]. split; [exact Hm|]. intros ->. destruct Hr as [_ Hr].
  apply (Hr 512). intros i Hi. apply virt_free. lia.
Defined.

(** [free] succeeds exactly on a frame of RAM that is taken, and then only
    makes that frame free; outside RAM, misaligned and already free all
    panic. *)
Theorem free_exact m f :
  alloc_inv m → 0 ≤ f →
  (∃ m', free f m = Done (tt, m')) ↔ is_frame m f ∧ ¬ is_avail m f.
Proof.
  intros Hm Hf. destruct (frame_count_bounds _ Hm) as [Hfc Hsz].
  destruct (inv_base _ Hm), (inv_size _ Hm). pose proof (inv_top _ Hm).
  split; [intros [m' Hrun]|intros [(i & -> & Hi) Hna]].
  2: { rewrite is_avail_index in Hna. destruct (wp_elim _ _ _ (wp_free m i Hm Hi Hna))
         as ([] & m' & He & _). by exists m'. }
  revert Hrun. unfold free, mbind, M_bind, getS, lift, assertM.
  rewrite add64_ok by (rewrite MAX_RAM_val in *; lia).
  destruct (Z.leb_spec (ram_base m) f), (Z.ltb_spec f (ram_base m + ram_size m)); try done.
  unfold is_multiple_of. destruct (Z.eqb_spec (f mod FRAME_SIZE) 0); [|done].
  assert (Hix : f = from_index m (frame_index m f) ∧ 0 ≤ frame_index m f < frame_count m).
  { rewrite Hsz in *. unfold frame_index, from_index, FRAME_SIZE in *. zdiv. }
  destruct Hix as [Hfi Hi]. simpl. intros Hrun. split; [by exists (frame_index m f)|].
  rewrite Hfi, is_avail_index, free_of_bit by lia. intros Hbit.
  revert Hrun. unfold with_allocator, zoom, mbind, M_bind.
  destruct (Bitmap.is_set (frame_index m f) (bitmap m)) as [[t b]|] eqn:Ht; [|done].
  pose proof (Bitmap.wp_is_set (frame_index m f) (bitmap m) (λ t b, t = false) (inv_shape _ Hm)) as Hw.
  unfold wp in Hw. rewrite Ht in Hw. rewrite Hw; [done|unfold Bitmap.in_map; lia|done].
Qed.

Lemma free_exact_witness :
  (∃ m', free 0x40000000 virt = Done (tt, m')) ∧ ¬ (∃ m', free 0x40200000 virt = Done (tt, m')).
Proof.
  destruct virt_ok as (Hm & Hb & _).
  assert (H0 : from_index virt 0 = 0x40000000) by (unfold from_index; rewrite Hb; reflexivity).
  assert (H1 : from_index virt 512 = 0x40200000) by (unfold from_index; rewrite Hb; reflexivity).
  split.
  - apply (free_exact virt 0x40000000 Hm ltac:(lia)). rewrite <-H0, is_avail_index, virt_free.
    split; [exists 0; rewrite virt_frames; split; [reflexivity|lia]|lia].
  - rewrite (free_exact virt 0x40200000 Hm ltac:(lia)). rewrite <-H1, is_avail_index, virt_free. lia.
Defined.

(** [reserve_range] is all or nothing.  On success every frame that holds a
    byte of the range was free and all of them, and no others, leave the pool;
    on an error nothing changes: [OutsideRam] exactly when some byte lies
    outside RAM, otherwise [AlreadyTaken] with the lowest taken frame of the
    range.  A range may end within a frame of [2^64] only by wrapping. *)
Theorem reserve_all_or_nothing m base len :
  alloc_inv m → 0 ≤ base → 0 < len →
  base + len ≤ u64_max + 1 - FRAME_SIZE ∨ u64_max < base + len →
  0 ≤ reserved_frames m → reserved_frames m + MAX_FRAMES ≤ u64_max →
  wp (reserve_range base len) m (λ r m',
    alloc_inv m' ∧ same_ram m m' ∧ reserve_post m base len r m').
Proof. apply wp_reserve_range. Qed.

Lemma reserve_all_or_nothing_witness :
  ∃ r m', reserve_range 0x48000100 0x2000 virt = Done (r, m') ∧
    reserve_post virt 0x48000100 0x2000 r m' ∧ r = Ok 3.
Proof.
  destruct virt_ok as (Hm & Hb & Hs & Hf & Hr & _).
  pose proof (reserve_all_or_nothing virt 0x48000100 0x2000 Hm) as H.
  destruct (wp_elim _ _ _ (H ltac:(lia) ltac:(lia) ltac:(left; unfold FRAME_SIZE; lia)
    ltac:(rewrite Hr; lia) ltac:(rewrite Hr, MAX_FRAMES_val; lia))) as (r & m' & He & _ & _ & Hp).
  exists r, m'. split; [exact He|]. split; [exact Hp|].
  assert (Hv : (match reserve_range 0x48000100 0x2000 virt with
                | Done (r, _) => Some r | Panic _ => None end) = Some (Ok 3)) by (vm_compute; reflexivity).
  rewrite He in Hv. congruence.
Defined.

(** The last frame below [2^64] is a gap in that: a range whose end rounds
    up to [2^64] overflows the rounding and stops the kernel, on every machine,
    although the sum itself is in range and outside RAM. *)
Theorem reserve_range_overflow_panics m base len :
  0 < len → u64_max + 1 - FRAME_SIZE < base + len ≤ u64_max →
  reserve_range base len m = Panic "attempt to multiply with overflow".
Proof.
  intros Hl Hs. unfold reserve_range. destruct (Z.eqb_spec len 0); [lia|].
  unfold checked_add64. rewrite (proj2 (Z.leb_le _ _)) by lia.
  unfold mbind, M_bind, lift, mul64. rewrite (proj2 (Z.leb_gt _ _)); [done|].
  rewrite div_ceil_spec by (unfold FRAME_SIZE in *; lia). unfold FRAME_SIZE in *. zdiv.
Qed.

Lemma reserve_range_overflow_panics_witness :
  reserve_range 0xFFFFFFFFFFFFF800 0x100 virt = Panic "attempt to multiply with overflow".
Proof. apply reserve_range_overflow_panics; unfold FRAME_SIZE; lia. Defined.

(** [adopt] moves the end of RAM exactly: growing frees the frames that
    appeared and no others, shrinking takes back frames that are all free, and
    a tree that moves the base, or takes away a frame in use, is refused with
    nothing changed. *)
Theorem adopt_exact m base size :
  alloc_inv m → 0 ≤ size → ram_base m + rounded size ≤ 2 ^ 48 →
  wp (adopt base size) m (λ r m', alloc_inv m' ∧ adopt_post m base size r m').
Proof. apply wp_adopt. Qed.

Lemma adopt_exact_witness :
  ∃ r m', adopt DEFAULT_RAM_BASE (512 * 1024 * 1024) virt = Done (r, m') ∧ r = Ok 65536 ∧
    alloc_inv m' ∧ 131071 ∈ free_of m'.
Proof.
  destruct virt_ok as (Hm & Hb & Hs & Hf & Hr & _).
  assert (Htop : ram_base virt + rounded (512 * 1024 * 1024) ≤ 2 ^ 48).
  { rewrite Hb. vm_compute. discriminate. }
  destruct (wp_elim _ _ _ (adopt_exact virt DEFAULT_RAM_BASE (512 * 1024 * 1024) Hm ltac:(lia) Htop))
    as (r & m' & He & Hm' & Hp).
  exists r, m'. split; [exact He|]. destruct r as [d|[a|a]]; simpl in Hp.
  - destruct Hp as (_ & -> & _ & Hs' & _ & Hfree & _). rewrite virt_frames in *.
    split; [reflexivity|]. split; [exact Hm'|]. apply Hfree. split; [vm_compute; reflexivity|right; lia].
  - destruct Hp as (_ & -> & Hne). congruence.
  - destruct Hp as (_ & _ & i & _ & Hi & _). rewrite virt_frames in Hi.
    change (rounded (512 * 1024 * 1024) / FRAME_SIZE) with 131072 in Hi. lia.
Defined.

(** The word-wise [set_range] and [clear_range] compute what the bit-by-bit
    loop would, on every range inside the bitmap. *)
Theorem range_ops_are_loops b lo hi :
  Bitmap.shape b → 0 ≤ lo ≤ hi → hi ≤ MAX_FRAMES →
  (∃ b', Bitmap.set_range lo hi b = Done (tt, b')) ∧
  Bitmap.set_range lo hi b = forM (range lo hi) Bitmap.set b ∧
  (∃ b', Bitmap.clear_range lo hi b = Done (tt, b')) ∧
  Bitmap.clear_range lo hi b = forM (range lo hi) Bitmap.clear b.
Proof.
  intros Hs Hlo Hhi.
  assert (Heq : ∀ (op : Z → M Bitmap.t unit) (fast : M Bitmap.t unit) v,
    Bitmap.paints op v →
    wp fast b (λ _ b', Bitmap.rebit b b' (λ j, if bool_decide (lo ≤ j < hi) then v else Bitmap.bit b j)) →
    (∃ b', fast b = Done (tt, b')) ∧ fast b = forM (range lo hi) op b).
  { intros op fast v Hop Hfast. apply wp_elim in Hfast as ([] & b1 & -> & Hs1 & Hf1 & Hr1 & Hb1).
    split; [by exists b1|].
    assert (Hslow : wp (forM (range lo hi) op) b (λ _ b2, b1 = b2)).
    { apply (Bitmap.wp_paint_loop op v); [done..| |].
      { intros i Hi%elem_of_range. unfold Bitmap.in_map. lia. }
      intros b2 (Hs2 & Hf2 & Hr2 & Hb2). apply bitmap_ext; [done|done|congruence|congruence|].
      intros j Hj. rewrite Hb1, Hb2 by done. apply if_bool_decide_ext. by rewrite elem_of_range. }
    apply wp_elim in Hslow as ([] & b2 & -> & ->). done. }
  destruct (Heq Bitmap.set (Bitmap.set_range lo hi) true) as [? ?]; [apply Bitmap.set_paints| |].
  { by apply Bitmap.wp_set_range. }
  destruct (Heq Bitmap.clear (Bitmap.clear_range lo hi) false) as [? ?]; [apply Bitmap.clear_paints| |].
  { by apply Bitmap.wp_clear_range. }
  done.
Qed.

Lemma range_ops_are_loops_witness :
  Bitmap.set_range 5 300 Bitmap.new = forM (range 5 300) Bitmap.set Bitmap.new.
Proof. apply (range_ops_are_loops Bitmap.new 5 300 new_shape); rewrite ?MAX_FRAMES_val; lia. Defined.

(** [self_test] passes, and leaves the pool as it found it, on every
    machine whose two lowest free frames are neighbours and whose last frame is
    free: every assertion in it follows from the allocator's contract. *)
Theorem self_test_passes m i :
  testable m i →
  wp self_test m (λ r m', r = (from_index m i, free_frames m) ∧ alloc_inv m' ∧ same_ram m m' ∧
    free_of m' = free_of m ∧ reserved_frames m' = reserved_frames m).
Proof.
  intros [Hm [Hi Hlow] Hj Hlast Hbase [Hr0 Hr1]].
  pose proof (free_of_range _ _ Hm Hi) as Hib. pose proof (free_of_range _ _ Hm Hj) as Hjb.
  remember (free_of m) as X eqn:HX in Hi, Hlow, Hj, Hlast |- *.
  assert (H0 : at_free m m X) by by split.
  destruct (free_set_without X i (i + 1)) as (Hi' & Hi'' & Hj'' & Hi3 & Hj'); [done|done|lia|].
  assert (Hlow' : ∀ j, j ∈ X ∖ {[i]} → i + 1 ≤ j).
  { intros j [Hj1 Hj2]%elem_of_difference. rewrite elem_of_singleton in Hj2. specialize (Hlow j Hj1). lia. }
  destruct (free_set_back2 X i (i + 1)) as [Hb1 Hb2]; [done|done|lia|].
  pose proof (size_minus _ _ Hi) as Hc1. pose proof (size_minus _ _ Hj') as Hc2.
  assert (Hij : from_index m i ≠ from_index m (i + 1)) by (intros ?%from_index_inj; lia).
  unfold self_test. wp_steps. rewrite (at_free_count _ _ _ H0).
  apply (wp_alloc_at m m X i); [done..|]. intros m1 H1 Hz1. wp_step. apply wp_expect_Some.
  wp_step. apply (wp_alloc_at m _ (X ∖ {[i]}) (i + 1)); [done..|]. intros m2 H2 Hz2. wp_step. apply wp_expect_Some.
  wp_step. apply wp_assertM; [by apply negb_true_iff, Z.eqb_neq|].
  wp_step. eapply wp_lift; [apply sub64_ok; lia|]. wp_steps.
  { apply Z.eqb_eq. rewrite (at_free_count _ _ _ H2). lia. }
  { apply (is_zeroed_fresh _ _ _ _ Hz2). right. intros x Hx. rewrite Hz1. by apply zero_range_in. }
  unfold scribble. wp_steps.
  { apply negb_true_iff, (is_zeroed_false _ _ (from_index m i)); [unfold FRAME_SIZE; lia|]. simpl.
    unfold fill_range, FRAME_SIZE. rewrite (proj2 (Z.leb_le _ _)), (proj2 (Z.ltb_lt _ _)) by lia. done. }
  eapply wp_free_at; [by apply at_free_memory|done|done|]. rewrite Hb1. intros m3 H3.
  wp_step. eapply wp_free_at; [done|done|done|]. rewrite Hb2. intros m4 H4. wp_steps.
  { apply Z.eqb_eq. by rewrite (at_free_count _ _ _ H4). }
  apply (wp_alloc_at m _ X i); [done..|]. intros m5 H5 Hz5. wp_step. apply wp_expect_Some. wp_steps.
  { apply Z.eqb_refl. }
  { apply (is_zeroed_fresh _ _ _ _ Hz5). by left. }
  eapply wp_free_at; [done..|]. rewrite free_set_back by done. intros m6 H6. wp_steps.
  { apply Z.eqb_eq. by rewrite (at_free_count _ _ _ H6). }
  apply (wp_alloc_at m _ X i); [done..|]. intros m7 H7 _. wp_step. apply wp_expect_Some.
  wp_step. apply (wp_alloc_at m _ (X ∖ {[i]}) (i + 1)); [done..|]. intros m8 H8 _. wp_step. apply wp_expect_Some.
  wp_step. eapply wp_free_at; [done|done|done|]. rewrite Hb1. intros m9 H9. wp_steps.
  eapply wp_reserve_pair; [done|done|done|lia..|]. wp_steps.
  { by rewrite bool_decide_true. }
  { apply Z.eqb_refl. }
  { apply Z.eqb_refl. }
  eapply wp_is_taken_free; [done|done|]. wp_steps; [done|].
  eapply wp_free_at; [done|done|done|]. rewrite Hb2. intros m10 H10. wp_steps.
  pose proof (frame_count_bounds _ (at_inv _ _ _ H10)) as [_ Hsz10].
  replace (ram_base m10 + ram_size m10 - FRAME_SIZE) with (from_index m (frame_count m - 1)).
  2: { rewrite <-(at_free_index _ _ _ _ H10), <-(at_free_frames _ _ _ H10), Hsz10.
       unfold from_index, FRAME_SIZE. lia. }
  eapply wp_is_taken_free; [done|done|]. wp_steps; [done| |].
  { apply Z.eqb_eq. by apply read_write_u64. }
  pose proof (at_free_memory _ _ _ (write_u64 (memory m10) (from_index m (frame_count m - 1)) 0x7261636b) H10) as H11.
  eapply wp_refuse_move; [by apply at_free_memory|reflexivity|reflexivity|]. wp_step. wp_step.
  { by rewrite bool_decide_true. }
  wp_steps. eapply (wp_refuse_low _ _ X); [by apply at_free_memory|lia..|]. wp_steps.
  { by rewrite bool_decide_true. }
  { apply Z.eqb_eq. by rewrite (at_free_count _ _ _ (at_free_memory _ _ _ _ H11)). }
  split; [done|]. by apply at_free_elim, at_free_memory.
Qed.

Lemma self_test_passes_witness :
  ∃ m', self_test virt = Done ((0x40200000, free_frames virt), m') ∧ free_of m' = free_of virt.
Proof.
  destruct virt_ok as (Hm & Hb & _ & _ & Hr & _).
  assert (Ht : testable virt 512).
  { split; [exact Hm|split; [apply virt_free; lia|intros j Hj%virt_free; lia]|apply virt_free; lia| | |].
    - rewrite virt_frames. apply virt_free. lia.
    - rewrite Hb. vm_compute. discriminate.
    - rewrite Hr, MAX_FRAMES_val. lia. }
  destruct (wp_elim _ _ _ (self_test_passes virt 512 Ht)) as (r & m' & He & -> & _ & _ & Hf & _).
  rewrite virt_index in He.
  exists m'. split; [exact He|exact Hf].
Defined.
