(* ===== verification/Paging.v ===== *)
(** * Paging: translation tables ([src/kernel/src/paging.rs])

    Every operation of [paging.rs] that reads or writes a table, over any state
    with a frame allocator.  [phys_to_virt] is the identity here, because the
    model's memory is indexed by physical addresses; [TTBR1_EL1], the linker's
    symbols and the map's device window are arguments.  Barriers and TLB
    maintenance have no counterpart: the model reads tables from memory. *)

From S2P Require Import Prelude Memory FrameAlloc.

Definition KERNEL_BASE : Z := 0xffff000000000000.
Definition PAGE_SIZE : Z := 4096.
Definition BLOCK_2MIB : Z := 2 * 1024 * 1024.
Definition ADDR_MASK : Z := 0x0000fffffffff000.
Definition VALID : Z := Z.shiftl 1 0.
Definition TABLE_OR_PAGE : Z := Z.shiftl 1 1.
Definition ATTR_INDEX_SHIFT : Z := 2.
Definition AP_SHIFT : Z := 6.
Definition SH_SHIFT : Z := 8.
Definition AF : Z := Z.shiftl 1 10.
Definition PXN : Z := Z.shiftl 1 53.
Definition UXN : Z := Z.shiftl 1 54.
Definition AP_RW_EL1 : Z := 0.
Definition AP_RW_ALL : Z := 1.
Definition AP_RO_EL1 : Z := 2.
Definition AP_RO_ALL : Z := 3.
Definition SH_NON_SHAREABLE : Z := 0.
Definition SH_INNER_SHAREABLE : Z := 3.
Definition MAIR_DEVICE_INDEX : Z := 0.
Definition MAIR_NORMAL_INDEX : Z := 1.
Definition ENTRIES : Z := 512.
Definition DEVICE_BASE : Z := 0x08000000.
Definition DEVICE_SIZE : Z := 32 * 1024 * 1024.

(** ** Memory types and permissions *)

Module Attributes.

(** The field every constructor fills in: memory type, permission, sharing and
    the access flag. *)
Definition lower (mair ap sh : Z) : Z :=
  Z.lor (Z.lor (Z.lor (Z.shiftl mair ATTR_INDEX_SHIFT) (Z.shiftl ap AP_SHIFT))
               (Z.shiftl sh SH_SHIFT)) AF.

Definition kernel_text : Z := Z.lor (lower MAIR_NORMAL_INDEX AP_RO_EL1 SH_INNER_SHAREABLE) UXN.
Definition kernel_rodata : Z :=
  Z.lor (Z.lor (lower MAIR_NORMAL_INDEX AP_RO_EL1 SH_INNER_SHAREABLE) UXN) PXN.
Definition kernel_data : Z :=
  Z.lor (Z.lor (lower MAIR_NORMAL_INDEX AP_RW_EL1 SH_INNER_SHAREABLE) UXN) PXN.
Definition device : Z :=
  Z.lor (Z.lor (lower MAIR_DEVICE_INDEX AP_RW_EL1 SH_NON_SHAREABLE) UXN) PXN.
Definition user_data : Z :=
  Z.lor (Z.lor (lower MAIR_NORMAL_INDEX AP_RW_ALL SH_INNER_SHAREABLE) UXN) PXN.
Definition user_text : Z := Z.lor (lower MAIR_NORMAL_INDEX AP_RO_ALL SH_INNER_SHAREABLE) PXN.

Definition all : list Z :=
  [kernel_text; kernel_rodata; kernel_data; device; user_data; user_text].

End Attributes.

(** ** Descriptors *)

Definition valid (e : Z) : bool := negb (Z.land e VALID =? 0).
Definition is_table (e : Z) : bool := negb (Z.land e TABLE_OR_PAGE =? 0).
Definition addr (e : Z) : Z := Z.land e ADDR_MASK.
(** [(entry >> AP_SHIFT) & 0b11]. *)
Definition ap (e : Z) : Z := Z.land (Z.shiftr e AP_SHIFT) 3.

Definition table_index (va level : Z) : Z := Z.land (Z.shiftr va (39 - 9 * level)) 0x1ff.

Definition entry (m : mem) (table index : Z) : Z := read_u64 m (table + 8 * index).

(** ** The operations *)

Section paging.
Context {S : Type} `{FA : FrameAlloc S}.

Definition read_entry (table index : Z) : M S Z := gets (λ s, entry (fa_mem s) table index).
Definition write_entry (table index value : Z) : M S unit :=
  modify (λ s, fa_set_mem (write_u64 (fa_mem s) (table + 8 * index) value) s).

(** [Frame::from_addr]. *)
Definition from_addr (a : Z) : M S Z :=
  _ ← assertM (is_multiple_of a PAGE_SIZE) "from_addr"; mret a.

Definition next_table (table index : Z) : M S Z :=
  e ← read_entry table index;
  if valid e then
    _ ← assertM (is_table e) "wanted a table but found a block descriptor";
    from_addr (addr e)
  else
    new ← fa_alloc;
    new ← expectM new "out of frames while building page tables";
    _ ← write_entry table index (Z.lor (Z.lor new VALID) TABLE_OR_PAGE);
    mret new.

(** [for level in .. { table = next_table(table, table_index(va, level)) }]. *)
Fixpoint descend (levels : list Z) (table va : Z) : M S Z :=
  match levels with
  | [] => mret table
  | level :: rest => t ← next_table table (table_index va level); descend rest t va
  end.

Definition map_page (root va pa attrs : Z) : M S unit :=
  table ← descend (range 0 3) root va;
  write_entry table (table_index va 3) (Z.lor (Z.lor (Z.lor pa attrs) VALID) TABLE_OR_PAGE).

Definition map_block (root va pa attrs : Z) : M S unit :=
  table ← descend (range 0 2) root va;
  write_entry table (table_index va 2) (Z.lor (Z.lor pa attrs) VALID).

(** The [while] of [map_range]; every iteration advances at least a page, so
    [size / PAGE_SIZE + 1] rounds are enough. *)
Fixpoint map_range_loop (fuel : nat) (root va pa size attrs offset : Z) : M S unit :=
  if offset <? size then
    match fuel with
    | O => panic "out of fuel"
    | Datatypes.S fuel' =>
      let remaining := size - offset in
      va' ← lift (add64 va offset);
      pa' ← lift (add64 pa offset);
      if (BLOCK_2MIB <=? remaining) && is_multiple_of va' BLOCK_2MIB && is_multiple_of pa' BLOCK_2MIB
      then
        _ ← map_block root va' pa' attrs;
        offset ← lift (add64 offset BLOCK_2MIB);
        map_range_loop fuel' root va pa size attrs offset
      else
        _ ← map_page root va' pa' attrs;
        offset ← lift (add64 offset PAGE_SIZE);
        map_range_loop fuel' root va pa size attrs offset
    end
  else mret tt.
Definition map_range (root va pa size attrs : Z) : M S unit :=
  map_range_loop (Z.to_nat (size / PAGE_SIZE + 1)) root va pa size attrs 0.

(** The linker's symbols, and what [frames] says of RAM. *)
Record layout : Type := mkLayout {
  text_start : Z; text_end : Z;
  rodata_start : Z; rodata_end : Z;
  data_start : Z; kernel_end : Z;
  ram_base : Z; ram_size : Z
}.

Definition build (ly : layout) (root offset : Z) : M S unit :=
  let region va_pa size attrs : M S unit :=
    va ← lift (add64 va_pa offset); n ← lift size; map_range root va va_pa n attrs in
  _ ← region (ram_base ly) (sub64 (text_start ly) (ram_base ly)) Attributes.kernel_data;
  _ ← region (text_start ly) (sub64 (text_end ly) (text_start ly)) Attributes.kernel_text;
  _ ← region (rodata_start ly) (sub64 (rodata_end ly) (rodata_start ly)) Attributes.kernel_rodata;
  _ ← region (data_start ly) (sub64 (kernel_end ly) (data_start ly)) Attributes.kernel_data;
  _ ← region (kernel_end ly)
        (top ← add64 (ram_base ly) (ram_size ly); sub64 top (kernel_end ly)) Attributes.kernel_data;
  region DEVICE_BASE (Done DEVICE_SIZE) Attributes.device.

Definition build_tables (ly : layout) : M S (Z * Z) :=
  low ← fa_alloc; low ← expectM low "no frame for the low root";
  high ← fa_alloc; high ← expectM high "no frame for the high root";
  _ ← build ly low 0;
  _ ← build ly high KERNEL_BASE;
  mret (low, high).

Definition map_physical (root pa size : Z) : M S unit :=
  let start := pa / PAGE_SIZE * PAGE_SIZE in
  sum ← lift (add64 pa size);
  end_ ← lift (mul64 (div_ceil sum PAGE_SIZE) PAGE_SIZE);
  va ← lift (add64 start KERNEL_BASE);
  n ← lift (sub64 end_ start);
  map_range root va start n Attributes.kernel_data.

(** [DEVICE_BASE..DEVICE_BASE + DEVICE_SIZE]. *)
Definition in_window (a : Z) : bool := (DEVICE_BASE <=? a) && (a <? DEVICE_BASE + DEVICE_SIZE).

Definition map_device (kernel_root pa size : Z) : M S bool :=
  let start := pa / PAGE_SIZE * PAGE_SIZE in
  sum ← lift (add64 pa size);
  end_ ← lift (mul64 (div_ceil sum PAGE_SIZE) PAGE_SIZE);
  if in_window start && (end_ <=? DEVICE_BASE + DEVICE_SIZE) then mret false else
  _ ← (if in_window start then panic "straddles the bootstrap device window" else
       last ← lift (sub64 end_ 1);
       assertM (negb (in_window last)) "straddles the bootstrap device window");
  va ← lift (add64 start KERNEL_BASE);
  n ← lift (sub64 end_ start);
  _ ← map_range kernel_root va start n Attributes.device;
  mret true.

Definition extend_physical_map (kernel_root from to : Z) : M S unit :=
  if to <=? from then mret tt else
  va ← lift (add64 from KERNEL_BASE);
  n ← lift (sub64 to from);
  map_range kernel_root va from n Attributes.kernel_data.

(** An [AddressSpace] is its root frame. *)
Definition AddressSpace_new : M S Z :=
  r ← fa_alloc; expectM r "no frame for an address space root".

Definition AddressSpace_map (root va pa size attrs : Z) : M S unit :=
  _ ← assertM (va <? KERNEL_BASE) "an address space only covers the low half";
  map_range root va pa size attrs.

(** The loop of [lookup] over the levels that may hold tables. *)
Fixpoint lookup_loop (levels : list Z) (table va : Z) : M S (option Z) :=
  match levels with
  | [] =>
    e ← read_entry table (table_index va 3);
    mret (if valid e then Some e else None)
  | level :: rest =>
    e ← read_entry table (table_index va level);
    if negb (valid e) then mret None else
    if negb (is_table e) then mret (Some e) else
    t ← from_addr (addr e);
    lookup_loop rest t va
  end.
Definition lookup (root va : Z) : M S (option Z) := lookup_loop (range 0 3) root va.

(** The [while] of [user_range]; one page per round. *)
Fixpoint user_range_loop (fuel : nat) (root page end_ : Z) (allowed : Z → bool) : M S bool :=
  if page <? end_ then
    match fuel with
    | O => panic "out of fuel"
    | Datatypes.S fuel' =>
      e ← lookup root page;
      match e with
      | None => mret false
      | Some e =>
        if negb (allowed (ap e)) then mret false else
        page ← lift (add64 page PAGE_SIZE);
        user_range_loop fuel' root page end_ allowed
      end
    end
  else mret true.

Definition user_range (root va len : Z) (allowed : Z → bool) : M S bool :=
  if len =? 0 then mret true else
  match checked_add64 va len with
  | None => mret false
  | Some end_ =>
    if KERNEL_BASE <? end_ then mret false else
    let page := Z.land va (not64 (PAGE_SIZE - 1)) in
    user_range_loop (Z.to_nat (len / PAGE_SIZE + 2)) root page end_ allowed
  end.

Definition user_readable (root va len : Z) : M S bool :=
  user_range root va len (λ ap, (ap =? AP_RW_ALL) || (ap =? AP_RO_ALL)).
Definition user_writable (root va len : Z) : M S bool :=
  user_range root va len (λ ap, ap =? AP_RW_ALL).

Fixpoint translate_loop (levels : list Z) (table va : Z) : M S (option Z) :=
  match levels with
  | [] =>
    e ← read_entry table (table_index va 3);
    mret (if valid e then Some (Z.lor (addr e) (Z.land va (PAGE_SIZE - 1))) else None)
  | level :: rest =>
    e ← read_entry table (table_index va level);
    if negb (valid e) then mret None else
    if negb (is_table e) then
      mret (if level =? 1 then
              Some (Z.lor (Z.land (addr e) (not64 (512 * BLOCK_2MIB - 1)))
                          (Z.land va (512 * BLOCK_2MIB - 1)))
            else if level =? 2 then
              Some (Z.lor (Z.land (addr e) (not64 (BLOCK_2MIB - 1))) (Z.land va (BLOCK_2MIB - 1)))
            else None)
    else
    t ← from_addr (addr e);
    translate_loop rest t va
  end.
Definition translate (root va : Z) : M S (option Z) := translate_loop (range 0 3) root va.

(** The [while] of [copy_across]; every round copies at least a byte and, past
    the first, up to a page boundary of one side. *)
Fixpoint copy_across_loop (fuel : nat) (src_root src_va dst_root dst_va len done : Z) : M S bool :=
  if done <? len then
    match fuel with
    | O => panic "out of fuel"
    | Datatypes.S fuel' =>
      src ← lift (add64 src_va done);
      dst ← lift (add64 dst_va done);
      src_pa ← translate src_root src;
      dst_pa ← translate dst_root dst;
      match src_pa, dst_pa with
      | Some src_pa, Some dst_pa =>
        let src_left := PAGE_SIZE - Z.land src (PAGE_SIZE - 1) in
        let dst_left := PAGE_SIZE - Z.land dst (PAGE_SIZE - 1) in
        let chunk := Z.min (Z.min (len - done) src_left) dst_left in
        _ ← modify (λ s, fa_set_mem (copy_range (fa_mem s) src_pa dst_pa chunk) s);
        done ← lift (add64 done chunk);
        copy_across_loop fuel' src_root src_va dst_root dst_va len done
      | _, _ => mret false
      end
    end
  else mret true.
Definition copy_across (src_root src_va dst_root dst_va len : Z) : M S bool :=
  copy_across_loop (Z.to_nat len) src_root src_va dst_root dst_va len 0.

(** [frames::free_contiguous]. *)
Definition free_contiguous (first count : Z) : M S unit :=
  forM (range 0 count) (λ index,
    frame ← from_addr (first + index * PAGE_SIZE); fa_free frame).

(** [free_table(table, level)] with [depth = 3 - level]. *)
Fixpoint free_table (depth : nat) (table : Z) : M S unit :=
  let level := 3 - Z.of_nat depth in
  _ ← forM (range 0 ENTRIES) (λ index,
    e ← read_entry table index;
    if negb (valid e) then mret tt else
    target ← from_addr (addr e);
    let leaf : M S unit :=
      if level =? 1 then free_contiguous target (ENTRIES * ENTRIES)
      else if level =? 2 then free_contiguous target ENTRIES
      else if level =? 3 then free_contiguous target 1
      else panic "descriptor cannot be a leaf" in
    match depth with
    | Datatypes.S depth' => if is_table e then free_table depth' target else leaf
    | O => leaf
    end);
  fa_free table.
Definition AddressSpace_destroy (root : Z) : M S unit := free_table 3 root.

End paging.
