(* ===== verification/PagingWalk.v ===== *)
(** * PagingWalk: descriptors, and the walk the hardware makes

    [walk] is the translation-table walk as the architecture defines it for
    this configuration, with the level it stops at.  [lookup], [translate] and
    the permission checks of [Paging.v] are shown to ask exactly its question. *)

From S2P Require Import Prelude Memory FrameAlloc Paging.

(** ** Descriptor fields *)

(** The address of a frame the tables can point at. *)
Definition page_addr (a : Z) : Prop := 0 ≤ a < 2 ^ 48 ∧ a mod 4096 = 0.

(** Attributes carry no address and no type bits. *)
Definition attrs_ok (at_ : Z) : Prop :=
  0 ≤ at_ ≤ u64_max ∧ addr at_ = 0 ∧ Z.land at_ 3 = 0.

Lemma attributes_ok : Forall attrs_ok Attributes.all.
Proof. repeat constructor; vm_compute; congruence. Qed.

Lemma testbit_aligned a i : a mod 4096 = 0 → 0 ≤ i < 12 → Z.testbit a i = false.
Proof.
  intros Ha Hi. rewrite <-(Z.mod_pow2_bits_low a 12 i) by lia.
  change (2 ^ 12) with 4096. rewrite Ha. apply Z.testbit_0_l.
Qed.

Lemma testbit_ADDR_MASK i : 0 ≤ i → Z.testbit ADDR_MASK i = bool_decide (12 ≤ i < 48).
Proof.
  intros Hi. change ADDR_MASK with (Z.shiftl (Z.ones 36) 12).
  rewrite Z.shiftl_spec by lia. rewrite Z.testbit_ones by lia.
  case_bool_decide.
  - rewrite (proj2 (Z.leb_le _ _)), (proj2 (Z.ltb_lt _ _)) by lia. done.
  - destruct (Z.leb_spec 0 (i - 12)), (Z.ltb_spec (i - 12) 36); done || lia.
Qed.

Lemma addr_page a : page_addr a → addr a = a.
Proof.
  intros [[H0 H1] H2]. unfold addr. apply Z.bits_inj_iff'. intros i Hi.
  rewrite Z.land_spec, testbit_ADDR_MASK by done.
  case_bool_decide as Hd; [apply andb_true_r|]. rewrite andb_false_r. symmetry.
  destruct (Z.lt_ge_cases i 12); [by apply testbit_aligned|].
  destruct (decide (a = 0)) as [->|]; [apply Z.testbit_0_l|].
  apply Z.bits_above_log2; [lia|]. apply Z.log2_lt_pow2; [lia|].
  apply Z.lt_le_trans with (2 ^ 48); [done|]. apply Z.pow_le_mono_r; lia.
Qed.

Lemma addr_lor a b : addr (Z.lor a b) = Z.lor (addr a) (addr b).
Proof. apply Z.land_lor_distr_l. Qed.

Lemma land_low_page a k : page_addr a → 0 ≤ k < 4096 → Z.land a k = 0.
Proof.
  intros [_ Ha] Hk. apply Z.bits_inj_iff'. intros i Hi. rewrite Z.land_spec, Z.testbit_0_l.
  destruct (Z.lt_ge_cases i 12); [by rewrite testbit_aligned|].
  destruct (decide (k = 0)) as [->|]; [by rewrite Z.testbit_0_l, andb_false_r|].
  rewrite (Z.bits_above_log2 k), andb_false_r; [done|lia|]. apply Z.log2_lt_pow2; [lia|].
  apply Z.lt_le_trans with (2 ^ 12); [lia|]. apply Z.pow_le_mono_r; lia.
Qed.

Lemma addr_multiple e : is_multiple_of (addr e) PAGE_SIZE = true.
Proof.
  unfold is_multiple_of, PAGE_SIZE, addr. apply Z.eqb_eq. change 4096 with (2 ^ 12).
  rewrite <-Z.land_ones by lia. rewrite <-Z.land_assoc.
  replace (Z.land ADDR_MASK (Z.ones 12)) with 0 by reflexivity. apply Z.land_0_r.
Qed.

Lemma valid_lor x : valid (Z.lor x VALID) = true.
Proof.
  unfold valid. apply negb_true_iff, Z.eqb_neq. rewrite Z.land_lor_distr_l.
  intros [_ H]%Z.lor_eq_0_iff. done.
Qed.

Lemma valid_lor_l x y : valid x = true → valid (Z.lor x y) = true.
Proof.
  unfold valid. rewrite !negb_true_iff, !Z.eqb_neq, Z.land_lor_distr_l.
  intros H [? _]%Z.lor_eq_0_iff. done.
Qed.

Lemma is_table_lor x : is_table (Z.lor x TABLE_OR_PAGE) = true.
Proof.
  unfold is_table. apply negb_true_iff, Z.eqb_neq. rewrite Z.land_lor_distr_l.
  intros [_ H]%Z.lor_eq_0_iff. done.
Qed.

Definition table_desc (f : Z) : Z := Z.lor (Z.lor f VALID) TABLE_OR_PAGE.
Definition page_desc (pa attrs : Z) : Z := Z.lor (Z.lor (Z.lor pa attrs) VALID) TABLE_OR_PAGE.
Definition block_desc (pa attrs : Z) : Z := Z.lor (Z.lor pa attrs) VALID.

Lemma table_desc_spec f : page_addr f →
  valid (table_desc f) = true ∧ is_table (table_desc f) = true ∧ addr (table_desc f) = f.
Proof.
  intros Hf. unfold table_desc. split_and!.
  - apply valid_lor_l, valid_lor.
  - apply is_table_lor.
  - rewrite !addr_lor, addr_page by done. change (addr VALID) with 0.
    change (addr TABLE_OR_PAGE) with 0. by rewrite !Z.lor_0_r.
Qed.

Lemma page_desc_spec pa attrs : page_addr pa → attrs_ok attrs →
  valid (page_desc pa attrs) = true ∧ is_table (page_desc pa attrs) = true ∧
  addr (page_desc pa attrs) = pa.
Proof.
  intros Hpa (_ & Hat & _). unfold page_desc. split_and!.
  - apply valid_lor_l, valid_lor.
  - apply is_table_lor.
  - rewrite !addr_lor, Hat, addr_page by done. change (addr VALID) with 0.
    change (addr TABLE_OR_PAGE) with 0. by rewrite !Z.lor_0_r.
Qed.

Lemma block_desc_spec pa attrs : page_addr pa → attrs_ok attrs →
  valid (block_desc pa attrs) = true ∧ is_table (block_desc pa attrs) = false ∧
  addr (block_desc pa attrs) = pa.
Proof.
  intros Hpa (_ & Hat & Hlow). unfold block_desc. split_and!.
  - apply valid_lor.
  - unfold is_table. apply negb_false_iff, Z.eqb_eq. rewrite !Z.land_lor_distr_l.
    rewrite (land_low_page pa) by (done || (unfold TABLE_OR_PAGE; simpl; lia)).
    replace (Z.land attrs TABLE_OR_PAGE) with 0; [done|].
    change TABLE_OR_PAGE with (Z.land 3 2). by rewrite Z.land_assoc, Hlow.
  - rewrite !addr_lor, Hat, addr_page by done. change (addr VALID) with 0.
    by rewrite !Z.lor_0_r.
Qed.

Lemma ap_lor x y : ap (Z.lor x y) = Z.lor (ap x) (ap y).
Proof. unfold ap. by rewrite Z.shiftr_lor, Z.land_lor_distr_l. Qed.

Lemma ap_page a : page_addr a → ap a = 0.
Proof.
  intros [_ Ha]. unfold ap, AP_SHIFT. rewrite Z.shiftr_div_pow2 by lia. change (2 ^ 6) with 64.
  change 3 with (Z.ones 2). rewrite Z.land_ones by lia. change (2 ^ 2) with 4. zdiv.
Qed.

Lemma ap_desc pa attrs : page_addr pa →
  ap (page_desc pa attrs) = ap attrs ∧ ap (block_desc pa attrs) = ap attrs.
Proof.
  intros Hpa. unfold page_desc, block_desc. rewrite !ap_lor, ap_page by done.
  change (ap VALID) with 0. change (ap TABLE_OR_PAGE) with 0. rewrite !Z.lor_0_r, Z.lor_0_l. done.
Qed.

Lemma lor_u64 a b : is_u64 a → is_u64 b → is_u64 (Z.lor a b).
Proof.
  intros Ha Hb. pose proof (lor_range a b 64) as H. unfold is_u64 in *.
  change (2 ^ 64) with (u64_max + 1) in H. lia.
Qed.

Lemma page_addr_u64 a : page_addr a → is_u64 a.
Proof. intros [H _]. unfold is_u64. change (2 ^ 48) with 281474976710656 in H. lia. Qed.

Lemma desc_u64 pa attrs : page_addr pa → attrs_ok attrs →
  is_u64 (page_desc pa attrs) ∧ is_u64 (block_desc pa attrs) ∧ is_u64 (table_desc pa).
Proof.
  intros Hpa%page_addr_u64 [Hat _].
  assert (is_u64 VALID) by by vm_compute. assert (is_u64 TABLE_OR_PAGE) by by vm_compute.
  unfold page_desc, block_desc, table_desc. split_and!; repeat apply lor_u64; done.
Qed.

(** ** Indices *)

Lemma table_index_div va l : 0 ≤ l ≤ 3 → table_index va l = va / 2 ^ (39 - 9 * l) mod 512.
Proof.
  intros Hl. unfold table_index. change 511 with (Z.ones 9).
  rewrite Z.land_ones, Z.shiftr_div_pow2 by lia. done.
Qed.

Lemma table_index_bound va l : 0 ≤ table_index va l < 512.
Proof.
  unfold table_index. change 511 with (Z.ones 9). rewrite Z.land_ones by lia.
  apply Z.mod_pos_bound. lia.
Qed.

(** The 36 bits of an address the walk consumes. *)
Definition page_of (va : Z) : Z := va / 4096 mod 2 ^ 36.
(** The 27 bits a walk to a 2 MiB block consumes. *)
Definition block_of (va : Z) : Z := va / 2097152 mod 2 ^ 27.

Ltac indices := rewrite !table_index_div by lia; simpl (39 - 9 * _);
  change (2 ^ 39) with 549755813888 in *; change (2 ^ 30) with 1073741824 in *;
  change (2 ^ 21) with 2097152 in *; change (2 ^ 12) with 4096 in *;
  change (2 ^ 36) with 68719476736 in *; change (2 ^ 27) with 134217728 in *.

Lemma page_of_indices va va' :
  page_of va = page_of va' ↔
  table_index va 0 = table_index va' 0 ∧ table_index va 1 = table_index va' 1 ∧
  table_index va 2 = table_index va' 2 ∧ table_index va 3 = table_index va' 3.
Proof. unfold page_of. indices. split; zdiv. Qed.

Lemma block_of_indices va va' :
  block_of va = block_of va' ↔
  table_index va 0 = table_index va' 0 ∧ table_index va 1 = table_index va' 1 ∧
  table_index va 2 = table_index va' 2.
Proof. unfold block_of. indices. split; zdiv. Qed.

(** ** The walk *)

(** [k] levels of table remain below this one, so this is level [3 - k]. *)
Fixpoint walk (k : nat) (m : mem) (t va : Z) : option (Z * Z) :=
  let l := 3 - Z.of_nat k in
  let e := entry m t (table_index va l) in
  if valid e then
    match k with
    | O => Some (3, e)
    | S k' => if is_table e then walk k' m (addr e) va else Some (l, e)
    end
  else None.

(** Where a leaf at level [l] sends an address; a level 0 leaf is reserved. *)
Definition leaf_pa (l d va : Z) : option Z :=
  if l =? 3 then Some (Z.lor (addr d) (Z.land va (PAGE_SIZE - 1)))
  else if l =? 2 then
    Some (Z.lor (Z.land (addr d) (not64 (BLOCK_2MIB - 1))) (Z.land va (BLOCK_2MIB - 1)))
  else if l =? 1 then
    Some (Z.lor (Z.land (addr d) (not64 (512 * BLOCK_2MIB - 1)))
                (Z.land va (512 * BLOCK_2MIB - 1)))
  else None.

(** What the tables say about an address: the physical address, if any. *)
Definition translation (m : mem) (root va : Z) : option Z :=
  walk 3 m root va ≫= λ '(l, d), leaf_pa l d va.

Section walk.
Context {S : Type} `{FA : FrameAlloc S}.

Lemma from_addr_addr (e : Z) (s : S) : from_addr (addr e) s = Done (addr e, s).
Proof. unfold from_addr, assertM. by rewrite addr_multiple. Qed.

Lemma lookup_walk root va (s : S) :
  lookup root va s = Done (snd <$> walk 3 (fa_mem s) root va, s).
Proof.
  assert (H : ∀ k t, (k ≤ 3)%nat →
    lookup_loop (range (3 - Z.of_nat k) 3) t va s = Done (snd <$> walk k (fa_mem s) t va, s)).
  { induction k as [|k IH]; intros t Hk.
    - rewrite range_empty by lia. cbn [lookup_loop walk].
      unfold mbind, M_bind, read_entry, gets. by destruct (valid _).
    - rewrite range_cons by lia. cbn [lookup_loop walk].
      unfold mbind, M_bind, read_entry, gets. destruct (valid _); [|done]. cbn [negb].
      destruct (is_table _); [|done]. cbn [negb]. rewrite from_addr_addr.
      replace (3 - Z.of_nat (Datatypes.S k) + 1) with (3 - Z.of_nat k) by lia. apply IH. lia. }
  apply (H 3%nat). lia.
Qed.

Lemma translate_walk root va (s : S) :
  translate root va s = Done (translation (fa_mem s) root va, s).
Proof.
  assert (H : ∀ k t, (k ≤ 3)%nat →
    translate_loop (range (3 - Z.of_nat k) 3) t va s =
    Done (walk k (fa_mem s) t va ≫= λ '(l, d), leaf_pa l d va, s)).
  { induction k as [|k IH]; intros t Hk.
    - rewrite range_empty by lia. cbn [translate_loop walk].
      unfold mbind, M_bind, read_entry, gets. by destruct (valid _).
    - rewrite range_cons by lia. cbn [translate_loop walk].
      unfold mbind at 1, M_bind, read_entry, gets. destruct (valid _); [|done]. cbn [negb].
      destruct (is_table _); cbn [negb].
      + unfold mbind at 1, M_bind. rewrite from_addr_addr.
        replace (3 - Z.of_nat (Datatypes.S k) + 1) with (3 - Z.of_nat k) by lia. apply IH. lia.
      + assert (Hk' : k = 0%nat ∨ k = 1%nat ∨ k = 2%nat) by lia.
        by destruct Hk' as [->|[->| ->]]. }
  apply (H 3%nat). lia.
Qed.

End walk.
