(* ===== verification/PagingTables.v ===== *)
(** * PagingTables: translation tables as a forest

    The invariant of every table the kernel has built: a map [T] from table
    frames to the number of levels left below them, closed under following
    entries, in which no two entries point at the same table.  The walks of
    different roots, and of different pages of one root, then meet only where
    they must, so writing one descriptor changes exactly the addresses it
    translates. *)

From S2P Require Import Prelude Memory FrameAlloc Paging PagingWalk.

Abbreviation tables := (gmap Z nat) (only parsing).

(** The entries a walk reads, top down. *)
Fixpoint visited (k : nat) (m : mem) (t va : Z) : list (Z * Z) :=
  let i := table_index va (3 - Z.of_nat k) in
  (t, i) :: match k with
            | O => []
            | S k' => if valid (entry m t i) && is_table (entry m t i)
                      then visited k' m (addr (entry m t i)) va else []
            end.

(** What a walk returns on reading [e] with [k] levels left. *)
Definition at_entry (k : nat) (m : mem) (e va : Z) : option (Z * Z) :=
  if valid e then
    match k with
    | O => Some (3, e)
    | S k' => if is_table e then walk k' m (addr e) va else Some (3 - Z.of_nat k, e)
    end
  else None.

Lemma walk_at_entry k m t va :
  walk k m t va = at_entry k m (entry m t (table_index va (3 - Z.of_nat k))) va.
Proof. by destruct k. Qed.

(** Entry [i] of table [f] points at table [g]. *)
Definition child (m : mem) (f i g : Z) : Prop :=
  0 ≤ i < 512 ∧ valid (entry m f i) = true ∧ is_table (entry m f i) = true ∧
  addr (entry m f i) = g.

Record forest (m : mem) (T : tables) : Prop := {
  f_level : ∀ f k, T !! f = Some k → (k ≤ 3)%nat;
  f_child : ∀ f k i g, T !! f = Some (S k) → child m f i g → T !! g = Some k;
  f_inj : ∀ f f' k k' i i' g, T !! f = Some (S k) → T !! f' = Some (S k') →
    child m f i g → child m f' i' g → f = f' ∧ i = i'
}.

(** The tables of [T] read the same in both memories, except the entries
    [hole] excuses. *)
Definition same_entries (m m' : mem) (T : tables) (hole : Z → Z → Prop) : Prop :=
  ∀ f k i, T !! f = Some k → 0 ≤ i < 512 → ¬ hole f i → entry m' f i = entry m f i.

Section forest_facts.
Context (m : mem) (T : tables) (HF : forest m T).

(** Following the entry a walk reads. *)
Lemma forest_step f k va :
  T !! f = Some (S k) →
  let e := entry m f (table_index va (3 - Z.of_nat (S k))) in
  valid e = true → is_table e = true → T !! addr e = Some k.
Proof.
  intros Hf e Hv Ht. eapply (f_child _ _ HF); [done|].
  split; [apply table_index_bound|done].
Qed.

Lemma visited_in k f va t i :
  T !! f = Some k → (t, i) ∈ visited k m f va →
  ∃ j, T !! t = Some j ∧ (j ≤ k)%nat ∧ i = table_index va (3 - Z.of_nat j).
Proof.
  revert f. induction k as [|k IH]; intros f Hf; cbn [visited].
  - intros [= -> ->]%list_elem_of_singleton. eauto.
  - intros [[= -> ->]|Hin]%elem_of_cons; [by exists (S k)|].
    destruct (valid _) eqn:Hv, (is_table _) eqn:Ht; try by apply elem_of_nil in Hin.
    apply IH in Hin as (j & ? & ? & ?); [by exists j; split_and!; [|lia|]|].
    by apply (forest_step f k va).
Qed.

(** A table below the start of a walk was entered through a table above it. *)
Lemma visited_parent k f va t i :
  T !! f = Some k → (t, i) ∈ visited k m f va → t = f ∨
  ∃ p j kt, T !! t = Some kt ∧ T !! p = Some (S kt) ∧ (p, j) ∈ visited k m f va ∧ child m p j t.
Proof.
  revert f. induction k as [|k IH]; intros f Hf; cbn [visited].
  - intros [= -> ->]%list_elem_of_singleton. by left.
  - intros [[= -> ->]|Hin]%elem_of_cons; [by left|right].
    destruct (valid _) eqn:Hv, (is_table _) eqn:Ht; try by apply elem_of_nil in Hin.
    pose proof (forest_step f k va Hf Hv Ht) as Hc.
    destruct (IH _ Hc Hin) as [->|(p & j & kt & ? & ? & Hp & ?)].
    + eexists f, _, k. split_and!; [done|done|by left|].
      split_and!; [apply table_index_bound..|done|done|done].
    + exists p, j, kt. split_and!; [done|done|by right|done].
Qed.

(** Two walks that read the same entry started at the same root and agree on
    every index so far. *)
Lemma visited_unique n r r' va va' t i k :
  T !! r = Some 3%nat → T !! r' = Some 3%nat → T !! t = Some k → (n = 3 - k)%nat →
  (t, i) ∈ visited 3 m r va → (t, i) ∈ visited 3 m r' va' →
  r = r' ∧ ∀ l, 0 ≤ l ≤ Z.of_nat n → table_index va l = table_index va' l.
Proof.
  revert t i k. induction n as [|n IH]; intros t i k Hr Hr' Ht Hn Hv Hv'.
  - destruct (visited_in _ _ _ _ _ Hr Hv) as (j & Hj & ? & Hi).
    destruct (visited_in _ _ _ _ _ Hr' Hv') as (j' & Hj' & ? & Hi').
    assert (j = k) as -> by congruence. assert (j' = k) as -> by congruence.
    assert (k = 3%nat) as -> by lia.
    assert (Hroot : ∀ r va, T !! r = Some 3%nat → (t, i) ∈ visited 3 m r va → t = r).
    { intros r0 va0 Hr0 Hv0. destruct (visited_parent _ _ _ _ _ Hr0 Hv0)
        as [|(p & ? & kt & Hkt & Hp & _)]; [done|].
      apply (f_level _ _ HF) in Hp. assert (kt = 3%nat) as -> by congruence. lia. }
    split; [by rewrite <-(Hroot r va), <-(Hroot r' va')|].
    intros l Hl. replace l with (3 - Z.of_nat 3) by lia. congruence.
  - destruct (visited_in _ _ _ _ _ Hr Hv) as (j & Hj & _ & Hi).
    destruct (visited_in _ _ _ _ _ Hr' Hv') as (j' & Hj' & _ & Hi').
    assert (j = k) as -> by congruence. assert (j' = k) as -> by congruence.
    assert (Hne : ∀ r, T !! r = Some 3%nat → t ≠ r) by (intros ? ? ->; simplify_eq; lia).
    destruct (visited_parent _ _ _ _ _ Hr Hv) as [->|(p & a & kt & Hkt & Hp & Hvp & Hc)];
      [by apply Hne in Hr|].
    destruct (visited_parent _ _ _ _ _ Hr' Hv') as [->|(p' & a' & kt' & Hkt' & Hp' & Hvp' & Hc')];
      [by apply Hne in Hr'|].
    assert (kt = k) as -> by congruence. assert (kt' = k) as -> by congruence.
    destruct (f_inj _ _ HF _ _ _ _ _ _ _ Hp Hp' Hc Hc') as [<- <-].
    destruct (IH p a (S k)) as [-> Hag]; [done..|lia|done|done|]. split; [done|].
    intros l Hl. destruct (decide (l = Z.of_nat (S n))) as [->|]; [|apply Hag; lia].
    replace (Z.of_nat (S n)) with (3 - Z.of_nat k) by (apply (f_level _ _ HF) in Ht; lia).
    congruence.
Qed.

(** ... and conversely, walks that agree so far read the same entries. *)
Lemma visited_agree k f va va' t i j :
  T !! f = Some k → T !! t = Some j →
  (∀ l, 3 - Z.of_nat k ≤ l ≤ 3 - Z.of_nat j → table_index va l = table_index va' l) →
  (t, i) ∈ visited k m f va → (t, i) ∈ visited k m f va'.
Proof.
  revert f. induction k as [|k IH]; intros f Hf Ht Hag Hin.
  - destruct (visited_in _ _ _ _ _ Hf Hin) as (j' & Hj' & ? & _).
    assert (j' = j) as -> by congruence. cbn [visited] in *.
    rewrite <-Hag; [done|lia].
  - destruct (visited_in _ _ _ _ _ Hf Hin) as (j' & Hj' & ? & _).
    assert (j' = j) as -> by congruence. cbn [visited] in *.
    rewrite <-Hag by lia. apply elem_of_cons in Hin as [->|Hin]; [by left|right].
    destruct (valid _) eqn:Hv, (is_table _) eqn:Htb; try by apply elem_of_nil in Hin.
    cbn [andb] in *. apply IH; [by apply (forest_step f k va)|done| |done].
    intros l Hl. apply Hag. lia.
Qed.

(** A walk ends with what the last entry it reads says. *)
Lemma walk_visited k f va t i j :
  T !! f = Some k → T !! t = Some j → (t, i) ∈ visited k m f va →
  walk k m f va = at_entry j m (entry m t i) va.
Proof.
  revert f. induction k as [|k IH]; intros f Hf Ht Hin.
  - cbn [visited] in Hin. apply list_elem_of_singleton in Hin as [= -> ->].
    assert (j = 0%nat) as -> by congruence. apply walk_at_entry.
  - cbn [visited] in Hin. apply elem_of_cons in Hin as [[= -> ->]|Hin].
    { assert (j = S k) as -> by congruence. apply walk_at_entry. }
    destruct (valid _) eqn:Hv, (is_table _) eqn:Htb; try by apply elem_of_nil in Hin.
    cbn [andb] in Hin. rewrite walk_at_entry. unfold at_entry at 1. rewrite Hv, Htb.
    apply IH; [by apply (forest_step f k va)|done|done].
Qed.

(** Following a table entry one level further. *)
Lemma visited_next k f va t i j :
  T !! f = Some k → T !! t = Some (S j) → (t, i) ∈ visited k m f va →
  valid (entry m t i) = true → is_table (entry m t i) = true →
  (addr (entry m t i), table_index va (3 - Z.of_nat j)) ∈ visited k m f va.
Proof.
  revert f. induction k as [|k IH]; intros f Hf Ht Hin Hv Htb.
  - cbn [visited] in Hin. apply list_elem_of_singleton in Hin as [= -> ->]. congruence.
  - cbn [visited] in *. apply elem_of_cons in Hin as [[= -> ->]|Hin].
    { assert (j = k) as -> by congruence. rewrite Hv, Htb. right. destruct k; by left. }
    right. destruct (valid (entry m f _)) eqn:Hv', (is_table (entry m f _)) eqn:Htb';
      try by apply elem_of_nil in Hin.
    cbn [andb] in *. apply IH; [by apply (forest_step f k va)|done..].
Qed.

(** ** Changing one entry *)

Section update.
Context (m' : mem) (t0 i0 : Z) (k0 : nat).
Context (Ht0 : T !! t0 = Some k0).
Context (Hsame : same_entries m m' T (λ f i, f = t0 ∧ i = i0)).

Lemma walk_update k f va :
  T !! f = Some k →
  walk k m' f va = if decide ((t0, i0) ∈ visited k m f va)
                   then at_entry k0 m' (entry m' t0 i0) va else walk k m f va.
Proof.
  assert (Hhit : ∀ k f, T !! f = Some k → f = t0 → table_index va (3 - Z.of_nat k) = i0 →
    walk k m' f va = if decide ((t0, i0) ∈ visited k m f va)
                     then at_entry k0 m' (entry m' t0 i0) va else walk k m f va).
  { intros k' f' Hf' -> Hi. assert (k' = k0) as -> by congruence.
    rewrite decide_True by (destruct k0; cbn [visited]; rewrite Hi; by left).
    by rewrite walk_at_entry, Hi. }
  revert f. induction k as [|k IH]; intros f Hf.
  - destruct (decide (f = t0 ∧ table_index va (3 - Z.of_nat 0) = i0)) as [[??]|Hne]; [by apply Hhit|].
    pose proof (Hsame _ _ _ Hf (table_index_bound _ _) Hne) as He.
    rewrite decide_False; [by rewrite !walk_at_entry, He|].
    cbn [visited]. intros [= -> ->]%list_elem_of_singleton. by apply Hne.
  - destruct (decide (f = t0 ∧ table_index va (3 - Z.of_nat (S k)) = i0)) as [[??]|Hne]; [by apply Hhit|].
    pose proof (Hsame _ _ _ Hf (table_index_bound _ _) Hne) as He.
    assert (Hhd : (t0, i0) ≠ (f, table_index va (3 - Z.of_nat (S k)))) by (intros [= -> ->]; by apply Hne).
    cbn [visited]. rewrite !(walk_at_entry (S k)), He. unfold at_entry at 1 3.
    destruct (valid (entry m f _)) eqn:Hv, (is_table (entry m f _)) eqn:Htb; cbn [andb];
      [rewrite IH by (by apply (forest_step f k va))|..].
    2-4: rewrite decide_False; [done|]; intros [?|?%elem_of_nil]%elem_of_cons; done.
    apply decide_ext. rewrite elem_of_cons. naive_solver.
Qed.

(** When the entry was empty, walks only get longer. *)
Lemma visited_update k f va x :
  valid (entry m t0 i0) = false → T !! f = Some k →
  x ∈ visited k m f va → x ∈ visited k m' f va.
Proof.
  intros Hinv. revert f. induction k as [|k IH]; intros f Hf Hin; [done|].
  cbn [visited] in *. apply elem_of_cons in Hin as [->|Hin]; [by left|right].
  destruct (valid (entry m f _)) eqn:Hv, (is_table (entry m f _)) eqn:Htb;
    try by apply elem_of_nil in Hin.
  cbn [andb] in Hin. rewrite (Hsame _ _ _ Hf (table_index_bound _ _)).
  - rewrite Hv, Htb. apply IH; [by apply (forest_step f k va)|done].
  - intros [-> Hi]. rewrite Hi in Hv. congruence.
Qed.

(** A leaf, or an empty entry, adds no edge to the forest. *)
Lemma forest_leaf :
  (k0 = 0%nat ∨ is_table (entry m' t0 i0) = false) → forest m' T.
Proof.
  intros Hleaf.
  assert (Hch : ∀ f k i g, T !! f = Some (S k) → child m' f i g → child m f i g).
  { intros f k i g Hf (Hi & Hv & Htb & Ha).
    assert (Hne : ¬ (f = t0 ∧ i = i0)).
    { intros [-> ->]. destruct Hleaf as [->|Hl]; congruence. }
    pose proof (Hsame _ _ _ Hf Hi Hne) as He. rewrite He in *. done. }
  split; [apply HF|..].
  - intros f k i g Hf Hc. eapply (f_child _ _ HF); eauto.
  - intros f f' k k' i i' g Hf Hf' Hc Hc'. eapply (f_inj _ _ HF); eauto.
Qed.

(** A new empty table hung on an empty entry. *)
Lemma forest_grow g k :
  k0 = S k → T !! g = None → valid (entry m t0 i0) = false →
  child m' t0 i0 g → (∀ i, 0 ≤ i < 512 → entry m' g i = 0) → forest m' (<[g := k]> T).
Proof.
  intros -> Hg Hinv Hc0 Hzero.
  assert (Hch : ∀ f kf i h, (<[g := k]> T) !! f = Some (S kf) → child m' f i h →
            (f = t0 ∧ i = i0 ∧ h = g ∧ kf = k) ∨ (T !! f = Some (S kf) ∧ child m f i h)).
  { intros f kf i h Hf Hc. destruct (decide (f = g)) as [->|Hfg].
    { destruct Hc as (Hi & Hv & _). by rewrite Hzero in Hv by done. }
    rewrite lookup_insert_ne in Hf by done. destruct (decide (f = t0 ∧ i = i0)) as [[-> ->]|Hne].
    - left. destruct Hc as (_ & _ & _ & <-), Hc0 as (_ & _ & _ & <-). split_and!; congruence.
    - right. split; [done|]. destruct Hc as (Hi & Hv & Htb & Ha).
      pose proof (Hsame _ _ _ Hf Hi Hne) as He. rewrite He in *. done. }
  split.
  - intros f kf [[<- <-]|[_ Hf]]%lookup_insert_Some; [|by apply (f_level _ _ HF f)].
    apply (f_level _ _ HF) in Ht0. lia.
  - intros f kf i h Hf Hc. destruct (Hch _ _ _ _ Hf Hc) as [(-> & -> & -> & ->)|[Hf' Hc']].
    + by rewrite lookup_insert_eq.
    + pose proof (f_child _ _ HF _ _ _ _ Hf' Hc') as Hh.
      rewrite lookup_insert_ne; [done|]. intros ->. congruence.
  - intros f f' kf kf' i i' h Hf Hf' Hc Hc'.
    destruct (Hch _ _ _ _ Hf Hc) as [(-> & -> & Hh & ->)|[Hf1 Hc1]],
      (Hch _ _ _ _ Hf' Hc') as [(-> & -> & Hh' & ->)|[Hf2 Hc2]]; [done|..].
    + pose proof (f_child _ _ HF _ _ _ _ Hf2 Hc2). congruence.
    + pose proof (f_child _ _ HF _ _ _ _ Hf1 Hc1). congruence.
    + by apply (f_inj _ _ HF f f' kf kf' i i' h).
Qed.

End update.

(** Memories that read the same tables make the same walks. *)
Lemma walk_same m' k f va :
  same_entries m m' T (λ _ _, False) → T !! f = Some k → walk k m' f va = walk k m f va.
Proof.
  intros Hsame. revert f. induction k as [|k IH]; intros f Hf; rewrite !walk_at_entry;
    rewrite (Hsame _ _ _ Hf (table_index_bound _ _)) by tauto; [done|].
  unfold at_entry. destruct (valid _) eqn:Hv; [|done]. destruct (is_table _) eqn:Htb; [|done].
  apply IH. by apply (forest_step f k va).
Qed.

Lemma visited_same m' k f va :
  same_entries m m' T (λ _ _, False) → T !! f = Some k → visited k m' f va = visited k m f va.
Proof.
  intros Hsame. revert f. induction k as [|k IH]; intros f Hf; cbn [visited]; [done|].
  rewrite (Hsame _ _ _ Hf (table_index_bound _ _)) by tauto.
  destruct (valid _) eqn:Hv; [|done]. destruct (is_table _) eqn:Htb; [|done]. cbn [andb].
  rewrite IH; [done|]. by apply (forest_step f k va).
Qed.

Lemma forest_same m' : same_entries m m' T (λ _ _, False) → forest m' T.
Proof.
  intros Hsame.
  assert (Hch : ∀ f k i g, T !! f = Some (S k) → child m' f i g → child m f i g).
  { intros f k i g Hf (Hi & ?). pose proof (Hsame _ _ _ Hf Hi) as He.
    unfold child. rewrite <-He by tauto. done. }
  split; [apply HF|..].
  - intros f k i g Hf Hc. eapply (f_child _ _ HF); eauto.
  - intros f f' k k' i i' g Hf Hf' Hc Hc'. eapply (f_inj _ _ HF); eauto.
Qed.

End forest_facts.
