(* ===== verification/PagingMap.v ===== *)
(** * PagingMap: what mapping does

    The effect of [next_table], [map_page], [map_block] and [map_range] on the
    walks of every root, over any allocator that keeps [FrameAllocLaws]. *)

From S2P Require Import Prelude Memory FrameAlloc Paging PagingWalk PagingTables.

Section paging_map.
Context {S : Type} `{FA : FrameAlloc S, !FrameAllocLaws S}.

(** Every table is a frame of RAM that the allocator has handed out. *)
Record tables_ok (s : S) (T : tables) : Prop := {
  t_ok : fa_ok s;
  t_forest : forest (fa_mem s) T;
  t_frame : ∀ f k, T !! f = Some k → fa_frame s f ∧ ¬ fa_avail s f
}.

(** At least [n] frames are available. *)
Definition room (n : nat) (s : S) : Prop :=
  ∃ l : list Z, NoDup l ∧ length l = n ∧ ∀ f, f ∈ l → fa_avail s f.

Lemma room_weaken n n' s : (n' ≤ n)%nat → room n s → room n' s.
Proof.
  intros Hn (l & Hl & <- & Hav). exists (take n' l). split_and!.
  - rewrite <-(take_drop n' l) in Hl. by apply NoDup_app in Hl as [? _].
  - rewrite length_take. lia.
  - intros f Hf. apply Hav. rewrite <-(take_drop n' l). apply elem_of_app. by left.
Qed.

Lemma room_take n s s' f :
  room (Datatypes.S n) s → (∀ g, fa_avail s g ∧ g ≠ f → fa_avail s' g) → room n s'.
Proof.
  intros (l & Hl & Hlen & Hav) Hs.
  destruct (decide (f ∈ l)) as [Hin|Hni].
  - apply list_elem_of_split in Hin as (l1 & l2 & ->).
    rewrite length_app in Hlen; simpl in Hlen.
    apply NoDup_app in Hl as (Hl1 & Hd & Hl2). apply NoDup_cons in Hl2 as [Hf Hl2].
    exists (l1 ++ l2). split_and!.
    + apply NoDup_app. split_and!; [done| |done]. intros x Hx Hx2. apply (Hd x Hx). by right.
    + rewrite length_app. lia.
    + intros g Hg. apply Hs. split; [apply Hav; rewrite elem_of_app, elem_of_cons;
        apply elem_of_app in Hg; tauto|].
      intros ->. apply elem_of_app in Hg as [Hg|Hg]; [|done]. apply (Hd f Hg). by left.
  - destruct l as [|g l]; [done|]. exists l. apply NoDup_cons in Hl as [_ Hl].
    split_and!; [done|by simpl in Hlen; lia|]. intros h Hh. apply Hs. split; [apply Hav; by right|].
    intros ->. apply Hni. by right.
Qed.

(** At least [n] frames below [g] are available. *)
Definition room_below (g : Z) (n : nat) (s : S) : Prop :=
  ∃ l : list Z, NoDup l ∧ length l = n ∧ ∀ f, f ∈ l → fa_avail s f ∧ f < g.

Lemma room_below_weaken g n n' s : (n' ≤ n)%nat → room_below g n s → room_below g n' s.
Proof.
  intros Hn (l & Hl & <- & Hav). exists (take n' l). split_and!.
  - rewrite <-(take_drop n' l) in Hl. by apply NoDup_app in Hl as [? _].
  - rewrite length_take. lia.
  - intros f Hf. apply Hav. rewrite <-(take_drop n' l). apply elem_of_app. by left.
Qed.

Lemma filter_ne_length (f : Z) (l : list Z) : NoDup l → (length l ≤ 1 + length (filter (λ h, h ≠ f) l))%nat.
Proof.
  assert (Hall : ∀ l, f ∉ l → length (filter (λ h, h ≠ f) l) = length l).
  { induction l0 as [|x l0 IH]; [done|]. rewrite not_elem_of_cons. intros [Hne Hni].
    rewrite filter_cons_True by done. simpl. by rewrite IH. }
  induction 1 as [|x l Hx _ IH]; [simpl; lia|]. destruct (decide (x = f)) as [->|Hne].
  - rewrite filter_cons_False by tauto. rewrite Hall by done. simpl. lia.
  - rewrite filter_cons_True by done. simpl. lia.
Qed.

(** The lowest frame taken is not one that has others below it. *)
Lemma room_below_take j s s' f g :
  (∀ h, fa_avail s h → f ≤ h) → (∀ h, fa_avail s h ∧ h ≠ f → fa_avail s' h) →
  room_below g (1 + j) s → fa_avail s g → room_below g j s' ∧ fa_avail s' g.
Proof.
  intros Hlow Hs (l & Hl & Hlen & Hav) Hg.
  assert (Hfg : f < g).
  { destruct l as [|h l]; [done|]. destruct (Hav h) as [Hh ?]; [by left|]. specialize (Hlow h Hh). lia. }
  split; [|apply Hs; split; [done|lia]].
  exists (take j (filter (λ h, h ≠ f) l)). split_and!.
  - assert (Hn : NoDup (filter (λ h, h ≠ f) l)) by by apply NoDup_filter.
    rewrite <-(take_drop j (filter _ l)) in Hn. by apply NoDup_app in Hn as [? _].
  - rewrite length_take. pose proof (filter_ne_length f l Hl). lia.
  - intros h Hh. assert (Hf : h ∈ filter (λ h, h ≠ f) l).
    { rewrite <-(take_drop j (filter _ l)). apply elem_of_app. by left. }
    apply list_elem_of_filter in Hf as [Hne Hin]. destruct (Hav h Hin). split; [by apply Hs|done].
Qed.

Lemma room_below_avail g n s s' :
  (∀ h, fa_avail s' h ↔ fa_avail s h) → room_below g n s → room_below g n s'.
Proof. intros Hs (l & Hl & Hlen & Hav). exists l. setoid_rewrite Hs. done. Qed.

(** ** Reading entries after a write or a fresh frame *)

Lemma entry_bound m t i : bytes_ok m → is_u64 (entry m t i).
Proof. intros H. by apply read_u64_bound. Qed.

Lemma entry_write_same m t i v : is_u64 v → entry (write_u64 m (t + 8 * i) v) t i = v.
Proof. apply read_write_u64. Qed.

Lemma entry_write_other m t i v t' i' :
  0 ≤ i < 512 → 0 ≤ i' < 512 → t = t' ∨ frame_apart t t' → ¬ (t' = t ∧ i' = i) →
  entry (write_u64 m (t + 8 * i) v) t' i' = entry m t' i'.
Proof.
  intros Hi Hi' Ht Hne. apply read_write_disjoint. unfold frame_apart in Ht.
  destruct Ht as [->|Ht]; [assert (i ≠ i') by naive_solver|]; lia.
Qed.

Lemma entry_zero_other m f t i :
  0 ≤ i < 512 → frame_apart f t → entry (zero_range m f 4096) t i = entry m t i.
Proof. intros Hi Ht. apply read_zero_disjoint. unfold frame_apart in Ht. lia. Qed.

Lemma entry_zero_in m f i : 0 ≤ i < 512 → entry (zero_range m f 4096) f i = 0.
Proof. intros Hi. apply (read_zeroed 8); lia. Qed.

Lemma tables_apart s T f g k :
  tables_ok s T → T !! f = Some k → fa_frame s g → f ≠ g → frame_apart f g.
Proof. intros H Hf Hg. eapply frames_apart; [apply H|by eapply t_frame|done]. Qed.

Lemma tables_page s T f k : tables_ok s T → T !! f = Some k → page_addr f.
Proof.
  intros H Hf. destruct (fa_frame_aligned s f) as (Ha & Hb & Hc);
    [apply H|by eapply t_frame|]. split; [|done]. change (2 ^ 48) with 281474976710656 in *. lia.
Qed.

Lemma avail_page s f : fa_ok s → fa_avail s f → page_addr f.
Proof.
  intros H Hf. destruct (fa_avail_aligned s f H Hf) as (Ha & Hb & Hc).
  split; [|done]. change (2 ^ 48) with 281474976710656 in *. lia.
Qed.

(** ** Growing the forest *)

(** [s'], with tables [T'], is [s] with tables [T] after some empty tables were
    hung on empty entries; at most [n] frames went into them. *)
Record grown (n : nat) (s : S) (T : tables) (s' : S) (T' : tables) : Prop := {
  g_ok : tables_ok s' T';
  g_sub : T ⊆ T';
  g_walk : ∀ f k va, T !! f = Some k → walk k (fa_mem s') f va = walk k (fa_mem s) f va;
  g_visited : ∀ f k va x, T !! f = Some k →
    x ∈ visited k (fa_mem s) f va → x ∈ visited k (fa_mem s') f va;
  g_frame : ∀ g, fa_frame s' g ↔ fa_frame s g;
  g_avail : ∀ g, fa_avail s' g ↔ fa_avail s g ∧ T' !! g = None;
  g_new : ∀ f k, T' !! f = Some k → T !! f = None → fa_avail s f;
  g_mem : ∀ x, (∀ f k, T' !! f = Some k → ¬ (f ≤ x < f + 4096)) → fa_mem s' x = fa_mem s x;
  g_room : ∀ j, room (n + j) s → room j s';
  g_low : ∀ g j, room_below g (n + j) s → fa_avail s g → room_below g j s' ∧ fa_avail s' g
}.

Lemma grown_refl s T : tables_ok s T → grown 0 s T s T.
Proof.
  intros H. split; try done.
  - intros g. split; [|tauto]. intros Hg. split; [done|]. destruct (T !! g) eqn:Ht; [|done].
    by destruct (t_frame _ _ H _ _ Ht).
  - congruence.
Qed.

Lemma grown_trans n n' s T s1 T1 s2 T2 :
  grown n s T s1 T1 → grown n' s1 T1 s2 T2 → grown (n + n') s T s2 T2.
Proof.
  intros H1 H2. pose proof (g_sub _ _ _ _ _ H1) as Hs1. pose proof (g_sub _ _ _ _ _ H2) as Hs2.
  split.
  - apply H2.
  - by trans T1.
  - intros f k va Hf. rewrite (g_walk _ _ _ _ _ H2) by (by eapply lookup_weaken).
    by apply (g_walk _ _ _ _ _ H1).
  - intros f k va x Hf Hx. apply (g_visited _ _ _ _ _ H2); [by eapply lookup_weaken|].
    by apply (g_visited _ _ _ _ _ H1).
  - intros g. by rewrite (g_frame _ _ _ _ _ H2), (g_frame _ _ _ _ _ H1).
  - intros g. rewrite (g_avail _ _ _ _ _ H2), (g_avail _ _ _ _ _ H1).
    split; [tauto|]. intros [? Hg]. split; [split; [done|]|done].
    by eapply lookup_weaken_None.
  - intros f k Hf Hn. destruct (T1 !! f) as [k1|] eqn:Hf1.
    + by apply (g_new _ _ _ _ _ H1 f k1).
    + apply (g_avail _ _ _ _ _ H1). by apply (g_new _ _ _ _ _ H2 f k).
  - intros x Hx. rewrite (g_mem _ _ _ _ _ H2) by done. apply (g_mem _ _ _ _ _ H1).
    intros f k Hf. apply (Hx f k). by eapply lookup_weaken.
  - intros j Hj. apply (g_room _ _ _ _ _ H2), (g_room _ _ _ _ _ H1).
    by rewrite Nat.add_assoc.
  - intros g j Hj Hg. rewrite <-Nat.add_assoc in Hj.
    destruct (g_low _ _ _ _ _ H1 g (n' + j) Hj Hg). by apply (g_low _ _ _ _ _ H2).
Qed.

(** A fresh frame changes no table. *)
Lemma tables_fresh s T s1 f :
  tables_ok s T → fa_ok s1 → (∀ g, fa_frame s1 g ↔ fa_frame s g) → fa_avail s f →
  (∀ g, fa_avail s1 g ↔ fa_avail s g ∧ g ≠ f) → fa_mem s1 = zero_range (fa_mem s) f 4096 →
  same_entries (fa_mem s) (fa_mem s1) T (λ _ _, False) ∧ tables_ok s1 T ∧ T !! f = None.
Proof.
  intros H Hok Hfr Hf Hav Hmem.
  assert (HfT : T !! f = None).
  { destruct (T !! f) eqn:Ht; [|done]. by destruct (t_frame _ _ H _ _ Ht). }
  assert (Hsame : same_entries (fa_mem s) (fa_mem s1) T (λ _ _, False)).
  { intros g k i Hg Hi _. rewrite Hmem. apply entry_zero_other; [done|].
    assert (frame_apart g f); [|unfold frame_apart in *; lia].
    apply (tables_apart s T g f k H Hg); [|congruence]. by apply (fa_avail_frame _ _ (t_ok _ _ H)). }
  split_and!; [done| |done]. split; [done| |].
  - eapply forest_same; [apply H|done].
  - intros g k Hg. rewrite Hfr, Hav. destruct (t_frame _ _ H _ _ Hg). tauto.
Qed.

(** Hanging the fresh table [c] on the empty entry [(f, i)]. *)
Lemma grown_hang s T s1 f i c k :
  tables_ok s T → T !! f = Some (Datatypes.S k) → 0 ≤ i < 512 →
  valid (entry (fa_mem s) f i) = false → fa_avail s c →
  fa_ok s1 → (∀ g, fa_frame s1 g ↔ fa_frame s g) →
  (∀ g, fa_avail s1 g ↔ fa_avail s g ∧ g ≠ c) → fa_mem s1 = zero_range (fa_mem s) c 4096 →
  (∀ g, fa_avail s g → c ≤ g) →
  let s' := fa_set_mem (write_u64 (fa_mem s1) (f + 8 * i) (table_desc c)) s1 in
  grown 1 s T s' (<[c := k]> T) ∧ entry (fa_mem s') f i = table_desc c.
Proof.
  intros H Hf Hi Hinv Hc Hok Hfr Hav Hmem Hlow s'.
  destruct (tables_fresh s T s1 c H Hok Hfr Hc Hav Hmem) as (Hsame & H1 & HcT).
  pose proof (avail_page s c (t_ok _ _ H) Hc) as Hcp.
  destruct (table_desc_spec c Hcp) as (Hv & Htb & Ha). destruct (desc_u64 c 0 Hcp) as (_ & _ & Hu);
    [by repeat split|].
  assert (Hms : fa_mem s' = write_u64 (fa_mem s1) (f + 8 * i) (table_desc c)) by apply fa_get_set.
  assert (He : entry (fa_mem s') f i = table_desc c) by (rewrite Hms; by apply entry_write_same).
  assert (Hsame1 : same_entries (fa_mem s1) (fa_mem s') T (λ g j, g = f ∧ j = i)).
  { intros g kg j Hg Hj Hne. rewrite Hms. apply entry_write_other; [done|done| |done].
    destruct (decide (f = g)); [by left|right]. eapply tables_apart; [apply H1|done| |done].
    by eapply t_frame. }
  assert (Hfc : f ≠ c) by congruence.
  assert (Hap : frame_apart f c).
  { eapply tables_apart; [apply H|done| |done]. by apply (fa_avail_frame _ _ (t_ok _ _ H)). }
  assert (Hzero : ∀ j, 0 ≤ j < 512 → entry (fa_mem s') c j = 0).
  { intros j Hj. rewrite Hms, entry_write_other; [|done|done|by right|naive_solver].
    rewrite Hmem. by apply entry_zero_in. }
  assert (Hinv1 : valid (entry (fa_mem s1) f i) = false) by (rewrite (Hsame _ _ _ Hf Hi); tauto).
  assert (Hforest : forest (fa_mem s') (<[c := k]> T)).
  { apply (forest_grow _ _ (t_forest _ _ H1) _ f i _ Hf Hsame1 c k eq_refl HcT Hinv1); [|done].
    split_and!; [lia..| | |]; by rewrite He. }
  assert (Hbytes : bytes_ok (fa_mem s')) by (rewrite Hms; apply write_le_bytes, fa_bytes, Hok).
  split; [|done]. split.
  - split; [|done|].
    + apply fa_set_ok; [done|]. rewrite <-Hms. done.
    + intros g kg Hg. unfold s'. rewrite fa_set_frame, fa_set_avail, Hfr, Hav.
      apply lookup_insert_Some in Hg as [[<- _]|[Hgc Hg]].
      * split; [by apply (fa_avail_frame _ _ (t_ok _ _ H))|tauto].
      * destruct (t_frame _ _ H _ _ Hg). tauto.
  - by apply insert_subseteq.
  - intros g kg va Hg. rewrite (walk_update _ _ (t_forest _ _ H1) _ f i _ Hf Hsame1) by done.
    rewrite <-(walk_same _ _ (t_forest _ _ H) _ _ _ _ Hsame Hg).
    case_decide as Hin; [|done]. rewrite (walk_visited _ _ (t_forest _ _ H1) _ _ _ _ _ _ Hg Hf Hin).
    rewrite He. unfold at_entry. rewrite Hinv1, Hv, Htb, Ha, walk_at_entry, Hzero;
      [done|apply table_index_bound].
  - intros g kg va x Hg Hx. eapply (visited_update _ _ (t_forest _ _ H1) _ f i Hsame1); [done..|].
    by rewrite (visited_same _ _ (t_forest _ _ H) _ _ _ _ Hsame Hg).
  - intros g. unfold s'. by rewrite fa_set_frame.
  - intros g. unfold s'. rewrite fa_set_avail, Hav, lookup_insert_None. split.
    + intros [Hg ?]. split_and!; [done| |done]. destruct (T !! g) eqn:Ht; [|done].
      by destruct (t_frame _ _ H _ _ Ht).
    + intros (? & ? & ?). by split.
  - intros g kg Hg Hn. apply lookup_insert_Some in Hg as [[<- _]|[_ Hg]]; [done|congruence].
  - intros x Hx. rewrite Hms, write_le_other.
    + rewrite Hmem. apply zero_range_out. apply (Hx c k). by rewrite lookup_insert_eq.
    + pose proof (Hx f (Datatypes.S k)) as Hxf. rewrite lookup_insert_ne in Hxf by done.
      specialize (Hxf Hf). lia.
  - intros j Hj. apply (room_take j s s' c Hj). intros g [??]. unfold s'.
    by rewrite fa_set_avail, Hav.
  - intros g j. apply (room_below_take j s s' c g Hlow). intros h [??]. unfold s'.
    by rewrite fa_set_avail, Hav.
Qed.

Lemma wp_next_table s T f i k Q :
  tables_ok s T → T !! f = Some (Datatypes.S k) → 0 ≤ i < 512 →
  (valid (entry (fa_mem s) f i) = true → is_table (entry (fa_mem s) f i) = true) →
  room 1 s →
  (∀ c s' T', grown 1 s T s' T' → T' !! c = Some k → child (fa_mem s') f i c → Q c s') →
  wp (next_table f i) s Q.
Proof.
  intros H Hf Hi Hnb Hroom HQ. unfold next_table, read_entry. wp_steps.
  destruct (valid (entry (fa_mem s) f i)) eqn:Hv.
  - wp_steps; [by apply Hnb|]. unfold from_addr. wp_step. apply wp_assertM; [apply addr_multiple|].
    wp_step. assert (Hc : child (fa_mem s) f i (addr (entry (fa_mem s) f i))).
    { split_and!; [lia..|done|by apply Hnb|done]. }
    apply (HQ _ _ T); [|by eapply f_child; [apply H|..]|done].
    destruct (grown_refl s T H) as [? ? ? ? ? ? ? ? _ Hlow]. split; try done.
    + intros j Hj. apply (room_weaken (1 + j)); [lia|done].
    + intros g j Hj Hg. apply Hlow; [|done]. apply (room_below_weaken g (1 + j)); [lia|done].
  - wp_step. eapply wp_mono; [apply fa_alloc_spec, H|].
    intros [c|] s1 (Hok & Hfr & Hr).
    + destruct Hr as (Hc & Hav & Hmem & Hlow). wp_step. apply wp_expectM with c; [done|].
      unfold write_entry. wp_steps.
      destruct (grown_hang s T s1 f i c k H Hf Hi Hv Hc Hok Hfr Hav Hmem Hlow) as [Hg He].
      destruct (table_desc_spec c (avail_page _ _ (t_ok _ _ H) Hc)) as (Hdv & Hdt & Hda).
      apply (HQ _ _ _ Hg); [by rewrite lookup_insert_eq|].
      split_and!; [lia..| | |]; by rewrite He.
    + exfalso. destruct Hr as [-> Hnone]. destruct Hroom as ([|g l] & _ & Hl & Hav); [done|].
      apply (Hnone g), Hav. by left.
Qed.

(** [grown] without the walks: what mapping leaves of the rest of the state. *)
Record extends (n : nat) (s : S) (T : tables) (s' : S) (T' : tables) : Prop := {
  x_ok : tables_ok s' T';
  x_sub : T ⊆ T';
  x_frame : ∀ g, fa_frame s' g ↔ fa_frame s g;
  x_avail : ∀ g, fa_avail s' g ↔ fa_avail s g ∧ T' !! g = None;
  x_new : ∀ f k, T' !! f = Some k → T !! f = None → fa_avail s f;
  x_mem : ∀ x, (∀ f k, T' !! f = Some k → ¬ (f ≤ x < f + 4096)) → fa_mem s' x = fa_mem s x;
  x_room : ∀ j, room (n + j) s → room j s';
  x_low : ∀ g j, room_below g (n + j) s → fa_avail s g → room_below g j s' ∧ fa_avail s' g
}.

Lemma extends_trans n n' s T s1 T1 s2 T2 :
  extends n s T s1 T1 → extends n' s1 T1 s2 T2 → extends (n + n') s T s2 T2.
Proof.
  intros H1 H2. pose proof (x_sub _ _ _ _ _ H1). pose proof (x_sub _ _ _ _ _ H2).
  split.
  - apply H2.
  - by trans T1.
  - intros g. by rewrite (x_frame _ _ _ _ _ H2), (x_frame _ _ _ _ _ H1).
  - intros g. rewrite (x_avail _ _ _ _ _ H2), (x_avail _ _ _ _ _ H1).
    split; [tauto|]. intros [? Hg]. split; [split; [done|]|done].
    by eapply lookup_weaken_None.
  - intros f k Hf Hn. destruct (T1 !! f) as [k1|] eqn:Hf1.
    + by apply (x_new _ _ _ _ _ H1 f k1).
    + apply (x_avail _ _ _ _ _ H1). by apply (x_new _ _ _ _ _ H2 f k).
  - intros x Hx. rewrite (x_mem _ _ _ _ _ H2) by done. apply (x_mem _ _ _ _ _ H1).
    intros f k Hf. apply (Hx f k). by eapply lookup_weaken.
  - intros j Hj. apply (x_room _ _ _ _ _ H2), (x_room _ _ _ _ _ H1).
    by rewrite Nat.add_assoc.
  - intros g j Hj Hg. rewrite <-Nat.add_assoc in Hj.
    destruct (x_low _ _ _ _ _ H1 g (n' + j) Hj Hg). by apply (x_low _ _ _ _ _ H2).
Qed.

Lemma grown_extends n s T s' T' : grown n s T s' T' → extends n s T s' T'.
Proof. by intros []. Qed.

Lemma extends_refl s T : tables_ok s T → extends 0 s T s T.
Proof. intros H. by apply grown_extends, grown_refl. Qed.

(** ** Walking down to the table a descriptor goes in *)

Lemma wp_descend n s T root va f k Q :
  tables_ok s T → T !! root = Some 3%nat → T !! f = Some (n + k)%nat →
  (f, table_index va (3 - Z.of_nat (n + k))) ∈ visited 3 (fa_mem s) root va →
  (∀ l d, walk 3 (fa_mem s) root va = Some (l, d) → 3 - Z.of_nat k ≤ l) → room n s →
  (∀ t s' T', grown n s T s' T' → T' !! t = Some k →
     (t, table_index va (3 - Z.of_nat k)) ∈ visited 3 (fa_mem s') root va → Q t s') →
  wp (descend (range (3 - Z.of_nat (n + k)) (3 - Z.of_nat k)) f va) s Q.
Proof.
  revert s T f Q. induction n as [|n IH]; intros s T f Q H Hroot Hf Hin Hnb Hroom HQ.
  - rewrite range_empty by lia. cbn [descend]. wp_step. apply (HQ _ _ T); [by apply grown_refl|done..].
  - rewrite range_cons by lia. cbn [descend]. wp_step. simpl in Hf.
    pose proof (f_level _ _ (t_forest _ _ H) _ _ Hf) as Hlev.
    apply (wp_next_table s T _ _ (n + k)); [done|done|apply table_index_bound| | |].
    + intros Hv. destruct (is_table _) eqn:Htb; [done|].
      pose proof (walk_visited _ _ (t_forest _ _ H) _ _ _ _ _ _ Hroot Hf Hin) as Hw.
      unfold at_entry in Hw. replace (3 - Z.of_nat (Datatypes.S n + k)) with
        (3 - Z.of_nat (Datatypes.S (n + k))) in Hv, Htb, Hw by lia.
      rewrite Hv, Htb in Hw. apply Hnb in Hw. lia.
    + apply (room_weaken (Datatypes.S n)); [lia|done].
    + intros c s1 T1 Hg Hc (Hci & Hcv & Hct & Hca).
      pose proof (g_sub _ _ _ _ _ Hg) as Hsub.
      replace (3 - Z.of_nat (Datatypes.S n + k) + 1) with (3 - Z.of_nat (n + k)) by lia.
      apply (IH s1 T1); [apply Hg|by eapply lookup_weaken|done| | |by apply (g_room _ _ _ _ _ Hg)|].
      * rewrite <-Hca.
        eapply (visited_next _ _ (t_forest _ _ (g_ok _ _ _ _ _ Hg)));
          [by eapply lookup_weaken|by eapply lookup_weaken| |done|done].
        by apply (g_visited _ _ _ _ _ Hg).
      * intros l d. rewrite (g_walk _ _ _ _ _ Hg) by done. apply Hnb.
      * intros t s2 T2 Hg2 Ht Hin2. apply (HQ t s2 T2); [|done..].
        by apply (grown_trans 1 n s T s1 T1).
Qed.

(** ** Writing a leaf *)

Lemma extends_leaf s T t k i v :
  tables_ok s T → T !! t = Some k → 0 ≤ i < 512 → is_u64 v → (k = 0%nat ∨ is_table v = false) →
  let s' := fa_set_mem (write_u64 (fa_mem s) (t + 8 * i) v) s in
  extends 0 s T s' T ∧ same_entries (fa_mem s) (fa_mem s') T (λ f j, f = t ∧ j = i) ∧
  entry (fa_mem s') t i = v.
Proof.
  intros H Ht Hi Hv Hleaf s'.
  assert (Hms : fa_mem s' = write_u64 (fa_mem s) (t + 8 * i) v) by apply fa_get_set.
  assert (He : entry (fa_mem s') t i = v) by (rewrite Hms; by apply entry_write_same).
  assert (Hsame : same_entries (fa_mem s) (fa_mem s') T (λ g j, g = t ∧ j = i)).
  { intros g kg j Hg Hj Hne. rewrite Hms. apply entry_write_other; [done|done| |done].
    destruct (decide (t = g)); [by left|right]. eapply tables_apart; [apply H|done| |done].
    by eapply t_frame. }
  assert (Hb : bytes_ok (fa_mem s')) by (rewrite Hms; apply write_le_bytes, fa_bytes, H).
  split_and!; [|done|done]. split.
  - split.
    + apply fa_set_ok; [apply H|by rewrite <-Hms].
    + apply (forest_leaf _ _ (t_forest _ _ H) _ t i k Ht Hsame). by rewrite He.
    + intros f kf Hf. unfold s'. rewrite fa_set_frame, fa_set_avail. by apply (t_frame _ _ H f kf).
  - done.
  - intros g. apply fa_set_frame.
  - intros g. unfold s'. rewrite fa_set_avail. split; [|tauto]. intros Hg. split; [done|].
    destruct (T !! g) eqn:Hgt; [|done]. by destruct (t_frame _ _ H _ _ Hgt).
  - congruence.
  - intros x Hx. rewrite Hms. apply write_le_other. specialize (Hx t k Ht). lia.
  - intros j (l & ? & ? & Hav). exists l. split_and!; [done|done|]. intros f Hf. unfold s'.
    rewrite fa_set_avail. by apply Hav.
  - intros g j Hj Hg. unfold s'. rewrite fa_set_avail. split; [|done].
    eapply room_below_avail; [|exact Hj]. intros h. apply fa_set_avail.
Qed.

(** Two addresses the walks to level [l] cannot tell apart. *)
Definition agree (l : Z) (va va' : Z) : Prop :=
  ∀ j, 0 ≤ j ≤ l → table_index va j = table_index va' j.

Lemma agree_3 va va' : agree 3 va va' ↔ page_of va = page_of va'.
Proof.
  rewrite page_of_indices. unfold agree. split.
  - intros H. split_and!; apply H; lia.
  - intros (? & ? & ? & ?) j Hj. assert (j = 0 ∨ j = 1 ∨ j = 2 ∨ j = 3) by lia. naive_solver.
Qed.

Lemma agree_2 va va' : agree 2 va va' ↔ block_of va = block_of va'.
Proof.
  rewrite block_of_indices. unfold agree. split.
  - intros H. split_and!; apply H; lia.
  - intros (? & ? & ?) j Hj. assert (j = 0 ∨ j = 1 ∨ j = 2) by lia. naive_solver.
Qed.

(** A leaf changes the walks of its own root and range, and no others. *)
Lemma walk_leaf s T t k i v root va s' :
  tables_ok s T → T !! t = Some k → T !! root = Some 3%nat →
  same_entries (fa_mem s) (fa_mem s') T (λ f j, f = t ∧ j = i) → entry (fa_mem s') t i = v →
  (t, i) ∈ visited 3 (fa_mem s) root va → valid v = true → (k = 0%nat ∨ is_table v = false) →
  ∀ r va', T !! r = Some 3%nat →
    (r = root ∧ agree (3 - Z.of_nat k) va va' →
       walk 3 (fa_mem s') r va' = Some (3 - Z.of_nat k, v)) ∧
    (¬ (r = root ∧ agree (3 - Z.of_nat k) va va') →
       walk 3 (fa_mem s') r va' = walk 3 (fa_mem s) r va').
Proof.
  intros H Ht Hroot Hsame He Hin Hv Hleaf r va' Hr.
  pose proof (t_forest _ _ H) as HF.
  pose proof (f_level _ _ HF _ _ Ht) as Hk.
  rewrite (walk_update _ _ HF _ t i k Ht Hsame) by done.
  assert (Hat : at_entry k (fa_mem s') (entry (fa_mem s') t i) va' = Some (3 - Z.of_nat k, v)).
  { rewrite He. unfold at_entry. rewrite Hv. destruct k as [|k]; [done|].
    destruct Hleaf as [|Hl]; [done|]. by rewrite Hl. }
  split.
  - intros [-> Hag]. rewrite decide_True; [done|].
    eapply (visited_agree _ _ HF); [done|done| |done]. intros l Hl. apply Hag. lia.
  - intros Hne. rewrite decide_False; [done|]. intros Hin'. apply Hne.
    destruct (visited_unique _ _ HF (3 - k) root r va va' t i k) as [-> Hag]; [done..|].
    split; [done|]. intros j Hj. apply Hag. lia.
Qed.

End paging_map.
