(* ===== verification/PagingRange.v ===== *)
(** * PagingRange: ranges, and what they translate to

    [map_range] as a whole: every byte of the range translates to the byte the
    caller asked for with the attributes asked for, whichever mixture of blocks
    and pages was used, and no other address of any root changes. *)

From S2P Require Import Prelude Memory FrameAlloc Paging PagingWalk PagingTables PagingMap.

(** ** Leaf arithmetic *)

Lemma lor_add a b : Z.land a b = 0 → Z.lor a b = a + b.
Proof. intros H. pose proof (Z.add_lor_land a b). lia. Qed.

Lemma land_not64 a k : is_u64 a → Z.land a k = 0 → Z.land a (not64 k) = a.
Proof.
  intros Ha Hk. apply Z.bits_inj_iff'. intros i Hi. rewrite Z.land_spec.
  destruct (Z.lt_ge_cases i 64) as [Hlt|Hge].
  - rewrite testbit_not64 by lia. assert (Hb : Z.testbit (Z.land a k) i = false) by (rewrite Hk; apply Z.testbit_0_l).
    rewrite Z.land_spec in Hb. by destruct (Z.testbit a i), (Z.testbit k i).
  - unfold is_u64 in Ha. by rewrite testbit_u64_high.
Qed.

Lemma testbit_aligned_pow a n i : a mod 2 ^ n = 0 → 0 ≤ i < n → Z.testbit a i = false.
Proof.
  intros Ha Hi. rewrite <-(Z.mod_pow2_bits_low a n i) by lia. rewrite Ha. apply Z.testbit_0_l.
Qed.

Lemma land_aligned_ones a n : 0 ≤ n → a mod 2 ^ n = 0 → Z.land a (Z.ones n) = 0.
Proof. intros Hn Ha. by rewrite Z.land_ones. Qed.

Lemma land_aligned_low a b n : 0 ≤ n → a mod 2 ^ n = 0 → Z.land a (Z.land b (Z.ones n)) = 0.
Proof.
  intros Hn Ha. rewrite (Z.land_comm b), Z.land_assoc, land_aligned_ones by done. apply Z.land_0_l.
Qed.

(** The attribute bits of a descriptor. *)
Definition perm (d : Z) : Z := Z.land d (not64 (Z.lor ADDR_MASK 3)).

Lemma perm_lor x y : perm (Z.lor x y) = Z.lor (perm x) (perm y).
Proof. apply Z.land_lor_distr_l. Qed.

Lemma perm_attrs attrs : attrs_ok attrs → perm attrs = attrs.
Proof.
  intros (Hu & Ha & Hl). apply land_not64; [done|]. rewrite Z.land_lor_distr_r.
  unfold addr in Ha. by rewrite Ha, Hl.
Qed.

Lemma perm_page pa : page_addr pa → perm pa = 0.
Proof.
  intros Hpa. unfold perm. rewrite <-(addr_page pa Hpa). unfold addr. rewrite <-Z.land_assoc.
  replace (Z.land ADDR_MASK (not64 (Z.lor ADDR_MASK 3))) with 0 by reflexivity. apply Z.land_0_r.
Qed.

Lemma perm_desc pa attrs : page_addr pa → attrs_ok attrs →
  perm (page_desc pa attrs) = attrs ∧ perm (block_desc pa attrs) = attrs.
Proof.
  intros Hpa Hat. unfold page_desc, block_desc. rewrite !perm_lor, perm_page, perm_attrs by done.
  change (perm VALID) with 0. change (perm TABLE_OR_PAGE) with 0. rewrite !Z.lor_0_r, Z.lor_0_l. done.
Qed.

Lemma leaf_page pa attrs va o :
  page_addr pa → attrs_ok attrs → va mod 4096 = 0 → 0 ≤ o < 4096 →
  leaf_pa 3 (page_desc pa attrs) (va + o) = Some (pa + o).
Proof.
  intros Hpa Hat Hva Ho. unfold leaf_pa, PAGE_SIZE. rewrite Z.eqb_refl.
  destruct (page_desc_spec pa attrs Hpa Hat) as (_ & _ & ->).
  change (4096 - 1) with (Z.ones 12). rewrite lor_add.
  - rewrite Z.land_ones by lia. change (2 ^ 12) with 4096. do 2 f_equal. zdiv.
  - apply land_aligned_low; [lia|apply Hpa].
Qed.

Lemma leaf_block pa attrs va o :
  page_addr pa → attrs_ok attrs → va mod BLOCK_2MIB = 0 → pa mod BLOCK_2MIB = 0 →
  0 ≤ o < BLOCK_2MIB →
  leaf_pa 2 (block_desc pa attrs) (va + o) = Some (pa + o).
Proof.
  intros Hpa Hat Hva Hpa' Ho. unfold leaf_pa. change (2 =? 3) with false. change (2 =? 2) with true.
  cbv iota. destruct (block_desc_spec pa attrs Hpa Hat) as (_ & _ & ->).
  change (BLOCK_2MIB - 1) with (Z.ones 21).
  rewrite land_not64 by (by apply page_addr_u64 || by apply land_aligned_ones).
  rewrite lor_add by (by apply land_aligned_low). rewrite Z.land_ones by lia.
  unfold BLOCK_2MIB in *. change (2 ^ 21) with 2097152. do 2 f_equal. zdiv.
Qed.

(** Address [x] of [root] reaches physical address [y], with these attributes. *)
Definition maps (m : mem) (root x y attrs : Z) : Prop :=
  ∃ l d, walk 3 m root x = Some (l, d) ∧ leaf_pa l d x = Some y ∧ perm d = attrs.

Lemma maps_translation m root x y attrs :
  maps m root x y attrs → translation m root x = Some y.
Proof. intros (l & d & Hw & Hl & _). unfold translation. by rewrite Hw. Qed.

(** No block stands where a table would have to go. *)
Definition no_block (m : mem) (root va : Z) : Prop :=
  ∀ l d, walk 3 m root va = Some (l, d) → l = 3.

Section paging_range.
Context {S : Type} `{FA : FrameAlloc S, !FrameAllocLaws S}.

(** [size] bytes from [va] now reach [pa], and nothing else moved. *)
Record range_mapped (n : nat) (s : S) (T : tables) (root va pa size attrs : Z)
    (s' : S) (T' : tables) : Prop := {
  r_extends : extends n s T s' T';
  r_maps : ∀ o, 0 ≤ o < size → maps (fa_mem s') root (va + o) (pa + o) attrs;
  r_other : ∀ r x, T !! r = Some 3%nat →
    r ≠ root ∨ (∀ o, 0 ≤ o < size → page_of x ≠ page_of (va + o)) →
    walk 3 (fa_mem s') r x = walk 3 (fa_mem s) r x;
  r_pages : size < BLOCK_2MIB → ∀ o, 0 ≤ o < size → no_block (fa_mem s') root (va + o)
}.

Lemma page_of_add va o : va mod 4096 = 0 → 0 ≤ o < 4096 → page_of (va + o) = page_of va.
Proof. intros Hva Ho. unfold page_of. f_equal. zdiv. Qed.

Lemma wp_map_page s T root va pa attrs Q :
  tables_ok s T → T !! root = Some 3%nat → page_addr pa → attrs_ok attrs → va mod 4096 = 0 →
  no_block (fa_mem s) root va → room 3 s →
  (∀ s' T', range_mapped 3 s T root va pa PAGE_SIZE attrs s' T' → Q tt s') →
  wp (map_page root va pa attrs) s Q.
Proof.
  intros H Hroot Hpa Hat Hva Hnb Hroom HQ. unfold map_page. wp_step.
  apply (wp_descend 3 s T root va root 0); [done..|by left| |done|].
  { intros l d Hw. apply Hnb in Hw. lia. }
  intros t s1 T1 Hg Ht Hin. unfold write_entry. wp_step.
  destruct (page_desc_spec pa attrs Hpa Hat) as (Hv & _ & _).
  destruct (desc_u64 pa attrs Hpa Hat) as (Hu & _ & _).
  pose proof (g_ok _ _ _ _ _ Hg) as H1. pose proof (g_sub _ _ _ _ _ Hg) as Hsub.
  destruct (extends_leaf s1 T1 t 0 (table_index va 3) _ H1 Ht (table_index_bound _ _) Hu)
    as (Hx & Hsame & He); [by left|].
  pose proof (walk_leaf s1 T1 t 0 _ _ root va _ H1 Ht (lookup_weaken _ _ _ _ Hroot Hsub)
    Hsame He Hin Hv (or_introl eq_refl)) as Hwalk.
  eapply (HQ _ T1). split.
  - apply (extends_trans 3 0 s T s1 T1); [by apply grown_extends|exact Hx].
  - intros o Ho. eexists 3, _. split; [|split; [by apply leaf_page|by apply perm_desc]].
    refine (proj1 (Hwalk root (va + o) _) _); [by eapply lookup_weaken|]. split; [done|].
    apply agree_3. symmetry. by apply page_of_add.
  - intros r x Hr Hne. rewrite <-(g_walk _ _ _ _ _ Hg) by done.
    refine (proj2 (Hwalk r x _) _); [by eapply lookup_weaken|]. intros [-> Hag%agree_3].
    destruct Hne as [|Hne]; [done|]. apply (Hne 0); [done|]. by rewrite Z.add_0_r.
  - intros _ o Ho l d Hw. assert (Hl : (l, d) = (3, page_desc pa attrs)); [|by injection Hl].
    apply (inj Some). rewrite <-Hw. refine (proj1 (Hwalk root (va + o) _) _); [by eapply lookup_weaken|].
    split; [done|]. apply agree_3. symmetry. by apply page_of_add.
Qed.

Lemma block_of_pages va x o :
  va mod BLOCK_2MIB = 0 → 0 ≤ o < BLOCK_2MIB → page_of x = page_of (va + o) → block_of va = block_of x.
Proof.
  unfold page_of, block_of, BLOCK_2MIB. change (2 ^ 36) with 68719476736. change (2 ^ 27) with 134217728.
  intros. zdiv.
Qed.

Lemma pages_of_block va x :
  va mod BLOCK_2MIB = 0 → block_of va = block_of x →
  page_of x = page_of (va + x mod BLOCK_2MIB).
Proof.
  unfold page_of, block_of, BLOCK_2MIB. change (2 ^ 36) with 68719476736. change (2 ^ 27) with 134217728.
  intros. zdiv.
Qed.

Lemma wp_map_block s T root va pa attrs Q :
  tables_ok s T → T !! root = Some 3%nat → page_addr pa → attrs_ok attrs →
  va mod BLOCK_2MIB = 0 → pa mod BLOCK_2MIB = 0 →
  no_block (fa_mem s) root va → room 2 s →
  (∀ s' T', range_mapped 2 s T root va pa BLOCK_2MIB attrs s' T' → Q tt s') →
  wp (map_block root va pa attrs) s Q.
Proof.
  intros H Hroot Hpa Hat Hva Hpa' Hnb Hroom HQ. unfold map_block. wp_step.
  apply (wp_descend 2 s T root va root 1); [done..|by left| |done|].
  { intros l d Hw. apply Hnb in Hw. lia. }
  intros t s1 T1 Hg Ht Hin. unfold write_entry. wp_step.
  destruct (block_desc_spec pa attrs Hpa Hat) as (Hv & Htb & _).
  destruct (desc_u64 pa attrs Hpa Hat) as (_ & Hu & _).
  pose proof (g_ok _ _ _ _ _ Hg) as H1. pose proof (g_sub _ _ _ _ _ Hg) as Hsub.
  destruct (extends_leaf s1 T1 t 1 (table_index va 2) _ H1 Ht (table_index_bound _ _) Hu)
    as (Hx & Hsame & He); [by right|].
  pose proof (walk_leaf s1 T1 t 1 _ _ root va _ H1 Ht (lookup_weaken _ _ _ _ Hroot Hsub)
    Hsame He Hin Hv (or_intror Htb)) as Hwalk.
  eapply (HQ _ T1). split.
  - apply (extends_trans 2 0 s T s1 T1); [by apply grown_extends|exact Hx].
  - intros o Ho. eexists 2, _. split; [|split; [by apply leaf_block|by apply perm_desc]].
    refine (proj1 (Hwalk root (va + o) _) _); [by eapply lookup_weaken|]. split; [done|].
    apply agree_2. by apply (block_of_pages _ _ o).
  - intros r x Hr Hne. rewrite <-(g_walk _ _ _ _ _ Hg) by done.
    refine (proj2 (Hwalk r x _) _); [by eapply lookup_weaken|]. intros [-> Hag%agree_2].
    destruct Hne as [|Hne]; [done|]. apply (Hne (x mod BLOCK_2MIB)).
    + unfold BLOCK_2MIB. zdiv.
    + by apply pages_of_block.
  - lia.
Qed.

Lemma range_mapped_nil s T root va pa attrs :
  tables_ok s T → range_mapped 0 s T root va pa 0 attrs s T.
Proof. intros H. split; [by apply extends_refl|lia|done|lia]. Qed.

(** Adjacent ranges compose. *)
Lemma range_mapped_app n n' s T s1 T1 s2 T2 root va pa a b attrs :
  T !! root = Some 3%nat → 0 ≤ a → 0 ≤ b → a mod 4096 = 0 → va mod 4096 = 0 → a + b ≤ 2 ^ 48 →
  range_mapped n s T root va pa a attrs s1 T1 →
  range_mapped n' s1 T1 root (va + a) (pa + a) b attrs s2 T2 →
  range_mapped (n + n') s T root va pa (a + b) attrs s2 T2.
Proof.
  intros Hroot Ha Hb Ham Hva Hab H1 H2. pose proof (x_sub _ _ _ _ _ (r_extends _ _ _ _ _ _ _ _ _ _ H1)) as Hsub.
  change (2 ^ 48) with 281474976710656 in Hab.
  split.
  - eapply extends_trans; [apply H1|apply H2].
  - intros o Ho. destruct (Z.lt_ge_cases o a) as [Hlt|Hge].
    + destruct (r_maps _ _ _ _ _ _ _ _ _ _ H1 o) as (l & d & Hw & Hl & Hp); [lia|].
      exists l, d. split; [|done]. rewrite <-Hw. apply (r_other _ _ _ _ _ _ _ _ _ _ H2).
      * by eapply lookup_weaken.
      * right. intros o' Ho'. unfold page_of. change (2 ^ 36) with 68719476736. zdiv.
    + pose proof (r_maps _ _ _ _ _ _ _ _ _ _ H2 (o - a)) as Hm.
      replace (va + a + (o - a)) with (va + o) in Hm by lia.
      replace (pa + a + (o - a)) with (pa + o) in Hm by lia. apply Hm. lia.
  - intros r x Hr Hne. rewrite (r_other _ _ _ _ _ _ _ _ _ _ H2).
    + apply (r_other _ _ _ _ _ _ _ _ _ _ H1); [done|].
      destruct Hne as [|Hne]; [by left|right]. intros o Ho. apply Hne. lia.
    + by eapply lookup_weaken.
    + destruct Hne as [|Hne]; [by left|right]. intros o Ho.
      replace (va + a + o) with (va + (a + o)) by lia. apply Hne. lia.
  - intros Hlt o Ho. destruct (Z.lt_ge_cases o a) as [Hoa|Hoa].
    + intros l d. rewrite (r_other _ _ _ _ _ _ _ _ _ _ H2).
      * apply (r_pages _ _ _ _ _ _ _ _ _ _ H1); lia.
      * by eapply lookup_weaken.
      * right. intros o' Ho'. unfold page_of. change (2 ^ 36) with 68719476736. zdiv.
    + pose proof (r_pages _ _ _ _ _ _ _ _ _ _ H2 ltac:(lia) (o - a)) as Hp.
      replace (va + a + (o - a)) with (va + o) in Hp by lia. apply Hp. lia.
Qed.

(** Frames a range may need for tables: three per page and two per block are
    always enough, and the loop takes every block it can. *)
Definition tables_for (va pa size : Z) : nat :=
  if (va - pa) mod BLOCK_2MIB =? 0 then
    let head := Z.min size ((- va) mod BLOCK_2MIB) in
    Z.to_nat (3 * (head / 4096) + 2 * ((size - head) / BLOCK_2MIB) + 3 * ((size - head) mod BLOCK_2MIB / 4096))
  else Z.to_nat (3 * (size / 4096)).

Lemma tables_for_block va pa size :
  va mod BLOCK_2MIB = 0 → pa mod BLOCK_2MIB = 0 → BLOCK_2MIB ≤ size →
  tables_for va pa size = (2 + tables_for (va + BLOCK_2MIB) (pa + BLOCK_2MIB) (size - BLOCK_2MIB))%nat.
Proof.
  unfold tables_for, BLOCK_2MIB. intros Hv Hp Hs. rewrite !(proj2 (Z.eqb_eq _ 0)) by zdiv. cbv zeta.
  assert (H0 : - va mod (2 * 1024 * 1024) = 0) by zdiv.
  assert (H1 : - (va + 2 * 1024 * 1024) mod (2 * 1024 * 1024) = 0) by zdiv.
  rewrite H0, H1. rewrite !Z.min_r by lia. zdiv.
Qed.

Lemma tables_for_page va pa size :
  va mod 4096 = 0 → pa mod 4096 = 0 → size mod 4096 = 0 → 4096 ≤ size →
  va mod BLOCK_2MIB ≠ 0 ∨ pa mod BLOCK_2MIB ≠ 0 ∨ size < BLOCK_2MIB →
  tables_for va pa size = (3 + tables_for (va + 4096) (pa + 4096) (size - 4096))%nat.
Proof.
  unfold tables_for, BLOCK_2MIB. intros Hv Hp Hm Hs Hno. replace (va + 4096 - (pa + 4096)) with (va - pa) by lia.
  destruct (Z.eqb_spec ((va - pa) mod (2 * 1024 * 1024)) 0) as [He|He]; [|zdiv]. cbv zeta.
  destruct (Z.eq_dec (va mod (2 * 1024 * 1024)) 0) as [H0|H0].
  - assert (Hz : - va mod (2 * 1024 * 1024) = 0) by zdiv. rewrite Hz.
    assert (Hlt : size < 2 * 1024 * 1024) by zdiv.
    assert (Hn : - (va + 4096) mod (2 * 1024 * 1024) = 2 * 1024 * 1024 - 4096) by zdiv. rewrite Hn.
    rewrite Z.min_r, Z.min_l by zdiv. zdiv.
  - assert (Hn : - (va + 4096) mod (2 * 1024 * 1024) = - va mod (2 * 1024 * 1024) - 4096) by zdiv. rewrite Hn.
    assert (Hb : 4096 ≤ - va mod (2 * 1024 * 1024) ∧ (- va mod (2 * 1024 * 1024)) mod 4096 = 0) by zdiv.
    revert Hb. generalize (- va mod (2 * 1024 * 1024)). intros h [Hh Hh'].
    destruct (Z.le_ge_cases size h).
    + rewrite !Z.min_l by lia. rewrite !Z.sub_diag. zdiv.
    + rewrite !Z.min_r by lia. replace (size - 4096 - (h - 4096)) with (size - h) by lia. zdiv.
Qed.

Lemma tables_for_le va pa size : 0 ≤ size → (tables_for va pa size ≤ Z.to_nat (3 * (size / 4096)))%nat.
Proof.
  unfold tables_for, BLOCK_2MIB. intros Hs. destruct (_ =? 0); [|done]. cbv zeta.
  assert (Hh : 0 ≤ Z.min size (- va mod (2 * 1024 * 1024)) ≤ size) by zdiv.
  revert Hh. generalize (Z.min size (- va mod (2 * 1024 * 1024))). intros h Hh. zdiv.
Qed.

Lemma tables_for_nil va pa : tables_for va pa 0 = 0%nat.
Proof. pose proof (tables_for_le va pa 0 ltac:(lia)). change (Z.to_nat (3 * (0 / 4096))) with 0%nat in *. lia. Qed.

(** The rest of the range at [offset]. *)
Record mappable (s : S) (T : tables) (root va pa size : Z) : Prop := {
  mp_ok : tables_ok s T;
  mp_root : T !! root = Some 3%nat;
  mp_size : 0 ≤ size ≤ 2 ^ 48 ∧ size mod 4096 = 0;
  mp_va : 0 ≤ va ∧ va + size ≤ u64_max ∧ va mod 4096 = 0;
  mp_pa : 0 ≤ pa ∧ pa + size ≤ 2 ^ 48 ∧ pa mod 4096 = 0;
  mp_free : ∀ o, 0 ≤ o < size → no_block (fa_mem s) root (va + o);
  mp_room : room (tables_for va pa size) s
}.

(** What is left to map after a first chunk of [c] bytes. *)
Lemma mappable_rest n s T root va pa size c attrs s1 T1 :
  mappable s T root va pa size → 0 < c ≤ size → c mod 4096 = 0 →
  tables_for va pa size = (n + tables_for (va + c) (pa + c) (size - c))%nat →
  range_mapped n s T root va pa c attrs s1 T1 →
  mappable s1 T1 root (va + c) (pa + c) (size - c).
Proof.
  intros [H Hroot [Hs Hsm] (Hv1 & Hv2 & Hv3) (Hp1 & Hp2 & Hp3) Hfree Hroom] Hc Hcm Hn Hr.
  change (2 ^ 48) with 281474976710656 in *.
  pose proof (r_extends _ _ _ _ _ _ _ _ _ _ Hr) as Hx.
  split; [apply Hx|eapply lookup_weaken; [done|apply Hx]|change (2 ^ 48) with 281474976710656; zdiv
    |zdiv|change (2 ^ 48) with 281474976710656; zdiv| |].
  - intros o Ho l d. rewrite (r_other _ _ _ _ _ _ _ _ _ _ Hr) by
      (done || (right; intros o' Ho'; unfold page_of; change (2 ^ 36) with 68719476736; zdiv)).
    replace (va + c + o) with (va + (c + o)) by lia. apply Hfree. lia.
  - apply (x_room _ _ _ _ _ Hx). by rewrite <-Hn.
Qed.

Lemma wp_map_range_loop fuel s T root va0 pa0 size0 attrs off Q :
  attrs_ok attrs → 0 ≤ va0 → 0 ≤ off → off ≤ size0 → va0 + size0 ≤ u64_max → pa0 + size0 ≤ u64_max →
  mappable s T root (va0 + off) (pa0 + off) (size0 - off) →
  (size0 - off) / 4096 < Z.of_nat fuel →
  (∀ s' T', range_mapped (tables_for (va0 + off) (pa0 + off) (size0 - off)) s T root (va0 + off) (pa0 + off)
              (size0 - off) attrs s' T' → Q tt s') →
  wp (map_range_loop fuel root va0 pa0 size0 attrs off) s Q.
Proof.
  intros Hat Hva0. revert s T off Q. induction fuel as [|fuel IH]; intros s T off Q Hoff Hle Hvt Hpt Hm Hf HQ.
  { exfalso. assert (0 ≤ (size0 - off) / 4096) by zdiv. lia. }
  cbn [map_range_loop]. destruct (Z.ltb_spec off size0) as [Hlt|Hge].
  2: { wp_step. eapply (HQ s T). assert (off = size0) as -> by lia. rewrite Z.sub_diag.
       rewrite tables_for_nil. apply range_mapped_nil, Hm. }
  pose proof Hm as [H Hroot [Hs Hsm] (Hv1 & Hv2 & Hv3) (Hp1 & Hp2 & Hp3) Hfree Hroom].
  wp_step. eapply wp_lift; [apply add64_ok; lia|]. wp_step.
  eapply wp_lift; [apply add64_ok; lia|].
  assert (Hpa : page_addr (pa0 + off)) by (split; [lia|done]).
  assert (Hnb : no_block (fa_mem s) root (va0 + off)).
  { specialize (Hfree 0). rewrite Z.add_0_r in Hfree. apply Hfree. lia. }
  assert (Hnext : ∀ c n, 0 < c ≤ size0 - off → c mod 4096 = 0 →
    tables_for (va0 + off) (pa0 + off) (size0 - off) =
      (n + tables_for (va0 + off + c) (pa0 + off + c) (size0 - off - c))%nat →
    ∀ s1 T1, range_mapped n s T root (va0 + off) (pa0 + off) c attrs s1 T1 →
    wp (offset ← lift (add64 off c); map_range_loop fuel root va0 pa0 size0 attrs offset) s1 Q).
  { intros c n Hc Hcm Hn s1 T1 Hr. wp_step. eapply wp_lift; [apply add64_ok; lia|].
    pose proof (mappable_rest _ _ _ _ _ _ _ _ _ _ _ Hm Hc Hcm Hn Hr) as Hm1.
    replace (va0 + off + c) with (va0 + (off + c)) in Hm1, Hn by lia.
    replace (pa0 + off + c) with (pa0 + (off + c)) in Hm1, Hn by lia.
    replace (size0 - off - c) with (size0 - (off + c)) in Hm1, Hn by lia.
    apply (IH s1 T1); [lia..|done|zdiv|]. intros s2 T2 Hr2. apply (HQ s2 T2).
    rewrite Hn. replace (size0 - off) with (c + (size0 - (off + c))) by lia.
    eapply (range_mapped_app _ _ _ _ s1 T1); [done|lia|lia|done|done|lia|done|].
    replace (va0 + off + c) with (va0 + (off + c)) by lia.
    by replace (pa0 + off + c) with (pa0 + (off + c)) by lia. }
  assert (Hpage : (va0 + off) mod BLOCK_2MIB ≠ 0 ∨ (pa0 + off) mod BLOCK_2MIB ≠ 0 ∨
      size0 - off < BLOCK_2MIB →
    wp (_ ← map_page root (va0 + off) (pa0 + off) attrs; offset ← lift (add64 off PAGE_SIZE);
        map_range_loop fuel root va0 pa0 size0 attrs offset) s Q).
  { intros Hno. assert (Hge : 4096 ≤ size0 - off) by zdiv.
    pose proof (tables_for_page _ _ _ Hv3 Hp3 Hsm Hge Hno) as Hn.
    wp_step. apply (wp_map_page s T); [done..| |].
    { apply (room_weaken (tables_for (va0 + off) (pa0 + off) (size0 - off))); [|done]. rewrite Hn. lia. }
    intros s1 T1 Hr. apply (Hnext PAGE_SIZE 3%nat) with (T1 := T1); unfold PAGE_SIZE; done || lia. }
  destruct (Z.leb_spec BLOCK_2MIB (size0 - off)) as [Hb1|Hb1]; cbn [andb]; [|apply Hpage; lia].
  unfold is_multiple_of.
  destruct (Z.eqb_spec ((va0 + off) mod BLOCK_2MIB) 0) as [Hb2|]; cbn [andb]; [|apply Hpage; tauto].
  destruct (Z.eqb_spec ((pa0 + off) mod BLOCK_2MIB) 0) as [Hb3|]; cbn [andb]; [|apply Hpage; tauto].
  pose proof (tables_for_block _ _ _ Hb2 Hb3 Hb1) as Hn.
  wp_step. apply (wp_map_block s T); [done..| |].
  { apply (room_weaken (tables_for (va0 + off) (pa0 + off) (size0 - off))); [|done]. rewrite Hn. lia. }
  intros s1 T1 Hr. by apply (Hnext BLOCK_2MIB 2%nat) with (T1 := T1).
Qed.

Lemma wp_map_range s T root va pa size attrs Q :
  attrs_ok attrs → mappable s T root va pa size →
  (∀ s' T', range_mapped (tables_for va pa size) s T root va pa size attrs s' T' → Q tt s') →
  wp (map_range root va pa size attrs) s Q.
Proof.
  intros Hat Hm HQ. destruct (mp_size _ _ _ _ _ _ Hm) as [Hs _].
  destruct (mp_va _ _ _ _ _ _ Hm) as (Hv0 & Hv & _). destruct (mp_pa _ _ _ _ _ _ Hm) as (_ & Hp & _).
  change (2 ^ 48) with 281474976710656 in *.
  assert (Hge : 0 ≤ size / 4096) by zdiv.
  unfold map_range. apply (wp_map_range_loop _ s T); rewrite ?Z.add_0_r, ?Z.sub_0_r;
    [done|lia|lia|lia|lia|lia|done| |done].
  unfold PAGE_SIZE. lia.
Qed.

End paging_range.
