(* ===== verification/PagingSpace.v ===== *)
(** * PagingSpace: checking, copying and tearing down an address space

    What [user_range] decides, what [copy_across] copies, and which frames
    [AddressSpace::destroy] gives back. *)

From S2P Require Import Prelude Memory FrameAlloc Paging PagingWalk PagingTables PagingMap PagingRange.

(** ** Walks only see pages *)

Lemma walk_agree k m t va va' :
  (∀ j, 3 - Z.of_nat k ≤ j ≤ 3 → table_index va j = table_index va' j) →
  walk k m t va = walk k m t va'.
Proof.
  revert t. induction k as [|k IH]; intros t Hag; rewrite !walk_at_entry, Hag by lia; [done|].
  unfold at_entry. destruct (valid _); [|done]. destruct (is_table _); [|done].
  apply IH. intros j Hj. apply Hag. lia.
Qed.

Lemma walk_page m root va va' : page_of va = page_of va' → walk 3 m root va = walk 3 m root va'.
Proof. intros H%agree_3. apply walk_agree. intros j Hj. apply H. simpl in Hj. lia. Qed.

Lemma land_not64_ones va n : is_u64 va → 0 ≤ n ≤ 64 →
  Z.land va (not64 (Z.ones n)) = va / 2 ^ n * 2 ^ n.
Proof.
  intros Hva Hn. rewrite <-Z.shiftr_div_pow2, <-Z.shiftl_mul_pow2, <-Z.ldiff_ones_r by lia.
  apply Z.bits_inj_iff'. intros i Hi. rewrite Z.land_spec, Z.ldiff_spec.
  destruct (Z.lt_ge_cases i 64).
  - by rewrite testbit_not64 by lia.
  - unfold is_u64 in Hva. by rewrite testbit_u64_high.
Qed.

(** A leaf of [2 ^ n] bytes sends neighbouring addresses to neighbours. *)
Lemma leaf_field a va n : is_u64 a → 0 ≤ n ≤ 64 →
  Z.lor (Z.land a (not64 (Z.ones n))) (Z.land va (Z.ones n)) = a / 2 ^ n * 2 ^ n + va mod 2 ^ n.
Proof.
  intros Ha Hn. rewrite land_not64_ones by done. rewrite lor_add.
  - by rewrite Z.land_ones by lia.
  - apply land_aligned_low; [lia|]. apply Z.mod_mul. assert (0 < 2 ^ n) by (apply Z.pow_pos_nonneg; lia). lia.
Qed.

Lemma addr_u64 d : is_u64 (addr d).
Proof.
  unfold addr. rewrite Z.land_comm. pose proof (land_range ADDR_MASK d 64) as H.
  change (2 ^ 64) with (u64_max + 1) in H. unfold is_u64. unfold ADDR_MASK in *. lia.
Qed.

Lemma addr_aligned d : addr d mod 4096 = 0.
Proof. pose proof (addr_multiple d) as H. unfold is_multiple_of in H. by apply Z.eqb_eq in H. Qed.

Lemma leaf_pa_near l d va y o :
  leaf_pa l d va = Some y → 0 ≤ o → va mod 4096 + o < 4096 → leaf_pa l d (va + o) = Some (y + o).
Proof.
  intros Hl Ho Hlt. unfold leaf_pa in *. pose proof (addr_u64 d) as Hu.
  destruct (l =? 3).
  - change (PAGE_SIZE - 1) with (Z.ones 12) in *.
    rewrite lor_add in Hl by (apply land_aligned_low; [lia|apply addr_aligned]).
    rewrite lor_add by (apply land_aligned_low; [lia|apply addr_aligned]).
    rewrite Z.land_ones in * by lia. change (2 ^ 12) with 4096 in *. simplify_eq. f_equal. zdiv.
  - destruct (l =? 2); [|destruct (l =? 1); [|done]].
    + change (BLOCK_2MIB - 1) with (Z.ones 21) in *. rewrite leaf_field in * by (done || lia).
      change (2 ^ 21) with 2097152 in *. simplify_eq. f_equal. zdiv.
    + change (512 * BLOCK_2MIB - 1) with (Z.ones 30) in *. rewrite leaf_field in * by (done || lia).
      change (2 ^ 30) with 1073741824 in *. simplify_eq. f_equal. zdiv.
Qed.

Lemma translation_near m root va y o :
  translation m root va = Some y → 0 ≤ o → va mod 4096 + o < 4096 →
  translation m root (va + o) = Some (y + o).
Proof.
  unfold translation. intros Ht Ho Hlt. rewrite (walk_page m root (va + o) va).
  - destruct (walk 3 m root va) as [[l d]|]; [|done]. simpl in *. by apply leaf_pa_near.
  - unfold page_of. f_equal. zdiv.
Qed.

(** The walk at [x] ends in a leaf whose permission field is allowed. *)
Definition accessible (m : mem) (root : Z) (allowed : Z → bool) (x : Z) : Prop :=
  ∃ l d, walk 3 m root x = Some (l, d) ∧ allowed (ap d) = true.

Section space.
Context {S : Type} `{FA : FrameAlloc S, !FrameAllocLaws S}.

Lemma user_range_loop_spec fuel root page end_ allowed (s : S) :
  page mod 4096 = 0 → 0 ≤ page → end_ ≤ KERNEL_BASE → end_ - page < 4096 * Z.of_nat fuel →
  ∃ b, user_range_loop fuel root page end_ allowed s = Done (b, s) ∧
    (b = true ↔ ∀ x, page ≤ x < end_ → accessible (fa_mem s) root allowed x).
Proof.
  revert page. induction fuel as [|fuel IH]; intros page Hp H0 Hk Hf; cbn [user_range_loop];
    destruct (Z.ltb_spec page end_); try lia; try (eexists; split; [done|]; split; [lia|done]).
  unfold mbind at 1, M_bind. rewrite lookup_walk.
  destruct (walk 3 (fa_mem s) root page) as [[l d]|] eqn:Hw; simpl.
  2: { exists false. split; [done|]. split; [done|]. intros Hx.
       destruct (Hx page) as (? & ? & ? & _); [lia|congruence]. }
  destruct (allowed (ap d)) eqn:Ha; simpl.
  2: { exists false. split; [done|]. split; [done|]. intros Hx.
       destruct (Hx page) as (? & ? & ? & ?); [lia|congruence]. }
  unfold mbind, M_bind, lift. unfold KERNEL_BASE in *. rewrite add64_ok by (unfold PAGE_SIZE; lia).
  destruct (IH (page + PAGE_SIZE)) as (b & -> & Hb); unfold PAGE_SIZE in *; [zdiv|lia|lia|lia|].
  exists b. split; [done|]. rewrite Hb. split; intros Hx x Hx'; [|apply Hx; lia].
  destruct (Z.lt_ge_cases x (page + 4096)); [|apply Hx; lia].
  exists l, d. split; [|done]. rewrite <-Hw. apply walk_page. unfold page_of. f_equal. zdiv.
Qed.

Lemma user_range_spec root va len allowed (s : S) :
  is_u64 va → 0 ≤ len →
  ∃ b, user_range root va len allowed s = Done (b, s) ∧
    (b = true ↔ len = 0 ∨
       va + len ≤ KERNEL_BASE ∧ ∀ x, va ≤ x < va + len → accessible (fa_mem s) root allowed x).
Proof.
  intros Hva Hlen. unfold user_range. destruct (Z.eqb_spec len 0) as [->|Hne].
  { exists true. split; [done|]. tauto. }
  unfold checked_add64. destruct (Z.leb_spec (va + len) u64_max).
  2: { exists false. split; [done|]. split; [done|]. intros [|[? _]]; [done|].
       unfold KERNEL_BASE in *. lia. }
  destruct (Z.ltb_spec KERNEL_BASE (va + len)).
  { exists false. split; [done|]. split; [done|]. intros [|[? _]]; [done|lia]. }
  change (PAGE_SIZE - 1) with (Z.ones 12). rewrite land_not64_ones by (done || lia).
  change (2 ^ 12) with 4096. unfold is_u64 in Hva.
  destruct (user_range_loop_spec (Z.to_nat (len / PAGE_SIZE + 2)) root (va / 4096 * 4096) (va + len) allowed s)
    as (b & -> & Hb); [apply Z.mod_mul; lia|zdiv|lia|unfold PAGE_SIZE; zdiv|].
  exists b. split; [done|]. rewrite Hb. split.
  - intros Hx. right. split; [lia|]. intros x Hx'. apply Hx. zdiv.
  - intros [|[_ Hx]]; [done|]. intros x Hx'. destruct (Z.lt_ge_cases x va); [|apply Hx; lia].
    destruct (Hx va) as (l & d & Hw & Ha); [lia|]. exists l, d. split; [|done].
    rewrite <-Hw. apply walk_page. unfold page_of. f_equal. zdiv.
Qed.

(** The check reads the address modulo [2 ^ 48]. *)
Lemma user_readable_alias root va len s :
  is_u64 va → 0 < len → va + 2 ^ 48 + len ≤ KERNEL_BASE →
  user_readable root (va + 2 ^ 48) len s = user_readable root va len s.
Proof.
  intros Hva Hlen Hk. change (2 ^ 48) with 281474976710656 in *.
  set (allowed := λ a, (a =? AP_RW_ALL) || (a =? AP_RO_ALL)).
  assert (Hva' : is_u64 (va + 281474976710656)) by (unfold is_u64, KERNEL_BASE in *; lia).
  destruct (user_range_spec root va len allowed s Hva ltac:(lia)) as (b & Hr & Hb).
  destruct (user_range_spec root (va + 281474976710656) len allowed s Hva' ltac:(lia)) as (b' & Hr' & Hb').
  unfold user_readable. fold allowed. rewrite Hr, Hr'. do 2 f_equal. apply eq_true_iff_eq.
  assert (Hacc : ∀ x, accessible (fa_mem s) root allowed (x + 281474976710656) ↔
                      accessible (fa_mem s) root allowed x).
  { intros x. unfold accessible. rewrite (walk_page _ _ (x + 281474976710656) x); [done|].
    unfold page_of. change (2 ^ 36) with 68719476736. zdiv. }
  rewrite Hb, Hb'. split; (intros [?|[_ Hx]]; [lia|right; split; [lia|]]); intros x Hx'.
  - apply (proj1 (Hacc x)), Hx. lia.
  - replace x with (x - 281474976710656 + 281474976710656) by lia.
    apply (proj2 (Hacc _)), Hx. lia.
Qed.

(** ** Copying *)

(** Both sides are mapped, the bytes written are not part of any table, and no
    byte is written twice or read after being written. *)
Record copyable (m : mem) (T : tables) (src_root src_va dst_root dst_va len : Z)
    (sp dp : Z → Z) : Prop := {
  cp_forest : forest m T;
  cp_roots : T !! src_root = Some 3%nat ∧ T !! dst_root = Some 3%nat;
  cp_src : ∀ i, 0 ≤ i < len → translation m src_root (src_va + i) = Some (sp i);
  cp_dst : ∀ i, 0 ≤ i < len → translation m dst_root (dst_va + i) = Some (dp i);
  cp_tables : ∀ i f k, 0 ≤ i < len → T !! f = Some k → ¬ (f ≤ dp i < f + 4096);
  cp_inj : ∀ i j, 0 ≤ i < len → 0 ≤ j < len → dp i = dp j → i = j;
  cp_apart : ∀ i j, 0 ≤ i < len → 0 ≤ j < len → sp i ≠ dp j
}.

(** [m'] is [m] with the bytes [lo .. hi) of the message copied. *)
Definition copied (m m' : mem) (sp dp : Z → Z) (lo hi : Z) : Prop :=
  (∀ i, lo ≤ i < hi → m' (dp i) = m (sp i)) ∧
  (∀ x, (∀ i, lo ≤ i < hi → x ≠ dp i) → m' x = m x).

Lemma entry_untouched m m' t i :
  (∀ x, t ≤ x < t + 4096 → m' x = m x) → 0 ≤ i < 512 → entry m' t i = entry m t i.
Proof. intros H Hi. apply read_le_ext. intros x Hx. apply H. lia. Qed.

Lemma translation_untouched m m' T root va :
  forest m T → T !! root = Some 3%nat →
  (∀ f k x, T !! f = Some k → f ≤ x < f + 4096 → m' x = m x) →
  translation m' root va = translation m root va.
Proof.
  intros HF Hr Hx. unfold translation. f_equal. apply (walk_same _ _ HF); [|done].
  intros f k i Hf Hi _. apply entry_untouched; [|done]. intros x. by apply (Hx f k).
Qed.

Lemma copied_step m m1 sp dp done c src_pa dst_pa len :
  0 ≤ done → 0 < c → done + c ≤ len →
  (∀ j, 0 ≤ j < c → sp (done + j) = src_pa + j) → (∀ j, 0 ≤ j < c → dp (done + j) = dst_pa + j) →
  (∀ i j, 0 ≤ i < len → 0 ≤ j < len → dp i = dp j → i = j) →
  (∀ i j, 0 ≤ i < len → 0 ≤ j < len → sp i ≠ dp j) →
  copied m m1 sp dp 0 done → copied m (copy_range m1 src_pa dst_pa c) sp dp 0 (done + c).
Proof.
  intros H0 Hc Hle Hs Hd Hinj Hap [Hin Hout]. split.
  - intros i Hi. destruct (Z.lt_ge_cases i done) as [Hlt|Hge].
    + rewrite copy_range_out; [apply Hin; lia|]. intros Hr.
      assert (i = done + (dp i - dst_pa)); [|lia]. apply Hinj; [lia|lia|]. rewrite Hd by lia. lia.
    + replace i with (done + (i - done)) by lia. rewrite Hd, Hs by lia.
      rewrite copy_range_in by lia. rewrite Hout; [f_equal; lia|].
      intros j Hj. replace (src_pa + (dst_pa + (i - done) - dst_pa)) with (src_pa + (i - done)) by lia.
      rewrite <-Hs by lia. apply Hap; lia.
  - intros x Hx. rewrite copy_range_out; [apply Hout; intros i Hi; apply Hx; lia|].
    intros Hr. apply (Hx (done + (x - dst_pa))); [lia|]. rewrite Hd by lia. lia.
Qed.

Lemma copy_loop_spec T src_root src_va dst_root dst_va len sp dp m fuel done (s : S) :
  copyable m T src_root src_va dst_root dst_va len sp dp → bytes_ok m →
  0 ≤ src_va → 0 ≤ dst_va → src_va + len ≤ u64_max → dst_va + len ≤ u64_max →
  0 ≤ done ≤ len → len - done ≤ Z.of_nat fuel → fa_ok s → copied m (fa_mem s) sp dp 0 done →
  ∃ s', copy_across_loop fuel src_root src_va dst_root dst_va len done s = Done (true, s') ∧
    fa_ok s' ∧ copied m (fa_mem s') sp dp 0 len ∧
    (∀ g, fa_frame s' g ↔ fa_frame s g) ∧ (∀ g, fa_avail s' g ↔ fa_avail s g).
Proof.
  intros Hc Hb Hs0 Hd0 Hsl Hdl. pose proof Hc as [HF [Hr1 Hr2] Hsrc Hdst Htab Hinj Hap].
  revert done s. induction fuel as [|fuel IH]; intros done s Hdone Hf Hok Hcp; cbn [copy_across_loop];
    destruct (Z.ltb_spec done len) as [Hlt|Hge]; try lia;
    try (assert (done = len) as -> by lia; by exists s).
  unfold mbind, M_bind, lift. rewrite !add64_ok by lia. rewrite translate_walk, translate_walk.
  assert (Hun : ∀ f k x, T !! f = Some k → f ≤ x < f + 4096 → fa_mem s x = m x).
  { intros f k x Hf' Hx. apply Hcp. intros i Hi ->. by apply (Htab i f k); [lia|..]. }
  rewrite !(translation_untouched m (fa_mem s) T) by done.
  rewrite Hsrc, Hdst by lia.
  change (PAGE_SIZE - 1) with (Z.ones 12). rewrite !Z.land_ones by lia. change (2 ^ 12) with 4096.
  unfold PAGE_SIZE. set (c := Z.min _ _).
  assert (Hcb : 0 < c ∧ done + c ≤ len ∧ (src_va + done) mod 4096 + c ≤ 4096 ∧
                (dst_va + done) mod 4096 + c ≤ 4096) by (unfold c; zdiv).
  destruct Hcb as (Hc0 & Hcl & Hcs & Hcd). unfold modify.
  assert (Hnear : ∀ root va (p : Z → Z), (∀ i, 0 ≤ i < len → translation m root (va + i) = Some (p i)) →
    (va + done) mod 4096 + c ≤ 4096 → ∀ j, 0 ≤ j < c → p (done + j) = p done + j).
  { intros root va p Hp Hm j Hj. pose proof (Hp (done + j) ltac:(lia)) as H1.
    pose proof (translation_near m root (va + done) (p done) j (Hp done ltac:(lia)) ltac:(lia) ltac:(lia)) as H2.
    replace (va + (done + j)) with (va + done + j) in H1 by lia. congruence. }
  edestruct (IH (done + c)) as (s' & -> & Hok' & Hcp' & Hfr' & Hav').
  - lia.
  - lia.
  - apply fa_set_ok; [done|]. apply copy_range_bytes, fa_bytes, Hok.
  - rewrite fa_get_set. apply (copied_step m (fa_mem s) sp dp done c _ _ len); try done; try lia.
    + by apply (Hnear src_root src_va).
    + by apply (Hnear dst_root dst_va).
  - exists s'. split; [done|]. split; [done|]. split; [done|]. split; intros g.
    + by rewrite Hfr', fa_set_frame.
    + by rewrite Hav', fa_set_avail.
Qed.

(** Whatever the two sides hold, a copy writes to no byte but those the
    destination range maps, as long as none of them is part of a table; and when
    both ranges are mapped it goes through. *)
Lemma copy_loop_within T src_root src_va dst_root dst_va len m fuel done (s : S) b s' :
  forest m T → T !! src_root = Some 3%nat → T !! dst_root = Some 3%nat →
  (∀ i pa f k, 0 ≤ i < len → translation m dst_root (dst_va + i) = Some pa → T !! f = Some k → ¬ (f ≤ pa < f + 4096)) →
  0 ≤ done →
  (∀ f k x, T !! f = Some k → f ≤ x < f + 4096 → fa_mem s x = m x) →
  copy_across_loop fuel src_root src_va dst_root dst_va len done s = Done (b, s') →
  (∀ x, fa_mem s' x ≠ fa_mem s x → ∃ i, done ≤ i < len ∧ translation m dst_root (dst_va + i) = Some x) ∧
  ((∀ i, 0 ≤ i < len → is_Some (translation m src_root (src_va + i)) ∧ is_Some (translation m dst_root (dst_va + i))) →
   b = true).
Proof.
  intros HF Hr1 Hr2 Htab. revert done s. induction fuel as [|fuel IH]; intros done s H0 Hun;
    cbn [copy_across_loop]; destruct (Z.ltb_spec done len) as [Hlt|Hge]; try done;
    try (by intros [= <- <-]).
  unfold mbind, M_bind, lift, add64. destruct (_ <=? _); [|done]. destruct (_ <=? _); [|done].
  rewrite !translate_walk, !(translation_untouched m (fa_mem s) T) by done.
  destruct (translation m src_root _) as [sp|] eqn:Hsp.
  2: { intros [= <- <-]. split; [done|]. intros H. destruct (H done) as [[? ?] _]; [lia|congruence]. }
  destruct (translation m dst_root _) as [dp|] eqn:Hdp.
  2: { intros [= <- <-]. split; [done|]. intros H. destruct (H done) as [_ [? ?]]; [lia|congruence]. }
  change (PAGE_SIZE - 1) with (Z.ones 12). rewrite !Z.land_ones by lia. change (2 ^ 12) with 4096.
  unfold PAGE_SIZE. set (c := Z.min _ _).
  assert (Hcb : 0 < c ∧ done + c ≤ len ∧ (dst_va + done) mod 4096 + c ≤ 4096) by (unfold c; zdiv).
  destruct Hcb as (Hc0 & Hcl & Hcd). unfold modify. destruct (_ <=? _); [|done].
  assert (Hnear : ∀ j, 0 ≤ j < c → translation m dst_root (dst_va + (done + j)) = Some (dp + j)).
  { intros j Hj. replace (dst_va + (done + j)) with (dst_va + done + j) by lia. by apply translation_near; [|lia..]. }
  intros [Hx Hb]%IH; [|lia|].
  - split; [|exact Hb]. intros x Hne. rewrite fa_get_set in Hx.
    destruct (decide (dp ≤ x < dp + c)) as [Hin|Hout].
    + exists (done + (x - dp)). split; [lia|]. rewrite Hnear by lia. f_equal. lia.
    + destruct (Hx x) as (i & Hi & Htr); [by rewrite copy_range_out|]. exists i. split; [lia|done].
  - intros f k x Hf Hin. rewrite fa_get_set, copy_range_out; [by eapply Hun|]. intros Hr.
    apply (Htab (done + (x - dp)) x f k); [lia| |done|done]. rewrite Hnear by lia. f_equal. lia.
Qed.

(** ** Tearing down *)

(** The frames [free_table] hands back, in order: below every entry its
    subtree or its leaf, then the table itself. *)
Definition leaf_frames (k : nat) (e : Z) : list Z :=
  let n := match k with O => 1 | 1%nat => ENTRIES | _ => ENTRIES * ENTRIES end in
  map (λ j, addr e + j * PAGE_SIZE) (range 0 n).

Fixpoint owned (k : nat) (m : mem) (t : Z) : list Z :=
  concat (map (λ i,
    let e := entry m t i in
    if valid e then
      match k with
      | O => leaf_frames 0 e
      | Datatypes.S k' => if is_table e then owned k' m (addr e) else leaf_frames k e
      end
    else []) (range 0 ENTRIES)) ++ [t].

(** [s'] is [s] with the frames [l] handed back. *)
Record gave_back (l : list Z) (s s' : S) : Prop := {
  gb_ok : fa_ok s';
  gb_frame : ∀ g, fa_frame s' g ↔ fa_frame s g;
  gb_avail : ∀ g, fa_avail s' g ↔ fa_avail s g ∨ g ∈ l;
  gb_mem : fa_mem s' = fa_mem s
}.

(** A list of frames that can be freed one after the other. *)
Definition freeable (l : list Z) (s : S) : Prop :=
  fa_ok s ∧ NoDup l ∧ ∀ g, g ∈ l → fa_frame s g ∧ ¬ fa_avail s g.

(** [op] frees exactly [l]. *)
Definition frees (op : M S unit) (l : list Z) (m : mem) : Prop :=
  ∀ s Q, fa_mem s = m → freeable l s → (∀ s', gave_back l s s' → Q tt s') → wp op s Q.

Lemma freeable_app l1 l2 s : freeable (l1 ++ l2) s → freeable l1 s.
Proof.
  intros (Hok & Hnd & Hfr). apply NoDup_app in Hnd as (? & _ & _).
  split_and!; [done|done|]. intros g Hg. apply Hfr, elem_of_app. by left.
Qed.

Lemma freeable_rest l1 l2 s s' : freeable (l1 ++ l2) s → gave_back l1 s s' → freeable l2 s'.
Proof.
  intros (Hok & Hnd & Hfr) [Hok' Hf Ha _]. apply NoDup_app in Hnd as (_ & Hd & ?).
  split_and!; [done|done|]. intros g Hg. rewrite Hf, Ha.
  destruct (Hfr g) as [? ?]; [apply elem_of_app; by right|]. split; [done|].
  intros [?|Hg1]; [done|]. by apply (Hd g).
Qed.

Lemma gave_back_app l1 l2 s s1 s2 :
  gave_back l1 s s1 → gave_back l2 s1 s2 → gave_back (l1 ++ l2) s s2.
Proof.
  intros [_ Hf1 Ha1 Hm1] [Hok Hf2 Ha2 Hm2]. split; [done| | |congruence].
  - intros g. by rewrite Hf2, Hf1.
  - intros g. rewrite Ha2, Ha1, elem_of_app. tauto.
Qed.

Lemma frees_nil m : frees (mret tt) [] m.
Proof.
  intros s Q Hm (Hok & _) HQ. apply HQ. split; [done|done| |done].
  intros g. rewrite elem_of_nil. tauto.
Qed.

Lemma frees_seq op1 (op2 : unit → M S unit) l1 l2 m :
  frees op1 l1 m → frees (op2 tt) l2 m → frees (op1 ≫= op2) (l1 ++ l2) m.
Proof.
  intros H1 H2 s Q Hm Hfr HQ. apply wp_bind. apply H1; [done|by eapply freeable_app|].
  intros s1 Hg1. apply H2; [by rewrite (gb_mem _ _ _ Hg1)|by eapply freeable_rest|].
  intros s2 Hg2. by eapply HQ, gave_back_app.
Qed.

Lemma frees_forM {A} (body : A → M S unit) (f : A → list Z) l m :
  (∀ a, a ∈ l → frees (body a) (f a) m) → frees (forM l body) (concat (map f l)) m.
Proof.
  induction l as [|a l IH]; intros Hb; simpl; [apply frees_nil|].
  apply (frees_seq (body a) (λ _, forM l body)); [apply Hb; by left|].
  apply IH. intros b Hin. apply Hb. by right.
Qed.

Lemma frees_fa_free f m : frees (fa_free f) [f] m.
Proof.
  intros s Q Hm (Hok & _ & Hfr) HQ. destruct (Hfr f) as [? ?]; [by left|].
  eapply wp_mono; [by apply fa_free_spec|]. intros [] s' (? & ? & Ha & ?). apply HQ. split; try done.
  intros g. by rewrite Ha, list_elem_of_singleton.
Qed.

Lemma frees_contiguous e n m :
  frees (free_contiguous (addr e) n) (map (λ j, addr e + j * PAGE_SIZE) (range 0 n)) m.
Proof.
  unfold free_contiguous. generalize (range 0 n) as l. induction l as [|j l IH]; [apply frees_nil|].
  cbn [forM map]. apply (frees_seq _ (λ _, _) [_]); [|done].
  intros s Q Hm Hfr HQ. wp_step. unfold from_addr. wp_step. apply wp_assertM.
  { unfold is_multiple_of, PAGE_SIZE. apply Z.eqb_eq. pose proof (addr_aligned e). zdiv. }
  wp_step. by apply (frees_fa_free _ m).
Qed.

Local Opaque range ENTRIES.

(** Only levels 1 to 3 hold leaves. *)
Fixpoint leaves_ok (k : nat) (m : mem) (t : Z) : Prop :=
  ∀ i, 0 ≤ i < ENTRIES → valid (entry m t i) = true →
    match k with
    | O => True
    | Datatypes.S k' => if is_table (entry m t i) then leaves_ok k' m (addr (entry m t i))
                        else (k < 3)%nat
    end.

Lemma frees_table k t m : (k ≤ 3)%nat → leaves_ok k m t → frees (free_table k t) (owned k m t) m.
Proof.
  revert t. induction k as [|k IH]; intros t Hk Hl; cbn [free_table owned].
  - apply (frees_seq _ (λ _, fa_free t)); [|apply frees_fa_free].
    apply (frees_forM _ (λ i, if valid (entry m t i) then leaf_frames 0 (entry m t i) else [])).
    intros i Hi s Q Hm Hfr HQ. unfold read_entry. wp_step. wp_step. rewrite Hm.
    destruct (valid (entry m t i)) eqn:Hv; cbn [negb]; [|by apply (frees_nil m)].
    wp_step. unfold wp at 1. rewrite from_addr_addr. fold (wp (S := S) (A := unit)).
    by apply (frees_contiguous _ 1 m).
  - apply (frees_seq _ (λ _, fa_free t)); [|apply frees_fa_free].
    apply (frees_forM _ (λ i, if valid (entry m t i) then
      if is_table (entry m t i) then owned k m (addr (entry m t i))
      else leaf_frames (Datatypes.S k) (entry m t i) else [])).
    intros i Hi%elem_of_range s Q Hm Hfr HQ. unfold read_entry. wp_step. wp_step. rewrite Hm.
    specialize (Hl i Hi).
    destruct (valid (entry m t i)) eqn:Hv; cbn [negb]; [|by apply (frees_nil m)].
    specialize (Hl eq_refl).
    wp_step. unfold wp at 1. rewrite from_addr_addr. fold (wp (S := S) (A := unit)).
    destruct (is_table _) eqn:Htb.
    + apply IH; [lia|done..].
    + assert (Hk' : k = 0%nat ∨ k = 1%nat) by lia.
      destruct Hk' as [->| ->].
      * exact (frees_contiguous (entry m t i) ENTRIES m s Q Hm Hfr HQ).
      * exact (frees_contiguous (entry m t i) (ENTRIES * ENTRIES) m s Q Hm Hfr HQ).
Qed.

End space.
