(* ===== verification/PagingOwn.v ===== *)
(** * PagingOwn: who owns which frame

    [accounted] says where every frame of a pool is: free, a translation table,
    a page mapped by exactly one table entry, or on a list of frames somebody
    else holds.  Building an address space, mapping a page, copying between two
    spaces and tearing one down keep the account; memory outside the pool keeps
    its bytes. *)

From S2P Require Import Prelude Memory FrameAlloc Paging PagingWalk PagingTables PagingMap PagingRange PagingSpace.

(** Entry [i] of table [f] maps page [p]. *)
Definition maps_page (m : mem) (f i p : Z) : Prop :=
  0 ≤ i < 512 ∧ valid (entry m f i) = true ∧ addr (entry m f i) = p.

(** What a user page may be: text or data. *)
Definition user_attrs : list Z := [Attributes.user_text; Attributes.user_data].

Lemma user_attrs_ok attrs : attrs ∈ user_attrs → attrs_ok attrs.
Proof.
  intros H. eapply Forall_forall; [exact attributes_ok|]. unfold Attributes.all, user_attrs in *.
  rewrite !elem_of_cons in *. tauto.
Qed.

(** Page [p] is mapped by one of the tables [T]. *)
Definition page_in (m : mem) (T : tables) (p : Z) : Prop := ∃ f i, T !! f = Some 0%nat ∧ maps_page m f i p.

(** Byte [x] lies in frame [f]. *)
Definition in_frame (f x : Z) : Prop := f ≤ x < f + 4096.

Section account.
Context {S : Type} `{FA : FrameAlloc S, !FrameAllocLaws S}.
Context (pool : Z → Prop) (m0 : mem).

(** [T] are the tables of address spaces, [X] frames held by others. *)
Record accounted (s : S) (T : tables) (X : list Z) : Prop := {
  ac_tables : tables_ok s T;
  (** Only the lowest tables hold leaves. *)
  ac_deep : ∀ f k i, T !! f = Some (Datatypes.S k) → 0 ≤ i < 512 →
    valid (entry (fa_mem s) f i) = true → is_table (entry (fa_mem s) f i) = true;
  (** Every table but a root hangs on an entry of another. *)
  ac_parent : ∀ g k, T !! g = Some k → (k < 3)%nat →
    ∃ f i, T !! f = Some (Datatypes.S k) ∧ child (fa_mem s) f i g;
  ac_page : ∀ f i p, T !! f = Some 0%nat → maps_page (fa_mem s) f i p →
    fa_frame s p ∧ ¬ fa_avail s p ∧ T !! p = None ∧ p ∉ X ∧ perm (entry (fa_mem s) f i) ∈ user_attrs;
  ac_once : ∀ f f' i i' p, T !! f = Some 0%nat → T !! f' = Some 0%nat →
    maps_page (fa_mem s) f i p → maps_page (fa_mem s) f' i' p → f = f' ∧ i = i';
  ac_held : NoDup X ∧ ∀ x, x ∈ X → fa_frame s x ∧ ¬ fa_avail s x ∧ T !! x = None;
  ac_pool : ∀ g, pool g ↔ fa_avail s g ∨ T !! g ≠ None ∨ page_in (fa_mem s) T g ∨ g ∈ X;
  ac_outside : ∀ x, (∀ g, pool g → ¬ in_frame g x) → fa_mem s x = m0 x
}.

Lemma ac_ok s T X : accounted s T X → fa_ok s.
Proof. intros H. apply H. Qed.

Lemma accounted_perm s T X X' : X ≡ₚ X' → accounted s T X → accounted s T X'.
Proof.
  intros Hp [H1 H2 H3 H4 H5 [H6 H6'] H7 H8]. split; try done.
  - intros f i p Hf Hi. rewrite <-Hp. by apply H4.
  - split; [by rewrite <-Hp|]. intros x. rewrite <-Hp. apply H6'.
  - intros g. by rewrite <-Hp.
Qed.

Lemma frame_page s p : fa_ok s → fa_frame s p → page_addr p.
Proof.
  intros Hok Hp. destruct (fa_frame_aligned s p Hok Hp) as (Hal & Hlo & Hhi).
  split; [change (2 ^ 48) with 281474976710656 in *; lia|done].
Qed.

(** ** Frames of the account share no byte *)

Lemma ac_frame s T X g :
  accounted s T X → T !! g ≠ None ∨ page_in (fa_mem s) T g ∨ g ∈ X → fa_frame s g ∧ ¬ fa_avail s g.
Proof.
  intros H [Hg|[(f & i & Hf & Hi)|Hg]].
  - destruct (T !! g) as [k|] eqn:Hk; [|done]. by apply (t_frame _ _ (ac_tables _ _ _ H) g k).
  - by destruct (ac_page _ _ _ H f i g Hf Hi) as (? & ? & _).
  - by destruct (proj2 (ac_held _ _ _ H) g Hg) as (? & ? & _).
Qed.

Lemma ac_apart s T X f k g x :
  accounted s T X → T !! f = Some k → page_in (fa_mem s) T g ∨ g ∈ X → in_frame g x → ¬ in_frame f x.
Proof.
  intros H Hf Hg Hx Hfx. destruct (ac_frame s T X g H (or_intror Hg)) as [Hfr _].
  assert (Hne : f ≠ g).
  { intros ->. destruct Hg as [(t & i & Ht & Hi)|Hg]; [|by destruct (proj2 (ac_held _ _ _ H) g Hg) as (_ & _ & ?); congruence].
    by destruct (ac_page _ _ _ H t i g Ht Hi) as (_ & _ & ? & _); congruence. }
  pose proof (frames_apart s f g (ac_ok _ _ _ H) (proj1 (t_frame _ _ (ac_tables _ _ _ H) f k Hf)) Hfr Hne).
  unfold frame_apart, in_frame in *. lia.
Qed.

(** ** Writing to pages and held frames *)

(** The tables read the same when only other frames were written. *)
Lemma account_entries s s' T X :
  accounted s T X →
  (∀ x, (∀ g, page_in (fa_mem s) T g ∨ g ∈ X → ¬ in_frame g x) → fa_mem s' x = fa_mem s x) →
  same_entries (fa_mem s) (fa_mem s') T (λ _ _, False).
Proof.
  intros H Hmem f k i Hf Hi _. apply entry_untouched; [|done]. intros x Hx. apply Hmem.
  intros g Hg Hgx. by apply (ac_apart s T X f k g x).
Qed.

Lemma maps_page_same m m' T f i p :
  same_entries m m' T (λ _ _, False) → T !! f = Some 0%nat → maps_page m' f i p ↔ maps_page m f i p.
Proof.
  intros Hs Hf. unfold maps_page. split; intros (Hi & Hv); (split; [done|]); pose proof (Hs _ _ _ Hf Hi) as He;
    rewrite He in *; tauto.
Qed.

Lemma page_in_same m m' T p : same_entries m m' T (λ _ _, False) → page_in m' T p ↔ page_in m T p.
Proof.
  intros Hs. split; intros (f & i & Hf & Hi); exists f, i; (split; [done|]); by eapply (maps_page_same m m' T f i p).
Qed.

Lemma accounted_write s s' T X :
  accounted s T X → fa_ok s' → (∀ g, fa_frame s' g ↔ fa_frame s g) → (∀ g, fa_avail s' g ↔ fa_avail s g) →
  (∀ x, (∀ g, page_in (fa_mem s) T g ∨ g ∈ X → ¬ in_frame g x) → fa_mem s' x = fa_mem s x) →
  accounted s' T X.
Proof.
  intros H Hok Hfr Hav Hmem. pose proof (account_entries s s' T X H Hmem) as Hs.
  assert (Hmp : ∀ f i p, T !! f = Some 0%nat → maps_page (fa_mem s') f i p ↔ maps_page (fa_mem s) f i p).
  { intros f i p Hf. by apply (maps_page_same _ _ T). }
  pose proof H as [H1 H2 H3 H4 H5 [H6 H6'] H7 H8]. split.
  - split; [done|by eapply forest_same; [apply H1|]|]. intros f k Hf. rewrite Hfr, Hav. by apply (t_frame _ _ H1 f k).
  - intros f k i Hf Hi. rewrite (Hs _ _ _ Hf Hi) by tauto. by apply (H2 f k).
  - intros g k Hg Hk. destruct (H3 g k Hg Hk) as (f & i & Hf & Hi & Hc). exists f, i. split; [done|]. split; [done|].
    rewrite (Hs _ _ _ Hf Hi) by tauto. done.
  - intros f i p Hf Hp. pose proof (proj1 (Hmp _ _ _ Hf) Hp) as Hp'. rewrite Hfr, Hav, (Hs _ _ _ Hf (proj1 Hp)) by tauto.
    by apply H4.
  - intros f f' i i' p Hf Hf' Hp Hp'. apply (H5 f f' i i' p Hf Hf'); by apply Hmp.
  - split; [done|]. intros x. rewrite Hfr, Hav. apply H6'.
  - intros g. by rewrite H7, Hav, (page_in_same _ _ _ _ Hs).
  - intros x Hx. rewrite <-H8 by done. apply Hmem. intros g Hg. apply Hx. rewrite H7. tauto.
Qed.

(** ** Frames going out and coming back *)

(** Frames [l] were taken from the allocator; only they were written. *)
Record took (l : list Z) (s s' : S) : Prop := {
  tk_ok : fa_ok s';
  tk_frame : ∀ g, fa_frame s' g ↔ fa_frame s g;
  tk_list : NoDup l ∧ ∀ f, f ∈ l → fa_avail s f;
  tk_avail : ∀ g, fa_avail s' g ↔ fa_avail s g ∧ g ∉ l;
  tk_mem : ∀ x, (∀ f, f ∈ l → ¬ in_frame f x) → fa_mem s' x = fa_mem s x
}.

Lemma took_entries s s' T l :
  tables_ok s T → took l s s' → same_entries (fa_mem s) (fa_mem s') T (λ _ _, False).
Proof.
  intros H1 [Hok Hfr [_ Hl] Hav Hmem] g k i Hg Hi _. apply entry_untouched; [|done]. intros x Hx. apply Hmem.
  intros f Hf Hfx. destruct (t_frame _ _ H1 g k Hg) as [Hgf Hga].
  assert (Hne : g ≠ f) by (intros ->; by apply Hga, Hl).
  pose proof (frames_apart s g f (t_ok _ _ H1) Hgf (fa_avail_frame _ _ (t_ok _ _ H1) (Hl f Hf)) Hne).
  unfold frame_apart, in_frame in *. lia.
Qed.

Lemma accounted_alloc s s' T X l : accounted s T X → took l s s' → accounted s' T (l ++ X).
Proof.
  intros H Htk. pose proof H as [H1 H2 H3 H4 H5 [H6 H6'] H7 H8].
  pose proof (took_entries s s' T l H1 Htk) as Hs. destruct Htk as [Hok Hfr [Hnd Hl] Hav Hmem].
  assert (Hmp : ∀ f i p, T !! f = Some 0%nat → maps_page (fa_mem s') f i p ↔ maps_page (fa_mem s) f i p).
  { intros g i p Hg. by apply (maps_page_same _ _ T). }
  assert (HlT : ∀ f, f ∈ l → T !! f = None).
  { intros f Hf. destruct (T !! f) eqn:Ht; [|done]. destruct (t_frame _ _ H1 _ _ Ht) as [_ []]. by apply Hl. }
  split.
  - split; [done|by eapply forest_same; [apply H1|]|]. intros g k Hg. rewrite Hfr, Hav.
    destruct (t_frame _ _ H1 g k Hg). tauto.
  - intros g k i Hg Hi. rewrite (Hs _ _ _ Hg Hi) by tauto. by apply (H2 g k).
  - intros g k Hg Hk. destruct (H3 g k Hg Hk) as (t & i & Ht & Hi & Hc). exists t, i. split; [done|]. split; [done|].
    rewrite (Hs _ _ _ Ht Hi) by tauto. done.
  - intros t i p Ht Hp. pose proof (proj1 (Hmp _ _ _ Ht) Hp) as Hp'.
    rewrite Hfr, Hav, (Hs _ _ _ Ht (proj1 Hp)) by tauto. destruct (H4 t i p Ht Hp') as (? & Hpa & ? & ? & ?).
    rewrite not_elem_of_app. split; [done|]. split; [tauto|]. split; [done|]. split; [|done].
    split; [|done]. intros Hpl. by apply Hpa, Hl.
  - intros t t' i i' p Ht Ht' Hp Hp'. apply (H5 t t' i i' p Ht Ht'); by apply Hmp.
  - split.
    + apply NoDup_app. split; [done|]. split; [|done]. intros x Hx Hin. destruct (H6' x Hin) as (_ & [] & _). by apply Hl.
    + intros x [Hx|Hx]%elem_of_app; rewrite Hfr, Hav.
      * split; [by apply fa_avail_frame; [apply H1|apply Hl]|]. split; [tauto|by apply HlT].
      * destruct (H6' x Hx) as (? & ? & ?). tauto.
  - intros g. rewrite H7, Hav, (page_in_same _ _ _ _ Hs), elem_of_app.
    destruct (decide (g ∈ l)) as [Hg|]; [|tauto]. pose proof (Hl g Hg). tauto.
  - intros x Hx. rewrite <-H8 by done. apply Hmem. intros f Hf. apply Hx. rewrite H7. left. by apply Hl.
Qed.

Lemma accounted_free s s' T X f :
  accounted s T (f :: X) → fa_ok s' → (∀ g, fa_frame s' g ↔ fa_frame s g) →
  (∀ g, fa_avail s' g ↔ fa_avail s g ∨ g = f) → fa_mem s' = fa_mem s → accounted s' T X.
Proof.
  intros [H1 H2 H3 H4 H5 [H6 H6'] H7 H8] Hok Hfr Hav Hmem. apply NoDup_cons in H6 as [Hni Hnd].
  destruct (H6' f ltac:(left)) as (Hff & Hfa & HfT). split; rewrite ?Hmem; try done.
  - split; [done|rewrite Hmem; apply H1|]. intros g k Hg. rewrite Hfr, Hav. destruct (t_frame _ _ H1 g k Hg).
    split; [done|]. intros [? | ->]; [done|congruence].
  - intros t i p Ht Hp. destruct (H4 t i p Ht Hp) as (? & ? & ? & Hx & ?). rewrite not_elem_of_cons in Hx.
    rewrite Hfr, Hav. split_and!; [done|naive_solver|done|tauto|done].
  - split; [done|]. intros x Hx. rewrite Hfr, Hav. destruct (H6' x ltac:(by right)) as (? & ? & ?).
    split_and!; [done|naive_solver|done].
  - intros g. rewrite H7, Hav, elem_of_cons. tauto.
Qed.

(** ** Growing an address space *)

(** A held frame with no entries becomes a root. *)
Lemma accounted_root s T X f :
  accounted s T (f :: X) → (∀ i, 0 ≤ i < 512 → entry (fa_mem s) f i = 0) →
  accounted s (<[f := 3%nat]> T) X.
Proof.
  intros H Hz. pose proof H as [H1 H2 H3 H4 H5 [H6 H6'] H7 H8]. apply NoDup_cons in H6 as [Hni Hnd].
  destruct (H6' f ltac:(left)) as (Hff & Hfa & HfT). pose proof (t_forest _ _ H1) as HF.
  assert (Hold : ∀ g k i, (<[f := 3%nat]> T) !! g = Some k → 0 ≤ i < 512 → valid (entry (fa_mem s) g i) = true →
    T !! g = Some k ∧ g ≠ f).
  { intros g k i [[<- _]|[? Hg]]%lookup_insert_Some Hi Hv; [by rewrite Hz in Hv|done]. }
  assert (Hpage : ∀ g i p, (<[f := 3%nat]> T) !! g = Some 0%nat → maps_page (fa_mem s) g i p → T !! g = Some 0%nat).
  { intros g i p Hg (Hi & Hv & _). by eapply Hold. }
  assert (Hin : ∀ p, page_in (fa_mem s) (<[f := 3%nat]> T) p ↔ page_in (fa_mem s) T p).
  { intros p. split; intros (g & i & Hg & Hp); exists g, i; (split; [|done]); [by eapply Hpage|].
    rewrite lookup_insert_ne; [done|congruence]. }
  split; try done.
  - split; [apply H1| |].
    + split.
      * intros g k [[_ <-]|[_ Hg]]%lookup_insert_Some; [lia|by apply (f_level _ _ HF g)].
      * intros g k i h Hg Hc. destruct (Hold g _ i Hg (proj1 Hc) (proj1 (proj2 Hc))) as [Hg' _].
        pose proof (f_child _ _ HF _ _ _ _ Hg' Hc). rewrite lookup_insert_ne; [done|congruence].
      * intros g g' k k' i i' h Hg Hg' Hc Hc'. destruct (Hold g _ i Hg (proj1 Hc) (proj1 (proj2 Hc))) as [? _].
        destruct (Hold g' _ i' Hg' (proj1 Hc') (proj1 (proj2 Hc'))) as [? _]. by eapply (f_inj _ _ HF).
    + intros g k [[<- _]|[_ Hg]]%lookup_insert_Some; [done|by apply (t_frame _ _ H1 g k)].
  - intros g k i Hg Hi Hv. destruct (Hold g _ i Hg Hi Hv) as [Hg' _]. by apply (H2 g k).
  - intros g k [[_ <-]|[_ Hg]]%lookup_insert_Some Hk; [lia|]. destruct (H3 g k Hg Hk) as (t & i & Ht & Hc).
    exists t, i. split; [|done]. rewrite lookup_insert_ne; [done|congruence].
  - intros t i p Ht Hp. destruct (H4 t i p (Hpage _ _ _ Ht Hp) Hp) as (? & ? & ? & Hx & ?).
    rewrite not_elem_of_cons in Hx. rewrite lookup_insert_ne by (intros ->; tauto). tauto.
  - intros t t' i i' p Ht Ht' Hp Hp'. by apply (H5 t t' i i' p (Hpage _ _ _ Ht Hp) (Hpage _ _ _ Ht' Hp')).
  - split; [done|]. intros x Hx. rewrite lookup_insert_ne by (by intros ->). apply H6'. by right.
  - intros g. rewrite H7, Hin, elem_of_cons. destruct (decide (g = f)) as [->|Hne].
    + rewrite lookup_insert_eq. split; [by right; left|by right; right; right; left].
    + rewrite lookup_insert_ne by done. tauto.
Qed.

(** The state after writing entry [i] of table [f]. *)
Definition wrote (s : S) (f i v : Z) : S := fa_set_mem (write_u64 (fa_mem s) (f + 8 * i) v) s.

Lemma wrote_same s T X f i v k :
  accounted s T X → T !! f = Some k → 0 ≤ i < 512 → is_u64 v →
  same_entries (fa_mem s) (fa_mem (wrote s f i v)) T (λ g j, g = f ∧ j = i) ∧
  entry (fa_mem (wrote s f i v)) f i = v ∧ fa_ok (wrote s f i v) ∧
  (∀ x, ¬ in_frame f x → fa_mem (wrote s f i v) x = fa_mem s x).
Proof.
  intros H Hf Hi Hv. pose proof (ac_tables _ _ _ H) as H1.
  assert (Hms : fa_mem (wrote s f i v) = write_u64 (fa_mem s) (f + 8 * i) v) by apply fa_get_set.
  split; [|split; [|split]].
  - intros g kg j Hg Hj Hne. rewrite Hms. apply entry_write_other; [done|done| |done].
    destruct (decide (f = g)); [by left|right]. eapply tables_apart; [exact H1|done| |done]. by eapply t_frame.
  - rewrite Hms. by apply entry_write_same.
  - apply fa_set_ok; [apply H1|]. apply write_le_bytes, fa_bytes, H1.
  - intros x Hx. rewrite Hms. apply write_le_other. unfold in_frame in Hx. lia.
Qed.

(** A held frame with no entries is hung on an empty entry. *)
Lemma accounted_hang s T X f i c k :
  accounted s T (c :: X) → T !! f = Some (Datatypes.S k) → 0 ≤ i < 512 →
  valid (entry (fa_mem s) f i) = false → (∀ j, 0 ≤ j < 512 → entry (fa_mem s) c j = 0) →
  accounted (wrote s f i (table_desc c)) (<[c := k]> T) X.
Proof.
  intros H Hf Hi Hinv Hz. pose proof H as [H1 H2 H3 H4 H5 [H6 H6'] H7 H8]. apply NoDup_cons in H6 as [Hni Hnd].
  destruct (H6' c ltac:(left)) as (Hcf & Hca & HcT). pose proof (t_forest _ _ H1) as HF.
  destruct (fa_frame_aligned s c (ac_ok _ _ _ H) Hcf) as (Hal & Hlo & Hhi).
  assert (Hcp : page_addr c) by (split; [change (2 ^ 48) with 281474976710656 in *; lia|done]).
  destruct (table_desc_spec c Hcp) as (Hdv & Hdt & Hda).
  assert (Hu : is_u64 (table_desc c)) by (destruct (desc_u64 c 0 Hcp) as (_ & _ & ?); [by repeat split|done]).
  destruct (wrote_same s T _ f i _ _ H Hf Hi Hu) as (Hsame & He & Hok & Hout).
  set (s' := wrote s f i (table_desc c)) in *. set (T' := <[c := k]> T).
  assert (Hcz : ∀ j, 0 ≤ j < 512 → entry (fa_mem s') c j = 0).
  { intros j Hj. rewrite <-(Hz j Hj). apply entry_untouched; [|done]. intros x Hx. apply Hout. intros Hfx.
    pose proof (frames_apart s f c (ac_ok _ _ _ H) (proj1 (t_frame _ _ H1 f _ Hf)) Hcf ltac:(congruence)).
    unfold frame_apart, in_frame in *. lia. }
  assert (Hold : ∀ g j, g ≠ f ∨ j ≠ i → ∀ kg, T' !! g = Some kg → 0 ≤ j < 512 → valid (entry (fa_mem s') g j) = true →
    T !! g = Some kg ∧ entry (fa_mem s') g j = entry (fa_mem s) g j).
  { intros g j Hne kg [[<- _]|[_ Hg]]%lookup_insert_Some Hj Hv; [by rewrite Hcz in Hv|].
    split; [done|]. apply (Hsame _ _ _ Hg Hj). naive_solver. }
  assert (Hpage : ∀ g j p, T' !! g = Some 0%nat → maps_page (fa_mem s') g j p →
    T !! g = Some 0%nat ∧ maps_page (fa_mem s) g j p ∧ entry (fa_mem s') g j = entry (fa_mem s) g j).
  { intros g j p Hg Hp. assert (Hgf : g ≠ f).
    { intros ->. unfold T' in Hg. rewrite lookup_insert_ne in Hg by congruence. congruence. }
    destruct Hp as (Hj & Hv & Ha). destruct (Hold g j ltac:(by left) _ Hg Hj Hv) as [? Hee]. split; [done|].
    split; [|done]. unfold maps_page. rewrite <-Hee. done. }
  assert (Hin : ∀ p, page_in (fa_mem s') T' p ↔ page_in (fa_mem s) T p).
  { intros p. split; intros (g & j & Hg & Hp).
    - destruct (Hpage _ _ _ Hg Hp) as (? & ? & _). by exists g, j.
    - assert (g ≠ f) by congruence. exists g, j. split; [unfold T'; rewrite lookup_insert_ne; [done|congruence]|].
      unfold maps_page. rewrite (Hsame _ _ _ Hg (proj1 Hp)) by tauto. done. }
  assert (Hc0 : child (fa_mem s') f i c) by (split; [done|]; rewrite He; done).
  assert (HF' : forest (fa_mem s') T') by (by eapply forest_grow).
  split.
  - split; [done|done|]. intros g kg Hg. unfold s', wrote. rewrite fa_set_frame, fa_set_avail.
    apply lookup_insert_Some in Hg as [[<- _]|[_ Hg]]; [done|by apply (t_frame _ _ H1 g kg)].
  - intros g kg j Hg Hj Hv. destruct (decide (g = f ∧ j = i)) as [[-> ->]|Hne]; [by rewrite He|].
    destruct (Hold g j ltac:(destruct (decide (g = f)) as [->|]; [right; tauto|by left]) _ Hg Hj Hv) as [Hg' Hee].
    rewrite Hee in *. by apply (H2 g kg).
  - intros g kg [[<- <-]|[Hgc Hg]]%lookup_insert_Some Hk.
    + exists f, i. split; [|done]. unfold T'. rewrite lookup_insert_ne; [done|congruence].
    + destruct (H3 g kg Hg Hk) as (t & j & Ht & Hj & Hc). exists t, j.
      assert (Hne : ¬ (t = f ∧ j = i)) by (intros [-> ->]; destruct Hc; congruence).
      split; [unfold T'; rewrite lookup_insert_ne; [done|congruence]|]. split; [done|].
      rewrite (Hsame _ _ _ Ht Hj) by done. done.
  - intros t j p Ht Hp. destruct (Hpage _ _ _ Ht Hp) as (Ht' & Hp' & ->).
    destruct (H4 t j p Ht' Hp') as (? & ? & ? & Hx & ?). rewrite not_elem_of_cons in Hx. unfold s', wrote.
    rewrite fa_set_frame, fa_set_avail. unfold T'. rewrite lookup_insert_ne by (intros ->; tauto). tauto.
  - intros t t' j j' p Ht Ht' Hp Hp'. destruct (Hpage _ _ _ Ht Hp) as (? & ? & _).
    destruct (Hpage _ _ _ Ht' Hp') as (? & ? & _). by apply (H5 t t' j j' p).
  - split; [done|]. intros x Hx. unfold s', wrote. rewrite fa_set_frame, fa_set_avail. unfold T'.
    rewrite lookup_insert_ne by (by intros ->). apply H6'. by right.
  - intros g. rewrite H7, Hin, elem_of_cons. unfold s', wrote. rewrite fa_set_avail. unfold T'.
    destruct (decide (g = c)) as [->|Hne]; [rewrite lookup_insert_eq; split; [by right; left|by right; right; right; left]|].
    rewrite lookup_insert_ne by done. tauto.
  - intros x Hx. rewrite <-H8 by done. apply Hout. apply Hx. rewrite H7. right. left. congruence.
Qed.

(** A held frame is mapped by an empty lowest entry. *)
Lemma accounted_map s T X f i p attrs :
  accounted s T (p :: X) → T !! f = Some 0%nat → 0 ≤ i < 512 →
  valid (entry (fa_mem s) f i) = false → attrs ∈ user_attrs →
  accounted (wrote s f i (page_desc p attrs)) T X ∧
  page_in (fa_mem (wrote s f i (page_desc p attrs))) T p.
Proof.
  intros H Hf Hi Hinv Hat. pose proof H as [H1 H2 H3 H4 H5 [H6 H6'] H7 H8]. apply NoDup_cons in H6 as [Hni Hnd].
  destruct (H6' p ltac:(left)) as (Hpf & Hpa & HpT). pose proof (t_forest _ _ H1) as HF.
  pose proof (frame_page s p (ac_ok _ _ _ H) Hpf) as Hpp. pose proof (user_attrs_ok _ Hat) as Hao.
  destruct (page_desc_spec p attrs Hpp Hao) as (Hdv & Hdt & Hda). destruct (perm_desc p attrs Hpp Hao) as [Hperm _].
  destruct (desc_u64 p attrs Hpp Hao) as (Hu & _ & _).
  destruct (wrote_same s T _ f i _ _ H Hf Hi Hu) as (Hsame & He & Hok & Hout).
  set (s' := wrote s f i (page_desc p attrs)) in *.
  assert (Hold : ∀ g j k, T !! g = Some k → 0 ≤ j < 512 → (g = f ∧ j = i) ∨ entry (fa_mem s') g j = entry (fa_mem s) g j).
  { intros g j k Hg Hj. destruct (decide (g = f ∧ j = i)); [by left|right]. by apply (Hsame g k j). }
  assert (Hmp : ∀ g j q, T !! g = Some 0%nat → maps_page (fa_mem s') g j q →
    (g = f ∧ j = i ∧ q = p) ∨ (maps_page (fa_mem s) g j q ∧ entry (fa_mem s') g j = entry (fa_mem s) g j)).
  { intros g j q Hg (Hj & Hv & Ha). destruct (Hold g j _ Hg Hj) as [[-> ->]|Hee].
    - left. split; [done|]. split; [done|]. rewrite <-Ha, He. done.
    - right. split; [|done]. unfold maps_page. rewrite <-Hee. done. }
  assert (Hmine : maps_page (fa_mem s') f i p) by (unfold maps_page; rewrite He; done).
  assert (Hkeep : ∀ g j q, T !! g = Some 0%nat → maps_page (fa_mem s) g j q → maps_page (fa_mem s') g j q).
  { intros g j q Hg (Hj & Hv & Ha). unfold maps_page. destruct (Hold g j _ Hg Hj) as [[-> ->]|Hee]; [congruence|].
    rewrite Hee. done. }
  split; [|by exists f, i]. split.
  - split; [done| |].
    + apply (forest_leaf _ _ HF _ f i 0%nat Hf Hsame). by left.
    + intros g kg Hg. unfold s', wrote. rewrite fa_set_frame, fa_set_avail. by apply (t_frame _ _ H1 g kg).
  - intros g kg j Hg Hj Hv. destruct (Hold g j _ Hg Hj) as [[-> ->]|Hee]; [congruence|].
    rewrite Hee in *. by apply (H2 g kg).
  - intros g kg Hg Hk. destruct (H3 g kg Hg Hk) as (t & j & Ht & Hj & Hc). exists t, j. split; [done|]. split; [done|].
    rewrite (Hsame _ _ _ Ht Hj); [done|]. intros [-> ->]. congruence.
  - intros t j q Ht Hq. unfold s', wrote at 1 2. rewrite fa_set_frame, fa_set_avail.
    destruct (Hmp _ _ _ Ht Hq) as [(-> & -> & ->)|[Hq' Hee]].
    + fold s'. rewrite He, Hperm. done.
    + change (wrote s f i (page_desc p attrs)) with s'. rewrite Hee. destruct (H4 t j q Ht Hq') as (? & ? & ? & Hx & ?).
      rewrite not_elem_of_cons in Hx. tauto.
  - intros t t' j j' q Ht Ht' Hq Hq'. destruct (Hmp _ _ _ Ht Hq) as [(-> & -> & ->)|[Ho _]],
      (Hmp _ _ _ Ht' Hq') as [(-> & -> & Hqp)|[Ho' _]]; [done|..].
    + destruct (H4 t' j' p Ht' Ho') as (_ & _ & _ & Hx & _). by destruct Hx; left.
    + subst q. destruct (H4 t j p Ht Ho) as (_ & _ & _ & Hx & _). by destruct Hx; left.
    + by apply (H5 t t' j j' q).
  - split; [done|]. intros x Hx. unfold s', wrote. rewrite fa_set_frame, fa_set_avail. apply H6'. by right.
  - intros g. rewrite H7, elem_of_cons. unfold s', wrote at 1. rewrite fa_set_avail. split.
    + intros [?|[?|[(t & j & Ht & Hq)|[-> |?]]]]; [by left|by right; left| | |by right; right; right].
      * right; right; left. exists t, j. split; [done|]. by apply Hkeep.
      * right; right; left. by exists f, i.
    + intros [?|[?|[(t & j & Ht & Hq)|?]]]; [by left|by right; left| |by right; right; right; right].
      destruct (Hmp _ _ _ Ht Hq) as [(-> & -> & ->)|[Ho _]]; [by right; right; right; left|].
      right; right; left. by exists t, j.
  - intros x Hx. rewrite <-H8 by done. apply Hout. apply Hx. rewrite H7. right. left. congruence.
Qed.

End account.
