(* ===== verification/PagingKeep.v ===== *)
(** * PagingKeep: the operations of [paging.rs] keep the account

    [next_table], [map_page], [AddressSpace::new], [destroy] and [copy_across]
    under [accounted]: whatever the arguments, unless the operation panics, every
    frame is still in exactly one place afterwards. *)

From S2P Require Import Prelude Memory FrameAlloc Paging PagingWalk PagingTables PagingMap PagingRange PagingSpace PagingOwn.

Lemma add64_zero a b : add64 a 0 = Done b → b = a.
Proof. unfold add64. rewrite Z.add_0_r. destruct (a <=? _); congruence. Qed.

Section keep.
Context {S : Type} `{FA : FrameAlloc S, !FrameAllocLaws S}.
Context (pool : Z → Prop) (m0 : mem).
Abbreviation accounted := (accounted pool m0) (only parsing).

(** Tables were added below the roots there were, and nothing else moved. *)
Record built (s : S) (T : tables) (X : list Z) (s' : S) (T' : tables) : Prop := {
  b_grown : ∃ n, grown n s T s' T';
  b_account : accounted s' T' X;
  b_roots : ∀ r, T' !! r = Some 3%nat ↔ T !! r = Some 3%nat
}.

Lemma built_refl s T X : accounted s T X → built s T X s T.
Proof. intros H. split; [|done|done]. exists 0%nat. apply grown_refl, H. Qed.

Lemma built_trans s T X s1 T1 s2 T2 : built s T X s1 T1 → built s1 T1 X s2 T2 → built s T X s2 T2.
Proof.
  intros [[n Hg] _ Hr] [[n' Hg'] Ha' Hr']. split; [exists (n + n')%nat; by eapply grown_trans|done|].
  intros r. by rewrite Hr', Hr.
Qed.

(** A frame from the allocator is held; its entries are empty. *)
Lemma pc_account_alloc s T X Q :
  accounted s T X →
  (∀ c s', accounted s' T (c :: X) → fa_avail s c → fa_ok s' → (∀ g, fa_frame s' g ↔ fa_frame s g) →
     (∀ g, fa_avail s' g ↔ fa_avail s g ∧ g ≠ c) → fa_mem s' = zero_range (fa_mem s) c 4096 →
     (∀ g, fa_avail s g → c ≤ g) → Q (Some c) s') →
  Q None s → pc fa_alloc s Q.
Proof.
  intros H HS HN. apply pc_of_wp. eapply wp_mono; [exact (fa_alloc_spec s (ac_ok _ _ _ _ _ H))|].
  intros [c|] s1 (Hok & Hfr & Hr).
  - destruct Hr as (Hc & Hav & Hmem & Hlow). apply HS; try done.
    apply (accounted_alloc _ _ s s1 T X [c]); [done|]. split; [done|done| | |].
    + split; [apply NoDup_singleton|]. by intros f ->%list_elem_of_singleton.
    + intros g. by rewrite Hav, list_elem_of_singleton.
    + intros x Hx. rewrite Hmem. apply zero_range_out. apply (Hx c). by left.
  - destruct Hr as [-> _]. exact HN.
Qed.

Lemma pc_account_free s T X f Q :
  accounted s T (f :: X) → (∀ s', accounted s' T X → fa_mem s' = fa_mem s → Q tt s') → pc (fa_free f) s Q.
Proof.
  intros H HQ. destruct (proj2 (ac_held _ _ _ _ _ H) f ltac:(left)) as (Hf & Ha & _).
  apply pc_of_wp. eapply wp_mono; [exact (fa_free_spec s f (ac_ok _ _ _ _ _ H) Hf Ha)|].
  intros [] s' (Hok & Hfr & Hav & Hmem). apply HQ; [|done]. by eapply accounted_free.
Qed.

Lemma pc_next_table s T X f i k Q :
  accounted s T X → T !! f = Some (Datatypes.S k) → 0 ≤ i < 512 →
  (∀ c s' T', built s T X s' T' → T' !! c = Some k → child (fa_mem s') f i c → Q c s') →
  pc (next_table f i) s Q.
Proof.
  intros H Hf Hi HQ. pose proof (ac_tables _ _ _ _ _ H) as Ht. unfold next_table, read_entry. pc_steps.
  destruct (valid (entry (fa_mem s) f i)) eqn:Hv.
  - pc_steps. unfold from_addr. pc_steps.
    assert (Hc : child (fa_mem s) f i (addr (entry (fa_mem s) f i))) by done.
    apply (HQ _ _ T); [by apply built_refl| |done]. by eapply f_child; [apply Ht|..].
  - pc_step. eapply pc_account_alloc; [exact H| |by pc_steps].
    intros c s1 H1 Hc Hok Hfr Hav Hmem Hlow. unfold write_entry. pc_steps.
    match goal with H : Some _ = Some _ |- _ => injection H as <- end.
    destruct (tables_fresh s T s1 c Ht Hok Hfr Hc Hav Hmem) as (Hsame & _ & HcT).
    destruct (grown_hang s T s1 f i c k Ht Hf Hi Hv Hc Hok Hfr Hav Hmem Hlow) as [Hg He].
    destruct (table_desc_spec c (avail_page _ _ (t_ok _ _ Ht) Hc)) as (Hdv & Hdt & Hda).
    pose proof (f_level _ _ (t_forest _ _ Ht) _ _ Hf) as Hlev.
    eapply (HQ c _ (<[c := k]> T)); [|by rewrite lookup_insert_eq|].
    + split; [by exists 1%nat| |].
      * apply (accounted_hang _ _ s1 T X f i c k); [done|done|done| |].
        { by rewrite (Hsame _ _ _ Hf Hi) by tauto. }
        intros j Hj. rewrite Hmem. by apply entry_zero_in.
      * intros r. destruct (decide (r = c)) as [->|]; [|by rewrite lookup_insert_ne].
        rewrite lookup_insert_eq, HcT. split; [intros [= ->]; lia|done].
    + split; [done|]. unfold table_desc in *. by rewrite He.
Qed.

Lemma pc_descend n s T X root va f k Q :
  accounted s T X → T !! root = Some 3%nat → T !! f = Some (n + k)%nat →
  (f, table_index va (3 - Z.of_nat (n + k))) ∈ visited 3 (fa_mem s) root va →
  (∀ t s' T', built s T X s' T' → T' !! t = Some k →
     (t, table_index va (3 - Z.of_nat k)) ∈ visited 3 (fa_mem s') root va → Q t s') →
  pc (descend (range (3 - Z.of_nat (n + k)) (3 - Z.of_nat k)) f va) s Q.
Proof.
  revert s T f Q. induction n as [|n IH]; intros s T f Q H Hroot Hf Hin HQ.
  - rewrite range_empty by lia. cbn [descend]. pc_step. apply (HQ _ _ T); [by apply built_refl|done..].
  - rewrite range_cons by lia. cbn [descend]. pc_step. simpl in Hf.
    pose proof (f_level _ _ (t_forest _ _ (ac_tables _ _ _ _ _ H)) _ _ Hf) as Hlev.
    apply (pc_next_table s T X _ _ (n + k)); [done|done|apply table_index_bound|].
    intros c s1 T1 Hb Hc (Hci & Hcv & Hct & Hca).
    destruct (b_grown _ _ _ _ _ Hb) as [n1 Hg]. pose proof (g_sub _ _ _ _ _ Hg) as Hsub.
    replace (3 - Z.of_nat (Datatypes.S n + k) + 1) with (3 - Z.of_nat (n + k)) by lia.
    apply (IH s1 T1); [apply Hb|by eapply lookup_weaken|done| |].
    * rewrite <-Hca.
      eapply (visited_next _ _ (t_forest _ _ (g_ok _ _ _ _ _ Hg)));
        [by eapply lookup_weaken|by eapply lookup_weaken| |done|done].
      by apply (g_visited _ _ _ _ _ Hg).
    * intros t s2 T2 Hb2 Ht Hin2. apply (HQ t s2 T2); [|done..]. by eapply built_trans.
Qed.

(** A held page is mapped where nothing was. *)
Lemma pc_map_page s T X root va p attrs Q :
  accounted s T (p :: X) → T !! root = Some 3%nat → attrs ∈ user_attrs → walk 3 (fa_mem s) root va = None →
  (∀ s' T', accounted s' T' X → (∀ r, T' !! r = Some 3%nat ↔ T !! r = Some 3%nat) → page_in (fa_mem s') T' p →
     (∀ r x, T !! r = Some 3%nat → walk 3 (fa_mem s') r x =
        if decide (r = root ∧ page_of va = page_of x) then Some (3, page_desc p attrs)
        else walk 3 (fa_mem s) r x) → Q tt s') →
  pc (map_page root va p attrs) s Q.
Proof.
  intros H Hroot Hat Hnone HQ. unfold map_page. pc_step.
  apply (pc_descend 3 s T (p :: X) root va root 0); [done|done|done|by left|].
  intros t s1 T1 [[n Hg] H1 Hr] Ht Hin. unfold write_entry. pc_step.
  pose proof (g_sub _ _ _ _ _ Hg) as Hsub. pose proof (g_ok _ _ _ _ _ Hg) as Hok1.
  assert (Hroot1 : T1 !! root = Some 3%nat) by (by eapply lookup_weaken).
  set (i := table_index va 3). assert (Hi : 0 ≤ i < 512) by apply table_index_bound.
  assert (Hinv : valid (entry (fa_mem s1) t i) = false).
  { pose proof (walk_visited _ _ (t_forest _ _ Hok1) _ _ _ _ _ _ Hroot1 Ht Hin) as Hw.
    rewrite (g_walk _ _ _ _ _ Hg), Hnone in Hw by done. unfold at_entry in Hw.
    change (table_index va (3 - Z.of_nat 0)) with i in Hw. by destruct (valid _). }
  destruct (accounted_map _ _ s1 T1 X t i p attrs H1 Ht Hi Hinv Hat) as [H2 Hpg].
  apply (HQ _ T1); [exact H2|exact Hr|exact Hpg|].
  intros r x Hrr. rewrite <-(g_walk _ _ _ _ _ Hg) by done.
  pose proof (user_attrs_ok _ Hat) as Hao. destruct (ac_held _ _ _ _ _ H1) as [_ Hheld].
  pose proof (frame_page s1 p (ac_ok _ _ _ _ _ H1) (proj1 (Hheld p ltac:(left)))) as Hpp.
  destruct (page_desc_spec p attrs Hpp Hao) as (Hdv & _ & _). destruct (desc_u64 p attrs Hpp Hao) as (Hu & _ & _).
  destruct (wrote_same _ _ s1 T1 _ t i _ _ H1 Ht Hi Hu) as (Hsame & He & _ & _).
  destruct (walk_leaf s1 T1 t 0 i _ root va _ Hok1 Ht Hroot1 Hsame He Hin Hdv (or_introl eq_refl) r x) as [Hyes Hno];
    [by eapply lookup_weaken|].
  case_decide as Hd; [apply Hyes; by rewrite agree_3|apply Hno; by rewrite agree_3].
Qed.

(** One page of an address space. *)
Lemma pc_AddressSpace_map s T X root va p attrs Q :
  accounted s T (p :: X) → T !! root = Some 3%nat → attrs ∈ user_attrs → walk 3 (fa_mem s) root va = None →
  (∀ s' T', accounted s' T' X → (∀ r, T' !! r = Some 3%nat ↔ T !! r = Some 3%nat) → page_in (fa_mem s') T' p →
     (∀ r x, T !! r = Some 3%nat → walk 3 (fa_mem s') r x =
        if decide (r = root ∧ page_of va = page_of x) then Some (3, page_desc p attrs)
        else walk 3 (fa_mem s) r x) → Q tt s') →
  pc (AddressSpace_map root va p PAGE_SIZE attrs) s Q.
Proof.
  intros H Hroot Hat Hnone HQ. unfold AddressSpace_map. pc_steps. unfold map_range.
  change (Z.to_nat (PAGE_SIZE / PAGE_SIZE + 1)) with 2%nat. cbn [map_range_loop].
  change (0 <? PAGE_SIZE) with true. change (BLOCK_2MIB <=? PAGE_SIZE - 0) with false. cbv iota zeta. cbn [andb].
  pc_step. apply pc_lift. intros va' ->%add64_zero. pc_step. apply pc_lift. intros p' ->%add64_zero.
  pc_step. apply (pc_map_page s T X); [done|done|done|done|]. intros s' T' H1 H2 H3 H4.
  pc_step. change (add64 0 PAGE_SIZE) with (Done PAGE_SIZE). change (PAGE_SIZE <? PAGE_SIZE) with false.
  by apply (HQ s' T').
Qed.

(** A new address space: a root that maps nothing. *)
Lemma pc_AddressSpace_new s T X Q :
  accounted s T X →
  (∀ root s' T', accounted s' T' X → T !! root = None → T' = <[root := 3%nat]> T →
     (∀ x, walk 3 (fa_mem s') root x = None) →
     (∀ r x, T !! r = Some 3%nat → walk 3 (fa_mem s') r x = walk 3 (fa_mem s) r x) → Q root s') →
  pc AddressSpace_new s Q.
Proof.
  intros H HQ. unfold AddressSpace_new. pc_step. eapply pc_account_alloc; [exact H| |by pc_steps].
  intros c s1 H1 Hc Hok Hfr Hav Hmem Hlow. pc_steps.
  match goal with H : Some _ = Some _ |- _ => injection H as <- end.
  pose proof (ac_tables _ _ _ _ _ H) as Ht.
  destruct (tables_fresh s T s1 c Ht Hok Hfr Hc Hav Hmem) as (Hsame & _ & HcT).
  assert (Hz : ∀ j, 0 ≤ j < 512 → entry (fa_mem s1) c j = 0) by (intros j Hj; rewrite Hmem; by apply entry_zero_in).
  apply (HQ c s1 (<[c := 3%nat]> T)); [by apply accounted_root|done|done| |].
  - intros x. rewrite walk_at_entry, Hz by apply table_index_bound. done.
  - intros r x Hr. by apply (walk_same _ _ (t_forest _ _ Ht)).
Qed.

(** ** What hangs under a root *)

Section under.
Context (s : S) (T : tables) (X : list Z) (H : accounted s T X).
Let m := fa_mem s.

Local Opaque range ENTRIES.

Lemma elem_of_concat_map {A B} (f : A → list B) l x : x ∈ concat (map f l) ↔ ∃ a, a ∈ l ∧ x ∈ f a.
Proof.
  induction l as [|a l IH]; simpl; [rewrite elem_of_nil; split; [done|by intros (? & []%elem_of_nil & _)]|].
  rewrite elem_of_app, IH. split.
  - intros [?|(b & ? & ?)]; [exists a; split; [left|done]|exists b; split; [by right|done]].
  - intros (b & [->|?]%elem_of_cons & ?); [by left|right; eauto].
Qed.

Lemma leaf_frames_page e : leaf_frames 0 e = [addr e].
Proof. unfold leaf_frames. rewrite range_cons by lia. rewrite range_empty by lia. cbn [map]. f_equal. lia. Qed.

(** Membership, one level at a time. *)
Lemma owned_page t g : g ∈ owned 0 m t ↔ g = t ∨ ∃ i, maps_page m t i g.
Proof.
  cbn [owned]. rewrite elem_of_app, elem_of_concat_map, list_elem_of_singleton. split.
  - intros [(i & Hi%elem_of_range & Hg)|?]; [right|by left]. destruct (valid _) eqn:Hv; [|by apply elem_of_nil in Hg].
    rewrite leaf_frames_page in Hg. apply list_elem_of_singleton in Hg. by exists i.
  - intros [->|(i & Hi & Hv & Ha)]; [by right|left]. exists i. rewrite elem_of_range, Hv, leaf_frames_page.
    split; [exact Hi|]. rewrite Ha. by left.
Qed.

Lemma owned_table k t g : T !! t = Some (Datatypes.S k) →
  g ∈ owned (Datatypes.S k) m t ↔ g = t ∨ ∃ i c, child m t i c ∧ g ∈ owned k m c.
Proof.
  intros Ht. cbn [owned]. rewrite elem_of_app, elem_of_concat_map, list_elem_of_singleton. split.
  - intros [(i & Hi%elem_of_range & Hg)|?]; [right|by left]. destruct (valid _) eqn:Hv; [|by apply elem_of_nil in Hg].
    pose proof (ac_deep _ _ _ _ _ H t k i Ht Hi Hv) as Htb. fold m in Htb. rewrite Htb in Hg.
    by exists i, (addr (entry m t i)).
  - intros [->|(i & c & (Hi & Hv & Htb & Ha) & Hg)]; [by right|left]. exists i. rewrite elem_of_range, Hv, Htb, Ha. done.
Qed.

Lemma owned_self k t : T !! t = Some k → t ∈ owned k m t.
Proof. intros Ht. destruct k; [apply owned_page|apply owned_table]; auto. Qed.

Lemma child_level t k i c : T !! t = Some (Datatypes.S k) → child m t i c → T !! c = Some k.
Proof. apply (f_child _ _ (t_forest _ _ (ac_tables _ _ _ _ _ H))). Qed.

(** What is owned is a table, no higher, or a page. *)
Lemma owned_level k t g : T !! t = Some k → g ∈ owned k m t →
  (∃ j, T !! g = Some j ∧ (j ≤ k)%nat) ∨ T !! g = None ∧ page_in m T g.
Proof.
  revert t. induction k as [|k IH]; intros t Ht.
  - rewrite owned_page. intros [->|(i & Hi)]; [left; by exists 0%nat|right].
    destruct (ac_page _ _ _ _ _ H t i g Ht Hi) as (_ & _ & ? & _). split; [done|]. by exists t, i.
  - rewrite (owned_table k t g Ht). intros [->|(i & c & Hc & Hg)]; [left; by exists (Datatypes.S k)|].
    destruct (IH c (child_level _ _ _ _ Ht Hc) Hg) as [(j & ? & ?)|?]; [left; exists j; split; [done|lia]|by right].
Qed.

(** Two tables of a level share nothing below them. *)
Lemma owned_unique k t t' g : T !! t = Some k → T !! t' = Some k → g ∈ owned k m t → g ∈ owned k m t' → t = t'.
Proof.
  revert t t'. induction k as [|k IH]; intros t t' Ht Ht'.
  - rewrite !owned_page. intros [->|(i & Hi)] [->|(i' & Hi')]; [done|..].
    + destruct (ac_page _ _ _ _ _ H t' i' t Ht' Hi') as (_ & _ & ? & _). congruence.
    + destruct (ac_page _ _ _ _ _ H t i t' Ht Hi) as (_ & _ & ? & _). congruence.
    + by destruct (ac_once _ _ _ _ _ H t t' i i' g Ht Ht' Hi Hi').
  - rewrite (owned_table k t g Ht), (owned_table k t' g Ht').
    assert (Hlow : ∀ u c i, T !! u = Some (Datatypes.S k) → child m u i c → g ∈ owned k m c → T !! g ≠ Some (Datatypes.S k)).
    { intros u c i Hu Hc Hg. destruct (owned_level k c g (child_level _ _ _ _ Hu Hc) Hg) as [(j & ? & ?)|[? _]]; [|congruence].
      intros ?. assert (j = Datatypes.S k) by congruence. lia. }
    intros [->|(i & c & Hc & Hg)] [->|(i' & c' & Hc' & Hg')]; [done|..].
    + by destruct (Hlow t' c' i' Ht' Hc' Hg').
    + by destruct (Hlow t c i Ht Hc Hg).
    + assert (c = c') as -> by (apply IH; [exact (child_level _ _ _ _ Ht Hc)|exact (child_level _ _ _ _ Ht' Hc')|done|done]).
      by destruct (f_inj _ _ (t_forest _ _ (ac_tables _ _ _ _ _ H)) t t' k k i i' c' Ht Ht' Hc Hc').
Qed.

(** Every table hangs under a root, with all it owns. *)
Lemma owned_root k t : T !! t = Some k →
  ∃ r, T !! r = Some 3%nat ∧ ∀ g, g ∈ owned k m t → g ∈ owned 3 m r.
Proof.
  intros Ht. pose proof (f_level _ _ (t_forest _ _ (ac_tables _ _ _ _ _ H)) _ _ Ht) as Hk.
  remember (3 - k)%nat as n eqn:Hn. revert k t Ht Hk Hn. induction n as [|n IH]; intros k t Ht Hk Hn.
  - assert (k = 3%nat) as -> by lia. by exists t.
  - destruct (ac_parent _ _ _ _ _ H t k Ht ltac:(lia)) as (f & i & Hf & Hc).
    destruct (IH (Datatypes.S k) f Hf ltac:(lia) ltac:(lia)) as (r & Hr & Hsub). exists r. split; [done|].
    intros g Hg. apply Hsub, (owned_table k f g Hf). right. by exists i, t.
Qed.

(** A frame owned by a root is owned through one of its tables. *)
Lemma owned_through k t r : T !! t = Some k → T !! r = Some 3%nat → t ∈ owned 3 m r → ∀ g, g ∈ owned k m t → g ∈ owned 3 m r.
Proof.
  intros Ht Hr Hin g Hg. destruct (owned_root k t Ht) as (r' & Hr' & Hsub).
  rewrite (owned_unique 3 r r' t Hr Hr' Hin (Hsub t (owned_self k t Ht))). by apply Hsub.
Qed.

Lemma NoDup_concat_map {A B} (f : A → list B) l :
  NoDup l → (∀ a, a ∈ l → NoDup (f a)) → (∀ a b x, a ∈ l → b ∈ l → x ∈ f a → x ∈ f b → a = b) →
  NoDup (concat (map f l)).
Proof.
  induction 1 as [|a l Hni Hnd IH]; intros Hf Hd; simpl; [constructor|]. apply NoDup_app. split_and!.
  - apply Hf. by left.
  - intros x Hx (b & Hb & Hxb)%elem_of_concat_map. apply Hni.
    rewrite (Hd a b x); [done|by left|by right|done|done].
  - apply IH; [intros b Hb; apply Hf; by right|]. intros b c x Hb Hc. apply Hd; by right.
Qed.

Lemma owned_nodup k t : T !! t = Some k → NoDup (owned k m t).
Proof.
  revert t. induction k as [|k IH]; intros t Ht; cbn [owned]; apply NoDup_app;
    (split; [apply NoDup_concat_map; [apply NoDup_range| |]|split; [|apply NoDup_singleton]]).
  - intros i _. destruct (valid _); [rewrite leaf_frames_page; apply NoDup_singleton|constructor].
  - intros i j x Hi%elem_of_range Hj%elem_of_range. destruct (valid (entry m t i)) eqn:Hv; [|by intros ?%elem_of_nil].
    destruct (valid (entry m t j)) eqn:Hv'; [|by intros ? ?%elem_of_nil]. rewrite !leaf_frames_page.
    intros ->%list_elem_of_singleton Hx%list_elem_of_singleton.
    by destruct (ac_once _ _ _ _ _ H t t i j (addr (entry m t i)) Ht Ht).
  - intros x (i & Hi%elem_of_range & Hx)%elem_of_concat_map ->%list_elem_of_singleton.
    destruct (valid (entry m t i)) eqn:Hv; [|by apply elem_of_nil in Hx]. rewrite leaf_frames_page in Hx.
    apply list_elem_of_singleton in Hx. destruct (ac_page _ _ _ _ _ H t i t Ht) as (_ & _ & ? & _); [done|congruence].
  - intros i Hi%elem_of_range. destruct (valid (entry m t i)) eqn:Hv; [|constructor].
    pose proof (ac_deep _ _ _ _ _ H t k i Ht Hi Hv) as Htb. fold m in Htb. rewrite Htb. apply IH.
    by apply (child_level t k i).
  - assert (Hin : ∀ i x, 0 ≤ i < ENTRIES → x ∈ (let e := entry m t i in if valid e then
        if is_table e then owned k m (addr e) else leaf_frames (Datatypes.S k) e else []) →
      child m t i (addr (entry m t i)) ∧ x ∈ owned k m (addr (entry m t i))).
    { intros i x Hi. cbv zeta. destruct (valid (entry m t i)) eqn:Hv; [|by intros ?%elem_of_nil].
      pose proof (ac_deep _ _ _ _ _ H t k i Ht Hi Hv) as Htb. fold m in Htb. by rewrite Htb. }
    intros i j x Hi%elem_of_range Hj%elem_of_range Hx Hx'.
    destruct (Hin i x Hi Hx) as [Hc Hxc]. destruct (Hin j x Hj Hx') as [Hc' Hxc'].
    pose proof (child_level _ _ _ _ Ht Hc) as Hl. pose proof (child_level _ _ _ _ Ht Hc') as Hl'.
    rewrite <-(owned_unique k _ _ x Hl Hl' Hxc Hxc') in Hc'.
    by destruct (f_inj _ _ (t_forest _ _ (ac_tables _ _ _ _ _ H)) t t k k i j _ Ht Ht Hc Hc').
  - intros x (i & Hi%elem_of_range & Hx)%elem_of_concat_map ->%list_elem_of_singleton.
    destruct (valid (entry m t i)) eqn:Hv; [|by apply elem_of_nil in Hx].
    pose proof (ac_deep _ _ _ _ _ H t k i Ht Hi Hv) as Htb. fold m in Htb. rewrite Htb in Hx.
    destruct (owned_level k (addr (entry m t i)) t) as [(j & Hj & ?)|[? _]]; [by apply (child_level t k i)|done| |congruence].
    assert (j = Datatypes.S k) by congruence. lia.
Qed.

Lemma accounted_leaves k t : T !! t = Some k → leaves_ok k m t.
Proof.
  revert t. induction k as [|k IH]; intros t Ht; cbn [leaves_ok]; intros i Hi Hv; [done|].
  pose proof (ac_deep _ _ _ _ _ H t k i Ht Hi Hv) as Htb. fold m in Htb. rewrite Htb. apply IH.
  by apply (child_level t k i).
Qed.

End under.

(** ** Copying between address spaces *)

(** Every byte an address space translates to is in a page it owns. *)
Lemma accounted_translation s T X r va pa :
  accounted s T X → T !! r = Some 3%nat → translation (fa_mem s) r va = Some pa →
  ∃ p, page_in (fa_mem s) T p ∧ p ∈ owned 3 (fa_mem s) r ∧ pa = p + Z.land va 4095.
Proof.
  intros H Hr Ht. pose proof (t_forest _ _ (ac_tables _ _ _ _ _ H)) as HF.
  assert (Hw : ∀ k t, T !! t = Some k → ∀ l d, walk k (fa_mem s) t va = Some (l, d) →
    l = 3 ∧ page_in (fa_mem s) T (addr d) ∧ addr d ∈ owned k (fa_mem s) t).
  { induction k as [|k IH]; intros t Hk l d; rewrite walk_at_entry; unfold at_entry;
      destruct (valid _) eqn:Hv; try done.
    - intros [= <- <-]. split; [done|]. set (i := table_index va (3 - Z.of_nat 0)) in *.
      assert (Hp : maps_page (fa_mem s) t i (addr (entry (fa_mem s) t i))) by (split; [apply table_index_bound|done]).
      split; [by exists t, i|]. apply owned_page. right. by exists i.
    - pose proof (ac_deep _ _ _ _ _ H t k _ Hk (table_index_bound _ _) Hv) as Htb. rewrite Htb. intros Hwk.
      set (i := table_index va (3 - Z.of_nat (Datatypes.S k))) in *.
      assert (Hc : child (fa_mem s) t i (addr (entry (fa_mem s) t i))) by (split; [apply table_index_bound|done]).
      destruct (IH _ (f_child _ _ HF _ _ _ _ Hk Hc) l d Hwk) as (-> & Hp & Ho). split; [done|]. split; [done|].
      apply (owned_table s T X H k t _ Hk). right. by exists i, (addr (entry (fa_mem s) t i)). }
  unfold translation in Ht. destruct (walk 3 _ r va) as [[l d]|] eqn:Hwk; [|done]. simpl in Ht.
  destruct (Hw 3%nat r Hr l d Hwk) as (-> & Hp & Ho). unfold leaf_pa in Ht. simpl in Ht. injection Ht as <-.
  exists (addr d). split; [done|]. split; [done|]. unfold PAGE_SIZE. change (4096 - 1) with (Z.ones 12).
  change 4095 with (Z.ones 12). apply lor_add, land_aligned_low; [lia|apply addr_aligned].
Qed.

Lemma pc_copy_across s T X src_root src_va dst_root dst_va len Q :
  accounted s T X → T !! src_root = Some 3%nat → T !! dst_root = Some 3%nat →
  (∀ b s', accounted s' T X → same_entries (fa_mem s) (fa_mem s') T (λ _ _, False) → Q b s') →
  pc (copy_across src_root src_va dst_root dst_va len) s Q.
Proof.
  intros H Hsr Hdr HQ. unfold copy_across. generalize 0 as off. generalize (Z.to_nat len) as fuel.
  assert (HQ' : ∀ s1, accounted s1 T X → same_entries (fa_mem s) (fa_mem s1) T (λ _ _, False) → ∀ b, Q b s1) by auto.
  assert (Hs : same_entries (fa_mem s) (fa_mem s) T (λ _ _, False)) by done.
  clear HQ. set (m := fa_mem s) in HQ', Hs at 1. clearbody m. intros fuel. revert s H Hs.
  induction fuel as [|fuel IH]; intros s1 H Hs off; cbn [copy_across_loop];
    (destruct (off <? len); [|pc_step; by apply HQ']); [by pc_step|].
  pc_step. apply pc_lift. intros src Hsrc. pc_step. apply pc_lift. intros dst Hdst. pc_step.
  unfold pc at 1. rewrite translate_walk. pc_step. unfold pc at 1. rewrite translate_walk.
  destruct (translation _ src_root src) as [src_pa|]; [|pc_step; by apply HQ'].
  destruct (translation _ dst_root dst) as [dst_pa|] eqn:Hpa; [|pc_step; by apply HQ'].
  cbv zeta. set (c := Z.min _ _). destruct (accounted_translation _ _ _ _ _ _ H Hdr Hpa) as (p & Hp & _ & ->).
  assert (Hbound : 0 ≤ Z.land dst 4095 ∧ Z.land dst 4095 + c ≤ 4096).
  { unfold c, PAGE_SIZE. change (4096 - 1) with (Z.ones 12). change 4095 with (Z.ones 12).
    rewrite !Z.land_ones by lia. change (2 ^ 12) with 4096. zdiv. }
  pc_step. pc_step. set (s2 := fa_set_mem _ s1).
  assert (Hm2 : fa_mem s2 = copy_range (fa_mem s1) src_pa (p + Z.land dst 4095) c) by apply fa_get_set.
  assert (Hout : ∀ x, (∀ g, page_in (fa_mem s1) T g ∨ g ∈ X → ¬ in_frame g x) → fa_mem s2 x = fa_mem s1 x).
  { intros x Hx. rewrite Hm2. apply copy_range_out. specialize (Hx p (or_introl Hp)). unfold in_frame in Hx. lia. }
  pose proof (account_entries _ _ _ _ _ _ H Hout) as Hse.
  pc_step. apply pc_lift. intros done' _. apply IH.
  - eapply accounted_write; [exact H| | | |exact Hout].
    + apply fa_set_ok; [apply H|]. apply copy_range_bytes, fa_bytes, (ac_ok _ _ _ _ _ H).
    + intros g. apply fa_set_frame.
    + intros g. apply fa_set_avail.
  - intros f k i Hf Hi Hn. rewrite (Hse _ _ _ Hf Hi Hn). by apply (Hs f k i).
Qed.

(** ** Tearing down *)

(** The tables left when everything under [root] has gone. *)
Definition without (m : mem) (root : Z) (T : tables) : tables := filter (λ p, p.1 ∉ owned 3 m root) T.

Lemma without_lookup m root T f k : without m root T !! f = Some k ↔ T !! f = Some k ∧ f ∉ owned 3 m root.
Proof. unfold without. by rewrite map_lookup_filter_Some. Qed.

Lemma without_none m root T f : T !! f = None → without m root T !! f = None.
Proof. intros Hf. unfold without. apply map_lookup_filter_None. by left. Qed.

Lemma accounted_without s s' T X root :
  accounted s T X → T !! root = Some 3%nat → gave_back (owned 3 (fa_mem s) root) s s' →
  accounted s' (without (fa_mem s) root T) X.
Proof.
  intros H Hr [Hok Hfr Hav Hmem]. pose proof H as [H1 H2 H3 H4 H5 [H6 H6'] H7 H8].
  pose proof (t_forest _ _ H1) as HF. set (T' := without (fa_mem s) root T).
  assert (Hin : ∀ f k, T' !! f = Some k → T !! f = Some k ∧ f ∉ owned 3 (fa_mem s) root) by (intros f k; apply without_lookup).
  assert (Hthrough : ∀ f k g, T !! f = Some k → g ∈ owned k (fa_mem s) f → f ∉ owned 3 (fa_mem s) root →
    g ∉ owned 3 (fa_mem s) root).
  { intros f k g Hf Hg Hn Hgr. destruct (owned_root s T X H k f Hf) as (r & Hrr & Hsub). apply Hn.
    rewrite (owned_unique s T X H 3 root r g Hr Hrr Hgr (Hsub g Hg)). apply Hsub. by apply (owned_self s T X H). }
  assert (Hpage : ∀ f i p, T !! f = Some 0%nat → maps_page (fa_mem s) f i p → p ∈ owned 0 (fa_mem s) f).
  { intros f i p Hf Hp. apply owned_page. right. by exists i. }
  split; rewrite ?Hmem.
  - split; [done| |].
    + rewrite Hmem. split.
      * intros f k [Hf _]%Hin. by apply (f_level _ _ HF f).
      * intros f k i g [Hf Hn]%Hin Hc. apply without_lookup. split; [by apply (f_child _ _ HF f k i)|].
        apply (Hthrough f (Datatypes.S k)); [done| |done]. apply (owned_table s T X H k f g Hf). right. exists i, g.
        split; [done|]. apply (owned_self s T X H). by apply (f_child _ _ HF f k i).
      * intros f f' k k' i i' g [Hf _]%Hin [Hf' _]%Hin. by apply (f_inj _ _ HF f f' k k').
    + intros f k [Hf Hn]%Hin. rewrite Hfr, Hav. destruct (t_frame _ _ H1 f k Hf). tauto.
  - intros f k i [Hf _]%Hin. by apply H2 with k.
  - intros g k [Hg Hn]%Hin Hk. destruct (H3 g k Hg Hk) as (f & i & Hf & Hc). exists f, i. split; [|done].
    apply without_lookup. split; [done|]. intros Hfr'. apply Hn.
    apply (owned_through s T X H (Datatypes.S k) f root Hf Hr Hfr'). apply (owned_table s T X H k f g Hf). right. exists i, g.
    split; [done|]. by apply (owned_self s T X H).
  - intros f i p [Hf Hn]%Hin Hp. rewrite Hfr, Hav. destruct (H4 f i p Hf Hp) as (? & ? & ? & ? & ?).
    pose proof (Hthrough f 0%nat p Hf (Hpage f i p Hf Hp) Hn). split; [done|]. split; [tauto|].
    split; [by apply without_none|done].
  - intros f f' i i' p [Hf _]%Hin [Hf' _]%Hin. by apply H5.
  - split; [done|]. intros x Hx. rewrite Hfr, Hav. destruct (H6' x Hx) as (? & ? & HxT). split; [done|].
    split; [|by apply without_none]. intros [?|Hxo]; [done|].
    destruct (owned_level s T X H 3 root x Hr Hxo) as [(j & ? & _)|[_ (f & i & Hf & Hp)]]; [congruence|].
    by destruct (H4 f i x Hf Hp) as (_ & _ & _ & ? & _).
  - intros g. rewrite H7, Hav. split.
    + intros [?|[Hg|[(f & i & Hf & Hp)|?]]]; [by left; left| | |by right; right; right].
      * destruct (T !! g) as [k|] eqn:Hk; [|done]. destruct (decide (g ∈ owned 3 (fa_mem s) root)); [by left; right|].
        right; left. fold T'. assert (T' !! g = Some k) as -> by (by apply without_lookup). done.
      * destruct (decide (f ∈ owned 3 (fa_mem s) root)) as [Ho|].
        { left; right. apply (owned_through s T X H 0 f root Hf Hr Ho), (Hpage f i g Hf Hp). }
        right; right; left. exists f, i. split; [by apply without_lookup|done].
    + intros [[?|Ho]|[Hg|[(f & i & [Hf _]%Hin & Hp)|?]]]; [by left| | | |by right; right; right].
      * destruct (owned_level s T X H 3 root g Hr Ho) as [(j & Hj & _)|[_ ?]]; [|by right; right; left].
        right; left. by rewrite Hj.
      * right; left. intros Hn. by apply Hg, without_none.
      * right; right; left. by exists f, i.
  - exact H8.
Qed.

Lemma pc_AddressSpace_destroy s T X root Q :
  accounted s T X → T !! root = Some 3%nat →
  (∀ s' T', accounted s' T' X → T' ⊆ T → (∀ r, T' !! r = Some 3%nat ↔ T !! r = Some 3%nat ∧ r ≠ root) →
     fa_mem s' = fa_mem s → Q tt s') →
  pc (AddressSpace_destroy root) s Q.
Proof.
  intros H Hr HQ. apply pc_of_wp. unfold AddressSpace_destroy.
  apply (frees_table 3 root (fa_mem s)); [done|by apply (accounted_leaves s T X H)|done| |].
  - split; [apply (ac_ok _ _ _ _ _ H)|]. split; [by apply (owned_nodup s T X H)|]. intros g Hg.
    apply (ac_frame _ _ _ _ _ _ H).
    destruct (owned_level s T X H 3 root g Hr Hg) as [(j & Hj & _)|[_ ?]]; [left; congruence|by right; left].
  - intros s' Hgb. apply (HQ s' (without (fa_mem s) root T)); [by apply accounted_without| | |apply Hgb].
    + apply map_filter_subseteq.
    + intros r. rewrite without_lookup. split; intros [Hrr Hn]; (split; [done|]).
      * intros ->. apply Hn. by apply (owned_self s T X H).
      * intros Ho. apply Hn. symmetry. apply (owned_unique s T X H 3 root r r); [done|done|done|].
        by apply (owned_self s T X H).
Qed.

End keep.

(** ** Operations that only look *)

Section looks.
Context {S : Type} `{FA : FrameAlloc S, !FrameAllocLaws S}.

Lemma reads_lookup root va : reads (lookup root va : M S _).
Proof. intros s a s'. rewrite lookup_walk. by intros [= _ <-]. Qed.

Lemma reads_translate root va : reads (translate root va : M S _).
Proof. intros s a s'. rewrite translate_walk. by intros [= _ <-]. Qed.

Lemma reads_user_range root va len allowed : reads (user_range root va len allowed : M S _).
Proof.
  unfold user_range. destruct (len =? 0); [apply steady_ret|]. destruct (checked_add64 va len) as [e|]; [|apply steady_ret].
  destruct (KERNEL_BASE <? e); [apply steady_ret|]. cbv zeta. generalize (Z.land va (not64 (PAGE_SIZE - 1))) as page.
  generalize (Z.to_nat (len / PAGE_SIZE + 2)) as fuel.
  induction fuel as [|fuel IH]; intros page; cbn [user_range_loop]; (destruct (page <? e); [|apply steady_ret]);
    [apply steady_panic|].
  apply steady_bind; [apply reads_lookup|]. intros [d|]; [|apply steady_ret]. destruct (negb _); [apply steady_ret|].
  apply steady_bind; [apply steady_lift|]. intros page'. apply IH.
Qed.

End looks.

#[export] Hint Resolve reads_lookup reads_translate reads_user_range : steady.
