(* ===== verification/PagingProps.v ===== *)
(** * PagingProps: the properties of the translation tables *)

From S2P Require Import Prelude Memory FrameAlloc Frames FramesSpec FramesBoot.
From S2P Require Import Paging PagingWalk PagingTables PagingMap PagingRange PagingSpace.

(** ** Permissions *)

(** The field of a descriptor says EL0 or EL1 may write, or may execute. *)
Definition writable (d : Z) : bool := (ap d =? AP_RW_EL1) || (ap d =? AP_RW_ALL).
Definition el0_access (d : Z) : bool := (ap d =? AP_RW_ALL) || (ap d =? AP_RO_ALL).
Definition el1_exec (d : Z) : bool := Z.land d PXN =? 0.
Definition el0_exec (d : Z) : bool := Z.land d UXN =? 0.

(** Never writable and executable; and what user code can reach the kernel
    never executes, what the kernel executes user code cannot reach. *)
Definition perm_safe (d : Z) : bool :=
  negb (writable d && (el1_exec d || el0_exec d)) &&
  negb (el0_access d && el1_exec d) && negb (negb (el0_access d) && el0_exec d).

Lemma land_perm d k : Z.land k (not64 (Z.lor ADDR_MASK 3)) = k → Z.land (perm d) k = Z.land d k.
Proof. intros Hk. unfold perm. by rewrite <-Z.land_assoc, (Z.land_comm _ k), Hk. Qed.

Lemma ap_perm d : ap (perm d) = ap d.
Proof.
  unfold ap, perm. rewrite Z.shiftr_land, <-Z.land_assoc.
  replace (Z.land (Z.shiftr (not64 (Z.lor ADDR_MASK 3)) AP_SHIFT) 3) with 3 by reflexivity. done.
Qed.

Lemma perm_safe_perm d : perm_safe (perm d) = perm_safe d.
Proof.
  unfold perm_safe, writable, el0_access, el1_exec, el0_exec.
  by rewrite ap_perm, !land_perm by reflexivity.
Qed.

Definition root_safe (m : mem) (root : Z) : Prop :=
  ∀ x l d, walk 3 m root x = Some (l, d) → perm_safe d = true.

Section props.
Context {S : Type} `{FA : FrameAlloc S, !FrameAllocLaws S}.

(** ** A new address space *)

Lemma wp_fresh_root s T why Q :
  tables_ok s T → room 1 s →
  (∀ root s', T !! root = None → tables_ok s' (<[root := 3%nat]> T) →
     (∀ x, walk 3 (fa_mem s') root x = None) → (∀ j, room (1 + j) s → room j s') →
     (∀ f k x, T !! f = Some k → walk k (fa_mem s') f x = walk k (fa_mem s) f x) →
     (∀ g, fa_frame s' g ↔ fa_frame s g) → fa_avail s root →
     (∀ g, fa_avail s' g ↔ fa_avail s g ∧ g ≠ root) → fa_mem s' = zero_range (fa_mem s) root 4096 → Q root s') →
  wp (r ← fa_alloc; expectM r why) s Q.
Proof.
  intros H Hroom HQ. wp_step. eapply wp_mono; [apply fa_alloc_spec, H|].
  intros [c|] s1 (Hok & Hfr & Hr).
  2: { exfalso. destruct Hr as [-> Hnone]. destruct Hroom as ([|g l] & _ & Hl & Hav); [done|].
       apply (Hnone g), Hav. by left. }
  destruct Hr as (Hc & Hav & Hmem & _). apply wp_expectM with c; [done|].
  destruct (tables_fresh s T s1 c H Hok Hfr Hc Hav Hmem) as (Hsame & H1 & HcT).
  assert (Hz : ∀ i, 0 ≤ i < 512 → entry (fa_mem s1) c i = 0) by (intros; rewrite Hmem; by apply entry_zero_in).
  apply HQ; [done| | | | |done|done|done|done].
  - split; [done| |].
    + pose proof (t_forest _ _ H1) as HF.
      assert (Hch : ∀ f k i g, (<[c:=3%nat]> T) !! f = Some (Datatypes.S k) → child (fa_mem s1) f i g →
                T !! f = Some (Datatypes.S k)).
      { intros f k i g [[<- _]|[_ Hf]]%lookup_insert_Some (Hi & Hv & _); [|done].
        by rewrite Hz in Hv. }
      split.
      * intros f k [[_ <-]|[_ Hf]]%lookup_insert_Some; [lia|by apply (f_level _ _ HF f)].
      * intros f k i g Hf Hcg. pose proof (Hch _ _ _ _ Hf Hcg) as Hf'.
        pose proof (f_child _ _ HF _ _ _ _ Hf' Hcg). rewrite lookup_insert_ne; congruence.
      * intros f f' k k' i i' g Hf Hf' Hcg Hcg'.
        eapply (f_inj _ _ HF); [by eapply Hch|by eapply Hch|done|done].
    + intros f k [[<- _]|[_ Hf]]%lookup_insert_Some.
      * rewrite Hfr, Hav. split; [by apply (fa_avail_frame _ _ (t_ok _ _ H))|tauto].
      * by apply (t_frame _ _ H1 f k).
  - intros x. rewrite walk_at_entry, Hz by apply table_index_bound. done.
  - intros j Hj. apply (room_take j s s1 c Hj). intros g [??]. by apply Hav.
  - intros f k x Hf. by apply (walk_same _ _ (t_forest _ _ H)).
Qed.

Lemma wp_new s T Q :
  tables_ok s T → room 1 s →
  (∀ root s', T !! root = None → tables_ok s' (<[root := 3%nat]> T) →
     (∀ x, walk 3 (fa_mem s') root x = None) → (∀ j, room (1 + j) s → room j s') →
     (∀ f k x, T !! f = Some k → walk k (fa_mem s') f x = walk k (fa_mem s) f x) →
     (∀ g, fa_frame s' g ↔ fa_frame s g) → fa_avail s root → Q root s') →
  wp AddressSpace_new s Q.
Proof. intros H Hr HQ. apply (wp_fresh_root s T); [done|done|]. intros. by apply HQ. Qed.

(** ** Properties *)

(** C12: [map_range] makes every byte of the range translate to the physical
    byte asked for with the attributes asked for, whatever mixture of blocks
    and pages it chose, and changes the translation of no other address of any
    address space, provided no block stands in the range and frames remain for
    the tables. *)
Theorem map_range_exact s T root va pa size attrs :
  attrs_ok attrs → mappable s T root va pa size →
  wp (map_range root va pa size attrs) s (λ _ s', ∃ T',
    tables_ok s' T' ∧ T ⊆ T' ∧
    (∀ o, 0 ≤ o < size → translation (fa_mem s') root (va + o) = Some (pa + o) ∧
       maps (fa_mem s') root (va + o) (pa + o) attrs) ∧
    (∀ r x, T !! r = Some 3%nat →
       r ≠ root ∨ (∀ o, 0 ≤ o < size → page_of x ≠ page_of (va + o)) →
       translation (fa_mem s') r x = translation (fa_mem s) r x)).
Proof.
  intros Hat Hm. apply wp_map_range with T; [done|done|]. intros s' T' [Hx Hmaps Hother].
  exists T'. split; [apply Hx|]. split; [apply Hx|]. split.
  - intros o Ho. specialize (Hmaps o Ho). split; [by eapply maps_translation|done].
  - intros r x Hr Hne. unfold translation. by rewrite Hother.
Qed.

(** Mapping with any of the six [Attributes] keeps every address space free
    of mappings that are writable and executable, that the kernel could execute
    though user code can reach them, or that user code could execute though
    only the kernel may read them. *)
Theorem map_range_keeps_wx s T root va pa size attrs :
  attrs ∈ Attributes.all → mappable s T root va pa size →
  (∀ r, T !! r = Some 3%nat → root_safe (fa_mem s) r) →
  wp (map_range root va pa size attrs) s (λ _ s',
    ∀ r, T !! r = Some 3%nat → root_safe (fa_mem s') r).
Proof.
  intros Hat Hm Hsafe.
  assert (Hok : attrs_ok attrs) by by (eapply Forall_forall; [apply attributes_ok|]).
  assert (Hps : perm_safe attrs = true).
  { assert (Hall : Forall (λ a, perm_safe a = true) Attributes.all) by (repeat constructor).
    by eapply Forall_forall in Hall. }
  apply wp_map_range with T; [done|done|]. intros s' T' [_ Hmaps Hother] r Hr x l d Hw.
  set (o := (x / 4096 - va / 4096) mod 2 ^ 36 * 4096).
  destruct (mp_size _ _ _ _ _ _ Hm). destruct (mp_va _ _ _ _ _ _ Hm) as (_ & _ & Hva).
  destruct (decide (r = root ∧ o < size)) as [[-> Hin]|Hout].
  - destruct (Hmaps o) as (l' & d' & Hw' & _ & Hp); [unfold o in *; split; [|done];
      change (2 ^ 36) with 68719476736; zdiv|].
    rewrite (walk_page _ _ x (va + o)), Hw' in Hw.
    + simplify_eq. by rewrite <-perm_safe_perm.
    + unfold page_of, o. change (2 ^ 36) with 68719476736. zdiv.
  - rewrite Hother in Hw; [by eapply Hsafe|done|].
    destruct (decide (r = root)) as [->|]; [right|by left]. intros o' Ho' Heq. apply Hout.
    split; [done|]. revert Heq. unfold page_of, o. change (2 ^ 36) with 68719476736. intros. zdiv.
Qed.

(** What the hardware finds for EL0 at [va]: the low half has 48 bits, and an
    address above them faults whatever the tables hold. *)
Definition el0_walk (m : mem) (root va : Z) : option (Z * Z) :=
  if (0 <=? va) && (va <? 2 ^ 48) then walk 3 m root va else None.

(** EL0 may read the byte at [va], or write it. *)
Definition el0_may (w : bool) (m : mem) (root va : Z) : Prop :=
  ∃ l d, el0_walk m root va = Some (l, d) ∧ (ap d = AP_RW_ALL ∨ w = false ∧ ap d = AP_RO_ALL).

Definition user_check (w : bool) {S : Type} `{FrameAlloc S} (root va len : Z) : M S bool :=
  if w then user_writable root va len else user_readable root va len.

Lemma el0_may_iff w m root x :
  el0_may w m root (x mod 2 ^ 48) ↔
  accessible m root (λ a, if w then a =? AP_RW_ALL else (a =? AP_RW_ALL) || (a =? AP_RO_ALL)) x.
Proof.
  unfold el0_may, el0_walk, accessible. change (2 ^ 48) with 281474976710656.
  rewrite (proj2 (Z.leb_le 0 _)), (proj2 (Z.ltb_lt _ _)) by zdiv. cbn [andb].
  rewrite (walk_page m root (x mod 281474976710656) x) by (unfold page_of; change (2 ^ 36) with 68719476736; zdiv).
  destruct w.
  - setoid_rewrite Z.eqb_eq. split; intros (l & d & Hw & H); exists l, d; (split; [exact Hw|]); [|by left].
    by destruct H as [|[? _]].
  - setoid_rewrite orb_true_iff. setoid_rewrite Z.eqb_eq.
    split; intros (l & d & Hw & H); exists l, d; (split; [exact Hw|]); tauto.
Qed.

(** C24: [user_range], hence [user_readable] and [user_writable], never panics
    and changes nothing.  For a range that ends within the 48 bits of the low
    half it says yes exactly when EL0 may make that access to every byte.  Above
    them it still looks at the low 48 bits: it says yes for a range that ends
    below the kernel's half when EL0 may make the access at the addresses with the
    same low 48 bits, although the hardware faults on every byte above. *)
Theorem user_checks_exact (w : bool) root va len s :
  is_u64 va → 0 ≤ len →
  ∃ b, user_check w root va len s = Done (b, s) ∧
    (va + len ≤ 2 ^ 48 →
     (b = true ↔ ∀ x, va ≤ x < va + len → el0_may w (fa_mem s) root x)) ∧
    (2 ^ 48 < va + len → 0 < len →
     (b = true ↔ va + len ≤ KERNEL_BASE ∧ ∀ x, va ≤ x < va + len → el0_may w (fa_mem s) root (x mod 2 ^ 48))) ∧
    (∀ x, 2 ^ 48 ≤ x → ¬ el0_may w (fa_mem s) root x).
Proof.
  intros Hva Hlen. destruct (user_range_spec root va len
    (λ a, if w then a =? AP_RW_ALL else (a =? AP_RW_ALL) || (a =? AP_RO_ALL)) s Hva Hlen) as (b & Hr & Hb).
  exists b. setoid_rewrite <-el0_may_iff in Hb. split; [by destruct w|].
  unfold is_u64 in Hva. change (2 ^ 48) with 281474976710656 in *. split; [|split].
  - intros Hend. rewrite Hb. split.
    + intros [|[_ H]] x Hx; [lia|]. specialize (H x Hx). by rewrite Z.mod_small in H by lia.
    + intros H. right. split; [unfold KERNEL_BASE; lia|]. intros x Hx. rewrite Z.mod_small by lia. by apply H.
  - intros _ Hpos. rewrite Hb. split; [intros [|H]; [lia|exact H]|by right].
  - intros x Hx (l & d & Hw & _). unfold el0_walk in Hw. change (2 ^ 48) with 281474976710656 in Hw.
    rewrite (proj2 (Z.ltb_ge x _)), andb_false_r in Hw by lia. discriminate.
Qed.

(** The permission check does not see bits 47 to 63: an address that is not
    canonical, [2^48] above one it accepts, is accepted too as long as the range
    ends below the kernel's half, although the hardware would fault on it. *)
Theorem user_check_aliases root va len s :
  is_u64 va → 0 < len → va + 2 ^ 48 + len ≤ KERNEL_BASE →
  user_readable root (va + 2 ^ 48) len s = user_readable root va len s.
Proof. apply user_readable_alias. Qed.

(** C23: [copy_across] copies exactly the message: when both sides are mapped,
    the destination holds no table and no byte is written twice or read after
    being written, it returns true, every destination byte is the source byte
    it corresponds to, and every other byte of memory is untouched. *)
Theorem copy_across_exact s T src_root src_va dst_root dst_va len sp dp :
  fa_ok s → copyable (fa_mem s) T src_root src_va dst_root dst_va len sp dp →
  0 ≤ src_va → 0 ≤ dst_va → 0 ≤ len → src_va + len ≤ u64_max → dst_va + len ≤ u64_max →
  wp (copy_across src_root src_va dst_root dst_va len) s (λ r s',
    r = true ∧ fa_ok s' ∧
    (∀ i, 0 ≤ i < len → fa_mem s' (dp i) = fa_mem s (sp i)) ∧
    (∀ x, (∀ i, 0 ≤ i < len → x ≠ dp i) → fa_mem s' x = fa_mem s x)).
Proof.
  intros Hok Hc Hs Hd Hl Hse Hde.
  destruct (copy_loop_spec T src_root src_va dst_root dst_va len sp dp (fa_mem s) (Z.to_nat len) 0 s)
    as (s' & Hrun & Hok' & [Hin Hout] & _); [done|by apply fa_bytes|lia..|done| |].
  { split; [lia|done]. }
  eapply wp_Ok; [exact Hrun|done].
Qed.

(** C25: [AddressSpace::destroy] frees every table and every mapped frame below
    the root, each exactly once, and nothing else, without touching memory. *)
Theorem destroy_exact root s :
  leaves_ok 3 (fa_mem s) root → freeable (owned 3 (fa_mem s) root) s →
  wp (AddressSpace_destroy root) s (λ _ s',
    fa_ok s' ∧ (∀ g, fa_avail s' g ↔ fa_avail s g ∨ g ∈ owned 3 (fa_mem s) root) ∧
    fa_mem s' = fa_mem s).
Proof.
  intros Hl Hf. apply (frees_table 3 root (fa_mem s)); [done|done|done|done|].
  intros s' []. done.
Qed.

(** [lookup] and [translate] answer the hardware's question: they return the
    leaf, and the physical address, of the architectural walk of the root, and
    neither panics nor writes. *)
Theorem lookups_are_walks root va s :
  lookup root va s = Done (snd <$> walk 3 (fa_mem s) root va, s) ∧
  translate root va s = Done (translation (fa_mem s) root va, s).
Proof. split; [apply lookup_walk|apply translate_walk]. Qed.

End props.

(** ** Witnesses: an address space on the virtual board *)

Lemma virt_room n : (n ≤ 4000)%nat → room n virt.
Proof.
  intros Hn. exists (map (from_index virt) (range 512 (512 + Z.of_nat n))). split_and!.
  - apply NoDup_fmap_2_strong; [|apply NoDup_range]. intros x y _ _. apply from_index_inj.
  - rewrite length_map, length_range. lia.
  - intros f (i & -> & Hi%elem_of_range)%list_elem_of_fmap. apply virt_contract. lia.
Qed.

Lemma virt_no_tables : tables_ok virt ∅.
Proof.
  split; [apply virt_contract| |intros f k Hf; by rewrite lookup_empty in Hf].
  split; [intros f k Hf|intros f k i g Hf|intros f f' k k' i i' g Hf]; by rewrite lookup_empty in Hf.
Qed.

(** A fresh root, with nothing mapped. *)
Definition empty_space (root : Z) (s : machine) : Prop :=
  tables_ok s {[root := 3%nat]} ∧ (∀ x, walk 3 (fa_mem s) root x = None) ∧
  room 1000 s ∧ (∀ g, fa_frame s g → 0x40000000 ≤ g).

Lemma virt_space : ∃ root s, AddressSpace_new virt = Done (root, s) ∧ empty_space root s.
Proof.
  apply (wp_elim AddressSpace_new virt empty_space).
  apply (wp_new virt ∅); [apply virt_no_tables|apply virt_room; lia|].
  intros root s _ Hok Hw Hroom _ Hfr _. rewrite insert_empty in Hok. split; [exact Hok|]. split; [exact Hw|].
  split; [apply Hroom, virt_room; lia|]. intros g (i & -> & Hi)%Hfr.
  destruct virt_ok as (Hinv & Hb & _). pose proof (from_index_bounds _ _ Hinv Hi) as (Hlo & _).
  by rewrite Hb in Hlo.
Qed.

Lemma empty_mappable root s va pa size :
  empty_space root s → 0 ≤ size ≤ 0x100000 → size mod 4096 = 0 → 0 ≤ va → va + size ≤ u64_max →
  va mod 4096 = 0 → 0 ≤ pa → pa + size ≤ 2 ^ 48 → pa mod 4096 = 0 →
  mappable s {[root := 3%nat]} root va pa size.
Proof.
  intros (Hok & Hw & Hroom & _) Hs Hsm Hva Hvs Hvm Hpa Hps Hpm.
  split; [done|by rewrite lookup_singleton_eq|split; [split; [lia|change (2 ^ 48) with 281474976710656; lia]|done]
    |done|done| |].
  - intros o Ho l d. by rewrite Hw.
  - apply (room_weaken 1000); [|done]. pose proof (tables_for_le va pa size). zdiv.
Qed.

Lemma map_range_exact_witness :
  ∃ root s s', AddressSpace_new virt = Done (root, s) ∧
    map_range root 0x400000 0x09000000 0x3000 Attributes.user_data s = Done (tt, s') ∧
    translation (fa_mem s') root 0x401234 = Some 0x09001234.
Proof.
  destruct virt_space as (root & s & He & Hsp). exists root, s.
  pose proof (empty_mappable root s 0x400000 0x09000000 0x3000 Hsp ltac:(lia) eq_refl ltac:(lia)
    ltac:(lia) eq_refl ltac:(lia) ltac:(vm_compute; discriminate) eq_refl) as Hm.
  assert (Hat : attrs_ok Attributes.user_data) by (vm_compute; intuition discriminate).
  destruct (wp_elim _ _ _ (map_range_exact s _ root 0x400000 0x09000000 0x3000 _ Hat Hm))
    as ([] & s' & He' & T' & _ & _ & Htr & _).
  exists s'. split; [exact He|]. split; [exact He'|]. exact (proj1 (Htr 0x1234 ltac:(lia))).
Defined.

Lemma map_range_keeps_wx_witness :
  ∃ root s s', AddressSpace_new virt = Done (root, s) ∧
    map_range root 0x400000 0x09000000 0x3000 Attributes.user_text s = Done (tt, s') ∧
    root_safe (fa_mem s') root.
Proof.
  destruct virt_space as (root & s & He & Hsp). exists root, s.
  pose proof (empty_mappable root s 0x400000 0x09000000 0x3000 Hsp ltac:(lia) eq_refl ltac:(lia)
    ltac:(lia) eq_refl ltac:(lia) ltac:(vm_compute; discriminate) eq_refl) as Hm.
  assert (Hin : Attributes.user_text ∈ Attributes.all).
  { unfold Attributes.all. rewrite !elem_of_cons. tauto. }
  assert (Hsafe : ∀ r, ({[root := 3%nat]} : gmap Z nat) !! r = Some 3%nat → root_safe (fa_mem s) r).
  { intros r [<- _]%lookup_singleton_Some x l d Hw. rewrite (proj1 (proj2 Hsp)) in Hw. discriminate. }
  destruct (wp_elim _ _ _ (map_range_keeps_wx s _ root 0x400000 0x09000000 0x3000 _ Hin Hm Hsafe))
    as ([] & s' & He' & Hs').
  exists s'. split; [exact He|]. split; [exact He'|]. apply Hs'. apply lookup_singleton_eq.
Defined.

Lemma user_checks_exact_witness :
  ∃ b, user_check false 0x40200000 0x400000 64 virt = Done (b, virt) ∧
    (b = true ↔ ∀ x, 0x400000 ≤ x < 0x400040 → el0_may false (fa_mem virt) 0x40200000 x).
Proof.
  destruct (user_checks_exact false 0x40200000 0x400000 64 virt ltac:(unfold is_u64; lia) ltac:(lia))
    as (b & Hb & Hx & _).
  exists b. split; [exact Hb|]. apply Hx. vm_compute. discriminate.
Defined.

Lemma user_check_aliases_witness :
  user_readable 0x40200000 (0x400000 + 2 ^ 48) 64 virt = user_readable 0x40200000 0x400000 64 virt.
Proof.
  apply (user_check_aliases 0x40200000 0x400000 64 virt);
    [unfold is_u64; lia|lia|vm_compute; discriminate].
Defined.

Lemma copy_across_exact_witness :
  ∃ root s s' s'', AddressSpace_new virt = Done (root, s) ∧
    map_range root 0x400000 0x09000000 0x3000 Attributes.user_data s = Done (tt, s') ∧
    copy_across root 0x400ff0 root 0x402008 64 s' = Done (true, s'').
Proof.
  destruct virt_space as (root & s & He & Hsp). exists root, s.
  pose proof (empty_mappable root s 0x400000 0x09000000 0x3000 Hsp ltac:(lia) eq_refl ltac:(lia)
    ltac:(lia) eq_refl ltac:(lia) ltac:(vm_compute; discriminate) eq_refl) as Hm.
  assert (Hat : attrs_ok Attributes.user_data) by (vm_compute; intuition discriminate).
  assert (Hw : wp (map_range root 0x400000 0x09000000 0x3000 Attributes.user_data) s (λ _ s', ∃ T',
    tables_ok s' T' ∧ T' !! root = Some 3%nat ∧ (∀ g, fa_frame s' g → 0x40000000 ≤ g) ∧
    ∀ o, 0 ≤ o < 0x3000 → translation (fa_mem s') root (0x400000 + o) = Some (0x09000000 + o))).
  { apply (wp_map_range s {[root := 3%nat]}); [exact Hat|exact Hm|]. intros s' T' [Hx Hmaps _]. exists T'.
    split; [apply Hx|]. split; [eapply lookup_weaken; [apply lookup_singleton_eq|apply Hx]|].
    split; [intros g Hg%(x_frame _ _ _ _ _ Hx); by apply Hsp|].
    intros o Ho. eapply maps_translation, Hmaps, Ho. }
  apply wp_elim in Hw as ([] & s' & He' & T' & Hok & Hroot & Hhigh & Htr). exists s'.
  assert (Hcp : copyable (fa_mem s') T' root 0x400ff0 root 0x402008 64
    (λ i, 0x09000ff0 + i) (λ i, 0x09002008 + i)).
  { split; [apply Hok|by split| | | |lia|lia].
    - intros i Hi. replace (0x400ff0 + i) with (0x400000 + (0xff0 + i)) by lia. rewrite Htr by lia. f_equal. lia.
    - intros i Hi. replace (0x402008 + i) with (0x400000 + (0x2008 + i)) by lia. rewrite Htr by lia. f_equal. lia.
    - intros i f k Hi Hf. pose proof (Hhigh f (proj1 (t_frame _ _ Hok f k Hf))). lia. }
  destruct (wp_elim _ _ _ (copy_across_exact s' T' root 0x400ff0 root 0x402008 64 _ _ (t_ok _ _ Hok) Hcp
    ltac:(lia) ltac:(lia) ltac:(lia) ltac:(lia) ltac:(lia))) as (r & s'' & He'' & -> & _).
  exists s''. split; [exact He|]. split; [exact He'|exact He''].
Defined.

Lemma concat_map_nil {A B} (f : A → list B) l : (∀ a, a ∈ l → f a = []) → concat (map f l) = [].
Proof.
  induction l as [|a l IH]; intros H; simpl; [done|]. rewrite H by (by left).
  apply IH. intros b Hb. apply H. by right.
Qed.

Lemma empty_owned root s : empty_space root s → owned 3 (fa_mem s) root = [root] ∧
  ∀ i, 0 ≤ i < 512 → valid (entry (fa_mem s) root i) = false.
Proof.
  intros (Hok & Hw & _).
  assert (Hinv : ∀ i, 0 ≤ i < 512 → valid (entry (fa_mem s) root i) = false).
  { intros i Hi. specialize (Hw (i * 2 ^ 39)). rewrite walk_at_entry in Hw.
    rewrite table_index_div in Hw by lia. change (39 - 9 * (3 - Z.of_nat 3)) with 39 in Hw.
    rewrite Z.div_mul, Z.mod_small in Hw by (done || lia). unfold at_entry in Hw.
    destruct (valid _) eqn:Hv; [|done]. destruct (is_table _) eqn:Htb; [|done]. exfalso.
    assert (Hc : child (fa_mem s) root i (addr (entry (fa_mem s) root i))) by (split; [exact Hi|by split]).
    apply (f_child _ _ (t_forest _ _ Hok) root 2 i) in Hc; [|apply lookup_singleton_eq].
    apply lookup_singleton_Some in Hc as [_ Hc]. done. }
  split; [|done]. cbn [owned]. rewrite concat_map_nil; [done|].
  intros i Hi%elem_of_range. by rewrite Hinv.
Qed.

Lemma destroy_exact_witness :
  ∃ root s s', AddressSpace_new virt = Done (root, s) ∧ AddressSpace_destroy root s = Done (tt, s') ∧
    fa_avail s' root.
Proof.
  destruct virt_space as (root & s & He & Hsp). destruct (empty_owned root s Hsp) as [Ho Hinv].
  assert (Hl : leaves_ok 3 (fa_mem s) root).
  { intros i Hi Hv. rewrite Hinv in Hv by done. discriminate. }
  assert (Hf : freeable (owned 3 (fa_mem s) root) s).
  { rewrite Ho. split; [apply Hsp|]. split; [apply NoDup_singleton|].
    intros g ->%list_elem_of_singleton. apply (t_frame _ _ (proj1 Hsp) root 3%nat), lookup_singleton_eq. }
  destruct (wp_elim _ _ _ (destroy_exact root s Hl Hf)) as ([] & s' & He' & _ & Hav & _).
  exists root, s, s'. split; [exact He|]. split; [exact He'|]. apply Hav. right. rewrite Ho. by left.
Defined.
