(* ===== verification/KernelMap.v ===== *)
(** * KernelMap: the kernel's own tables

    What [build_tables] of [paging.rs] makes: two roots, one at the physical
    addresses and one [KERNEL_BASE] above them, that map the kernel's image
    section by section, the rest of RAM, the bootstrap devices, and nothing
    else. *)

From S2P Require Import Prelude Memory FrameAlloc Frames FramesBoot Paging PagingWalk PagingTables PagingMap PagingRange PagingProps.

(** ** What is to be mapped *)

(** A stretch of physical memory and the attributes it is given. *)
Record region : Type := mkRegion { r_base : Z; r_size : Z; r_attrs : Z }.

Definition regions (ly : layout) : list region :=
  [mkRegion (ram_base ly) (text_start ly - ram_base ly) Attributes.kernel_data;
   mkRegion (text_start ly) (text_end ly - text_start ly) Attributes.kernel_text;
   mkRegion (rodata_start ly) (rodata_end ly - rodata_start ly) Attributes.kernel_rodata;
   mkRegion (data_start ly) (kernel_end ly - data_start ly) Attributes.kernel_data;
   mkRegion (kernel_end ly) (ram_base ly + ram_size ly - kernel_end ly) Attributes.kernel_data;
   mkRegion DEVICE_BASE DEVICE_SIZE Attributes.device].

Definition inside (p : Z) (r : region) : bool := (r_base r <=? p) && (p <? r_base r + r_size r).
Fixpoint region_at (l : list region) (p : Z) : option Z :=
  match l with
  | [] => None
  | r :: l' => if inside p r then Some (r_attrs r) else region_at l' p
  end.

(** Every section starts on a page, in the order the linker script puts them,
    within RAM, which is above the bootstrap devices. *)
Record layout_ok (ly : layout) : Prop := {
  ly_pages : Forall (λ a, a mod 4096 = 0)
    [ram_base ly; ram_size ly; text_start ly; text_end ly; rodata_start ly; rodata_end ly; data_start ly; kernel_end ly];
  ly_devices : DEVICE_BASE + DEVICE_SIZE ≤ ram_base ly;
  ly_text : ram_base ly ≤ text_start ly ≤ text_end ly;
  ly_rodata : text_end ly ≤ rodata_start ly ≤ rodata_end ly;
  ly_data : rodata_end ly ≤ data_start ly ≤ kernel_end ly;
  ly_ram : kernel_end ly ≤ ram_base ly + ram_size ly ≤ 2 ^ 48 - 4096
}.

(** Frames enough for the tables of one root. *)
Definition tables_needed (off : Z) (l : list region) : nat :=
  foldr (λ r n, (tables_for (r_base r + off) (r_base r) (r_size r) + n)%nat) 0%nat l.

(** [root] maps what [l] says and nothing else, [off] above where it lies. *)
Definition kmap (m : mem) (root off : Z) (l : list region) : Prop :=
  ∀ p, 0 ≤ p < 2 ^ 48 →
    match region_at l p with
    | Some attrs => maps m root (p + off) p attrs
    | None => walk 3 m root (p + off) = None
    end.

Lemma region_at_app l r p :
  region_at (l ++ [r]) p = match region_at l p with Some a => Some a | None => if inside p r then Some (r_attrs r) else None end.
Proof. induction l as [|x l IH]; simpl; [done|]. by destruct (inside p x). Qed.

Lemma inside_true p r : inside p r = true ↔ r_base r ≤ p < r_base r + r_size r.
Proof. unfold inside. rewrite andb_true_iff, Z.leb_le, Z.ltb_lt. done. Qed.
Lemma inside_false p r : inside p r = false ↔ ¬ (r_base r ≤ p < r_base r + r_size r).
Proof. rewrite <-inside_true. by destruct (inside p r). Qed.

(** A region and an offset that [map_range] accepts. *)
Definition region_ok (r : region) : Prop :=
  attrs_ok (r_attrs r) ∧ r_base r mod 4096 = 0 ∧ r_size r mod 4096 = 0 ∧ 0 ≤ r_base r ∧ 0 ≤ r_size r ∧
  r_base r + r_size r ≤ 2 ^ 48 - 4096.
Definition offset_ok (off : Z) : Prop := off = 0 ∨ off = KERNEL_BASE.

Lemma offset_page off p p' : offset_ok off → 0 ≤ p < 2 ^ 48 → 0 ≤ p' < 2 ^ 48 →
  page_of (p + off) = page_of (p' + off) → p / 4096 = p' / 4096.
Proof.
  unfold page_of. change (2 ^ 36) with 68719476736. change (2 ^ 48) with 281474976710656.
  intros [-> | ->] ? ?; [zdiv|]. change KERNEL_BASE with (65535 * 68719476736 * 4096).
  rewrite !Z.div_add, !Z.mod_add by done. zdiv.
Qed.

Section kernel_map.
Context {S : Type} `{FA : FrameAlloc S, !FrameAllocLaws S}.

(** [s'] is [s] after [root] was given the regions [l], with at most [n] frames
    for tables; the other roots are as they were. *)
Record laid (n : nat) (s : S) (T : tables) (root off : Z) (l : list region) (s' : S) (T' : tables) : Prop := {
  l_extends : extends n s T s' T';
  l_map : kmap (fa_mem s') root off l;
  l_other : ∀ r x, T !! r = Some 3%nat → r ≠ root → walk 3 (fa_mem s') r x = walk 3 (fa_mem s) r x
}.

Lemma wp_lay n s0 T0 s T root off l r Q :
  laid n s0 T0 root off l s T → T0 !! root = Some 3%nat → region_ok r → offset_ok off →
  (∀ p, inside p r = true → region_at l p = None) → room (n + tables_for (r_base r + off) (r_base r) (r_size r)) s0 →
  (∀ s' T', laid (n + tables_for (r_base r + off) (r_base r) (r_size r)) s0 T0 root off (l ++ [r]) s' T' → Q tt s') →
  wp (map_range root (r_base r + off) (r_base r) (r_size r) (r_attrs r)) s Q.
Proof.
  intros [Hx Hk Ho] Hroot (Hat & Hbm & Hsm & Hb & Hs & Hend) Hoff Hdis Hroom HQ.
  assert (Hoff' : off = 0 ∨ off = 18446462598732840960) by exact Hoff.
  change (2 ^ 48) with 281474976710656 in *.
  assert (HT : T !! root = Some 3%nat) by (eapply lookup_weaken; [exact Hroot|apply Hx]).
  apply wp_map_range with T; [done| |].
  { split; change (2 ^ 48) with 281474976710656; [apply Hx|done|lia|destruct Hoff' as [-> | ->]; zdiv|lia| |].
    - intros o Ho' l' d Hw. assert (Hn : region_at l (r_base r + o) = None) by (apply Hdis, inside_true; lia).
      specialize (Hk (r_base r + o)). rewrite Hn in Hk. replace (r_base r + off + o) with (r_base r + o + off) in Hw by lia.
      rewrite Hk in Hw; [done|]. change (2 ^ 48) with 281474976710656. lia.
    - apply (x_room _ _ _ _ _ Hx). done. }
  intros s' T' [Hx' Hm Ho' _]. apply (HQ s' T'). split.
  - by eapply extends_trans.
  - intros p Hp. rewrite region_at_app. specialize (Hk p Hp).
    destruct (inside p r) eqn:Hin.
    + rewrite (Hdis _ Hin). apply inside_true in Hin. specialize (Hm (p - r_base r) ltac:(lia)).
      replace (r_base r + off + (p - r_base r)) with (p + off) in Hm by lia.
      by replace (r_base r + (p - r_base r)) with p in Hm by lia.
    + assert (Hsame : walk 3 (fa_mem s') root (p + off) = walk 3 (fa_mem s) root (p + off)).
      { apply Ho'; [done|]. right. intros o Hoo. replace (r_base r + off + o) with (r_base r + o + off) by lia.
        intros Heq%offset_page; [|done|done|change (2 ^ 48) with 281474976710656; lia].
        apply inside_false in Hin. zdiv. }
      destruct (region_at l p); [|by rewrite Hsame].
      destruct Hk as (lv & d & Hw & Hrest). exists lv, d. split; [by rewrite Hsame|done].
  - intros r0 x Hr0 Hne. rewrite Ho'; [by apply Ho|by eapply lookup_weaken; [|apply Hx]|by left].
Qed.

Lemma wp_lay_call n n' s0 T0 s T root off l base size sz attrs Q :
  let r := mkRegion base sz attrs in
  laid n s0 T0 root off l s T → T0 !! root = Some 3%nat → size = Done sz → region_ok r → offset_ok off →
  (∀ p, inside p r = true → region_at l p = None) →
  room n' s0 → (n + tables_for (base + off) base sz ≤ n')%nat →
  (∀ s' T', laid (n + tables_for (base + off) base sz) s0 T0 root off (l ++ [r]) s' T' → Q tt s') →
  wp (va ← lift (add64 base off); n ← lift size; map_range root va base n attrs) s Q.
Proof.
  intros r Hl Hroot -> Hr Hoff Hdis Hroom Hn HQ. wp_step. apply wp_lift with (base + off).
  { destruct Hr as (_ & _ & _ & Hb & Hs & Hend). simpl in *. change (2 ^ 48) with 281474976710656 in *.
    apply add64_ok. destruct Hoff as [-> | ->]; unfold KERNEL_BASE; lia. }
  wp_step. wp_step. apply (wp_lay n s0 T0 s T root off l r Q); [done..| |done].
  by eapply room_weaken.
Qed.

Lemma laid_start s T root off :
  tables_ok s T → T !! root = Some 3%nat → (∀ x, walk 3 (fa_mem s) root x = None) → laid 0 s T root off [] s T.
Proof. intros H Hr Hw. split; [by apply extends_refl|intros p _; apply Hw|done]. Qed.

(** The next region of [build], after what [Hl] says is laid; the goals left are
    its size, that it is well formed, that it is apart from those before it, and
    that there is room. *)
Ltac lay Hl :=
  match type of Hl with laid ?n ?s0 ?T0 _ ?off ?l ?s ?T =>
    eapply (wp_lay_call n _ s0 T0 s T _ off l); [exact Hl|done| | |done| |eassumption| |] end.
Ltac well_formed := split_and!; simpl; unfold DEVICE_BASE, DEVICE_SIZE; [by eapply Forall_forall; [apply attributes_ok|apply (bool_decide_unpack _); vm_compute]|zdiv..].
Ltac apart :=
  intros p Hp; apply inside_true in Hp; simpl in Hp |- *; unfold DEVICE_BASE, DEVICE_SIZE in *; rewrite ?(proj2 (inside_false p _)) by (simpl; lia); done.

Lemma wp_build ly s T root off Q :
  layout_ok ly → offset_ok off → tables_ok s T → T !! root = Some 3%nat →
  (∀ x, walk 3 (fa_mem s) root x = None) → room (tables_needed off (regions ly)) s →
  (∀ s' T', laid (tables_needed off (regions ly)) s T root off (regions ly) s' T' → Q tt s') →
  wp (build ly root off) s Q.
Proof.
  intros [Hpg Hd Ht Hr Hda Hram] Hoff H Hroot Hw Hroom HQ.
  repeat match goal with H : Forall _ (_ :: _) |- _ => apply Forall_cons in H as [? H] end.
  unfold DEVICE_BASE, DEVICE_SIZE in Hd. change (2 ^ 48) with 281474976710656 in *.
  unfold tables_needed, regions in Hroom, HQ. cbn [foldr r_base r_size] in Hroom, HQ.
  pose proof (laid_start s T root off H Hroot Hw) as Hl. unfold build. cbv zeta.
  assert (Htop : (top ← add64 (ram_base ly) (ram_size ly); sub64 top (kernel_end ly)) =
      Done (ram_base ly + ram_size ly - kernel_end ly)).
  { unfold mbind, res_bind. rewrite add64_ok, sub64_ok by lia. done. }
  do 4 (apply wp_bind; lay Hl; [apply sub64_ok; lia|well_formed|apart|simpl; lia|];
    clear Hl; intros ? ? Hl; cbn [app] in Hl).
  apply wp_bind; lay Hl; [exact Htop|well_formed|apart|simpl; lia|]. clear Hl; intros ? ? Hl; cbn [app] in Hl.
  lay Hl; [done|well_formed|apart|simpl; lia|]. clear Hl; intros ? ? Hl; cbn [app] in Hl.
  eapply HQ. unfold regions. match type of Hl with laid ?n _ _ _ _ _ _ _ => match goal with |- laid ?n' _ _ _ _ _ _ _ => by replace n' with n by lia end end.
Qed.

Lemma kmap_walks m m' root off l :
  (∀ x, walk 3 m' root x = walk 3 m root x) → kmap m root off l → kmap m' root off l.
Proof.
  intros Hw Hk p Hp. specialize (Hk p Hp). destruct (region_at l p); [|by rewrite Hw].
  destruct Hk as (lv & d & Hd & Hrest). exists lv, d. by rewrite Hw.
Qed.

(** A byte of no table and of no frame that could become one. *)
Definition spare (s : S) (T : tables) (x : Z) : Prop :=
  (∀ f k, T !! f = Some k → ¬ (f ≤ x < f + 4096)) ∧ (∀ f, fa_avail s f → ¬ (f ≤ x < f + 4096)).

Lemma spare_extends n s T s' T' x :
  extends n s T s' T' → spare s T x → fa_mem s' x = fa_mem s x ∧ spare s' T' x.
Proof.
  intros Hx [HT Hav]. assert (HT' : ∀ f k, T' !! f = Some k → ¬ (f ≤ x < f + 4096)).
  { intros f k Hf. destruct (T !! f) as [k'|] eqn:Hf'; [by eapply HT|].
    apply Hav. by eapply (x_new _ _ _ _ _ Hx). }
  split; [by apply (x_mem _ _ _ _ _ Hx)|]. split; [done|]. intros f Hf. apply Hav.
  by apply (x_avail _ _ _ _ _ Hx) in Hf as [? _].
Qed.

Lemma spare_root s T s' c x :
  fa_avail s c → (∀ g, fa_avail s' g ↔ fa_avail s g ∧ g ≠ c) → fa_mem s' = zero_range (fa_mem s) c 4096 →
  spare s T x → fa_mem s' x = fa_mem s x ∧ spare s' (<[c := 3%nat]> T) x.
Proof.
  intros Hc Hav Hm [HT Hs]. split; [rewrite Hm; by apply zero_range_out, Hs|]. split.
  - intros f k [[<- _]|[_ Hf]]%lookup_insert_Some; [by apply Hs|by eapply HT].
  - intros f [Hf _]%Hav. by apply Hs.
Qed.

Lemma wp_build_tables ly s T :
  layout_ok ly → tables_ok s T →
  room (2 + (tables_needed 0 (regions ly) + tables_needed KERNEL_BASE (regions ly))) s →
  wp (build_tables ly) s (λ '(low, high) s', ∃ T',
    tables_ok s' T' ∧ T ⊆ T' ∧ T' !! low = Some 3%nat ∧ T' !! high = Some 3%nat ∧ low ≠ high ∧
    kmap (fa_mem s') low 0 (regions ly) ∧ kmap (fa_mem s') high KERNEL_BASE (regions ly) ∧
    (∀ r x, T !! r = Some 3%nat → walk 3 (fa_mem s') r x = walk 3 (fa_mem s) r x) ∧
    (∀ x, spare s T x → fa_mem s' x = fa_mem s x) ∧
    (∀ j, room (2 + (tables_needed 0 (regions ly) + tables_needed KERNEL_BASE (regions ly)) + j) s → room j s')).
Proof.
  intros Hly H Hroom. unfold build_tables. apply wp_assoc, wp_bind.
  apply (wp_fresh_root s T); [done|by eapply room_weaken; [|exact Hroom]; lia|].
  intros low s1 HlT H1 Hw1 Hr1 Hk1 _ Hc1 Hav1 Hm1. apply Hr1 in Hroom. apply wp_assoc, wp_bind.
  apply (wp_fresh_root s1 (<[low:=3%nat]> T)); [exact H1|by eapply room_weaken; [|exact Hroom]; lia|].
  intros high s2 HhT H2 Hw2 Hr2 Hk2 _ Hc2 Hav2 Hm2. apply Hr2 in Hroom. apply lookup_insert_None in HhT as [HhT Hne].
  assert (Hlow2 : (<[high:=3%nat]> (<[low:=3%nat]> T)) !! low = Some 3%nat).
  { rewrite lookup_insert_ne by done. by rewrite lookup_insert_eq. }
  apply wp_bind. apply (wp_build ly s2 (<[high:=3%nat]> (<[low:=3%nat]> T)) low 0); [done|by left|exact H2|exact Hlow2| | |].
  { intros x. rewrite (Hk2 low 3%nat); [done|by rewrite lookup_insert_eq]. }
  { eapply room_weaken; [|exact Hroom]. lia. }
  intros s3 T3 [Hx3 Hmap3 Ho3]. apply wp_bind.
  pose proof (x_sub _ _ _ _ _ Hx3) as Hs3.
  assert (Hhigh2 : (<[high:=3%nat]> (<[low:=3%nat]> T)) !! high = Some 3%nat) by by rewrite lookup_insert_eq.
  apply (wp_build ly s3 T3 high KERNEL_BASE); [done|by right|apply Hx3|by eapply lookup_weaken| | |].
  { intros x. rewrite Ho3; [apply Hw2|done|done]. }
  { apply (x_room _ _ _ _ _ Hx3). exact Hroom. }
  intros s4 T4 [Hx4 Hmap4 Ho4]. wp_step. pose proof (x_sub _ _ _ _ _ Hx4) as Hs4.
  assert (Hkeep : ∀ r x, T3 !! r = Some 3%nat → r ≠ high → walk 3 (fa_mem s4) r x = walk 3 (fa_mem s3) r x) by exact Ho4.
  exists T4. split_and!; [apply Hx4| |by eapply lookup_weaken; [eapply lookup_weaken|]|by eapply lookup_weaken;
    [eapply lookup_weaken|]|congruence| |exact Hmap4| | |].
  - trans T3; [|done]. trans (<[low:=3%nat]> T); [by apply insert_subseteq|].
    trans (<[high:=3%nat]> (<[low:=3%nat]> T)); [|done]. apply insert_subseteq. by apply lookup_insert_None.
  - eapply kmap_walks; [|exact Hmap3]. intros x. apply Hkeep; [by eapply lookup_weaken|congruence].
  - intros r x Hr. assert (r ≠ low ∧ r ≠ high) as [] by (split; congruence).
    assert (Hr2' : (<[high:=3%nat]> (<[low:=3%nat]> T)) !! r = Some 3%nat) by by rewrite !lookup_insert_ne by done.
    rewrite Hkeep by (done || by eapply lookup_weaken). rewrite Ho3 by done.
    rewrite (Hk2 r 3%nat) by by rewrite lookup_insert_ne by done. by rewrite (Hk1 r 3%nat).
  - intros x Hs. destruct (spare_root _ _ _ _ _ Hc1 Hav1 Hm1 Hs) as [<- Hs1].
    destruct (spare_root _ _ _ _ _ Hc2 Hav2 Hm2 Hs1) as [<- Hs2].
    destruct (spare_extends _ _ _ _ _ _ Hx3 Hs2) as [<- Hs3']. by apply (spare_extends _ _ _ _ _ _ Hx4 Hs3').
  - intros j Hj. apply (x_room _ _ _ _ _ Hx4), (x_room _ _ _ _ _ Hx3), Hr2, Hr1. eapply room_weaken; [|exact Hj]. lia.
Qed.

(** [build_tables] gives the kernel two fresh roots that map every region of
    the layout with its own attributes, read-only text, read-only data that
    cannot be executed, and writable data and devices that cannot be either, the
    one at physical addresses and the other [KERNEL_BASE] above them, and no
    address outside the regions; the roots that were there translate as before. *)
Theorem kernel_map_exact ly s T :
  layout_ok ly → tables_ok s T →
  room (2 + (tables_needed 0 (regions ly) + tables_needed KERNEL_BASE (regions ly))) s →
  wp (build_tables ly) s (λ '(low, high) s', ∃ T',
    tables_ok s' T' ∧ T ⊆ T' ∧ T' !! low = Some 3%nat ∧ T' !! high = Some 3%nat ∧ low ≠ high ∧
    kmap (fa_mem s') low 0 (regions ly) ∧ kmap (fa_mem s') high KERNEL_BASE (regions ly) ∧
    (∀ r x, T !! r = Some 3%nat → walk 3 (fa_mem s') r x = walk 3 (fa_mem s) r x)).
Proof.
  intros Hly H Hroom. eapply wp_mono; [by apply (wp_build_tables ly s T)|].
  intros [low high] s' (T' & ? & ? & ? & ? & ? & ? & ? & ? & _). by exists T'.
Qed.

End kernel_map.

(** ** The board's layout *)

(** The kernel where the linker script puts it, with the end [virt] was given. *)
Definition virt_layout : layout :=
  mkLayout 0x40080000 0x400c0000 0x400c0000 0x40100000 0x40100000 virt_end DEFAULT_RAM_BASE DEFAULT_RAM_SIZE.

Lemma virt_layout_ok : layout_ok virt_layout.
Proof. split; [by repeat constructor|by vm_compute..|by vm_compute]. Qed.

Lemma virt_tables_room :
  room (2 + (tables_needed 0 (regions virt_layout) + tables_needed KERNEL_BASE (regions virt_layout))) virt.
Proof. apply virt_room. apply (Nat.leb_le _ _). vm_compute. reflexivity. Qed.

Lemma kernel_map_exact_witness :
  wp (build_tables virt_layout) virt (λ '(low, high) s', ∃ T',
    tables_ok s' T' ∧ ∅ ⊆ T' ∧ T' !! low = Some 3%nat ∧ T' !! high = Some 3%nat ∧ low ≠ high ∧
    kmap (fa_mem s') low 0 (regions virt_layout) ∧ kmap (fa_mem s') high KERNEL_BASE (regions virt_layout) ∧
    (∀ r x, (∅ : tables) !! r = Some 3%nat → walk 3 (fa_mem s') r x = walk 3 (fa_mem virt) r x)).
Proof.
  apply (kernel_map_exact virt_layout virt ∅); [apply virt_layout_ok|apply virt_no_tables|apply virt_tables_room].
Defined.
