(* ===== verification/Kernel.v ===== *)
(** * Kernel: the state every component of the kernel shares

    One record per static of [tasks.rs], [ipc.rs] and [notify.rs], and the
    [kernel] they make together with physical memory.  A kernel stack is
    modelled by what its task will run when it is next switched to: [context].
    A call that can switch away returns [ctl]: its result, or the continuation
    the switch left on the stack. *)

From S2P Require Import Prelude Memory Frames.

Definition MAX_TASKS : Z := 8.
Definition STACK_FRAMES : Z := 4.
Definition STACK_SIZE : Z := STACK_FRAMES * FRAME_SIZE.
Definition STACK_CANARY : Z := 0x5441434b5f43414e.
Definition MAX_LEASES : Z := 4.

(** ** [tasks.rs] *)

(** A [Priority] is its [u8]. *)
Definition HIGH : Z := 0.
Definition NORMAL : Z := 1.
Definition LOW : Z := 2.
Definition IDLE : Z := 255.
Definition outranks (p other : Z) : bool := p <? other.

Inductive State : Type := Runnable | Blocked | Zombie | Dead | Faulted.
Global Instance State_eq_dec : EqDecision State.
Proof. solve_decision. Defined.

(** [exceptions::Fault]. *)
Record Fault : Type := mkFault { esr : Z; far : Z; elr : Z }.

Record Image : Type := mkImage { img_start : Z; img_end : Z; img_arg : Z }.

Record Task : Type := mkTask {
  name : string;
  space : option Z;   (** the [AddressSpace], as its root *)
  sp : Z;
  stack : Z;
  owns_stack : bool;
  priority : Z;
  state : State;
  exit_code : option Z;
  fault : option Fault;
  image : option Image
}.

Definition with_state (s : State) (t : Task) : Task :=
  mkTask (name t) (space t) (sp t) (stack t) (owns_stack t) (priority t) s (exit_code t) (fault t) (image t).
Definition with_exit_code (c : Z) (t : Task) : Task :=
  mkTask (name t) (space t) (sp t) (stack t) (owns_stack t) (priority t) (state t) (Some c) (fault t) (image t).
Definition with_fault (f : Fault) (t : Task) : Task :=
  mkTask (name t) (space t) (sp t) (stack t) (owns_stack t) (priority t) (state t) (exit_code t) (Some f) (image t).
Definition with_space (r : option Z) (t : Task) : Task :=
  mkTask (name t) r (sp t) (stack t) (owns_stack t) (priority t) (state t) (exit_code t) (fault t) (image t).
Definition with_image (i : Image) (t : Task) : Task :=
  mkTask (name t) (space t) (sp t) (stack t) (owns_stack t) (priority t) (state t) (exit_code t) (fault t) (Some i).

Record Scheduler : Type := mkScheduler {
  tasks : list (option Task);
  current : Z
}.

Inductive Reason : Type := Voluntary | Preemptive.

Definition SWITCH_LOG_LEN : Z := 32.
Record SwitchLog : Type := mkSwitchLog {
  log_from : list Z;
  log_to : list Z;
  log_preemptive : list bool;
  log_len : Z;
  log_overflow : Z;
  log_preemptions : Z
}.

(** ** [ipc.rs] *)

Record Lease : Type := mkLease { lease_base : Z; lease_len : Z; lease_attrs : Z }.
Definition NO_LEASE : Lease := mkLease 0 0 0.

Record Message : Type := mkMessage {
  target : Z;
  operation : Z;
  out : Z;
  out_len : Z;
  reply_buf : Z;
  reply_cap : Z
}.

Inductive Pending : Type :=
  | SendWait (m : Message)
  | ReplyWait (m : Message)
  | RecvWait (buf cap : Z).

Record Outcome : Type := mkOutcome { oa : Z; ob : Z; oc : Z }.
Definition no_outcome : Outcome := mkOutcome 0 0 0.

Record Table : Type := mkTable {
  pending : list (option Pending);
  outcome : list Outcome;
  leases : list (list Lease);
  lease_count : list Z
}.

(** ** [notify.rs] *)

Definition MAX_ROUTES : Z := 8.
Record Route : Type := mkRoute { route_intid : Z; route_task : Z; route_bits : Z }.

(** ** Suspended computations *)

(** What is left of a call that switched away. *)
Inductive kont : Type :=
  | KYield                              (** [sys_yield]: return 0 *)
  | KReturn                             (** [block_current], or an interrupt: go on *)
  | KSendPark                           (** [send]: still to [park] after [unblock] *)
  | KSendWake                           (** [send]: collect the outcome *)
  | KRecvWake (buf cap mask : Z)        (** [recv]: woken from [park] *)
  | KRecvLoop (buf cap mask : Z)        (** [recv]: next round, after [finish_sender] *)
  | KReply                              (** [reply]: return 0 *)
  | KFaultWait                          (** [wait_for_fault]: woken from [park] *)
  | KGone.                              (** [loop { yield_now() }] of a task that ended *)

(** A task is running its own code, has yet to start, or is inside the kernel;
    or it was preempted inside [task_finished] after it had made itself a zombie,
    and is never switched to again. *)
Inductive context : Type :=
  | Running
  | Fresh (entry arg : Z)
  | Inside (k : kont)
  | Cut.

Inductive ctl (A : Type) : Type :=
  | Ret (a : A)
  | Sus (k : kont).
Arguments Ret {A} _.
Arguments Sus {A} _.

(** ** The kernel *)

Record kernel : Type := mkKernel {
  mach : machine;
  SCHEDULER : Scheduler;
  SWITCH_LOG : SwitchLog;
  NEED_RESCHED : bool;
  EMPTY_SPACE : option Z;
  SUPERVISOR : option Z;
  FAULT_WAITERS : list bool;
  TABLE : Table;
  ROUTES : list (option Route);
  POSTED : list Z;
  WANTED : list Z;
  TICKS : Z;
  ttbr0 : Z;
  contexts : list context;
  console : list Z
}.

Definition set_mach (v : machine) (k : kernel) : kernel :=
  mkKernel v (SCHEDULER k) (SWITCH_LOG k) (NEED_RESCHED k) (EMPTY_SPACE k) (SUPERVISOR k) (FAULT_WAITERS k) (TABLE k) (ROUTES k) (POSTED k) (WANTED k) (TICKS k) (ttbr0 k) (contexts k) (console k).
Definition set_SCHEDULER (v : Scheduler) (k : kernel) : kernel :=
  mkKernel (mach k) v (SWITCH_LOG k) (NEED_RESCHED k) (EMPTY_SPACE k) (SUPERVISOR k) (FAULT_WAITERS k) (TABLE k) (ROUTES k) (POSTED k) (WANTED k) (TICKS k) (ttbr0 k) (contexts k) (console k).
Definition set_SWITCH_LOG (v : SwitchLog) (k : kernel) : kernel :=
  mkKernel (mach k) (SCHEDULER k) v (NEED_RESCHED k) (EMPTY_SPACE k) (SUPERVISOR k) (FAULT_WAITERS k) (TABLE k) (ROUTES k) (POSTED k) (WANTED k) (TICKS k) (ttbr0 k) (contexts k) (console k).
Definition set_NEED_RESCHED (v : bool) (k : kernel) : kernel :=
  mkKernel (mach k) (SCHEDULER k) (SWITCH_LOG k) v (EMPTY_SPACE k) (SUPERVISOR k) (FAULT_WAITERS k) (TABLE k) (ROUTES k) (POSTED k) (WANTED k) (TICKS k) (ttbr0 k) (contexts k) (console k).
Definition set_EMPTY_SPACE (v : option Z) (k : kernel) : kernel :=
  mkKernel (mach k) (SCHEDULER k) (SWITCH_LOG k) (NEED_RESCHED k) v (SUPERVISOR k) (FAULT_WAITERS k) (TABLE k) (ROUTES k) (POSTED k) (WANTED k) (TICKS k) (ttbr0 k) (contexts k) (console k).
Definition set_SUPERVISOR (v : option Z) (k : kernel) : kernel :=
  mkKernel (mach k) (SCHEDULER k) (SWITCH_LOG k) (NEED_RESCHED k) (EMPTY_SPACE k) v (FAULT_WAITERS k) (TABLE k) (ROUTES k) (POSTED k) (WANTED k) (TICKS k) (ttbr0 k) (contexts k) (console k).
Definition set_FAULT_WAITERS (v : list bool) (k : kernel) : kernel :=
  mkKernel (mach k) (SCHEDULER k) (SWITCH_LOG k) (NEED_RESCHED k) (EMPTY_SPACE k) (SUPERVISOR k) v (TABLE k) (ROUTES k) (POSTED k) (WANTED k) (TICKS k) (ttbr0 k) (contexts k) (console k).
Definition set_TABLE (v : Table) (k : kernel) : kernel :=
  mkKernel (mach k) (SCHEDULER k) (SWITCH_LOG k) (NEED_RESCHED k) (EMPTY_SPACE k) (SUPERVISOR k) (FAULT_WAITERS k) v (ROUTES k) (POSTED k) (WANTED k) (TICKS k) (ttbr0 k) (contexts k) (console k).
Definition set_ROUTES (v : list (option Route)) (k : kernel) : kernel :=
  mkKernel (mach k) (SCHEDULER k) (SWITCH_LOG k) (NEED_RESCHED k) (EMPTY_SPACE k) (SUPERVISOR k) (FAULT_WAITERS k) (TABLE k) v (POSTED k) (WANTED k) (TICKS k) (ttbr0 k) (contexts k) (console k).
Definition set_POSTED (v : list Z) (k : kernel) : kernel :=
  mkKernel (mach k) (SCHEDULER k) (SWITCH_LOG k) (NEED_RESCHED k) (EMPTY_SPACE k) (SUPERVISOR k) (FAULT_WAITERS k) (TABLE k) (ROUTES k) v (WANTED k) (TICKS k) (ttbr0 k) (contexts k) (console k).
Definition set_WANTED (v : list Z) (k : kernel) : kernel :=
  mkKernel (mach k) (SCHEDULER k) (SWITCH_LOG k) (NEED_RESCHED k) (EMPTY_SPACE k) (SUPERVISOR k) (FAULT_WAITERS k) (TABLE k) (ROUTES k) (POSTED k) v (TICKS k) (ttbr0 k) (contexts k) (console k).
Definition set_TICKS (v : Z) (k : kernel) : kernel :=
  mkKernel (mach k) (SCHEDULER k) (SWITCH_LOG k) (NEED_RESCHED k) (EMPTY_SPACE k) (SUPERVISOR k) (FAULT_WAITERS k) (TABLE k) (ROUTES k) (POSTED k) (WANTED k) v (ttbr0 k) (contexts k) (console k).
Definition set_ttbr0 (v : Z) (k : kernel) : kernel :=
  mkKernel (mach k) (SCHEDULER k) (SWITCH_LOG k) (NEED_RESCHED k) (EMPTY_SPACE k) (SUPERVISOR k) (FAULT_WAITERS k) (TABLE k) (ROUTES k) (POSTED k) (WANTED k) (TICKS k) v (contexts k) (console k).
Definition set_contexts (v : list context) (k : kernel) : kernel :=
  mkKernel (mach k) (SCHEDULER k) (SWITCH_LOG k) (NEED_RESCHED k) (EMPTY_SPACE k) (SUPERVISOR k) (FAULT_WAITERS k) (TABLE k) (ROUTES k) (POSTED k) (WANTED k) (TICKS k) (ttbr0 k) v (console k).
Definition set_console (v : list Z) (k : kernel) : kernel :=
  mkKernel (mach k) (SCHEDULER k) (SWITCH_LOG k) (NEED_RESCHED k) (EMPTY_SPACE k) (SUPERVISOR k) (FAULT_WAITERS k) (TABLE k) (ROUTES k) (POSTED k) (WANTED k) (TICKS k) (ttbr0 k) (contexts k) v.


(** ** Statics as reset leaves them *)

Definition per_task {A} (a : A) : list A := replicate (Z.to_nat MAX_TASKS) a.

Definition Scheduler_new : Scheduler := mkScheduler (per_task None) 0.
Definition SwitchLog_new : SwitchLog :=
  let z {A} (a : A) := replicate (Z.to_nat SWITCH_LOG_LEN) a in mkSwitchLog (z 0) (z 0) (z false) 0 0 0.
Definition Table_new : Table :=
  mkTable (per_task None) (per_task no_outcome)
    (per_task (replicate (Z.to_nat MAX_LEASES) NO_LEASE)) (per_task 0).

Definition kernel_new (m : machine) : kernel :=
  mkKernel m Scheduler_new SwitchLog_new false None None (per_task false) Table_new
    (replicate (Z.to_nat MAX_ROUTES) None) (per_task 0) (per_task 0) 0 0 (per_task Running) [].

(** ** Indexing *)

(** [table[i]] of a [[_; N]]: out of bounds panics. *)
Definition index {S A} (l : list A) (i : Z) : M S A :=
  expectM (l !! Z.to_nat i) "index out of bounds".

(** [table[i] = v], of a table of the kernel. *)
Definition store {A} (get : kernel → list A) (put : list A → kernel → kernel) (i : Z) (v : A)
    : M kernel unit := λ k,
  match get k !! Z.to_nat i with
  | Some _ => Done (tt, put (<[Z.to_nat i := v]> (get k)) k)
  | None => Panic "index out of bounds"
  end.

(** ** Access to parts of the kernel *)

Definition with_mach {A} (op : M machine A) : M kernel A := zoom mach set_mach op.

Definition set_tasks (l : list (option Task)) (k : kernel) : kernel :=
  set_SCHEDULER (mkScheduler l (current (SCHEDULER k))) k.
Definition set_current (c : Z) (k : kernel) : kernel :=
  set_SCHEDULER (mkScheduler (tasks (SCHEDULER k)) c) k.
Definition task_list (k : kernel) : list (option Task) := tasks (SCHEDULER k).
Definition me (k : kernel) : Z := current (SCHEDULER k).

(** [scheduler.tasks[i]] in the state [k]. *)
Definition task_at (k : kernel) (i : Z) : option Task :=
  match task_list k !! Z.to_nat i with Some o => o | None => None end.

Definition set_pending (l : list (option Pending)) (k : kernel) : kernel :=
  let t := TABLE k in set_TABLE (mkTable l (outcome t) (leases t) (lease_count t)) k.
Definition set_outcome (l : list Outcome) (k : kernel) : kernel :=
  let t := TABLE k in set_TABLE (mkTable (pending t) l (leases t) (lease_count t)) k.
Definition set_leases (l : list (list Lease)) (k : kernel) : kernel :=
  let t := TABLE k in set_TABLE (mkTable (pending t) (outcome t) l (lease_count t)) k.
Definition set_lease_count (l : list Z) (k : kernel) : kernel :=
  let t := TABLE k in set_TABLE (mkTable (pending t) (outcome t) (leases t) l) k.

Definition store_task (i : Z) (t : option Task) : M kernel unit := store task_list set_tasks i t.
Definition store_pending (i : Z) (p : option Pending) : M kernel unit :=
  store (λ k, pending (TABLE k)) set_pending i p.
Definition store_outcome (i : Z) (o : Outcome) : M kernel unit :=
  store (λ k, outcome (TABLE k)) set_outcome i o.
Definition store_leases (i : Z) (l : list Lease) : M kernel unit :=
  store (λ k, leases (TABLE k)) set_leases i l.
Definition store_lease_count (i : Z) (n : Z) : M kernel unit :=
  store (λ k, lease_count (TABLE k)) set_lease_count i n.

(** [table.pending[i]] in the state [k]. *)
Definition pending_at (k : kernel) (i : Z) : option Pending :=
  match pending (TABLE k) !! Z.to_nat i with Some p => p | None => None end.
