(* ===== verification/Sched.v ===== *)
(** * Sched: choosing, switching, blocking and building tasks ([tasks.rs])

    Everything in [tasks.rs] below the level of ending a task: the scheduler,
    the switch, blocking and waking, reaping, and building a task with its
    stack and address space.  The addresses of [user_task_entry] and
    [task_trampoline], which the linker chooses, are parameters. *)

From S2P Require Import Prelude Memory Frames FramesBoot Paging Kernel.

Definition SLOT_X19 : Z := 0.
Definition SLOT_X20 : Z := 1.
Definition SLOT_X29 : Z := 10.
Definition SLOT_X30 : Z := 11.
Definition SWITCH_FRAME_WORDS : Z := 12.
Definition USER_TEXT_VA : Z := 0x00400000.
Definition USER_STACK_TOP : Z := 0x00800000.
Definition USER_ARG_OFFSET : Z := 8.
Definition USER_SP_START : Z := USER_STACK_TOP - 16.

(** ** Choosing *)

(** [self.tasks.iter().position(Option::is_none)]. *)
Definition free_slot (s : Scheduler) : option Z :=
  (λ x, Z.of_nat (fst x)) <$> list_find (λ t : option Task, t = None) (tasks s).

(** The loop of [next_runnable] over [step]; [best] is a slot and its priority. *)
Fixpoint next_runnable_loop (steps : list Z) (s : Scheduler) (best : option (Z * Z)) : option (Z * Z) :=
  match steps with
  | [] => best
  | step :: rest =>
    let candidate := (current s + step) mod MAX_TASKS in
    match tasks s !! Z.to_nat candidate with
    | Some (Some task) =>
      if negb (bool_decide (state task = Runnable)) then next_runnable_loop rest s best else
      match best with
      | Some (_, best_priority) =>
        if negb (outranks (priority task) best_priority) then next_runnable_loop rest s best
        else next_runnable_loop rest s (Some (candidate, priority task))
      | None => next_runnable_loop rest s (Some (candidate, priority task))
      end
    | _ => next_runnable_loop rest s best
    end
  end.
Definition next_runnable (s : Scheduler) : option Z :=
  fst <$> next_runnable_loop (range 1 (MAX_TASKS + 1)) s None.

(** ** The switch log *)

Definition note_switch (from to : Z) (reason : Reason) (log : SwitchLog) : SwitchLog :=
  let p := match reason with Preemptive => true | Voluntary => false end in
  let log' :=
    if log_len log <? SWITCH_LOG_LEN then
      let i := Z.to_nat (log_len log) in
      mkSwitchLog (<[i := from mod 256]> (log_from log)) (<[i := to mod 256]> (log_to log))
        (<[i := p]> (log_preemptive log)) (log_len log + 1) (log_overflow log) (log_preemptions log)
    else mkSwitchLog (log_from log) (log_to log) (log_preemptive log) (log_len log)
           (log_overflow log + 1) (log_preemptions log) in
  if p then mkSwitchLog (log_from log') (log_to log') (log_preemptive log') (log_len log')
              (log_overflow log') (log_preemptions log' + 1)
  else log'.

Definition reset_switch_log (log : SwitchLog) : SwitchLog :=
  mkSwitchLog (log_from log) (log_to log) (log_preemptive log) 0 0 0.

(** ** Reaping *)

(** One round of [reap_zombies]: the first zombie, unless it is the current
    task, becomes [Dead] and gives up its stack and address space. *)
Definition salvage : M kernel (option (option Z * option Z)) := λ k,
  match list_find (λ t : option Task, state <$> t = Some Zombie) (task_list k) with
  | Some (slot, Some task) =>
    if negb (Z.of_nat slot =? me k) then
      Done (Some (if owns_stack task then Some (stack task) else None, space task),
            set_tasks (<[slot := Some (with_space None (with_state Dead task))]> (task_list k)) k)
    else Done (None, k)
  | _ => Done (None, k)
  end.

(** Every round retires a zombie, so [MAX_TASKS] rounds leave none to take. *)
Fixpoint reap_loop (fuel : nat) : M kernel unit :=
  match fuel with
  | O => panic "out of fuel"
  | S fuel' =>
    s ← salvage;
    match s with
    | None => mret tt
    | Some (stack, space) =>
      _ ← (match stack with
           | Some stack => with_mach (Frames.free_contiguous stack STACK_FRAMES)
           | None => mret tt
           end);
      _ ← (match space with
           | Some root => with_mach (AddressSpace_destroy root)
           | None => mret tt
           end);
      reap_loop fuel'
    end
  end.
Definition reap_zombies : M kernel unit := reap_loop (S (Z.to_nat MAX_TASKS)).

(** ** Switching *)

Definition empty_space_root : M kernel Z :=
  e ← gets EMPTY_SPACE; expectM e "address spaces not initialised".

Definition activate_root (root : Z) : M kernel unit := modify (set_ttbr0 root).

(** Returns whether the CPU moved to another task; [switch] itself only swaps
    kernel stacks, which is what [contexts] records. *)
Definition switch_to_next (reason : Reason) : M kernel bool :=
  _ ← reap_zombies;
  k ← getS;
  here ← index (task_list k) (me k);
  match here with
  | None => mret false
  | Some _ =>
    next ← expectM (next_runnable (SCHEDULER k)) "every task is blocked; nothing can run";
    if next =? me k then mret false else
    _ ← modify (set_current next);
    _ ← modify (λ k', set_SWITCH_LOG (note_switch (me k) next reason (SWITCH_LOG k')) k');
    incoming ← index (task_list k) next;
    incoming ← expectM incoming "called `Option::unwrap()` on a `None` value";
    root ← (match space incoming with Some r => mret r | None => empty_space_root end);
    _ ← activate_root root;
    mret true
  end.

Definition yield_now : M kernel bool := switch_to_next Voluntary.

Definition request_reschedule : M kernel unit := modify (set_NEED_RESCHED true).

Definition preempt_if_needed : M kernel bool :=
  n ← gets NEED_RESCHED;
  _ ← modify (set_NEED_RESCHED false);
  if n : bool then switch_to_next Preemptive else mret false.

(** ** Blocking and waking *)

(** [scheduler.tasks[current].as_mut()], updated if there is a task. *)
Definition update_current (f : Task → Task) : M kernel unit :=
  k ← getS;
  t ← index (task_list k) (me k);
  match t with Some t => store_task (me k) (Some (f t)) | None => mret tt end.

Definition mark_current_blocked : M kernel unit := update_current (with_state Blocked).

Definition park : M kernel bool :=
  k ← getS;
  t ← index (task_list k) (me k);
  match t with
  | Some t => if bool_decide (state t = Blocked) then switch_to_next Voluntary else mret false
  | None => mret false
  end.

Definition block_current : M kernel bool := _ ← mark_current_blocked; park.

(** Whether the woken task outranks the one running. *)
Definition unblock_deferred (id : Z) : M kernel bool :=
  k ← getS;
  here ← index (task_list k) (me k);
  match task_at k id with
  | Some task =>
    if bool_decide (state task = Blocked) then
      _ ← store_task id (Some (with_state Runnable task));
      mret (match here with Some running => outranks (priority task) (priority running) | None => false end)
    else mret false
  | None => mret false
  end.

Definition unblock (id : Z) : M kernel bool :=
  w ← unblock_deferred id;
  if w : bool then switch_to_next Voluntary else mret false.

(** ** Questions *)

Definition is_alive (k : kernel) (id : Z) : bool :=
  match task_at k id with
  | Some t => bool_decide (state t = Runnable) || bool_decide (state t = Blocked)
  | None => false
  end.
Definition priority_of (k : kernel) (id : Z) : option Z := priority <$> task_at k id.
Definition space_root_of (k : kernel) (id : Z) : option Z := task_at k id ≫= space.
Definition current_space_root (k : kernel) : option Z := task_at k (me k) ≫= space.
Definition has_state (s : State) (id : Z) : M kernel bool :=
  k ← getS;
  t ← index (task_list k) id;
  mret (match t with Some t => bool_decide (state t = s) | None => false end).
Definition is_blocked : Z → M kernel bool := has_state Blocked.
Definition is_faulted : Z → M kernel bool := has_state Faulted.
Definition is_dead : Z → M kernel bool := has_state Dead.
Definition finished (id : Z) : M kernel bool :=
  k ← getS;
  t ← index (task_list k) id;
  mret (match t with
        | Some t => bool_decide (state t ∈ [Zombie; Dead; Faulted])
        | None => false
        end).
Definition exit_code_of (id : Z) : M kernel (option Z) :=
  k ← getS; t ← index (task_list k) id; mret (t ≫= exit_code).
Definition fault_of (id : Z) : M kernel (option Fault) :=
  k ← getS; t ← index (task_list k) id; mret (t ≫= fault).

Definition runnable_others (k : kernel) : Z :=
  Z.of_nat (length (filter (λ '(i, t),
    Z.of_nat i ≠ me k ∧ state <$> t = Some Runnable)
    (imap (λ i t, (i, t)) (task_list k)))).

Definition free_slots (k : kernel) : Z :=
  Z.of_nat (length (filter (λ t : option Task, t = None) (task_list k))).

(** The canary sits in the lowest word of a stack a task still owns. *)
Definition canaries_intact (k : kernel) : bool :=
  forallb (λ t, match t with
    | Some t => negb (owns_stack t && negb (bool_decide (state t = Dead)))
                || (read_u64 (memory (mach k)) (stack t) =? STACK_CANARY)
    | None => true
    end) (task_list k).

(** ** Building a task *)

Section building.
Context (user_task_entry task_trampoline : Z).

Definition write_word (a v : Z) : M machine unit :=
  modify (λ m, set_memory (write_u64 (memory m) a v) m).

(** What [switch] pops, and the canary below it. *)
Definition plant_switch_frame (stack entry arg : Z) : M machine Z :=
  let stack_top := stack + STACK_SIZE in
  _ ← write_word stack STACK_CANARY;
  let sp := stack_top - SWITCH_FRAME_WORDS * 8 in
  _ ← write_word (sp + 8 * SLOT_X19) entry;
  _ ← write_word (sp + 8 * SLOT_X20) arg;
  _ ← write_word (sp + 8 * SLOT_X29) 0;
  _ ← write_word (sp + 8 * SLOT_X30) task_trampoline;
  mret sp.

Definition spawn_in (nm : string) (entry arg : Z) (space : option Z) (prio : Z) : M kernel Z :=
  stack ← with_mach (alloc_contiguous STACK_FRAMES);
  stack ← expectM stack "no frames for a kernel stack";
  sp ← with_mach (plant_switch_frame stack entry arg);
  k ← getS;
  slot ← expectM (free_slot (SCHEDULER k)) "task table is full";
  _ ← store_task slot (Some (mkTask nm space sp stack true prio Runnable None None None));
  _ ← store contexts set_contexts slot (Fresh entry arg);
  mret slot.

Definition spawn_at (nm : string) (entry arg prio : Z) : M kernel Z := spawn_in nm entry arg None prio.
Definition spawn (nm : string) (entry arg : Z) : M kernel Z := spawn_in nm entry arg None NORMAL.

(** [start] and [end_] are where the image of the program lies in the kernel's
    own memory. *)
Definition build_user_space (start end_ arg : Z) : M machine Z :=
  space ← AddressSpace_new;
  len ← lift (sub64 end_ start);
  _ ← assertM (len <=? FRAME_SIZE) "user program does not fit in a page";
  text ← alloc; text ← expectM text "no frame for user text";
  _ ← modify (λ m, set_memory (copy_range (memory m) start text len) m);
  _ ← AddressSpace_map space USER_TEXT_VA text FRAME_SIZE Attributes.user_text;
  stack ← alloc; stack ← expectM stack "no frame for a user stack";
  _ ← AddressSpace_map space (USER_STACK_TOP - FRAME_SIZE) stack FRAME_SIZE Attributes.user_data;
  _ ← write_word (stack + FRAME_SIZE - USER_ARG_OFFSET) arg;
  mret space.

Definition spawn_user_program (nm : string) (start end_ arg prio : Z) : M kernel Z :=
  space ← with_mach (build_user_space start end_ arg);
  id ← spawn_in nm user_task_entry USER_TEXT_VA (Some space) prio;
  k ← getS;
  t ← index (task_list k) id;
  _ ← (match t with
       | Some t => store_task id (Some (with_image (mkImage start end_ arg) t))
       | None => mret tt
       end);
  mret id.

End building.

(** [tasks::init]: the boot context becomes task 0. *)
Definition init : M kernel unit :=
  stack ← Frames.from_addr 0x40000000;
  _ ← store_task 0 (Some (mkTask "kernel" None 0 stack false IDLE Runnable None None None));
  modify (set_current 0).

Definition init_address_spaces : M kernel unit :=
  root ← with_mach AddressSpace_new;
  _ ← modify (set_EMPTY_SPACE (Some root));
  root ← empty_space_root;
  activate_root root.

Fixpoint release_loop (slots : list Z) (released : Z) : M kernel Z :=
  match slots with
  | [] => mret released
  | slot :: rest =>
    k ← getS;
    if slot =? me k then release_loop rest released else
    t ← index (task_list k) slot;
    match t with
    | Some t =>
      if bool_decide (state t = Dead) then
        _ ← store_task slot None; release_loop rest (released + 1)
      else release_loop rest released
    | None => release_loop rest released
    end
  end.
Definition release_dead : M kernel Z := release_loop (range 0 MAX_TASKS) 0.
