(* ===== verification/Notify.v ===== *)
(** * Notify: notification bits and interrupt routing ([notify.rs]) *)

From S2P Require Import Prelude Memory Kernel Sched.

(** [POSTED.lock()[i]] and [WANTED.lock()[i]]. *)
Definition posted_at (i : Z) : M kernel Z := k ← getS; index (POSTED k) i.
Definition wanted_at (i : Z) : M kernel Z := k ← getS; index (WANTED k) i.

Definition route (intid task bits : Z) : M kernel unit :=
  k ← getS;
  slot ← expectM (fst <$> list_find (λ r : option Route, r = None) (ROUTES k))
           "interrupt routing table is full";
  modify (λ k, set_ROUTES (<[slot := Some (mkRoute intid task bits)]> (ROUTES k)) k).

Definition post (task bits : Z) : M kernel unit :=
  if MAX_TASKS <=? task then mret tt else
  p ← posted_at task;
  _ ← store POSTED set_POSTED task (Z.lor p bits);
  w ← wanted_at task;
  if negb (Z.land w bits =? 0) then
    _ ← unblock_deferred task;
    request_reschedule
  else mret tt.

Definition on_irq (intid : Z) : M kernel bool :=
  k ← getS;
  match list_find (λ r, route_intid r = intid) (omap id (ROUTES k)) with
  | Some (_, r) => _ ← post (route_task r) (route_bits r); mret true
  | None => mret false
  end.

Definition take (task mask : Z) : M kernel Z :=
  p ← posted_at task;
  let fired := Z.land p mask in
  _ ← store POSTED set_POSTED task (Z.land p (not32 fired));
  mret fired.

Definition arm (task mask : Z) : M kernel unit := store WANTED set_WANTED task mask.
Definition disarm (task : Z) : M kernel unit := store WANTED set_WANTED task 0.
Definition clear (task : Z) : M kernel unit :=
  _ ← store POSTED set_POSTED task 0; store WANTED set_WANTED task 0.
