(* ===== verification/Ipc.v ===== *)
(** * Ipc: synchronous messages, replies and leases ([ipc.rs])

    A send blocks its task until the receiver replies, so [send] and [recv] are
    in pieces: the part before a switch, and what a later switch back runs. *)

From S2P Require Import Prelude Memory Frames FramesBoot Paging Kernel Sched Notify.

Definition MAX_MESSAGE : Z := 256.
Definition MAX_BORROW : Z := 4096.
Definition LEASE_READ : Z := Z.shiftl 1 0.
Definition LEASE_WRITE : Z := Z.shiftl 1 1.
Definition LEASE_STRIDE : Z := 24.
Definition EINVAL : Z := as_u64 (-1).
Definition EFAULT : Z := as_u64 (-2).
Definition EDEAD : Z := as_u64 (-3).
Definition EPERM : Z := as_u64 (-4).
Definition NOTIFICATION : Z := u64_max.

Definition no_leases : list Lease := replicate (Z.to_nat MAX_LEASES) NO_LEASE.

Definition deliver (src src_buf src_len dst dst_buf dst_cap : Z) : M kernel (option Z) :=
  let len := Z.min src_len dst_cap in
  if len =? 0 then mret (Some 0) else
  k ← getS;
  match space_root_of k src, space_root_of k dst with
  | Some src_root, Some dst_root =>
    r ← with_mach (user_readable src_root src_buf len);
    if negb r then mret None else
    w ← with_mach (user_writable dst_root dst_buf len);
    if negb w then mret None else
    c ← with_mach (copy_across src_root src_buf dst_root dst_buf len);
    mret (if c : bool then Some len else None)
  | _, _ => mret None
  end.

Definition read_user_u64 (root va : Z) : M machine (option Z) :=
  pa ← translate root va;
  match pa with
  | None => mret None
  | Some pa => m ← getS; mret (Some (read_u64 (memory m) pa))
  end.

(** One entry of the lease table. *)
Definition read_lease (root entry : Z) : M machine (Result Lease Z) :=
  base ← read_user_u64 root entry;
  len ← (a ← lift (add64 entry 8); read_user_u64 root a);
  attrs ← (a ← lift (add64 entry 16); read_user_u64 root a);
  match base, len, attrs with
  | Some base, Some len, Some attrs =>
    if (attrs =? 0) || negb (Z.land attrs (not64 (Z.lor LEASE_READ LEASE_WRITE)) =? 0)
    then mret (Err EINVAL) else
    bad_read ← (if negb (Z.land attrs LEASE_READ =? 0)
                then r ← user_readable root base len; mret (negb r) else mret false);
    if bad_read : bool then mret (Err EFAULT) else
    bad_write ← (if negb (Z.land attrs LEASE_WRITE =? 0)
                 then w ← user_writable root base len; mret (negb w) else mret false);
    if bad_write : bool then mret (Err EFAULT) else
    mret (Ok (mkLease base len attrs))
  | _, _, _ => mret (Err EFAULT)
  end.

Fixpoint collect_loop (indices : list Z) (root table_va : Z) (acc : list Lease)
    : M machine (Result (list Lease) Z) :=
  match indices with
  | [] => mret (Ok acc)
  | i :: rest =>
    entry ← lift (add64 table_va (i * LEASE_STRIDE));
    l ← read_lease root entry;
    match l with
    | Ok l => collect_loop rest root table_va (<[Z.to_nat i := l]> acc)
    | Err e => mret (Err e)
    end
  end.

Definition collect_leases (root table_va count : Z) : M machine (Result (list Lease * Z) Z) :=
  if count =? 0 then mret (Ok (no_leases, 0)) else
  if MAX_LEASES <? count then mret (Err EINVAL) else
  if negb (is_multiple_of table_va 8) then mret (Err EINVAL) else
  let table_len := count * LEASE_STRIDE in
  r ← user_readable root table_va table_len;
  if negb r then mret (Err EFAULT) else
  l ← collect_loop (range 0 count) root table_va no_leases;
  mret (match l with Ok l => Ok (l, count) | Err e => Err e end).

Definition pending_of (i : Z) : M kernel (option Pending) :=
  k ← getS; index (pending (TABLE k)) i.

(** [core::mem::take(&mut TABLE.lock().outcome[me])]. *)
Definition take_outcome (i : Z) : M kernel Outcome :=
  k ← getS;
  o ← index (outcome (TABLE k)) i;
  _ ← store_outcome i no_outcome;
  mret o.

Definition deliver_outcome (sender rc len : Z) : M kernel unit :=
  _ ← store_outcome sender (mkOutcome rc len 0);
  _ ← store_pending sender None;
  _ ← store_lease_count sender 0;
  store_leases sender no_leases.

Definition finish_sender (sender rc len : Z) : M kernel bool :=
  _ ← deliver_outcome sender rc len;
  unblock sender.

(** ** Sending *)

(** After the wait: [outcome] is what the reply, or [abandon], left. *)
Definition send_wake : M kernel (ctl (Z * Z * Z)) :=
  k ← getS;
  o ← take_outcome (me k);
  mret (Ret (oa o, ob o, 0)).

Definition send_park : M kernel (ctl (Z * Z * Z)) :=
  p ← park;
  if p : bool then mret (Sus KSendWake) else send_wake.

(** Leave the leases and the message where the receiver will look. *)
Definition publish (my : Z) (ls : list Lease) (n : Z) (p : Pending) : M kernel unit :=
  _ ← store_leases my ls;
  _ ← store_lease_count my n;
  store_pending my (Some p).

Definition send_message (my : Z) (msg : Message) (ls : list Lease) (n : Z)
    : M kernel (ctl (Z * Z * Z)) :=
  p ← pending_of (target msg);
  match p with
  | Some (RecvWait buf cap) =>
    _ ← store_pending (target msg) None;
    len ← deliver my (out msg) (out_len msg) (target msg) buf cap;
    match len with
    | None =>
      _ ← store_pending (target msg) (Some (RecvWait buf cap));
      mret (Ret (EFAULT, 0, 0))
    | Some len =>
      _ ← mark_current_blocked;
      _ ← store_outcome (target msg) (mkOutcome my (operation msg) len);
      _ ← publish my ls n (ReplyWait msg);
      switched ← unblock (target msg);
      if switched : bool then mret (Sus KSendPark) else send_park
    end
  | _ =>
    _ ← publish my ls n (SendWait msg);
    _ ← mark_current_blocked;
    send_park
  end.

Definition send (tgt op out_ out_len_ reply_buf_ reply_cap_ lease_table lease_cnt : Z)
    : M kernel (ctl (Z * Z * Z)) :=
  if (MAX_MESSAGE <? out_len_) || (MAX_MESSAGE <? reply_cap_) then mret (Ret (EINVAL, 0, 0)) else
  if MAX_TASKS <=? tgt then mret (Ret (EINVAL, 0, 0)) else
  k ← getS;
  if tgt =? me k then mret (Ret (EINVAL, 0, 0)) else
  if negb (is_alive k tgt) then mret (Ret (EDEAD, 0, 0)) else
  match space_root_of k (me k) with
  | None => mret (Ret (EFAULT, 0, 0))
  | Some root =>
    r ← with_mach (user_readable root out_ out_len_);
    w ← (if r : bool then with_mach (user_writable root reply_buf_ reply_cap_) else mret false);
    if negb w then mret (Ret (EFAULT, 0, 0)) else
    l ← with_mach (collect_leases root lease_table lease_cnt);
    match l with
    | Err e => mret (Ret (e, 0, 0))
    | Ok (ls, n) => send_message (me k) (mkMessage tgt op out_ out_len_ reply_buf_ reply_cap_) ls n
    end
  end.

(** ** Receiving *)

Fixpoint best_sender_loop (slots : list Z) (k : kernel) (tgt : Z) (best : option (Z * Z))
    : option (Z * Z) :=
  match slots with
  | [] => best
  | slot :: rest =>
    match pending_at k slot with
    | Some (SendWait msg) =>
      if negb (target msg =? tgt) then best_sender_loop rest k tgt best else
      match priority_of k slot with
      | None => best_sender_loop rest k tgt best
      | Some p =>
        match best with
        | Some (_, best_priority) =>
          if negb (outranks p best_priority) then best_sender_loop rest k tgt best
          else best_sender_loop rest k tgt (Some (slot, p))
        | None => best_sender_loop rest k tgt (Some (slot, p))
        end
      end
    | _ => best_sender_loop rest k tgt best
    end
  end.
Definition best_sender (k : kernel) (tgt : Z) : option Z :=
  fst <$> best_sender_loop (range 0 MAX_TASKS) k tgt None.

(** The [loop] of [recv].  A round that does not return releases a sender, so
    [MAX_TASKS] rounds pass at most before it returns or parks. *)
Fixpoint recv_loop (fuel : nat) (buf cap mask : Z) : M kernel (ctl (Z * Z * Z)) :=
  match fuel with
  | O => panic "out of fuel"
  | S fuel' =>
    k ← getS;
    let my := me k in
    fired ← take my mask;
    if negb (fired =? 0) then mret (Ret (NOTIFICATION, fired, 0)) else
    k ← getS;
    match best_sender k my with
    | None =>
      _ ← arm my mask;
      _ ← store_pending my (Some (RecvWait buf cap));
      _ ← mark_current_blocked;
      switched ← park;
      if switched : bool then mret (Sus (KRecvWake buf cap mask)) else
      _ ← disarm my;
      p ← pending_of my;
      match p with
      | Some _ => _ ← store_pending my None; recv_loop fuel' buf cap mask
      | None => o ← take_outcome my; mret (Ret (oa o, ob o, oc o))
      end
    | Some sender =>
      p ← pending_of sender;
      match p with
      | Some (SendWait msg) =>
        len ← deliver sender (out msg) (out_len msg) my buf cap;
        match len with
        | Some len =>
          _ ← store_pending sender (Some (ReplyWait msg));
          mret (Ret (sender, operation msg, len))
        | None =>
          switched ← finish_sender sender EFAULT 0;
          if switched : bool then mret (Sus (KRecvLoop buf cap mask)) else recv_loop fuel' buf cap mask
        end
      | _ => panic "best_sender returned a task that is not sending"
      end
    end
  end.
Definition recv_rounds : nat := S (Z.to_nat MAX_TASKS).

(** Back from [park]: delivered to, or woken by a notification. *)
Definition recv_wake (buf cap mask : Z) : M kernel (ctl (Z * Z * Z)) :=
  k ← getS;
  let my := me k in
  _ ← disarm my;
  p ← pending_of my;
  match p with
  | Some _ => _ ← store_pending my None; recv_loop recv_rounds buf cap mask
  | None => o ← take_outcome my; mret (Ret (oa o, ob o, oc o))
  end.

Definition recv (buf cap notify_mask : Z) : M kernel (ctl (Z * Z * Z)) :=
  if MAX_MESSAGE <? cap then mret (Ret (EINVAL, 0, 0)) else
  k ← getS;
  match space_root_of k (me k) with
  | None => mret (Ret (EFAULT, 0, 0))
  | Some root =>
    w ← with_mach (user_writable root buf cap);
    if negb w then mret (Ret (EFAULT, 0, 0)) else
    recv_loop recv_rounds buf cap (Z.land notify_mask u32_max)
  end.

(** ** Replying *)

Definition reply (sender rc data data_len : Z) : M kernel (ctl (Z * Z * Z)) :=
  if (MAX_MESSAGE <? data_len) || (MAX_TASKS <=? sender) then mret (Ret (EINVAL, 0, 0)) else
  k ← getS;
  p ← pending_of sender;
  match p with
  | Some (ReplyWait msg) =>
    if negb (target msg =? me k) then mret (Ret (EINVAL, 0, 0)) else
    len ← deliver (me k) data data_len sender (reply_buf msg) (reply_cap msg);
    match len with
    | None => mret (Ret (EFAULT, 0, 0))
    | Some len =>
      switched ← finish_sender sender rc len;
      mret (if switched : bool then Sus KReply else Ret (0, 0, 0))
    end
  | _ => mret (Ret (EINVAL, 0, 0))
  end.

(** ** A task that is gone *)

Definition waiting_on (gone : Z) (p : option Pending) : bool :=
  match p with
  | Some (SendWait msg | ReplyWait msg) => target msg =? gone
  | _ => false
  end.

Definition abandon (gone : Z) : M kernel unit :=
  _ ← forM (range 0 MAX_TASKS) (λ slot,
    if slot =? gone then mret tt else
    p ← pending_of slot;
    if waiting_on gone p then
      _ ← deliver_outcome slot EDEAD 0;
      _ ← unblock_deferred slot;
      mret tt
    else mret tt);
  _ ← store_pending gone None;
  store_lease_count gone 0.

(** ** Leases *)

(** The lease, if the peer is waiting on us and lent that many. *)
Definition find_lease (k : kernel) (peer ix : Z) : M kernel (option Lease) :=
  p ← index (pending (TABLE k)) peer;
  match p with
  | Some (ReplyWait msg) =>
    n ← index (lease_count (TABLE k)) peer;
    if (target msg =? me k) && (ix <? n) then
      ls ← index (leases (TABLE k)) peer;
      l ← index ls ix;
      mret (Some l)
    else mret None
  | _ => mret None
  end.

Definition borrow (peer ix offset local len : Z) (writing : bool) : M kernel Z :=
  if (MAX_TASKS <=? peer) || (MAX_BORROW <? len) then mret EINVAL else
  k ← getS;
  lease ← find_lease k peer ix;
  match lease with
  | None => mret EINVAL
  | Some lease =>
    let needed := if writing then LEASE_WRITE else LEASE_READ in
    if Z.land (lease_attrs lease) needed =? 0 then mret EPERM else
    match checked_add64 offset len with
    | None => mret EINVAL
    | Some end_ =>
      if lease_len lease <? end_ then mret EINVAL else
      match space_root_of k peer, space_root_of k (me k) with
      | Some peer_root, Some my_root =>
        remote ← lift (add64 (lease_base lease) offset);
        ok ← with_mach (
          if writing then
            r ← user_readable my_root local len;
            if r : bool then copy_across my_root local peer_root remote len else mret false
          else
            w ← user_writable my_root local len;
            if w : bool then copy_across peer_root remote my_root local len else mret false);
        mret (if ok : bool then 0 else EFAULT)
      | _, _ => mret EFAULT
      end
    end
  end.

Definition borrow_read (peer ix offset dst len : Z) : M kernel Z := borrow peer ix offset dst len false.
Definition borrow_write (peer ix offset src len : Z) : M kernel Z := borrow peer ix offset src len true.

Definition is_awaiting_reply (k : kernel) (id : Z) : bool :=
  match pending_at k id with Some (ReplyWait _) => true | _ => false end.
