(* ===== verification/Tasks.v ===== *)
(** * Tasks: ending, faulting and supervising a task ([tasks.rs]) *)

From S2P Require Import Prelude Memory Frames FramesBoot Paging Kernel Sched Notify Ipc.

(** ** Ending *)

(** [loop { yield_now() }], of a task that will not run again.  The task stays
    inside the kernel whether or not anything else could run. *)
Definition gone {A} : M kernel (ctl A) := _ ← yield_now; mret (Sus KGone).

Definition task_finished : M kernel (ctl (Z * Z * Z)) :=
  k ← getS;
  _ ← update_current (with_state Zombie);
  _ ← abandon (me k);
  gone.

Definition exit_current (code : Z) : M kernel (ctl (Z * Z * Z)) :=
  k ← getS;
  _ ← update_current (λ t, with_exit_code code (with_state Zombie t));
  _ ← abandon (me k);
  gone.

Definition kill (id : Z) : M kernel unit :=
  k ← getS;
  t ← index (task_list k) id;
  match t with
  | Some t => if bool_decide (state t = Faulted) then store_task id (Some (with_state Zombie t)) else mret tt
  | None => mret tt
  end.

(** ** Faults and their supervisor *)

Definition wake_fault_waiters : M kernel unit :=
  forM (range 0 MAX_TASKS) (λ slot,
    k ← getS;
    w ← index (FAULT_WAITERS k) slot;
    if w : bool then _ ← unblock_deferred slot; mret tt else mret tt).

Definition fault_current (f : Fault) : M kernel (ctl (Z * Z * Z)) :=
  k ← getS;
  t ← index (task_list k) (me k);
  t ← expectM t "a fault arrived with no current task";
  _ ← store_task (me k) (Some (with_fault f (with_state Faulted t)));
  _ ← abandon (me k);
  _ ← wake_fault_waiters;
  gone.

Definition set_supervisor (id : Z) : M kernel unit := modify (set_SUPERVISOR (Some id)).
Definition is_supervisor (k : kernel) (id : Z) : bool := bool_decide (SUPERVISOR k = Some id).

Definition first_faulted (k : kernel) : option Z :=
  (λ x, Z.of_nat (fst x)) <$> list_find (λ t : option Task, state <$> t = Some Faulted) (task_list k).

(** The [loop] of [wait_for_fault], entered and re-entered after every wake. *)
Definition wait_loop : M kernel (ctl (Z * Z * Z)) :=
  k ← getS;
  match first_faulted k with
  | Some id => mret (Ret (id, 0, 0))
  | None =>
    _ ← store FAULT_WAITERS set_FAULT_WAITERS (me k) true;
    _ ← mark_current_blocked;
    _ ← park;
    mret (Sus KFaultWait)
  end.
Definition fault_wait_wake : M kernel (ctl (Z * Z * Z)) :=
  k ← getS;
  _ ← store FAULT_WAITERS set_FAULT_WAITERS (me k) false;
  wait_loop.
Definition wait_for_fault : M kernel (ctl (Z * Z * Z)) := wait_loop.

Section restart.
Context (user_task_entry task_trampoline : Z).

Definition restart (id : Z) : M kernel bool :=
  _ ← abandon id;
  k ← getS;
  match task_at k id with
  | None => mret false
  | Some task =>
    if negb (bool_decide (state task = Faulted)) then mret false else
    match image task with
    | None => mret false
    | Some img =>
      _ ← store_task id (Some (with_space None task));
      _ ← (match space task with
           | Some old_space => with_mach (AddressSpace_destroy old_space)
           | None => mret tt
           end);
      space ← with_mach (build_user_space (img_start img) (img_end img) (img_arg img));
      sp ← with_mach (plant_switch_frame task_trampoline (stack task) user_task_entry USER_TEXT_VA);
      k ← getS;
      match task_at k id with
      | None => mret false
      | Some task =>
        _ ← store_task id (Some (mkTask (name task) (Some space) sp (stack task) (owns_stack task)
              (priority task) Runnable None None (image task)));
        _ ← store contexts set_contexts id (Fresh user_task_entry USER_TEXT_VA);
        mret true
      end
    end
  end.

End restart.
