(* ===== verification/Syscall.v ===== *)
(** * Syscall: what a task may ask of the kernel ([syscall.rs]) *)

From S2P Require Import Prelude Memory Frames FramesBoot Paging PagingWalk.
From S2P Require Import Kernel Sched Notify Ipc Tasks.

Definition SYS_EXIT : Z := 0.
Definition SYS_WRITE : Z := 1.
Definition SYS_YIELD : Z := 2.
Definition SYS_GETPID : Z := 3.
Definition SYS_SEND : Z := 4.
Definition SYS_RECV : Z := 5.
Definition SYS_REPLY : Z := 6.
Definition SYS_BORROW_READ : Z := 7.
Definition SYS_BORROW_WRITE : Z := 8.
Definition SYS_FAULT_WAIT : Z := 9.
Definition SYS_FAULT_INFO : Z := 10.
Definition SYS_RESTART : Z := 11.
Definition SYS_TICKS : Z := 12.
Definition MAX_WRITE : Z := 4096.

(** ** [core::str::from_utf8] *)

Definition in_range (lo hi b : Z) : bool := (lo <=? b) && (b <=? hi).
Definition cont_byte (b : Z) : bool := in_range 0x80 0xBF b.

(** The well-formed sequences of the Unicode standard, table 3-7. *)
Fixpoint utf8_valid (l : list Z) : bool :=
  match l with
  | [] => true
  | b0 :: l1 =>
    if b0 <? 0x80 then utf8_valid l1 else
    match l1 with
    | [] => false
    | b1 :: l2 =>
      if in_range 0xC2 0xDF b0 then cont_byte b1 && utf8_valid l2 else
      match l2 with
      | [] => false
      | b2 :: l3 =>
        if b0 =? 0xE0 then in_range 0xA0 0xBF b1 && cont_byte b2 && utf8_valid l3 else
        if b0 =? 0xED then in_range 0x80 0x9F b1 && cont_byte b2 && utf8_valid l3 else
        if in_range 0xE1 0xEF b0 then cont_byte b1 && cont_byte b2 && utf8_valid l3 else
        match l3 with
        | [] => false
        | b3 :: l4 =>
          if b0 =? 0xF0 then in_range 0x90 0xBF b1 && cont_byte b2 && cont_byte b3 && utf8_valid l4 else
          if b0 =? 0xF4 then in_range 0x80 0x8F b1 && cont_byte b2 && cont_byte b3 && utf8_valid l4 else
          in_range 0xF1 0xF3 b0 && cont_byte b1 && cont_byte b2 && cont_byte b3 && utf8_valid l4
        end
      end
    end
  end.

(** ** Memory through the current address space *)

(** A load by the kernel through [TTBR0_EL1]: the architecture faults on a low
    half address above [2^48], whatever the tables say of its low bits. *)
Definition load_user (k : kernel) (va : Z) : option Z :=
  if va <? 2 ^ 48 then memory (mach k) <$> translation (memory (mach k)) (ttbr0 k) va else None.

(** [core::slice::from_raw_parts(buf, len)], read.  Built with debug assertions,
    as the kernel is, it panics for a null pointer, even one to no bytes; a fault
    of the loads is taken at EL1 and stops the kernel. *)
Definition load_slice (buf len : Z) : M kernel (list Z) := λ k,
  if buf =? 0 then Panic "unsafe precondition(s) violated: slice::from_raw_parts" else
  match mapM (load_user k) (range buf (buf + len)) with
  | Some bytes => Done (bytes, k)
  | None => Panic "unexpected exception"
  end.

(** ** The calls *)

Definition sys_write (fd buf len : Z) : M kernel Z :=
  if negb (fd =? 1) then mret EINVAL else
  if MAX_WRITE <? len then mret EINVAL else
  k ← getS;
  match current_space_root k with
  | None => mret EFAULT
  | Some root =>
    r ← with_mach (user_readable root buf len);
    if negb r then mret EFAULT else
    bytes ← load_slice buf len;
    if utf8_valid bytes then
      _ ← modify (λ k, set_console (console k ++ bytes) k);
      mret len
    else mret EINVAL
  end.

Definition supervising (k : kernel) : bool := is_supervisor k (me k).

Definition sys_fault_wait : M kernel (ctl (Z * Z * Z)) :=
  k ← getS;
  if negb (supervising k) then mret (Ret (EPERM, 0, 0)) else wait_for_fault.

Definition sys_fault_info (id : Z) : M kernel (Z * Z * Z) :=
  k ← getS;
  if negb (supervising k) then mret (EPERM, 0, 0) else
  if MAX_TASKS <=? id then mret (EINVAL, 0, 0) else
  f ← fault_of id;
  mret (match f with Some f => (esr f, far f, elr f) | None => (EINVAL, 0, 0) end).

Definition sys_yield : M kernel (ctl (Z * Z * Z)) :=
  switched ← yield_now;
  mret (if switched : bool then Sus KYield else Ret (0, 0, 0)).

Definition sys_getpid : M kernel Z := gets me.

Section syscall.
Context (user_task_entry task_trampoline : Z).

Definition sys_restart (id : Z) : M kernel Z :=
  k ← getS;
  if negb (supervising k) then mret EPERM else
  if MAX_TASKS <=? id then mret EINVAL else
  r ← restart user_task_entry task_trampoline id;
  mret (if r : bool then 0 else EINVAL).

(** A call with one result register. *)
Definition one (op : M kernel Z) : M kernel (ctl (Z * Z * Z)) := r ← op; mret (Ret (r, 0, 0)).

(** [number] is [x8] and [a] the argument registers [x0] to [x7]. *)
Definition dispatch (number : Z) (a : Z → Z) : M kernel (ctl (Z * Z * Z)) :=
  if number =? SYS_EXIT then exit_current (a 0)
  else if number =? SYS_WRITE then one (sys_write (a 0) (a 1) (a 2))
  else if number =? SYS_YIELD then sys_yield
  else if number =? SYS_GETPID then one sys_getpid
  else if number =? SYS_SEND then send (a 0) (a 1) (a 2) (a 3) (a 4) (a 5) (a 6) (a 7)
  else if number =? SYS_RECV then recv (a 0) (a 1) (a 2)
  else if number =? SYS_REPLY then reply (a 0) (a 1) (a 2) (a 3)
  else if number =? SYS_BORROW_READ then one (borrow_read (a 0) (a 1) (a 2) (a 3) (a 4))
  else if number =? SYS_BORROW_WRITE then one (borrow_write (a 0) (a 1) (a 2) (a 3) (a 4))
  else if number =? SYS_FAULT_WAIT then sys_fault_wait
  else if number =? SYS_FAULT_INFO then r ← sys_fault_info (a 0); mret (Ret r)
  else if number =? SYS_RESTART then one (sys_restart (a 0))
  else if number =? SYS_TICKS then one (gets TICKS)
  else mret (Ret (EINVAL, 0, 0)).

(** ** Coming back from a switch *)

Definition resume (c : kont) : M kernel (ctl (Z * Z * Z)) :=
  match c with
  | KYield => mret (Ret (0, 0, 0))
  | KReturn => mret (Ret (0, 0, 0))
  | KSendPark => send_park
  | KSendWake => send_wake
  | KRecvWake buf cap mask => recv_wake buf cap mask
  | KRecvLoop buf cap mask => recv_loop recv_rounds buf cap mask
  | KReply => mret (Ret (0, 0, 0))
  | KFaultWait => fault_wait_wake
  | KGone => gone
  end.

End syscall.
