(* ===== verification/KernelInv.v ===== *)
(** * KernelInv: the invariant of the task and message tables

    What every slot satisfies between kernel calls.  [slot_of] gathers what the
    tables say of one task; every primitive update of the kernel is described
    by the one slot it changes ([touches_slot]), so an operation's effect on
    the invariant is a short chain of such updates. *)

From S2P Require Import Prelude Memory Frames FramesBoot Paging Kernel Sched Notify Ipc Tasks Syscall.

(** ** Slots *)

Record slot : Type := mkSlot {
  sl_task : option Task;
  sl_pending : option Pending;
  sl_leased : Z;
  sl_wanted : Z;
  sl_waiter : bool;
  sl_ctx : context
}.

Definition slot_of (k : kernel) (t : Z) : slot :=
  mkSlot (task_at k t) (pending_at k t)
    (default 0 (lease_count (TABLE k) !! Z.to_nat t))
    (default 0 (WANTED k !! Z.to_nat t))
    (default false (FAULT_WAITERS k !! Z.to_nat t))
    (default Running (contexts k !! Z.to_nat t)).

Definition sl_state (s : slot) : option State := state <$> sl_task s.
Definition sl_alive (s : slot) : bool :=
  match sl_state s with Some Runnable | Some Blocked => true | _ => false end.

(** Somebody will answer: the task is alive, or was when it was preempted for
    good. *)
Definition sl_live (s : slot) : Prop := sl_alive s = true ∨ sl_ctx s = Cut.

Lemma live_same s s' : sl_ctx s' = sl_ctx s → (sl_alive s = true → sl_alive s' = true) → sl_live s → sl_live s'.
Proof. intros He Ha [H|H]; [left; auto|right; congruence]. Qed.

Lemma is_alive_slot k t : is_alive k t = sl_alive (slot_of k t).
Proof.
  unfold is_alive, sl_alive, sl_state. simpl. destruct (task_at k t) as [x|]; [|done].
  simpl. by destruct (state x).
Qed.

Definition slot_id (t : Z) : Prop := 0 ≤ t < MAX_TASKS.

(** One slot after the other. *)
Lemma slot_cases (P : Z → Prop) : P 0 → P 1 → P 2 → P 3 → P 4 → P 5 → P 6 → P 7 → ∀ t, slot_id t → P t.
Proof.
  intros ???????? t Ht. unfold slot_id, MAX_TASKS in Ht.
  assert (t = 0 ∨ t = 1 ∨ t = 2 ∨ t = 3 ∨ t = 4 ∨ t = 5 ∨ t = 6 ∨ t = 7) as Hd by lia.
  by destruct Hd as [->|[->|[->|[->|[->|[->|[->| ->]]]]]]].
Qed.

(** The message a task is blocked on, received yet or not. *)
Definition waiting_msg (p : option Pending) : option Message :=
  match p with Some (SendWait m | ReplyWait m) => Some m | _ => None end.

Definition is_recv_wake (c : context) : Prop := ∃ b n m, c = Inside (KRecvWake b n m).
Definition is_send (c : context) : Prop := c = Inside KSendPark ∨ c = Inside KSendWake.

(** ** The invariant of a slot *)

(** Slot [t] of the view [v], were its context [c]; [gone] excuses waiting on a
    task that is about to be abandoned. *)
Record settled (gone : Z → Prop) (v : Z → slot) (t : Z) (c : context) : Prop := {
  (** Only a parked receiver wants notifications or waits to receive, and only
      a parked supervisor waits for faults. *)
  st_wanted : sl_wanted (v t) ≠ 0 → is_recv_wake c;
  st_waiter : sl_waiter (v t) = true → c = Inside KFaultWait;
  st_recv : ∀ b n, sl_pending (v t) = Some (RecvWait b n) → is_recv_wake c;
  (** A sender that waits is blocked inside [send], on another task, alive or
      preempted as it ended. *)
  st_send : ∀ m, waiting_msg (sl_pending (v t)) = Some m →
    is_send c ∧ sl_state (v t) = Some Blocked ∧ slot_id (target m) ∧ target m ≠ t ∧
    (sl_live (v (target m)) ∨ gone (target m));
  (** Leases live exactly as long as such a wait. *)
  st_lease : sl_leased (v t) ≠ 0 → waiting_msg (sl_pending (v t)) ≠ None;
  (** A task that ended waits for nothing. *)
  st_ended : sl_alive (v t) = false →
    sl_pending (v t) = None ∧ sl_wanted (v t) = 0 ∧ sl_waiter (v t) = false
}.

Definition nobody : Z → Prop := λ _, False.

Record lengths_ok (k : kernel) : Prop := {
  len_tasks : length (task_list k) = 8%nat;
  len_pending : length (pending (TABLE k)) = 8%nat;
  len_outcome : length (outcome (TABLE k)) = 8%nat;
  len_leases : length (leases (TABLE k)) = 8%nat;
  len_lease_count : length (lease_count (TABLE k)) = 8%nat;
  len_posted : length (POSTED k) = 8%nat;
  len_wanted : length (WANTED k) = 8%nat;
  len_waiters : length (FAULT_WAITERS k) = 8%nat;
  len_contexts : length (contexts k) = 8%nat;
  len_current : slot_id (me k)
}.

(** Task 0 is the boot task: no address space, always runnable. *)
Definition idle_ok (v : Z → slot) : Prop :=
  ∃ t, sl_task (v 0) = Some t ∧ state t = Runnable ∧ space t = None.

(** Everybody but [my], who is inside the kernel, is settled. *)
Record others_ok (gone : Z → Prop) (k : kernel) (my : Z) : Prop := {
  oo_lengths : lengths_ok k;
  oo_idle : idle_ok (slot_of k);
  oo_my : slot_id my;
  oo_cut : ∀ t, slot_id t → sl_ctx (slot_of k t) = Cut → t ≠ my ∧ sl_alive (slot_of k t) = false;
  oo_others : ∀ t, slot_id t → t ≠ my → settled gone (slot_of k) t (sl_ctx (slot_of k t))
}.

(** Between calls: the current task can run and every slot is settled. *)
Record kernel_inv (k : kernel) : Prop := {
  ki_lengths : lengths_ok k;
  ki_idle : idle_ok (slot_of k);
  ki_current : sl_state (slot_of k (me k)) = Some Runnable;
  ki_cut : ∀ t, slot_id t → sl_ctx (slot_of k t) = Cut → sl_alive (slot_of k t) = false;
  ki_slots : ∀ t, slot_id t → settled nobody (slot_of k) t (sl_ctx (slot_of k t))
}.

(** How a call leaves its caller. *)
Definition left_as (r : ctl (Z * Z * Z)) : context :=
  match r with Ret _ => Running | Sus c => Inside c end.

Record call_done (my : Z) (r : ctl (Z * Z * Z)) (k : kernel) : Prop := {
  cd_others : others_ok nobody k my;
  cd_current : sl_state (slot_of k (me k)) = Some Runnable;
  cd_mine : settled nobody (slot_of k) my (left_as r);
  cd_stays : ∀ v, r = Ret v → me k = my
}.

(** ** Updates of one slot *)

(** [k'] is [k] with slot [i] changed to [s], as far as the invariant sees. *)
Record touches_slot (k k' : kernel) (i : Z) (s : slot) : Prop := {
  ts_lengths : lengths_ok k';
  ts_me : me k' = me k;
  ts_slot : ∀ t, slot_id t → slot_of k' t = if decide (t = i) then s else slot_of k t
}.

(** ... and with no slot changed. *)
Record same_slots (k k' : kernel) : Prop := {
  ss_lengths : lengths_ok k';
  ss_me : me k' = me k;
  ss_slot : ∀ t, slot_id t → slot_of k' t = slot_of k t
}.

Definition with_task (o : option Task) (s : slot) : slot :=
  mkSlot o (sl_pending s) (sl_leased s) (sl_wanted s) (sl_waiter s) (sl_ctx s).
Definition with_pending (p : option Pending) (s : slot) : slot :=
  mkSlot (sl_task s) p (sl_leased s) (sl_wanted s) (sl_waiter s) (sl_ctx s).
Definition with_leased (n : Z) (s : slot) : slot :=
  mkSlot (sl_task s) (sl_pending s) n (sl_wanted s) (sl_waiter s) (sl_ctx s).
Definition with_wanted (w : Z) (s : slot) : slot :=
  mkSlot (sl_task s) (sl_pending s) (sl_leased s) w (sl_waiter s) (sl_ctx s).
Definition with_waiter (b : bool) (s : slot) : slot :=
  mkSlot (sl_task s) (sl_pending s) (sl_leased s) (sl_wanted s) b (sl_ctx s).
Definition with_ctx (c : context) (s : slot) : slot :=
  mkSlot (sl_task s) (sl_pending s) (sl_leased s) (sl_wanted s) (sl_waiter s) c.

Lemma lookup_update {A} (l : list A) (i t : Z) (v : A) :
  slot_id i → slot_id t → length l = 8%nat →
  <[Z.to_nat i := v]> l !! Z.to_nat t = if decide (t = i) then Some v else l !! Z.to_nat t.
Proof.
  unfold slot_id, MAX_TASKS. intros Hi Ht Hl. case_decide as Hd.
  - subst. apply list_lookup_insert_eq. lia.
  - apply list_lookup_insert_ne. lia.
Qed.

Lemma pc_store {A} (get : kernel → list A) put i v k Q :
  Q tt (put (<[Z.to_nat i := v]> (get k)) k) → pc (store get put i v) k Q.
Proof. intros HQ. unfold pc, store. by destruct (get k !! Z.to_nat i). Qed.

Lemma pc_index {S A} (l : list A) i (s : S) Q :
  (∀ a, l !! Z.to_nat i = Some a → Q a s) → pc (index l i) s Q.
Proof. intros H. unfold index. by apply pc_expectM. Qed.

Ltac lengths := split; cbn; rewrite ?length_insert; first [assumption | done].

Section updates.
Context (k : kernel) (Hl : lengths_ok k).

Lemma pc_store_task i o Q : slot_id i →
  (∀ k', touches_slot k k' i (with_task o (slot_of k i)) → Q tt k') → pc (store_task i o) k Q.
Proof.
  intros Hi HQ. apply pc_store, HQ. destruct Hl. split; [lengths|done|].
  intros t Ht. unfold slot_of at 1, task_at. cbn. rewrite lookup_update by done.
  by case_decide; subst.
Qed.

Lemma pc_store_pending i p Q : slot_id i →
  (∀ k', touches_slot k k' i (with_pending p (slot_of k i)) → Q tt k') → pc (store_pending i p) k Q.
Proof.
  intros Hi HQ. apply pc_store, HQ. destruct Hl. split; [lengths|done|].
  intros t Ht. unfold slot_of at 1, pending_at. cbn. rewrite lookup_update by done.
  by case_decide; subst.
Qed.

Lemma pc_store_lease_count i n Q : slot_id i →
  (∀ k', touches_slot k k' i (with_leased n (slot_of k i)) → Q tt k') → pc (store_lease_count i n) k Q.
Proof.
  intros Hi HQ. apply pc_store, HQ. destruct Hl. split; [lengths|done|].
  intros t Ht. unfold slot_of at 1. cbn. rewrite lookup_update by done. by case_decide; subst.
Qed.

Lemma pc_store_wanted i n Q : slot_id i →
  (∀ k', touches_slot k k' i (with_wanted n (slot_of k i)) → Q tt k') →
  pc (store WANTED set_WANTED i n) k Q.
Proof.
  intros Hi HQ. apply pc_store, HQ. destruct Hl. split; [lengths|done|].
  intros t Ht. unfold slot_of at 1. cbn. rewrite lookup_update by done. by case_decide; subst.
Qed.

Lemma pc_store_waiter i b Q : slot_id i →
  (∀ k', touches_slot k k' i (with_waiter b (slot_of k i)) → Q tt k') →
  pc (store FAULT_WAITERS set_FAULT_WAITERS i b) k Q.
Proof.
  intros Hi HQ. apply pc_store, HQ. destruct Hl. split; [lengths|done|].
  intros t Ht. unfold slot_of at 1. cbn. rewrite lookup_update by done. by case_decide; subst.
Qed.

Lemma pc_store_ctx i c Q : slot_id i →
  (∀ k', touches_slot k k' i (with_ctx c (slot_of k i)) → Q tt k') →
  pc (store contexts set_contexts i c) k Q.
Proof.
  intros Hi HQ. apply pc_store, HQ. destruct Hl. split; [lengths|done|].
  intros t Ht. unfold slot_of at 1. cbn. rewrite lookup_update by done. by case_decide; subst.
Qed.

Lemma pc_store_outcome i o Q : (∀ k', same_slots k k' → Q tt k') → pc (store_outcome i o) k Q.
Proof. intros HQ. apply pc_store, HQ. destruct Hl. split; [lengths|done|done]. Qed.

Lemma pc_store_leases i l Q : (∀ k', same_slots k k' → Q tt k') → pc (store_leases i l) k Q.
Proof. intros HQ. apply pc_store, HQ. destruct Hl. split; [lengths|done|done]. Qed.

Lemma pc_store_posted i p Q :
  (∀ k', same_slots k k' → Q tt k') → pc (store POSTED set_POSTED i p) k Q.
Proof. intros HQ. apply pc_store, HQ. destruct Hl. split; [lengths|done|done]. Qed.

Lemma pc_with_mach {A} (op : M machine A) Q :
  (∀ a k', same_slots k k' → Q a k') → pc (with_mach op) k Q.
Proof. intros HQ. apply pc_zoom. intros a m _. apply HQ. destruct Hl. by split. Qed.

Lemma same_slots_refl : same_slots k k.
Proof. by split. Qed.

End updates.

Lemma same_slots_trans k k1 k2 : same_slots k k1 → same_slots k1 k2 → same_slots k k2.
Proof.
  intros [_ Hm1 Hs1] [? Hm2 Hs2]. split; [done|congruence|].
  intros t Ht. by rewrite Hs2, Hs1.
Qed.

(** ** Settled slots after an update *)

(** [settled] only looks at its own slot and at who is alive. *)
Lemma settled_ext gone (gone' : Z → Prop) v v' t c :
  v' t = v t → (∀ u, slot_id u → sl_live (v u) → sl_live (v' u) ∨ gone' u) →
  (∀ u, gone u → gone' u) →
  settled gone v t c → settled gone' v' t c.
Proof.
  intros Ht Hal Hg [H1 H2 H3 H4 H5 H6]. split; rewrite ?Ht; try done.
  intros m Hm. destruct (H4 m Hm) as (? & ? & Hs & ? & Ha). split_and!; try done.
  destruct Ha as [Ha|Ha]; [by apply Hal|right; auto].
Qed.

Lemma others_same gone k k' my : same_slots k k' → others_ok gone k my → others_ok gone k' my.
Proof.
  intros [Hl Hm Hs] [_ Hi Hmy Hc Ho]. split; [done| |done| |].
  - unfold idle_ok. by rewrite Hs.
  - intros t Ht. rewrite Hs by done. by apply Hc.
  - intros t Ht Hne. rewrite Hs by done. eapply settled_ext; [by apply Hs| | |by apply Ho]; [|done].
    intros u Hu. rewrite Hs by done. by left.
Qed.

Lemma settled_same gone k k' t c :
  slot_id t → same_slots k k' → settled gone (slot_of k) t c → settled gone (slot_of k') t c.
Proof.
  intros Ht [Hl Hm Hs] H. eapply settled_ext; [by apply Hs| | |done]; [|done].
  intros u Hu. rewrite Hs by done. by left.
Qed.

(** The caller is inside the kernel, not left there. *)
Lemma my_live gone k my : others_ok gone k my → sl_live (slot_of k my) → sl_alive (slot_of k my) = true.
Proof. intros Ho [|Hc]; [done|]. by destruct (oo_cut _ _ _ Ho my (oo_my _ _ _ Ho) Hc). Qed.

(** Changing the caller's own slot, alive as before. *)
Lemma others_mine gone k k' my s :
  touches_slot k k' my s → others_ok gone k my → sl_ctx s = sl_ctx (slot_of k my) →
  (sl_alive (slot_of k my) = true → sl_alive s = true ∨ gone my) → (my = 0 → idle_ok (slot_of k')) →
  others_ok gone k' my.
Proof.
  intros [Hl Hm Hs] Hok Hctx Hal H0. pose proof (my_live _ _ _ Hok) as Hml.
  destruct Hok as [_ Hi Hmy Hc Ho]. split; [done| |done| |].
  - destruct (decide (my = 0)) as [|Hne]; [auto|]. unfold idle_ok in *. rewrite Hs by done.
    by rewrite decide_False by done.
  - intros t Ht. rewrite Hs by done. case_decide; subst; [|by apply Hc].
    rewrite Hctx. intros Hx. by destruct (Hc my Hmy Hx).
  - intros t Ht Hne. pose proof (Hs t Ht) as Hst. rewrite decide_False in Hst by done. rewrite Hst.
    eapply settled_ext; [done| | |by apply Ho]; [|done].
    intros u Hu. rewrite Hs by done. case_decide; subst; [|by left].
    intros Hu'%Hml%Hal. destruct Hu'; [left; by left|by right].
Qed.

(** Changing another slot. *)
Lemma others_other gone k k' my i s :
  touches_slot k k' i s → others_ok gone k my → i ≠ my → slot_id i →
  (sl_live (slot_of k i) → sl_live s ∨ gone i) → (sl_ctx s = Cut → sl_alive s = false) →
  (i = 0 → idle_ok (slot_of k')) →
  settled gone (slot_of k') i (sl_ctx s) → others_ok gone k' my.
Proof.
  intros [Hl Hm Hs] [_ Hi Hmy Hc Ho] Hne Hid Hal Hcut H0 Hset. split; [done| |done| |].
  - destruct (decide (i = 0)) as [|Hn0]; [auto|]. unfold idle_ok in *. rewrite Hs by done.
    by rewrite decide_False by done.
  - intros t Ht. rewrite Hs by done. case_decide; subst; [by auto|by apply Hc].
  - intros t Ht Htm. destruct (decide (t = i)) as [->|Hti].
    + rewrite Hs by done. by rewrite decide_True.
    + pose proof (Hs t Ht) as Hst. rewrite decide_False in Hst by done. rewrite Hst.
      eapply settled_ext; [done| | |by apply Ho]; [|done].
      intros u Hu. rewrite Hs by done. case_decide; subst; [done|]. by left.
Qed.

(** ... which stays alive, or not, and goes on from where it was. *)
Lemma others_other_same gone k k' my i s :
  touches_slot k k' i s → others_ok gone k my → i ≠ my → slot_id i →
  sl_ctx s = sl_ctx (slot_of k i) → sl_alive s = sl_alive (slot_of k i) →
  (i = 0 → idle_ok (slot_of k')) →
  settled gone (slot_of k') i (sl_ctx s) → others_ok gone k' my.
Proof.
  intros H Ho Hne Hid Hc Ha. eapply others_other; [done|done|done|done| |].
  - intros Hl. left. eapply live_same; [exact Hc| |exact Hl]. by rewrite Ha.
  - rewrite Hc, Ha. intros Hx. by apply (oo_cut _ _ _ Ho i Hid).
Qed.
