(* ===== verification/SchedSpec.v ===== *)
(** * SchedSpec: what the scheduler chooses, and who wakes

    The specifications of [next_runnable] and [best_sender] as minima, and the
    effect of switching, reaping, blocking and waking on the slots. *)

From S2P Require Import Prelude Memory Frames FramesBoot Paging Kernel Sched Notify Ipc Tasks Syscall KernelInv.

(** ** [next_runnable] *)

Definition runnable_at (s : Scheduler) (c p : Z) : Prop :=
  ∃ t, tasks s !! Z.to_nat c = Some (Some t) ∧ state t = Runnable ∧ priority t = p.

Definition candidate (s : Scheduler) (step : Z) : Z := (current s + step) mod MAX_TASKS.

(** [best] is the best of the candidates at the steps [P]. *)
Definition best_of (s : Scheduler) (P : Z → Prop) (best : option (Z * Z)) : Prop :=
  match best with
  | Some (c, p) => ∃ st, P st ∧ c = candidate s st ∧ runnable_at s c p ∧
      ∀ st' q, P st' → runnable_at s (candidate s st') q → p < q ∨ p = q ∧ st ≤ st'
  | None => ∀ st' q, P st' → ¬ runnable_at s (candidate s st') q
  end.

Lemma runnable_at_fun s c p q : runnable_at s c p → runnable_at s c q → p = q.
Proof. intros (t & Ht & _ & <-) (u & Hu & _ & <-). congruence. Qed.

Lemma best_of_skip s (P P' : Z → Prop) a best :
  (∀ st, P' st ↔ P st ∨ st = a) → (∀ q, ¬ runnable_at s (candidate s a) q) →
  best_of s P best → best_of s P' best.
Proof.
  intros HP Hno. destruct best as [[c p]|]; simpl.
  - intros (st & Hst & Hc & Hr & Hmin). exists st. split; [apply HP; by left|]. split; [done|]. split; [done|].
    intros st' q [Hst'| ->]%HP Hq; [by apply Hmin|]. by destruct (Hno q).
  - intros Hmin st' q [Hst'| ->]%HP Hq; [by eapply Hmin|]. by destruct (Hno q).
Qed.

Lemma next_runnable_loop_spec n a s best :
  best_of s (λ st, 1 ≤ st < a) best → 1 ≤ a →
  best_of s (λ st, 1 ≤ st < a + Z.of_nat n) (next_runnable_loop (range_from a n) s best).
Proof.
  revert a best. induction n as [|n IH]; intros a best Hb Ha; cbn [range_from next_runnable_loop].
  { by replace (a + Z.of_nat 0) with a by lia. }
  replace (a + Z.of_nat (S n)) with (a + 1 + Z.of_nat n) by lia.
  assert (HP : ∀ st, 1 ≤ st < a + 1 ↔ 1 ≤ st < a ∨ st = a) by lia.
  assert (Hskip : (∀ q, ¬ runnable_at s (candidate s a) q) →
    best_of s (λ st, 1 ≤ st < a + 1 + Z.of_nat n) (next_runnable_loop (range_from (a + 1) n) s best)).
  { intros Hno. apply IH; [|lia]. exact (best_of_skip _ _ _ _ _ HP Hno Hb). }
  assert (Hnone : tasks s !! Z.to_nat (candidate s a) = Some None ∨
                  tasks s !! Z.to_nat (candidate s a) = None → ∀ q, ¬ runnable_at s (candidate s a) q).
  { intros Hn q (t & Ht & _). destruct Hn; congruence. }
  fold (candidate s a). destruct (tasks s !! _) as [[t|]|] eqn:Ht; [|apply Hskip, Hnone; auto..].
  case_bool_decide as Hst; cbn [negb].
  2: { apply Hskip. intros q (t' & Ht' & ? & _). congruence. }
  assert (Hr : runnable_at s (candidate s a) (priority t)) by (exists t; done).
  assert (Hnew : (∀ st' q, 1 ≤ st' < a → runnable_at s (candidate s st') q → priority t < q) →
    best_of s (λ st, 1 ≤ st < a + 1) (Some (candidate s a, priority t))).
  { intros Hlt. exists a. split; [lia|]. split; [done|]. split; [done|]. intros st' q Hst' Hq.
    destruct (decide (st' = a)) as [->|].
    - right. split; [by eapply runnable_at_fun|lia].
    - left. eapply Hlt; [|done]. lia. }
  destruct best as [[c p]|]; simpl in Hb.
  - destruct Hb as (st & Hs & Hc & Hrc & Hmin). unfold outranks.
    destruct (Z.ltb_spec (priority t) p); cbn [negb]; (apply IH; [|lia]).
    + apply Hnew. intros st' q Hst' Hq. destruct (Hmin st' q Hst' Hq); lia.
    + exists st. split; [lia|]. split; [done|]. split; [done|]. intros st' q Hst' Hq.
      destruct (decide (st' = a)) as [->|]; [|apply Hmin; [lia|done]].
      pose proof (runnable_at_fun _ _ _ _ Hr Hq). lia.
  - apply IH; [|lia]. apply Hnew. intros st' q Hst' Hq. by destruct (Hb st' q Hst').
Qed.

Lemma candidate_range s st : 0 ≤ candidate s st < MAX_TASKS.
Proof. apply Z.mod_pos_bound. done. Qed.

(** Every slot is a candidate at exactly one step. *)
Lemma candidate_onto s c : 0 ≤ current s → slot_id c →
  ∃ st, 1 ≤ st ≤ MAX_TASKS ∧ candidate s st = c.
Proof.
  unfold slot_id, candidate, MAX_TASKS. intros H Hc.
  exists ((c - current s - 1) mod 8 + 1). zdiv.
Qed.

Lemma next_runnable_spec s :
  match next_runnable s with
  | Some c => ∃ p st, 1 ≤ st ≤ MAX_TASKS ∧ c = candidate s st ∧ runnable_at s c p ∧
      ∀ st' q, 1 ≤ st' ≤ MAX_TASKS → runnable_at s (candidate s st') q → p < q ∨ p = q ∧ st ≤ st'
  | None => ∀ st' q, 1 ≤ st' ≤ MAX_TASKS → ¬ runnable_at s (candidate s st') q
  end.
Proof.
  pose proof (next_runnable_loop_spec (Z.to_nat MAX_TASKS) 1 s None) as H.
  unfold next_runnable. change (range 1 (MAX_TASKS + 1)) with (range_from 1 (Z.to_nat MAX_TASKS)).
  unfold MAX_TASKS in *. simpl Z.of_nat in H. specialize (H ltac:(intros ??; lia) ltac:(lia)).
  destruct (next_runnable_loop _ s None) as [[c p]|]; simpl in *.
  - destruct H as (st & Hst & Hc & Hr & Hmin). exists p, st. split; [lia|]. split; [done|]. split; [done|].
    intros st' q Hst'. apply Hmin. lia.
  - intros st' q Hst'. apply H. lia.
Qed.

(** ** Runnable slots *)

Lemma runnable_slot k c : slot_id c → lengths_ok k →
  (∃ p, runnable_at (SCHEDULER k) c p) ↔ sl_state (slot_of k c) = Some Runnable.
Proof.
  intros Hc Hl. unfold sl_state. cbn. unfold task_at, task_list, runnable_at.
  destruct (lookup_lt_is_Some_2 (tasks (SCHEDULER k)) (Z.to_nat c)) as [o Ho].
  { pose proof (len_tasks _ Hl) as H8. unfold task_list in H8. rewrite H8. unfold slot_id, MAX_TASKS in Hc. lia. }
  rewrite Ho. split.
  - intros (p & t & [= ->] & Hs & _). simpl. congruence.
  - destruct o as [t|]; [|done]. intros [= Hs]. by exists (priority t), t.
Qed.

(** The boot task makes the choice total. *)
Lemma next_runnable_slot k :
  lengths_ok k → idle_ok (slot_of k) →
  ∃ c, next_runnable (SCHEDULER k) = Some c ∧ slot_id c ∧ sl_state (slot_of k c) = Some Runnable.
Proof.
  intros Hl (t0 & Ht0 & Hs0 & _). pose proof (next_runnable_spec (SCHEDULER k)) as H.
  destruct (next_runnable (SCHEDULER k)) as [c|].
  - destruct H as (p & st & _ & -> & Hr & _). pose proof (candidate_range (SCHEDULER k) st).
    exists (candidate (SCHEDULER k) st). split_and!; [done|done|].
    apply runnable_slot; eauto.
  - exfalso. destruct (candidate_onto (SCHEDULER k) 0) as (st & Hst & Hc).
    { apply (len_current _ Hl). }
    { done. }
    destruct (proj2 (runnable_slot k 0 ltac:(done) Hl)) as [p Hp].
    { unfold sl_state. rewrite Ht0. simpl. congruence. }
    apply (H st p Hst). by rewrite Hc.
Qed.

(** ** States with the same living tasks *)

(** Nothing changed but tasks that were and are not alive. *)
Record same_life (k k' : kernel) : Prop := {
  sf_lengths : lengths_ok k';
  sf_slot : ∀ t, slot_id t → ∃ o, slot_of k' t = with_task o (slot_of k t) ∧
    (o = sl_task (slot_of k t) ∨
     sl_alive (slot_of k t) = false ∧ sl_alive (with_task o (slot_of k t)) = false ∧ is_Some o)
}.

Lemma with_task_id s : with_task (sl_task s) s = s.
Proof. by destruct s. Qed.

Lemma same_life_refl k : lengths_ok k → same_life k k.
Proof. intros Hl. split; [done|]. intros t Ht. exists (sl_task (slot_of k t)). split; [by rewrite with_task_id|by left]. Qed.

Lemma same_slots_life k k' : same_slots k k' → same_life k k'.
Proof.
  intros [Hl _ Hs]. split; [done|]. intros t Ht. exists (sl_task (slot_of k t)).
  split; [by rewrite with_task_id, Hs|by left].
Qed.

Lemma same_life_alive k k' t : same_life k k' → slot_id t →
  sl_alive (slot_of k' t) = sl_alive (slot_of k t).
Proof.
  intros [_ H] Ht. destruct (H t Ht) as (o & -> & [->|(H1 & H2 & _)]); [by rewrite with_task_id|congruence].
Qed.

Lemma same_life_live k k' t : same_life k k' → slot_id t → sl_live (slot_of k t) → sl_live (slot_of k' t).
Proof.
  intros H Ht. pose proof (same_life_alive _ _ _ H Ht) as Ha. destruct (sf_slot _ _ H t Ht) as (o & He & _).
  apply live_same; [by rewrite He|by rewrite Ha].
Qed.

(** A living task is the same task. *)
Lemma same_life_task k k' t : same_life k k' → slot_id t → sl_alive (slot_of k t) = true →
  slot_of k' t = slot_of k t.
Proof.
  intros [_ H] Ht Hal. destruct (H t Ht) as (o & -> & [->|(H1 & H2 & _)]); [by rewrite with_task_id|congruence].
Qed.

Lemma same_life_trans k k1 k2 : same_life k k1 → same_life k1 k2 → same_life k k2.
Proof.
  intros H1 [Hl2 H2]. split; [done|]. intros t Ht.
  pose proof (same_life_alive _ _ _ H1 Ht) as Ha1. destruct H1 as [_ H1].
  destruct (H1 t Ht) as (o1 & He1 & Ho1), (H2 t Ht) as (o2 & He2 & Ho2).
  rewrite He1 in *. exists o2. split; [by rewrite He2|]. destruct Ho2 as [->|(Hb1 & Hb2 & ?)].
  - destruct Ho1 as [->|(? & ? & ?)]; [by left|right; done].
  - right. rewrite Ha1 in Hb1. done.
Qed.

Lemma settled_life gone k k' t c :
  same_life k k' → slot_id t → settled gone (slot_of k) t c → settled gone (slot_of k') t c.
Proof.
  intros H Ht [H1 H2 H3 H4 H5 H6]. pose proof (same_life_alive _ _ t H Ht) as Hal.
  assert (Hst : sl_state (slot_of k t) = Some Blocked → slot_of k' t = slot_of k t).
  { intros Hb. apply same_life_task; [done|done|]. unfold sl_alive. by rewrite Hb. }
  destruct (sf_slot _ _ H t Ht) as (o & He & _).
  split; rewrite ?He; try done.
  - intros m Hm. destruct (H4 m Hm) as (? & Hb & Hs & ? & Ha). rewrite <-He, Hst by done.
    split_and!; try done; try apply Hs. destruct Ha as [Ha|Ha]; [left|by right].
    by eapply same_life_live.
  - intros Hf. apply H6. rewrite <-Hal, He. exact Hf.
Qed.

Lemma others_life gone k k' my : same_life k k' → others_ok gone k my → others_ok gone k' my.
Proof.
  intros H [Hl (t0 & Ht0 & Hs0 & Hsp0) Hmy Hc Ho]. split; [apply H| |done| |].
  - exists t0. rewrite (same_life_task k k' 0); [done|done|done|].
    unfold sl_alive, sl_state. rewrite Ht0. simpl. by rewrite Hs0.
  - intros t Ht Hx. rewrite (same_life_alive _ _ _ H Ht). apply Hc; [done|].
    destruct (sf_slot _ _ H t Ht) as (o & He & _). by rewrite He in Hx.
  - intros t Ht Hne. destruct (sf_slot _ _ H t Ht) as (o & He & _).
    replace (sl_ctx (slot_of k' t)) with (sl_ctx (slot_of k t)) by (by rewrite He).
    apply settled_life with k; auto.
Qed.

(** ** Reaping and switching *)

Lemma task_at_lookup k i : lengths_ok k → slot_id i → task_list k !! Z.to_nat i = Some (task_at k i).
Proof.
  intros Hl Hi. unfold task_at.
  destruct (lookup_lt_is_Some_2 (task_list k) (Z.to_nat i)) as [o Ho]; [|by rewrite Ho].
  rewrite (len_tasks _ Hl). unfold slot_id, MAX_TASKS in Hi. lia.
Qed.

Lemma pc_salvage k :
  lengths_ok k → pc salvage k (λ _ k', same_life k k' ∧ me k' = me k).
Proof.
  intros Hl. unfold pc, salvage.
  destruct (list_find _ (task_list k)) as [[i [t|]]|] eqn:Hf;
    try (split; [by apply same_life_refl|done]).
  apply list_find_Some in Hf as (Hi & Hz & _).
  destruct (negb _); [|split; [by apply same_life_refl|done]].
  split; [|done]. injection Hz as Hz.
  assert (Hi8 : (i < 8)%nat) by (apply lookup_lt_Some in Hi; by rewrite (len_tasks _ Hl) in Hi).
  split; [destruct Hl; lengths|]. intros u Hu.
  destruct (decide (u = Z.of_nat i)) as [->|Hne].
  - exists (Some (with_space None (with_state Dead t))). split.
    + unfold slot_of, task_at. cbn. rewrite Nat2Z.id, list_lookup_insert_eq; [done|].
      change (task_list k) with (task_list k) in Hi. rewrite (len_tasks _ Hl). done.
    + right. unfold sl_alive, sl_state. cbn. unfold task_at. rewrite Nat2Z.id, Hi. simpl.
      rewrite Hz. split_and!; [done|done|by eexists].
  - exists (task_at k u). split; [|by left]. unfold slot_of, task_at. cbn.
    rewrite list_lookup_insert_ne; [done|]. unfold slot_id in Hu. lia.
Qed.

Lemma pc_reap k : lengths_ok k → pc reap_zombies k (λ _ k', same_life k k' ∧ me k' = me k).
Proof.
  unfold reap_zombies. generalize (S (Z.to_nat MAX_TASKS)) as n. intros n. revert k.
  induction n as [|n IH]; intros k Hl; cbn [reap_loop]; [done|].
  pc_step. eapply pc_mono; [by apply pc_salvage|]. intros s k1 [H1 Hm1].
  destruct s as [[st sp]|]; [|by pc_step].
  pose proof (sf_lengths _ _ H1) as Hl1.
  pc_step. eapply (pc_mono _ _ (λ _ k2, same_slots k1 k2)).
  { destruct st; [by apply pc_with_mach|pc_step; by apply same_slots_refl]. }
  intros _ k2 H2. pc_step. eapply (pc_mono _ _ (λ _ k3, same_slots k2 k3)).
  { destruct sp; [apply pc_with_mach; [apply H2|done]|pc_step; apply same_slots_refl, H2]. }
  intros _ k3 H3. eapply pc_mono; [apply IH, H3|]. intros _ k4 [H4 Hm4].
  split; [|rewrite Hm4, (ss_me _ _ H3), (ss_me _ _ H2); done].
  eapply same_life_trans; [exact H1|]. eapply same_life_trans; [apply same_slots_life, H2|].
  eapply same_life_trans; [apply same_slots_life, H3|done].
Qed.

Lemma pc_empty_root k Q : (∀ r, Q r k) → pc empty_space_root k Q.
Proof. intros HQ. unfold empty_space_root. pc_steps. apply HQ. Qed.

Lemma pc_switch reason k :
  lengths_ok k → idle_ok (slot_of k) → is_Some (sl_task (slot_of k (me k))) →
  pc (switch_to_next reason) k (λ b k', same_life k k' ∧
    sl_state (slot_of k' (me k')) = Some Runnable ∧
    (b = false → me k' = me k) ∧ (b = true → me k' ≠ me k)).
Proof.
  intros Hl Hidle Hcur. unfold switch_to_next. pc_step.
  eapply pc_mono; [by apply pc_reap|]. intros _ k1 [H1 Hm1].
  pose proof (sf_lengths _ _ H1) as Hl1. pc_step. pc_step. pc_step. apply pc_index. intros here Hhere.
  rewrite task_at_lookup in Hhere by (done || apply (len_current _ Hl1)). injection Hhere as Hhere.
  assert (Hidle1 : idle_ok (slot_of k1)).
  { destruct Hidle as (t0 & Ht0 & Hs0 & Hsp0). exists t0. rewrite (same_life_task k k1 0); [done|done|done|].
    unfold sl_alive, sl_state. rewrite Ht0. simpl. by rewrite Hs0. }
  destruct here as [t|].
  2: { exfalso. destruct (sf_slot _ _ H1 (me k) (len_current _ Hl)) as (o & He & Ho).
       assert (Hn : sl_task (slot_of k1 (me k)) = None) by (rewrite <-Hm1; done).
       rewrite He in Hn. cbn in Hn. subst o. destruct Ho as [Ho|(_ & _ & Hs)].
       - rewrite <-Ho in Hcur. by destruct Hcur.
       - by apply is_Some_None in Hs. }
  destruct (next_runnable_slot k1 Hl1 Hidle1) as (c & Hc & Hcs & Hcr).
  pc_step. apply pc_expectM. intros next Hnext. rewrite Hc in Hnext. injection Hnext as <-.
  destruct (Z.eqb_spec c (me k1)) as [->|Hne].
  { pc_step. split_and!; [done|done|done|done]. }
  pc_steps. apply pc_index. intros inc Hinc. pc_steps.
  set (k2 := set_SWITCH_LOG _ _).
  assert (H2 : same_life k1 k2).
  { split; [destruct Hl1; by split|]. intros u Hu. exists (task_at k1 u). split; [done|by left]. }
  assert (Hgoal : ∀ r, same_life k (set_ttbr0 r k2) ∧
    sl_state (slot_of (set_ttbr0 r k2) (me (set_ttbr0 r k2))) = Some Runnable ∧
    (true = false → me (set_ttbr0 r k2) = me k) ∧ (true = true → me (set_ttbr0 r k2) ≠ me k)).
  { intros r. split; [|split; [exact Hcr|split; [done|]]].
    - eapply same_life_trans; [exact H1|]. eapply same_life_trans; [exact H2|].
      split; [destruct (sf_lengths _ _ H2); by split|]. intros u Hu. exists (task_at k2 u). split; [done|by left].
    - intros _. change (c ≠ me k). by rewrite <-Hm1. }
  destruct (space _).
  - pc_step. unfold activate_root. pc_steps. apply Hgoal.
  - apply pc_empty_root. intros r. unfold activate_root. pc_steps. apply Hgoal.
Qed.

(** [switch_to_next] by a task that cannot go on always moves the CPU. *)
Lemma pc_switch_away reason k gone my :
  others_ok gone k my → me k = my → is_Some (sl_task (slot_of k my)) →
  sl_state (slot_of k my) ≠ Some Runnable →
  pc (switch_to_next reason) k (λ b k', b = true ∧ same_life k k' ∧
    sl_state (slot_of k' (me k')) = Some Runnable).
Proof.
  intros [Hl Hi Hmy _ _] Hme Hs Hst. eapply pc_mono; [apply pc_switch; [done|done|by rewrite Hme]|].
  intros b k' (Hlife & Hrun & Hf & _). split_and!; [|done|done]. destruct b; [done|].
  exfalso. apply Hst. rewrite Hf, Hme in Hrun by done.
  assert (Hal : sl_alive (slot_of k' my) = true) by (unfold sl_alive; by rewrite Hrun).
  rewrite (same_life_alive _ _ _ Hlife Hmy) in Hal. by rewrite <-(same_life_task _ _ _ Hlife Hmy Hal).
Qed.

(** ** Blocking and waking *)

Lemma pc_mark_blocked k Q t :
  lengths_ok k → sl_task (slot_of k (me k)) = Some t →
  (∀ k', touches_slot k k' (me k) (with_task (Some (with_state Blocked t)) (slot_of k (me k))) → Q tt k') →
  pc mark_current_blocked k Q.
Proof.
  intros Hl Ht HQ. unfold mark_current_blocked, update_current. pc_steps.
  apply pc_index. intros o Ho. rewrite task_at_lookup in Ho by (done || apply (len_current _ Hl)).
  injection Ho as <-. cbn in Ht. rewrite Ht. apply pc_store_task; [done|apply (len_current _ Hl)|done].
Qed.

Lemma task_at_some k id t : lengths_ok k → 0 ≤ id → task_at k id = Some t → slot_id id.
Proof.
  intros Hl H0 Ht. unfold task_at in Ht. destruct (task_list k !! Z.to_nat id) eqn:He; [|done].
  apply lookup_lt_Some in He. rewrite (len_tasks _ Hl) in He. unfold slot_id, MAX_TASKS. lia.
Qed.

(** [unblock_deferred]: a blocked task becomes runnable, and nothing else. *)
Lemma pc_unblock_deferred k id Q :
  lengths_ok k → 0 ≤ id →
  (sl_state (slot_of k id) ≠ Some Blocked → Q false k) →
  (∀ t b k', slot_id id → sl_task (slot_of k id) = Some t → state t = Blocked →
     touches_slot k k' id (with_task (Some (with_state Runnable t)) (slot_of k id)) → Q b k') →
  pc (unblock_deferred id) k Q.
Proof.
  intros Hl H0 HN HS. unfold unblock_deferred. pc_steps. apply pc_index. intros o Ho.
  destruct (task_at k id) as [t|] eqn:Ht.
  2: { pc_step. apply HN. unfold sl_state. cbn. by rewrite Ht. }
  case_bool_decide as Hb.
  - pc_step. pose proof (task_at_some _ _ _ Hl H0 Ht) as Hid.
    apply pc_store_task; [done|done|]. intros k' Hk'. pc_step. by eapply HS.
  - pc_step. apply HN. unfold sl_state. cbn. rewrite Ht. simpl. congruence.
Qed.

(** ** [best_sender] *)

Definition sends_to (k : kernel) (tgt s p : Z) : Prop :=
  ∃ m, pending_at k s = Some (SendWait m) ∧ target m = tgt ∧ priority_of k s = Some p.

(** [best] is the best of the senders among the slots [P]. *)
Definition best_send (k : kernel) (tgt : Z) (P : Z → Prop) (best : option (Z * Z)) : Prop :=
  match best with
  | Some (s, p) => P s ∧ sends_to k tgt s p ∧
      ∀ s' q, P s' → sends_to k tgt s' q → p < q ∨ p = q ∧ s ≤ s'
  | None => ∀ s' q, P s' → ¬ sends_to k tgt s' q
  end.

Lemma best_sender_loop_spec n a k tgt best :
  best_send k tgt (λ s, 0 ≤ s < a) best → 0 ≤ a →
  best_send k tgt (λ s, 0 ≤ s < a + Z.of_nat n) (best_sender_loop (range_from a n) k tgt best).
Proof.
  revert a best. induction n as [|n IH]; intros a best Hb Ha; cbn [range_from best_sender_loop].
  { by replace (a + Z.of_nat 0) with a by lia. }
  replace (a + Z.of_nat (S n)) with (a + 1 + Z.of_nat n) by lia.
  assert (Hskip : (∀ q, ¬ sends_to k tgt a q) →
    best_send k tgt (λ s, 0 ≤ s < a + 1 + Z.of_nat n) (best_sender_loop (range_from (a + 1) n) k tgt best)).
  { intros Hno. apply IH; [|lia]. destruct best as [[s p]|]; simpl in *.
    - destruct Hb as (Hs & Hsend & Hmin). split; [lia|]. split; [done|]. intros s' q Hs' Hq.
      destruct (decide (s' = a)) as [->|]; [by destruct (Hno q)|]. apply Hmin; [lia|done].
    - intros s' q Hs' Hq. destruct (decide (s' = a)) as [->|]; [by destruct (Hno q)|]. eapply Hb; [|done]. lia. }
  destruct (pending_at k a) as [[m|m|b c]|] eqn:Hp;
    try (apply Hskip; intros q (m' & Hm' & _); congruence).
  destruct (Z.eqb_spec (target m) tgt) as [Htg|Htg]; cbn [negb].
  2: { apply Hskip. intros q (m' & Hm' & ? & _). congruence. }
  destruct (priority_of k a) as [p|] eqn:Hpr.
  2: { apply Hskip. intros q (m' & _ & _ & ?). congruence. }
  assert (Hsend : sends_to k tgt a p) by (exists m; done).
  assert (Hfun : ∀ q, sends_to k tgt a q → p = q) by (intros q (? & _ & _ & ?); congruence).
  assert (Hnew : (∀ s' q, 0 ≤ s' < a → sends_to k tgt s' q → p < q) →
    best_send k tgt (λ s, 0 ≤ s < a + 1) (Some (a, p))).
  { intros Hlt. simpl. split; [lia|]. split; [done|]. intros s' q Hs' Hq.
    destruct (decide (s' = a)) as [->|]; [right; split; [by apply Hfun|lia]|left; eapply Hlt; [|done]; lia]. }
  destruct best as [[s bp]|]; simpl in Hb.
  - destruct Hb as (Hs & Hss & Hmin). unfold outranks.
    destruct (Z.ltb_spec p bp); cbn [negb]; (apply IH; [|lia]).
    + apply Hnew. intros s' q Hs' Hq. destruct (Hmin s' q Hs' Hq); lia.
    + simpl. split; [lia|]. split; [done|]. intros s' q Hs' Hq.
      destruct (decide (s' = a)) as [->|]; [rewrite <-(Hfun q Hq); lia|apply Hmin; [lia|done]].
  - apply IH; [|lia]. apply Hnew. intros s' q Hs' Hq. by destruct (Hb s' q Hs').
Qed.

Lemma best_sender_spec k tgt :
  match best_sender k tgt with
  | Some s => ∃ p, slot_id s ∧ sends_to k tgt s p ∧
      ∀ s' q, slot_id s' → sends_to k tgt s' q → p < q ∨ p = q ∧ s ≤ s'
  | None => ∀ s' q, slot_id s' → ¬ sends_to k tgt s' q
  end.
Proof.
  pose proof (best_sender_loop_spec (Z.to_nat MAX_TASKS) 0 k tgt None) as H.
  unfold best_sender. change (range 0 MAX_TASKS) with (range_from 0 (Z.to_nat MAX_TASKS)).
  unfold slot_id, MAX_TASKS in *. simpl Z.of_nat in H. specialize (H ltac:(intros ??; lia) ltac:(lia)).
  destruct (best_sender_loop _ k tgt None) as [[s p]|]; simpl in *; [|done].
  by exists p.
Qed.
