(* ===== verification/CallInv.v ===== *)
(** * CallInv: every kernel call keeps the invariant

    [call_done] for each entry of [syscall::dispatch] and each continuation of
    [resume], from the invariant with the caller inside the kernel. *)

From S2P Require Import Prelude Memory Frames FramesBoot Paging Kernel Sched Notify Ipc Tasks Syscall.
From S2P Require Import KernelInv SchedSpec.

(** ** Building blocks *)

Lemma touches_then k k1 k2 i s1 s2 :
  slot_id i → touches_slot k k1 i s1 → touches_slot k1 k2 i s2 → touches_slot k k2 i s2.
Proof.
  intros Hi [_ Hm1 H1] [Hl Hm2 H2]. split; [done|congruence|].
  intros t Ht. rewrite H2, H1 by done. by case_decide.
Qed.

Lemma touches_same k k1 k2 i s :
  touches_slot k k1 i s → same_slots k1 k2 → touches_slot k k2 i s.
Proof.
  intros [_ Hm1 H1] [Hl Hm2 H2]. split; [done|congruence|]. intros t Ht. by rewrite H2, H1.
Qed.

Lemma same_touches k k1 k2 i s :
  same_slots k k1 → touches_slot k1 k2 i s → touches_slot k k2 i s.
Proof.
  intros [_ Hm1 H1] [Hl Hm2 H2]. split; [done|congruence|]. intros t Ht. by rewrite H2, H1.
Qed.

Lemma touched k k' i s : touches_slot k k' i s → slot_id i → slot_of k' i = s.
Proof. intros [_ _ H] Hi. rewrite H by done. by rewrite decide_True. Qed.

Lemma untouched k k' i s t : touches_slot k k' i s → slot_id t → t ≠ i → slot_of k' t = slot_of k t.
Proof. intros [_ _ H] Ht Hne. rewrite H by done. by rewrite decide_False. Qed.

Lemma pending_slot k i Q : lengths_ok k → slot_id i →
  Q (sl_pending (slot_of k i)) k → pc (pending_of i) k Q.
Proof.
  intros Hl Hi HQ. unfold pending_of. pc_steps. apply pc_index. intros p Hp.
  cbn in HQ. unfold pending_at in HQ. by rewrite Hp in HQ.
Qed.

Lemma settled_running gone v t :
  settled gone v t Running →
  sl_pending (v t) = None ∧ sl_wanted (v t) = 0 ∧ sl_waiter (v t) = false ∧ sl_leased (v t) = 0.
Proof.
  intros [H1 H2 H3 H4 H5 _].
  assert (Hp : sl_pending (v t) = None).
  { destruct (sl_pending (v t)) as [[m|m|b n]|]; [..|done].
    - destruct (H4 m eq_refl) as ([|] & _); done.
    - destruct (H4 m eq_refl) as ([|] & _); done.
    - by destruct (H3 b n eq_refl) as (? & ? & ? & ?). }
  split_and!; [done| | |].
  - destruct (decide (sl_wanted (v t) = 0)) as [|Hw]; [done|]. by destruct (H1 Hw) as (? & ? & ? & ?).
  - destruct (sl_waiter (v t)); [|done]. by specialize (H2 eq_refl).
  - destruct (decide (sl_leased (v t) = 0)) as [|Hn]; [done|]. by destruct (H5 Hn); rewrite Hp.
Qed.

(** A task that waits for nothing is settled in any context. *)
Lemma settled_plain gone v t c :
  sl_pending (v t) = None → sl_wanted (v t) = 0 → sl_waiter (v t) = false → sl_leased (v t) = 0 →
  settled gone v t c.
Proof. intros Hp Hw Hf Hl. split; rewrite ?Hp, ?Hw, ?Hf, ?Hl; done. Qed.

Lemma pc_deliver_outcome k i rc len Q :
  lengths_ok k → slot_id i →
  (∀ k', touches_slot k k' i (with_leased 0 (with_pending None (slot_of k i))) → Q tt k') →
  pc (deliver_outcome i rc len) k Q.
Proof.
  intros Hl Hi HQ. unfold deliver_outcome. pc_step. apply pc_store_outcome; [done|]. intros k1 H1.
  pc_step. apply pc_store_pending; [apply H1|done|]. intros k2 H2.
  pc_step. apply pc_store_lease_count; [apply H2|done|]. intros k3 H3.
  apply pc_store_leases; [apply H3|]. intros k4 H4. apply HQ.
  eapply touches_same; [|exact H4]. eapply touches_then; [done| |].
  - eapply same_touches; [exact H1|exact H2].
  - rewrite (touched _ _ _ _ H2 Hi), (ss_slot _ _ H1) in H3 by done. exact H3.
Qed.

(** Clearing what another task waits for, and waking it if it was blocked. *)
Lemma others_clear gone k k' my i o :
  others_ok gone k my → i ≠ my → slot_id i → i ≠ 0 →
  touches_slot k k' i (with_task o (with_leased 0 (with_pending None (slot_of k i)))) →
  sl_alive (slot_of k i) = sl_alive (with_task o (slot_of k i)) →
  others_ok gone k' my.
Proof.
  intros Ho Hne Hi H0 Ht Hal. pose proof (oo_others _ _ _ Ho i Hi Hne) as [S1 S2 S3 S4 S5 S6].
  eapply others_other_same; [done|done|done|done|done|by rewrite Hal|done|].
  - pose proof (touched _ _ _ _ Ht Hi) as He. split; rewrite ?He; cbn; try done.
    intros Hf. split; [done|]. apply S6. rewrite Hal. exact Hf.
Qed.

(** The boot task never waits. *)
Lemma idle_not_blocked gone k my : others_ok gone k my → sl_state (slot_of k 0) = Some Runnable.
Proof. intros [_ (t & Ht & Hs & _) _ _]. unfold sl_state. rewrite Ht. simpl. congruence. Qed.

Lemma blocked_not_idle gone k my i : others_ok gone k my → sl_state (slot_of k i) = Some Blocked → i ≠ 0.
Proof. intros Ho Hb ->. rewrite (idle_not_blocked _ _ _ Ho) in Hb. done. Qed.

(** ** [abandon] *)

Section abandon.
Context (g my : Z) (Hg : slot_id g).
Let but : Z → Prop := λ u, u = g.

(** One round of the loop: slot [i] no longer waits on [g]. *)
Lemma abandon_round k i :
  others_ok but k my → sl_pending (slot_of k my) = None → slot_id i → me k = my →
  pc (if i =? g then mret tt else
      p ← pending_of i;
      if waiting_on g p then
        _ ← deliver_outcome i EDEAD 0; _ ← unblock_deferred i; mret tt
      else mret tt) k
    (λ _ k', others_ok but k' my ∧ me k' = my ∧ slot_of k' my = slot_of k my ∧
       (i ≠ g → waiting_on g (sl_pending (slot_of k' i)) = false) ∧
       ∀ t, slot_id t → t ≠ i → slot_of k' t = slot_of k t).
Proof.
  intros Ho Hp Hi Hme. pose proof (oo_lengths _ _ _ Ho) as Hl. pose proof (oo_my _ _ _ Ho) as Hmy.
  destruct (Z.eqb_spec i g) as [->|Hne]; [by pc_step|]. pc_step. apply pending_slot; [done|done|].
  destruct (waiting_on g (sl_pending (slot_of k i))) eqn:Hw.
  2: { pc_step. by split_and!. }
  assert (Him : i ≠ my) by (intros ->; by rewrite Hp in Hw).
  assert (Hb : sl_state (slot_of k i) = Some Blocked).
  { destruct (sl_pending (slot_of k i)) as [[m|m|b n]|] eqn:Hpi; try done;
      by destruct (st_send _ _ _ _ (oo_others _ _ _ Ho i Hi Him) m) as (_ & ? & _); [rewrite Hpi|]. }
  pose proof (blocked_not_idle _ _ _ _ Ho Hb) as Hi0.
  pc_step. apply pc_deliver_outcome; [done|done|]. intros k1 H1. pose proof (touched _ _ _ _ H1 Hi) as He1.
  pc_step. apply pc_unblock_deferred; [apply H1|unfold slot_id in Hi; lia| |].
  { intros Hnb. rewrite He1 in Hnb. done. }
  intros t b k2 _ Ht Hbt H2. pc_step. rewrite He1 in H2, Ht.
  pose proof (touches_then _ _ _ _ _ _ Hi H1 H2) as H3.
  split_and!.
  - eapply others_clear; [done|done|done|done|exact H3|].
    unfold sl_alive. rewrite Hb. done.
  - by rewrite (ts_me _ _ _ _ H2), (ts_me _ _ _ _ H1).
  - by apply (untouched _ _ _ _ _ H3).
  - by rewrite (touched _ _ _ _ H3 Hi).
  - intros u Hu Hui. by apply (untouched _ _ _ _ _ H3).
Qed.

Lemma pc_abandon k Q :
  others_ok but k my → me k = my → sl_pending (slot_of k my) = None → sl_leased (slot_of k my) = 0 →
  (∀ k', others_ok nobody k' my → me k' = my → slot_of k' my = slot_of k my → Q tt k') →
  pc (abandon g) k Q.
Proof.
  intros Ho Hme Hp Hlz HQ. unfold abandon. pc_step.
  apply (pc_forM_done _ _ (λ done k', others_ok but k' my ∧ me k' = my ∧ slot_of k' my = slot_of k my ∧
    ∀ t, t ∈ done → slot_id t → t ≠ g → waiting_on g (sl_pending (slot_of k' t)) = false)).
  { split_and!; [done|done|done|]. intros t Ht. by apply elem_of_nil in Ht. }
  { intros dn i k1 Hi%elem_of_range (Ho1 & Hme1 & Hs1 & Hd1).
    eapply pc_mono; [apply abandon_round; [done|by rewrite Hs1|done|done]|].
    intros _ k2 (Ho2 & Hme2 & Hs2 & Hi2 & Hr2). split_and!; [done|done|congruence|].
    intros t [Ht|Ht%list_elem_of_singleton]%elem_of_app Hts Htg.
    - destruct (decide (t = i)) as [->|]; [by apply Hi2|]. rewrite Hr2 by done. by apply Hd1.
    - subst. by apply Hi2. }
  intros k1 (Ho1 & Hme1 & Hs1 & Hd1).
  assert (Hd : ∀ t, slot_id t → t ≠ g → waiting_on g (sl_pending (slot_of k1 t)) = false).
  { intros t Ht. apply Hd1; [|done]. by apply elem_of_range. }
  pose proof (oo_lengths _ _ _ Ho1) as Hl1. pose proof (oo_my _ _ _ Ho1) as Hmy.
  pc_step. apply pc_store_pending; [done|done|]. intros k2 H2.
  apply pc_store_lease_count; [apply H2|done|]. intros k3 H3.
  rewrite (touched _ _ _ _ H2 Hg) in H3. pose proof (touches_then _ _ _ _ _ _ Hg H2 H3) as H4.
  assert (Hnew : slot_of k3 my = slot_of k my).
  { destruct (decide (my = g)) as [->|Hne].
    - rewrite (touched _ _ _ _ H4 Hg), Hs1. destruct (slot_of k g); simpl in *; by subst.
    - by rewrite (untouched _ _ _ _ _ H4). }
  apply HQ; [|by rewrite (ts_me _ _ _ _ H4)|done].
  assert (Hal : ∀ u, slot_id u → sl_alive (slot_of k3 u) = sl_alive (slot_of k1 u)).
  { intros u Hu. rewrite (ts_slot _ _ _ _ H4) by done. by case_decide; subst. }
  assert (Hcx : ∀ u, slot_id u → sl_ctx (slot_of k3 u) = sl_ctx (slot_of k1 u)).
  { intros u Hu. rewrite (ts_slot _ _ _ _ H4) by done. by case_decide; subst. }
  split; [apply H4| |done| |].
  - destruct (oo_idle _ _ _ Ho1) as (t0 & Ht0 & ?). exists t0. rewrite (ts_slot _ _ _ _ H4) by done.
    by case_decide as Hd0; [rewrite <-Hd0|].
  - intros t Ht. rewrite Hcx, Hal by done. by apply (oo_cut _ _ _ Ho1).
  - intros t Ht Hne. pose proof (oo_others _ _ _ Ho1 t Ht Hne) as [S1 S2 S3 S4 S5 S6].
    specialize (Hd t Ht). rewrite <-(Hal t Ht) in S6.
    destruct (decide (t = g)) as [->|Htg].
    + pose proof (touched _ _ _ _ H4 Hg) as He. split; rewrite ?He; cbn; try done.
      intros Hf. split; [done|]. apply S6. rewrite He. exact Hf.
    + pose proof (untouched _ _ _ _ _ H4 Ht Htg) as He. rewrite <-He in *.
      split; try done. intros m Hm. destruct (S4 m Hm) as (? & ? & Hs & ? & Ha).
      split_and!; try done; try apply Hs. left. destruct Ha as [Ha|Ha]; [eapply live_same; [by apply Hcx|by rewrite Hal|exact Ha]|].
      exfalso. unfold but in Ha. specialize (Hd Htg).
      destruct (sl_pending (slot_of k3 t)) as [[m'|m'|b n]|]; simpl in Hm; try done;
        injection Hm as ->; simpl in Hd; by rewrite Ha, Z.eqb_refl in Hd.
Qed.

End abandon.

(** ** The caller *)

(** [my] is inside the kernel on its own account, and waits for nothing. *)
Record in_call (my : Z) (k : kernel) : Prop := {
  ic_others : others_ok nobody k my;
  ic_me : me k = my;
  ic_run : sl_state (slot_of k my) = Some Runnable;
  ic_pending : sl_pending (slot_of k my) = None;
  ic_wanted : sl_wanted (slot_of k my) = 0;
  ic_waiter : sl_waiter (slot_of k my) = false;
  ic_leased : sl_leased (slot_of k my) = 0
}.

(** [my] has blocked, and the continuation [c] is on its stack. *)
Record parked (my : Z) (c : kont) (k : kernel) : Prop := {
  pk_others : others_ok nobody k my;
  pk_me : me k = my;
  pk_state : sl_state (slot_of k my) = Some Blocked;
  pk_settled : settled nobody (slot_of k) my (Inside c)
}.

Lemma in_call_lengths my k : in_call my k → lengths_ok k.
Proof. intros [[] ? ? ? ? ? ?]. done. Qed.

Lemma in_call_id my k : in_call my k → slot_id my.
Proof. intros [[] ? ? ? ? ? ?]. done. Qed.

Lemma in_call_same my k k' : same_slots k k' → in_call my k → in_call my k'.
Proof.
  intros Hs Hc. pose proof (in_call_id _ _ Hc) as Hid. destruct Hc as [Ho Hm Hr Hp Hw Hf Hl].
  pose proof (ss_slot _ _ Hs my Hid) as He.
  split; rewrite ?He; try assumption; [by eapply others_same|]. by rewrite (ss_me _ _ Hs).
Qed.

Lemma in_call_settled my k c : in_call my k → settled nobody (slot_of k) my c.
Proof. intros []. by apply settled_plain. Qed.

Lemma in_call_done my k v : in_call my k → call_done my (Ret v) k.
Proof.
  intros Hc. split; [apply Hc| |by apply in_call_settled|intros; apply Hc].
  rewrite (ic_me _ _ Hc). apply Hc.
Qed.

Lemma in_call_task my k : in_call my k → ∃ t, sl_task (slot_of k my) = Some t ∧ state t = Runnable.
Proof.
  intros Hc. pose proof (ic_run _ _ Hc) as Hr. unfold sl_state in Hr.
  destruct (sl_task (slot_of k my)) as [t|]; [|done]. exists t. split; [done|]. by injection Hr.
Qed.

(** Between calls everybody but the current task is settled, in particular. *)
Lemma inv_others k : kernel_inv k → others_ok nobody k (me k).
Proof.
  intros [Hl Hi Hcur Hcut Hs]. split; [done|done|apply (len_current _ Hl)| |auto].
  intros t Ht Hc. split; [|by apply Hcut]. intros ->. specialize (Hcut _ Ht Hc).
  unfold sl_alive in Hcut. by rewrite Hcur in Hcut.
Qed.

(** A task that came back from user mode, or from a switch it was not waiting
    in, is in a call. *)
Lemma inv_in_call k c : kernel_inv k → sl_ctx (slot_of k (me k)) = c →
  ¬ is_recv_wake c → c ≠ Inside KFaultWait → in_call (me k) k.
Proof.
  intros Hk Hc Hn1 Hn2. pose proof (inv_others _ Hk) as Ho. destruct Hk as [Hl Hi Hcur _ Hs]. pose proof (len_current _ Hl) as Hid.
  destruct (Hs (me k) Hid) as [S1 S2 S3 S4 S5 S6]. rewrite Hc in *.
  assert (Hp : sl_pending (slot_of k (me k)) = None).
  { destruct (sl_pending (slot_of k (me k))) as [[m|m|b n]|]; [| | |done].
    - destruct (S4 m eq_refl) as (_ & Hb & _). congruence.
    - destruct (S4 m eq_refl) as (_ & Hb & _). congruence.
    - destruct (Hn1 (S3 b n eq_refl)). }
  split; [done|done|done|done| | |].
  - destruct (decide (sl_wanted (slot_of k (me k)) = 0)) as [|Hw]; [done|]. destruct (Hn1 (S1 Hw)).
  - destruct (sl_waiter (slot_of k (me k))) eqn:Hf; [|done]. destruct (Hn2 (S2 eq_refl)).
  - destruct (decide (sl_leased (slot_of k (me k)) = 0)) as [|Hn]; [done|].
    destruct (S5 Hn). by rewrite Hp.
Qed.

(** Whatever its context, only what it waited for is left to put away. *)
Lemma inv_waiting k c : kernel_inv k → sl_ctx (slot_of k (me k)) = c →
  others_ok nobody k (me k) ∧ waiting_msg (sl_pending (slot_of k (me k))) = None ∧
  sl_leased (slot_of k (me k)) = 0.
Proof.
  intros Hk Hc. pose proof (inv_others _ Hk) as Ho. destruct Hk as [Hl Hi Hcur _ Hs]. pose proof (len_current _ Hl) as Hid.
  destruct (Hs (me k) Hid) as [S1 S2 S3 S4 S5 S6].
  assert (Hw : waiting_msg (sl_pending (slot_of k (me k))) = None).
  { destruct (waiting_msg _) as [m|] eqn:Hm; [|done]. destruct (S4 m eq_refl) as (_ & Hb & _). congruence. }
  split; [done|]. split; [done|].
  destruct (decide (sl_leased (slot_of k (me k)) = 0)) as [|Hn]; [done|]. by destruct (S5 Hn).
Qed.

(** *** Switching away *)

Lemma done_life my c k k' :
  others_ok nobody k my → settled nobody (slot_of k) my (Inside c) → same_life k k' →
  sl_state (slot_of k' (me k')) = Some Runnable → call_done my (Sus c) k'.
Proof.
  intros Ho Hs Hlife Hrun. split; [by eapply others_life|done| |done].
  eapply settled_life; [done|apply Ho|done].
Qed.

Lemma in_call_life my k k' : in_call my k → same_life k k' → me k' = me k → in_call my k'.
Proof.
  intros Hc Hlife Hm. pose proof (in_call_id _ _ Hc) as Hid.
  assert (He : slot_of k' my = slot_of k my).
  { apply same_life_task; [done|done|]. unfold sl_alive. by rewrite (ic_run _ _ Hc). }
  destruct Hc as [Ho Hme Hr Hp Hw Hf Hl].
  split; rewrite ?He; try assumption; [by eapply others_life|congruence].
Qed.

Lemma pc_switch_call my reason k : in_call my k →
  pc (switch_to_next reason) k (λ b k', if b : bool then ∀ c, call_done my (Sus c) k' else in_call my k').
Proof.
  intros Hc. destruct (in_call_task _ _ Hc) as (t & Ht & _). pose proof (ic_me _ _ Hc) as Hme.
  eapply pc_mono; [apply pc_switch; [by eapply in_call_lengths|apply Hc|by rewrite Hme, Ht]|].
  intros b k' (Hlife & Hrun & Hf & _). destruct b.
  - intros c. eapply done_life; [apply Hc|by apply in_call_settled|done|done].
  - eapply in_call_life; [done|done|by apply Hf].
Qed.

Lemma pc_park_blocked my c k : parked my c k →
  pc park k (λ b k', b = true ∧ call_done my (Sus c) k').
Proof.
  intros [Ho Hme Hb Hs]. unfold park. pc_step. pc_step. pc_step. apply pc_index. intros o Hget.
  rewrite Hme in Hget. rewrite task_at_lookup in Hget by apply Ho. injection Hget as Hget.
  unfold sl_state in Hb. cbn in Hb. rewrite Hget in Hb. destruct o as [t|]; [|done]. injection Hb as Hb.
  rewrite bool_decide_true by done.
  eapply pc_mono; [apply (pc_switch_away _ _ nobody my); [done|done| |]|].
  - cbn. by rewrite Hget.
  - unfold sl_state. cbn. rewrite Hget. cbn. by rewrite Hb.
  - intros b k' (-> & Hlife & Hrun). split; [done|]. by eapply done_life.
Qed.

(** Returning when the switch did not happen, and the continuation when it did. *)
Lemma pc_park_running my k : in_call my k → pc park k (λ b k', b = false ∧ in_call my k').
Proof.
  intros Hc. destruct (in_call_task _ _ Hc) as (t & Ht & Hr). unfold park. pc_step. pc_step. pc_step.
  apply pc_index. intros o Hget. rewrite (ic_me _ _ Hc) in Hget.
  rewrite task_at_lookup in Hget by (eapply in_call_lengths || eapply in_call_id; done).
  injection Hget as <-. cbn in Ht. rewrite Ht. rewrite bool_decide_false by (rewrite Hr; done). by pc_step.
Qed.

(** ** Messages *)

Lemma pc_deliver k src sb sl dst db dc Q :
  lengths_ok k → (∀ r k', same_slots k k' → Q r k') → pc (deliver src sb sl dst db dc) k Q.
Proof.
  intros Hl HQ. unfold deliver. case_match; [pc_step; apply HQ; by apply same_slots_refl|].
  pc_step. pc_step. destruct (space_root_of k src) as [r1|], (space_root_of k dst) as [r2|];
    try (pc_step; apply HQ; by apply same_slots_refl).
  pc_step. apply pc_with_mach; [done|]. intros [] k1 H1; cbn [negb]; [|pc_step; by apply HQ].
  pc_step. apply pc_with_mach; [apply H1|]. intros [] k2 H2; cbn [negb].
  2: { pc_step. apply HQ. by eapply same_slots_trans. }
  pc_step. apply pc_with_mach; [apply H2|]. intros c k3 H3. pc_step. apply HQ.
  eapply same_slots_trans; [done|]. by eapply same_slots_trans.
Qed.

(** Another task that was waiting for a reply. *)
Lemma waiting_blocked gone k my i m :
  others_ok gone k my → slot_id i → i ≠ my → waiting_msg (sl_pending (slot_of k i)) = Some m →
  sl_state (slot_of k i) = Some Blocked ∧ i ≠ 0.
Proof.
  intros Ho Hi Hne Hm. destruct (st_send _ _ _ _ (oo_others _ _ _ Ho i Hi Hne) m Hm) as (_ & Hb & _).
  split; [done|]. by eapply blocked_not_idle.
Qed.

Lemma others_in_call my k k' : in_call my k → others_ok nobody k' my → me k' = me k →
  slot_of k' my = slot_of k my → in_call my k'.
Proof.
  intros [Ho Hm Hr Hp Hw Hf Hl] Ho' Hm' He. split; rewrite ?He; try assumption. congruence.
Qed.

(** The sender's wait ends; it becomes runnable and nothing else changes. *)
Lemma pc_finish_sender my i rc len m k :
  in_call my k → slot_id i → i ≠ my → waiting_msg (sl_pending (slot_of k i)) = Some m →
  pc (finish_sender i rc len) k
    (λ b k', if b : bool then ∀ c, call_done my (Sus c) k' else in_call my k').
Proof.
  intros Hc Hi Hne Hm. pose proof (ic_others _ _ Hc) as Ho.
  destruct (waiting_blocked _ _ _ _ _ Ho Hi Hne Hm) as [Hb Hi0].
  unfold finish_sender. pc_step. apply pc_deliver_outcome; [by eapply in_call_lengths|done|].
  intros k1 H1. pose proof (touched _ _ _ _ H1 Hi) as He1. unfold unblock.
  pc_step. apply pc_unblock_deferred; [apply H1|unfold slot_id in Hi; lia| |].
  { intros Hnb. rewrite He1 in Hnb. done. }
  intros t b k2 _ Ht Hbt H2. rewrite He1 in H2, Ht.
  pose proof (touches_then _ _ _ _ _ _ Hi H1 H2) as H3.
  assert (Hc2 : in_call my k2).
  { eapply others_in_call; [exact Hc| | |].
    - eapply others_clear; [done|done|done|done|exact H3|]. unfold sl_alive. by rewrite Hb.
    - by rewrite (ts_me _ _ _ _ H3).
    - apply (untouched _ _ _ _ _ H3); [by eapply in_call_id|congruence]. }
  destruct b; [by apply pc_switch_call|by pc_step].
Qed.

(** ** Sending *)

Lemma pc_send_wake my k : in_call my k → pc send_wake k (call_done my).
Proof.
  intros Hc. unfold send_wake. pc_steps. unfold take_outcome. pc_steps. apply pc_index. intros o _. pc_steps.
  apply pc_store_outcome; [by eapply in_call_lengths|]. intros k' Hs. pc_steps.
  apply in_call_done. by eapply in_call_same.
Qed.

Lemma pc_send_park_running my k : in_call my k → pc send_park k (call_done my).
Proof.
  intros Hc. unfold send_park. pc_step. eapply pc_mono; [by apply pc_park_running|].
  intros b k' [-> Hc']. by apply pc_send_wake.
Qed.

Lemma pc_send_park_blocked my k : parked my KSendWake k → pc send_park k (call_done my).
Proof.
  intros Hp. unfold send_park. pc_step. eapply pc_mono; [by apply pc_park_blocked|].
  intros b k' [-> Hd]. by pc_step.
Qed.

Lemma pc_publish k my ls n p Q : lengths_ok k → slot_id my →
  (∀ k', touches_slot k k' my (with_leased n (with_pending (Some p) (slot_of k my))) → Q tt k') →
  pc (publish my ls n p) k Q.
Proof.
  intros Hl Hid HQ. unfold publish. pc_step. apply pc_store_leases; [done|]. intros k1 H1.
  pc_step. apply pc_store_lease_count; [apply H1|done|]. intros k2 H2.
  apply pc_store_pending; [apply H2|done|]. intros k3 H3. apply HQ.
  eapply touches_then; [done|eapply same_touches; [exact H1|exact H2]|].
  rewrite (touched _ _ _ _ H2 Hid), (ss_slot _ _ H1) in H3 by done. exact H3.
Qed.

(** The sender once it has blocked on its message. *)
Definition sending (n : Z) (p : Pending) (t : Task) (s : slot) : slot :=
  mkSlot (Some (with_state Blocked t)) (Some p) n (sl_wanted s) (sl_waiter s) (sl_ctx s).

Lemma sender_parked my k k' n p m t c :
  in_call my k → my ≠ 0 → sl_task (slot_of k my) = Some t →
  touches_slot k k' my (sending n p t (slot_of k my)) →
  waiting_msg (Some p) = Some m → slot_id (target m) → target m ≠ my →
  sl_alive (slot_of k (target m)) = true → is_send (Inside c) → parked my c k'.
Proof.
  intros Hc Hm0 Ht H Hm Hs Hne Hal Hsend. pose proof (in_call_id _ _ Hc) as Hid.
  pose proof (touched _ _ _ _ H Hid) as He. split.
  - eapply others_mine; [done|apply Hc|done| |done]. intros _. by left.
  - by rewrite (ts_me _ _ _ _ H), (ic_me _ _ Hc).
  - by rewrite He.
  - split; rewrite ?He; cbn.
    + intros Hn. by destruct (Hn (ic_wanted _ _ Hc)).
    + intros Hn. by discriminate (eq_trans (eq_sym (ic_waiter _ _ Hc)) Hn).
    + intros b l Hp. injection Hp as ->. done.
    + intros m' Hm'. cbn in Hm. rewrite Hm in Hm'. injection Hm' as <-.
      split; [done|]. split; [done|]. split; [done|]. split; [done|]. left. left.
      by rewrite (untouched _ _ _ _ _ H).
    + intros _ Hn. cbn in Hm. by rewrite Hm in Hn.
    + done.
Qed.

(** A task that waits for something else wakes. *)
Lemma parked_unblock my c k k' i t :
  parked my c k → i ≠ my → slot_id i → sl_task (slot_of k i) = Some t → state t = Blocked →
  waiting_msg (sl_pending (slot_of k i)) = None →
  touches_slot k k' i (with_task (Some (with_state Runnable t)) (slot_of k i)) → parked my c k'.
Proof.
  intros [Ho Hme Hb Hset] Hne Hi Ht Hbt Hw H. pose proof (touched _ _ _ _ H Hi) as He.
  assert (Hbi : sl_state (slot_of k i) = Some Blocked) by (unfold sl_state; rewrite Ht; simpl; congruence).
  pose proof (oo_my _ _ _ Ho) as Hid.
  assert (Hem : slot_of k' my = slot_of k my) by (apply (untouched _ _ _ _ _ H); congruence).
  split.
  - destruct (oo_others _ _ _ Ho i Hi Hne) as [S1 S2 S3 S4 S5 S6].
    eapply others_other_same; [done|done|done|done|done|unfold sl_alive; by rewrite Hbi| |].
    + intros ->. destruct (blocked_not_idle _ _ _ _ Ho Hbi). done.
    + split; rewrite ?He; cbn; try assumption; [|done].
      intros m Hm. discriminate (eq_trans (eq_sym Hw) Hm).
  - by rewrite (ts_me _ _ _ _ H).
  - by rewrite Hem.
  - eapply settled_ext; [done| |done|done]. intros u Hu Ha. left.
    rewrite (ts_slot _ _ _ _ H) by done. case_decide; [by left|done].
Qed.

Lemma pc_switch_parked my c reason k : parked my c k →
  pc (switch_to_next reason) k (λ b k', b = true ∧ call_done my (Sus c) k').
Proof.
  intros [Ho Hme Hb Hs]. eapply pc_mono; [apply (pc_switch_away _ _ nobody my); [done|done| |by rewrite Hb]|].
  - unfold sl_state in Hb. by destruct (sl_task (slot_of k my)).
  - intros b k' (-> & Hlife & Hrun). split; [done|]. by eapply done_life.
Qed.

(** A receiver that is being delivered to no longer waits. *)
Lemma in_call_received my k k' i : in_call my k → slot_id i → i ≠ my →
  waiting_msg (sl_pending (slot_of k i)) = None →
  touches_slot k k' i (with_pending None (slot_of k i)) → in_call my k'.
Proof.
  intros Hc Hi Hne Hw H. pose proof (touched _ _ _ _ H Hi) as He.
  pose proof (ic_others _ _ Hc) as Ho. destruct (oo_others _ _ _ Ho i Hi Hne) as [S1 S2 S3 S4 S5 S6].
  eapply others_in_call; [exact Hc| | |].
  - eapply others_other_same; [done|done|done|done|done|done| |].
    + intros ->. destruct (oo_idle _ _ _ Ho) as (t0 & Ht0 & ?). exists t0. by rewrite He.
    + split; rewrite ?He; cbn; try assumption; try done.
      * intros Hn. destruct (S5 Hn). exact Hw.
      * intros Hf. split; [done|]. apply S6. exact Hf.
  - by rewrite (ts_me _ _ _ _ H).
  - apply (untouched _ _ _ _ _ H); [by eapply in_call_id|congruence].
Qed.

Lemma touches_back k k1 k2 k3 i s p :
  slot_id i → sl_pending (slot_of k i) = p → touches_slot k k1 i s → with_pending p s = slot_of k i →
  same_slots k1 k2 → touches_slot k2 k3 i (with_pending p (slot_of k2 i)) → same_slots k k3.
Proof.
  intros Hi Hp H1 Hs H2 H3. rewrite (ss_slot _ _ H2), (touched _ _ _ _ H1) in H3 by done.
  pose proof (touches_then _ _ _ _ _ _ Hi (touches_same _ _ _ _ _ H1 H2) H3) as [Hl Hm Ht].
  split; [done|done|]. intros t Htt. rewrite Ht by done. by case_decide; subst.
Qed.

(** The rendezvous with a receiver that is already waiting. *)
Lemma pc_handoff my msg ls n len k :
  in_call my k → my ≠ 0 → slot_id (target msg) → target msg ≠ my →
  sl_alive (slot_of k (target msg)) = true → sl_pending (slot_of k (target msg)) = None →
  pc (_ ← mark_current_blocked;
      _ ← store_outcome (target msg) (mkOutcome my (operation msg) len);
      _ ← publish my ls n (ReplyWait msg);
      switched ← unblock (target msg);
      if switched : bool then mret (Sus KSendPark) else send_park) k (call_done my).
Proof.
  intros Hc Hm0 Hid Hne Hal Hp. destruct (in_call_task _ _ Hc) as (t & Ht & _).
  pose proof (in_call_id _ _ Hc) as Hmid. pose proof (ic_me _ _ Hc) as Hme.
  pc_step. apply (pc_mark_blocked _ _ t); [by eapply in_call_lengths|by rewrite Hme|].
  rewrite Hme. intros k1 H1. pc_step. apply pc_store_outcome; [apply H1|]. intros k2 H2.
  pc_step. apply pc_publish; [apply H2|done|]. intros k3 H3.
  rewrite (ss_slot _ _ H2), (touched _ _ _ _ H1) in H3 by done.
  pose proof (touches_then _ _ _ _ _ _ Hmid (touches_same _ _ _ _ _ H1 H2) H3) as H4.
  assert (Hpk : ∀ c, is_send (Inside c) → parked my c k3).
  { intros c Hs. eapply (sender_parked my k k3 n (ReplyWait msg) msg t); [done|done|done|exact H4|done..]. }
  assert (Het : slot_of k3 (target msg) = slot_of k (target msg)) by (by apply (untouched _ _ _ _ _ H4)).
  unfold unblock. pc_step. pc_step. apply pc_unblock_deferred; [apply H4|unfold slot_id in Hid; lia| |].
  - intros _. pc_step. apply pc_send_park_blocked. apply Hpk. by right.
  - intros u b k4 _ Hu Hub H5. rewrite Het in Hu.
    assert (Hpk4 : ∀ c, is_send (Inside c) → parked my c k4).
    { intros c Hs. eapply parked_unblock; [by apply Hpk|exact Hne|exact Hid|by rewrite Het|exact Hub| |exact H5].
      by rewrite Het, Hp. }
    destruct b.
    + eapply pc_mono; [apply (pc_switch_parked my KSendPark); apply Hpk4; by left|].
      intros b k5 [-> Hd]. by pc_step.
    + pc_step. apply pc_send_park_blocked, Hpk4. by right.
Qed.

Lemma pc_send_message my msg ls n k :
  in_call my k → my ≠ 0 → slot_id (target msg) → target msg ≠ my →
  sl_alive (slot_of k (target msg)) = true →
  pc (send_message my msg ls n) k (call_done my).
Proof.
  intros Hc Hm0 Hid Hne Hal. pose proof (in_call_lengths _ _ Hc) as Hl.
  pose proof (in_call_id _ _ Hc) as Hmid. destruct (in_call_task _ _ Hc) as (t & Ht & _).
  assert (Hqueue : pc (_ ← publish my ls n (SendWait msg); _ ← mark_current_blocked; send_park) k (call_done my)).
  { pc_step. apply pc_publish; [done|done|]. intros k1 H1. pose proof (touched _ _ _ _ H1 Hmid) as He1.
    assert (Hme1 : me k1 = my) by (rewrite (ts_me _ _ _ _ H1); apply Hc).
    pc_step. apply (pc_mark_blocked _ _ t); [apply H1|by rewrite Hme1, He1|].
    rewrite Hme1, He1. intros k2 H2. apply pc_send_park_blocked.
    pose proof (touches_then _ _ _ _ _ _ Hmid H1 H2) as H3.
    eapply (sender_parked my k k2 n (SendWait msg) msg t); [done|done|done|exact H3|done..|by right]. }
  unfold send_message. pc_step. apply pending_slot; [done|done|].
  destruct (sl_pending (slot_of k (target msg))) as [[m|m|buf cap]|] eqn:Hp; [exact Hqueue|exact Hqueue| |exact Hqueue].
  pc_step. apply pc_store_pending; [done|done|]. intros k1 H1.
  pose proof (touched _ _ _ _ H1 Hid) as He1.
  pc_step. apply pc_deliver; [apply H1|]. intros [len|] k2 H2.
  - apply pc_handoff; [|done|done|done| |].
    + eapply in_call_same; [exact H2|]. eapply in_call_received; [done|exact Hid|done|by rewrite Hp|exact H1].
    + rewrite (ss_slot _ _ H2), He1 by done. exact Hal.
    + by rewrite (ss_slot _ _ H2), He1 by done.
  - pc_step. apply pc_store_pending; [apply H2|done|]. intros k3 H3. pc_step. apply in_call_done.
    eapply in_call_same; [|exact Hc]. eapply touches_back; [exact Hid|exact Hp|exact H1| |exact H2|exact H3].
    destruct (slot_of k (target msg)) eqn:Hs. simpl in *. by subst.
Qed.

(** ** [send], [recv], [reply] *)

(** Only a task with an address space gets past the pointer checks, and the
    boot task has none. *)
Lemma caller_not_idle my k r : in_call my k → space_root_of k (me k) = Some r → my ≠ 0.
Proof.
  intros Hc Hs ->. rewrite (ic_me _ _ Hc) in Hs. destruct (oo_idle _ _ _ (ic_others _ _ Hc)) as (t & Ht & _ & Hsp).
  unfold space_root_of in Hs. cbn in Ht. rewrite Ht in Hs. simpl in Hs. congruence.
Qed.

Lemma pc_send my tgt op o ol rb rc lt lc k : in_call my k → 0 ≤ tgt →
  pc (send tgt op o ol rb rc lt lc) k (call_done my).
Proof.
  intros Hc H0. pose proof (in_call_lengths _ _ Hc) as Hl. pose proof (ic_me _ _ Hc) as Hme.
  unfold send. destruct (_ || _); [pc_step; by apply in_call_done|].
  destruct (Z.leb_spec MAX_TASKS tgt) as [|Hlt]; [pc_step; by apply in_call_done|]. pc_step. pc_step.
  destruct (Z.eqb_spec tgt (me k)) as [|Hne]; [pc_step; by apply in_call_done|].
  destruct (is_alive k tgt) eqn:Hal; cbn [negb]; [|pc_step; by apply in_call_done].
  rewrite is_alive_slot in Hal.
  destruct (space_root_of k (me k)) as [root|] eqn:Hroot; [|pc_step; by apply in_call_done].
  pose proof (caller_not_idle _ _ _ Hc Hroot) as Hm0.
  pc_step. apply pc_with_mach; [done|]. intros r k1 H1. pose proof (in_call_same _ _ _ H1 Hc) as Hc1.
  pc_step. eapply (pc_mono _ _ (λ _ k2, same_slots k1 k2)).
  { destruct r; [apply pc_with_mach; [apply H1|done]|pc_step; apply same_slots_refl, H1]. }
  intros w k2 H2. pose proof (in_call_same _ _ _ H2 Hc1) as Hc2. destruct w; cbn [negb]; [|pc_step; by apply in_call_done].
  pc_step. apply pc_with_mach; [apply H2|]. intros l k3 H3. pose proof (in_call_same _ _ _ H3 Hc2) as Hc3.
  destruct l as [[ls n]|e]; [|pc_step; by apply in_call_done].
  rewrite Hme in *. assert (Hid : slot_id tgt) by (unfold slot_id; lia).
  apply pc_send_message; [done|done|done|done|]. cbn [target].
  by rewrite (ss_slot _ _ H3), (ss_slot _ _ H2), (ss_slot _ _ H1) by done.
Qed.

Lemma pc_take my i mask k Q : in_call my k →
  (∀ fired k', in_call my k' → Q fired k') → pc (take i mask) k Q.
Proof.
  intros Hc HQ. unfold take, posted_at. pc_steps. apply pc_index. intros p _. pc_steps.
  apply pc_store_posted; [by eapply in_call_lengths|]. intros k' Hs. pc_step. apply HQ. by eapply in_call_same.
Qed.

(** The receiver once it has parked. *)
Lemma receiver_parked my buf cap mask k :
  in_call my k → my ≠ 0 →
  pc (_ ← arm my mask; _ ← store_pending my (Some (RecvWait buf cap)); mark_current_blocked) k
    (λ _ k', parked my (KRecvWake buf cap mask) k').
Proof.
  intros Hc Hm0. pose proof (in_call_id _ _ Hc) as Hid. destruct (in_call_task _ _ Hc) as (t & Ht & _).
  pc_step. apply pc_store_wanted; [by eapply in_call_lengths|done|]. intros k1 H1.
  pc_step. apply pc_store_pending; [apply H1|done|]. intros k2 H2.
  rewrite (touched _ _ _ _ H1 Hid) in H2. pose proof (touches_then _ _ _ _ _ _ Hid H1 H2) as H3.
  pose proof (touched _ _ _ _ H3 Hid) as He3.
  assert (Hme : me k2 = my) by (rewrite (ts_me _ _ _ _ H3); apply Hc).
  apply (pc_mark_blocked _ _ t); [apply H3|by rewrite Hme, He3|]. rewrite Hme, He3. intros k4 H4.
  pose proof (touches_then _ _ _ _ _ _ Hid H3 H4) as H5. pose proof (touched _ _ _ _ H5 Hid) as He5.
  assert (Hr : is_recv_wake (Inside (KRecvWake buf cap mask))) by (by exists buf, cap, mask).
  split.
  - eapply others_mine; [exact H5|apply Hc|done| |done]. intros _. by left.
  - by rewrite (ts_me _ _ _ _ H4).
  - by rewrite He5.
  - split; rewrite ?He5; try done.
    + intros Hn. discriminate (eq_trans (eq_sym (ic_waiter _ _ Hc)) Hn).
    + intros Hn. by destruct (Hn (ic_leased _ _ Hc)).
Qed.

(** A message that was picked up. *)
Lemma in_call_picked my k k' s m : in_call my k → slot_id s → s ≠ my →
  sl_pending (slot_of k s) = Some (SendWait m) →
  touches_slot k k' s (with_pending (Some (ReplyWait m)) (slot_of k s)) → in_call my k'.
Proof.
  intros Hc Hs Hne Hp H. pose proof (touched _ _ _ _ H Hs) as He. pose proof (ic_others _ _ Hc) as Ho.
  destruct (oo_others _ _ _ Ho s Hs Hne) as [S1 S2 S3 S4 S5 S6]. rewrite Hp in *.
  destruct (S4 m eq_refl) as (Hsend & Hb & Htid & Htne & Hal).
  eapply others_in_call; [exact Hc| | |].
  - eapply others_other_same; [done|done|done|done|done|done| |].
    + intros ->. destruct (blocked_not_idle _ _ _ _ Ho Hb). done.
    + split; rewrite ?He; cbn; try assumption; try done.
      * intros m' [= <-]. split; [done|]. split; [done|]. split; [done|]. split; [done|].
        left. destruct Hal as [Hal|[]]. by rewrite (untouched _ _ _ _ _ H).
      * intros Hf. destruct (S6 Hf). done.
  - by rewrite (ts_me _ _ _ _ H).
  - apply (untouched _ _ _ _ _ H); [by eapply in_call_id|congruence].
Qed.

Lemma pc_recv_loop my fuel buf cap mask k :
  in_call my k → my ≠ 0 → pc (recv_loop fuel buf cap mask) k (call_done my).
Proof.
  revert k. induction fuel as [|fuel IH]; intros k Hc Hm0; cbn [recv_loop]; [by apply pc_panic|].
  pc_step. pc_step. rewrite (ic_me _ _ Hc). cbv zeta.
  pc_step. eapply pc_take; [exact Hc|]. clear k Hc. intros fired k Hc.
  destruct (negb (fired =? 0)); [pc_step; by apply in_call_done|].
  pc_step. pc_step. pose proof (best_sender_spec k my) as Hbest. pose proof (in_call_lengths _ _ Hc) as Hl.
  pose proof (in_call_id _ _ Hc) as Hid.
  destruct (best_sender k my) as [s|].
  - destruct Hbest as (p & Hs & (m & Hm & Htg & _) & _).
    assert (Hne : s ≠ my) by (intros ->; pose proof (ic_pending _ _ Hc) as Hp; cbn in Hp; congruence).
    pc_step. apply pending_slot; [done|done|]. change (sl_pending (slot_of k s)) with (pending_at k s).
    rewrite Hm. pc_step. apply pc_deliver; [done|]. intros len k1 H1.
    pose proof (in_call_same _ _ _ H1 Hc) as Hc1.
    assert (Hp1 : sl_pending (slot_of k1 s) = Some (SendWait m)) by (rewrite (ss_slot _ _ H1) by done; exact Hm).
    destruct len as [len|].
    + pc_step. apply pc_store_pending; [apply H1|done|]. intros k2 H2. pc_step. apply in_call_done.
      eapply in_call_picked; [exact Hc1|exact Hs|done|exact Hp1|exact H2].
    + pc_step. eapply pc_mono; [eapply pc_finish_sender; [exact Hc1|exact Hs|done|by rewrite Hp1]|].
      intros [] k2 H2; [pc_step; apply H2|by apply IH].
  - pose proof (receiver_parked my buf cap mask k Hc Hm0) as Hpk.
    cbv [pc] in Hpk |- *. unfold mbind, M_bind in *.
    destruct (arm my mask k) as [[[] k1]|]; [|done].
    destruct (store_pending my _ k1) as [[[] k2]|]; [|done].
    destruct (mark_current_blocked k2) as [[[] k3]|]; [|done].
    pose proof (pc_park_blocked _ _ _ Hpk) as Hpark. cbv [pc] in Hpark.
    destruct (park k3) as [[b k4]|]; [|done]. destruct Hpark as [-> Hd]. exact Hd.
Qed.

Lemma pc_recv my buf cap mask k : in_call my k → pc (recv buf cap mask) k (call_done my).
Proof.
  intros Hc. unfold recv. case_match; [pc_step; by apply in_call_done|]. pc_step. pc_step.
  destruct (space_root_of k (me k)) as [root|] eqn:Hroot; [|pc_step; by apply in_call_done].
  pose proof (caller_not_idle _ _ _ Hc Hroot) as Hm0.
  pc_step. apply pc_with_mach; [by eapply in_call_lengths|]. intros w k1 H1.
  pose proof (in_call_same _ _ _ H1 Hc) as Hc1.
  destruct w; cbn [negb]; [by apply pc_recv_loop|pc_step; by apply in_call_done].
Qed.

Lemma pc_reply my s rc d dl k : in_call my k → 0 ≤ s → pc (reply s rc d dl) k (call_done my).
Proof.
  intros Hc H0. pose proof (in_call_lengths _ _ Hc) as Hl. unfold reply.
  destruct (_ <? _); cbn [orb]; [pc_step; by apply in_call_done|].
  destruct (Z.leb_spec MAX_TASKS s) as [|Hlt]; [pc_step; by apply in_call_done|]. pc_step. pc_step.
  assert (Hs : slot_id s) by (unfold slot_id; lia). pc_step. apply pending_slot; [done|done|].
  destruct (sl_pending (slot_of k s)) as [[m|m|b n]|] eqn:Hp; try (pc_step; by apply in_call_done).
  destruct (Z.eqb_spec (target m) (me k)) as [Htg|]; cbn [negb]; [|pc_step; by apply in_call_done].
  assert (Hne : s ≠ my).
  { intros ->. pose proof (ic_pending _ _ Hc) as Hp'. discriminate (eq_trans (eq_sym Hp) Hp'). }
  pc_step. apply pc_deliver; [done|]. intros len k1 H1. pose proof (in_call_same _ _ _ H1 Hc) as Hc1.
  destruct len as [len|]; [|pc_step; by apply in_call_done].
  pc_step. eapply pc_mono; [eapply (pc_finish_sender _ _ _ _ m); [exact Hc1|exact Hs|done|]|].
  { rewrite (ss_slot _ _ H1) by done. by rewrite Hp. }
  intros [] k2 H2; pc_step; [apply H2|by apply in_call_done].
Qed.

(** ** Coming back from a wait *)

Lemma others_own gone k k' my s :
  touches_slot k k' my s → sl_task s = sl_task (slot_of k my) → sl_ctx s = sl_ctx (slot_of k my) →
  others_ok gone k my → others_ok gone k' my.
Proof.
  intros H Ht Hx Ho. pose proof (touched _ _ _ _ H (oo_my _ _ _ Ho)) as He.
  eapply others_mine; [exact H|exact Ho|exact Hx| |].
  - unfold sl_alive, sl_state. rewrite Ht. by left.
  - intros ->. destruct (oo_idle _ _ _ Ho) as (t0 & Ht0 & ?). exists t0. by rewrite He, Ht.
Qed.

Lemma pc_recv_wake buf cap mask k :
  kernel_inv k → sl_ctx (slot_of k (me k)) = Inside (KRecvWake buf cap mask) → me k ≠ 0 →
  pc (recv_wake buf cap mask) k (call_done (me k)).
Proof.
  intros Hk Hctx Hm0. destruct (inv_waiting _ _ Hk Hctx) as (Ho & Hw & Hle).
  pose proof (oo_my _ _ _ Ho) as Hid. pose proof (ki_current _ Hk) as Hrun.
  assert (Hwt : sl_waiter (slot_of k (me k)) = false).
  { destruct (sl_waiter (slot_of k (me k))) eqn:Hf; [|done].
    pose proof (st_waiter _ _ _ _ (ki_slots _ Hk _ Hid) Hf). congruence. }
  unfold recv_wake. pc_step. pc_step. set (my := me k) in *. cbv zeta.
  pc_step. unfold disarm. apply pc_store_wanted; [apply Hk|done|]. intros k1 H1.
  pose proof (touched _ _ _ _ H1 Hid) as He1.
  pose proof (others_own _ _ _ _ _ H1 eq_refl eq_refl Ho) as Ho1.
  assert (Hme1 : me k1 = my) by (by rewrite (ts_me _ _ _ _ H1)).
  pc_step. apply pending_slot; [apply H1|done|]. rewrite He1.
  change (sl_pending (with_wanted 0 (slot_of k my))) with (sl_pending (slot_of k my)).
  destruct (sl_pending (slot_of k my)) as [p|] eqn:Hp.
  - pc_step. apply pc_store_pending; [apply H1|done|]. intros k2 H2. pose proof (touched _ _ _ _ H2 Hid) as He2.
    apply pc_recv_loop; [|done]. split; rewrite ?He2, ?He1; try done.
    + eapply others_own; [exact H2|done|done|done].
    + by rewrite (ts_me _ _ _ _ H2).
  - pc_step. unfold take_outcome. pc_steps. apply pc_index. intros o _. pc_steps.
    apply pc_store_outcome; [apply H1|]. intros k2 H2. pc_steps. apply in_call_done.
    eapply in_call_same; [exact H2|]. split; rewrite ?He1; try done.
Qed.

(** ** Faults *)

Lemma pc_wait_loop my k : in_call my k → my ≠ 0 → pc wait_loop k (call_done my).
Proof.
  intros Hc Hm0. unfold wait_loop. pc_step. pc_step. destruct (first_faulted k) as [id|].
  { pc_step. by apply in_call_done. }
  pose proof (in_call_id _ _ Hc) as Hid. destruct (in_call_task _ _ Hc) as (t & Ht & _).
  rewrite (ic_me _ _ Hc). pc_step. apply pc_store_waiter; [by eapply in_call_lengths|done|]. intros k1 H1.
  pose proof (touched _ _ _ _ H1 Hid) as He1.
  assert (Hme1 : me k1 = my) by (rewrite (ts_me _ _ _ _ H1); apply Hc).
  pc_step. apply (pc_mark_blocked _ _ t); [apply H1|by rewrite Hme1, He1|]. rewrite Hme1, He1. intros k2 H2.
  pose proof (touches_then _ _ _ _ _ _ Hid H1 H2) as H3. pose proof (touched _ _ _ _ H3 Hid) as He3.
  assert (Hpk : parked my KFaultWait k2).
  { split.
    - eapply others_mine; [exact H3|apply Hc|done| |done]. intros _. by left.
    - by rewrite (ts_me _ _ _ _ H2).
    - by rewrite He3.
    - pose proof (ic_pending _ _ Hc) as Hp. split; rewrite ?He3; try done.
      + intros Hn. by destruct (Hn (ic_wanted _ _ Hc)).
      + intros b n Hn. discriminate (eq_trans (eq_sym Hn) Hp).
      + intros m Hm. cbn [sl_pending with_task with_waiter] in Hm. by rewrite Hp in Hm.
      + intros Hn. by destruct (Hn (ic_leased _ _ Hc)). }
  pc_step. eapply pc_mono; [by apply pc_park_blocked|]. intros b k3 [_ Hd]. by pc_step.
Qed.

Lemma pc_fault_wait_wake k :
  kernel_inv k → sl_ctx (slot_of k (me k)) = Inside KFaultWait → me k ≠ 0 →
  pc fault_wait_wake k (call_done (me k)).
Proof.
  intros Hk Hctx Hm0. destruct (inv_waiting _ _ Hk Hctx) as (Ho & Hw & Hle).
  pose proof (oo_my _ _ _ Ho) as Hid. pose proof (ki_current _ Hk) as Hrun.
  destruct (ki_slots _ Hk _ Hid) as [S1 _ S3 _ _ _]. rewrite Hctx in S1, S3.
  unfold fault_wait_wake. pc_step. pc_step. set (my := me k) in *.
  pc_step. apply pc_store_waiter; [apply Hk|done|]. intros k1 H1. pose proof (touched _ _ _ _ H1 Hid) as He1.
  apply pc_wait_loop; [|done]. split.
  - eapply others_own; [exact H1|done|done|done].
  - by rewrite (ts_me _ _ _ _ H1).
  - by rewrite He1.
  - rewrite He1. change (sl_pending (slot_of k my) = None).
    destruct (sl_pending (slot_of k my)) as [[m|m|b n]|]; [done|done| |done].
    by destruct (S3 b n eq_refl) as (? & ? & ? & ?).
  - rewrite He1. change (sl_wanted (slot_of k my) = 0).
    destruct (decide (sl_wanted (slot_of k my) = 0)) as [|Hn]; [done|].
    by destruct (S1 Hn) as (? & ? & ? & ?).
  - by rewrite He1.
  - by rewrite He1.
Qed.

(** ** Ending *)

Lemma others_weaken gone k my : others_ok nobody k my → others_ok gone k my.
Proof.
  intros [Hl Hi ? ? Ho]. split; [done|done|done|done|]. intros u Hu Hne.
  eapply settled_ext; [done|by left| |by apply Ho]. unfold nobody. done.
Qed.

Lemma pc_update_current k f Q t :
  lengths_ok k → sl_task (slot_of k (me k)) = Some t →
  (∀ k', touches_slot k k' (me k) (with_task (Some (f t)) (slot_of k (me k))) → Q tt k') →
  pc (update_current f) k Q.
Proof.
  intros Hl Ht HQ. unfold update_current. pc_steps.
  apply pc_index. intros o Ho. rewrite task_at_lookup in Ho by (done || apply (len_current _ Hl)).
  injection Ho as <-. cbn in Ht. rewrite Ht. apply pc_store_task; [done|apply (len_current _ Hl)|done].
Qed.

(** [my] has ended, and let go of everybody. *)
Record ended (my : Z) (k : kernel) : Prop := {
  en_others : others_ok nobody k my;
  en_me : me k = my;
  en_task : is_Some (sl_task (slot_of k my));
  en_state : sl_alive (slot_of k my) = false;
  en_settled : settled nobody (slot_of k) my (Inside KGone)
}.

Lemma pc_abandon_self my k k1 t :
  in_call my k → my ≠ 0 → state t ≠ Runnable → state t ≠ Blocked →
  touches_slot k k1 my (with_task (Some t) (slot_of k my)) →
  pc (abandon my) k1 (λ _ k', ended my k').
Proof.
  intros Hc Hm0 Hn1 Hn2 H1. pose proof (in_call_id _ _ Hc) as Hid. pose proof (touched _ _ _ _ H1 Hid) as He1.
  assert (Hal : sl_alive (slot_of k1 my) = false).
  { rewrite He1. unfold sl_alive, sl_state. simpl. by destruct (state t). }
  apply (pc_abandon my my Hid).
  - eapply others_mine; [exact H1| |done|by right|done].
    by apply others_weaken, Hc.
  - rewrite (ts_me _ _ _ _ H1). apply Hc.
  - rewrite He1. apply (ic_pending _ _ Hc).
  - rewrite He1. apply (ic_leased _ _ Hc).
  - intros k2 Ho2 Hme2 He2. rewrite He1 in He2. split; [done|done|by rewrite He2| |].
    + by rewrite He2, <-He1.
    + apply settled_plain; rewrite He2; [apply (ic_pending _ _ Hc)|apply (ic_wanted _ _ Hc)|
        apply (ic_waiter _ _ Hc)|apply (ic_leased _ _ Hc)].
Qed.

Lemma pc_gone my k : ended my k → pc (@gone (Z * Z * Z)) k (call_done my).
Proof.
  intros [Ho Hme Ht Hal Hs]. unfold gone, yield_now. pc_step.
  eapply pc_mono; [apply (pc_switch_away _ _ nobody my); [done|done|done|]|].
  - intros Hr. unfold sl_alive in Hal. by rewrite Hr in Hal.
  - intros b k' (_ & Hlife & Hrun). pc_step. by eapply done_life.
Qed.

Lemma pc_exit my code k : in_call my k → my ≠ 0 → pc (exit_current code) k (call_done my).
Proof.
  intros Hc Hm0. destruct (in_call_task _ _ Hc) as (t & Ht & _). pose proof (ic_me _ _ Hc) as Hme.
  unfold exit_current. pc_step. pc_step. pc_step. apply (pc_update_current _ _ _ t); [by eapply in_call_lengths|by rewrite Hme|].
  rewrite Hme. intros k1 H1. pc_step. eapply pc_mono; [eapply (pc_abandon_self my k); [done|done| | |exact H1]; done|].
  intros [] k2 He. by apply pc_gone.
Qed.

Lemma pc_task_finished my k : in_call my k → my ≠ 0 → pc task_finished k (call_done my).
Proof.
  intros Hc Hm0. destruct (in_call_task _ _ Hc) as (t & Ht & _). pose proof (ic_me _ _ Hc) as Hme.
  unfold task_finished. pc_step. pc_step. pc_step. apply (pc_update_current _ _ _ t); [by eapply in_call_lengths|by rewrite Hme|].
  rewrite Hme. intros k1 H1. pc_step. eapply pc_mono; [eapply (pc_abandon_self my k); [done|done| | |exact H1]; done|].
  intros [] k2 He. by apply pc_gone.
Qed.

(** Waking a task that waits for faults, or for a notification. *)
Lemma others_wake gone k k' my i t :
  others_ok gone k my → i ≠ my → slot_id i → sl_task (slot_of k i) = Some t → state t = Blocked →
  waiting_msg (sl_pending (slot_of k i)) = None →
  touches_slot k k' i (with_task (Some (with_state Runnable t)) (slot_of k i)) → others_ok gone k' my.
Proof.
  intros Ho Hne Hi Ht Hbt Hw H. pose proof (touched _ _ _ _ H Hi) as He.
  assert (Hbi : sl_state (slot_of k i) = Some Blocked) by (unfold sl_state; rewrite Ht; simpl; congruence).
  destruct (oo_others _ _ _ Ho i Hi Hne) as [S1 S2 S3 S4 S5 S6].
  eapply others_other_same; [done|done|done|done|done|unfold sl_alive; by rewrite Hbi| |].
  - intros ->. destruct (blocked_not_idle _ _ _ _ Ho Hbi). done.
  - split; rewrite ?He; cbn; try assumption; [|done].
    intros m Hm. discriminate (eq_trans (eq_sym Hw) Hm).
Qed.

Lemma pc_wake_waiters my k : ended my k → pc wake_fault_waiters k (λ _ k', ended my k').
Proof.
  intros He. unfold wake_fault_waiters. apply (pc_forM _ _ (ended my)); [done| |done].
  clear k He. intros i k Hi%elem_of_range He. pose proof He as [Ho Hme Ht Hal Hs].
  pose proof (oo_lengths _ _ _ Ho) as Hl. pc_step. pc_step. pc_step. apply pc_index. intros w Hw.
  destruct w; [|by pc_step]. pc_step.
  assert (Hwi : sl_waiter (slot_of k i) = true) by (cbn; by rewrite Hw).
  apply pc_unblock_deferred; [done|lia|intros _; by pc_step|]. intros t b k' Hid Hti Hbt H. pc_step.
  assert (Hne : i ≠ my).
  { intros ->. unfold sl_alive, sl_state in Hal. rewrite Hti in Hal. simpl in Hal. by rewrite Hbt in Hal. }
  assert (Hwm : waiting_msg (sl_pending (slot_of k i)) = None).
  { destruct (waiting_msg _) as [m|] eqn:Hm; [|done].
    destruct (oo_others _ _ _ Ho i Hid Hne) as [_ S2 _ S4 _ _].
    destruct (S4 m Hm) as ([Hc|Hc] & _); rewrite (S2 Hwi) in Hc; done. }
  assert (Hem : slot_of k' my = slot_of k my).
  { apply (untouched _ _ _ _ _ H); [apply (oo_my _ _ _ Ho)|congruence]. }
  split; rewrite ?Hem; try done.
  - by eapply others_wake.
  - by rewrite (ts_me _ _ _ _ H).
  - eapply settled_ext; [exact Hem| |done|exact Hs]. intros u Hu Ha. left.
    rewrite (ts_slot _ _ _ _ H) by done. case_decide; [by left|done].
Qed.

Lemma pc_fault_current my f k : in_call my k → my ≠ 0 → pc (fault_current f) k (call_done my).
Proof.
  intros Hc Hm0. destruct (in_call_task _ _ Hc) as (t & Ht & _). pose proof (ic_me _ _ Hc) as Hme.
  unfold fault_current. pc_step. pc_step. pc_step. apply pc_index. intros o Hget.
  rewrite Hme in *. rewrite task_at_lookup in Hget by (eapply in_call_lengths || eapply in_call_id; done).
  injection Hget as <-. pc_step. apply pc_expectM. intros t' Ht'.
  pc_step. apply pc_store_task; [by eapply in_call_lengths|by eapply in_call_id|]. intros k1 H1.
  pc_step. eapply pc_mono; [eapply (pc_abandon_self my k); [done|done| | |exact H1]; done|].
  intros [] k2 He. pc_step. eapply pc_mono; [by apply pc_wake_waiters|]. intros [] k3 He3. by apply pc_gone.
Qed.
