(* ===== verification/SyscallInv.v ===== *)
(** * SyscallInv: every system call keeps the invariant

    [call_done] for [restart], for the calls that only look, and so for all of
    [syscall::dispatch]; and for every continuation [resume] can be given. *)

From S2P Require Import Prelude Memory Frames FramesBoot Paging Kernel Sched Notify Ipc Tasks Syscall.
From S2P Require Import KernelInv SchedSpec CallInv.

(** ** Calls that leave every slot alone *)

Lemma pc_find_lease k peer ix Q : (∀ l, Q l k) → pc (find_lease k peer ix) k Q.
Proof.
  intros HQ. unfold find_lease. pc_step. apply pc_index. intros p _.
  destruct p as [[m|m|b n]|]; try (pc_step; apply HQ).
  pc_step. apply pc_index. intros n _. destruct (_ && _); [|pc_step; apply HQ].
  pc_step. apply pc_index. intros ls _. pc_step. apply pc_index. intros l _. pc_step. apply HQ.
Qed.

Lemma pc_borrow k peer ix off loc len w : lengths_ok k →
  pc (borrow peer ix off loc len w) k (λ _ k', same_slots k k').
Proof.
  intros Hl. pose proof (same_slots_refl k Hl) as Hr. unfold borrow.
  destruct (_ || _); [by pc_step|]. pc_step. pc_step. pc_step. apply pc_find_lease. intros [l|]; [|by pc_step].
  cbv zeta. destruct (_ =? 0); [by pc_step|]. destruct (checked_add64 off len); [|by pc_step].
  destruct (_ <? _); [by pc_step|].
  destruct (space_root_of k peer), (space_root_of k (me k)); try by pc_step.
  pc_step. unfold pc, lift. destruct (add64 _ _); [|done]. apply pc_bind, pc_with_mach; [done|].
  intros ok k' H. by pc_step.
Qed.

Lemma pc_sys_write k fd buf len : lengths_ok k →
  pc (sys_write fd buf len) k (λ _ k', same_slots k k').
Proof.
  intros Hl. pose proof (same_slots_refl k Hl) as Hr. unfold sys_write.
  destruct (negb _); [by pc_step|]. destruct (_ <? _); [by pc_step|]. pc_step. pc_step.
  destruct (current_space_root k); [|by pc_step]. pc_step. apply pc_with_mach; [done|]. intros r k1 H1.
  destruct r; cbn [negb]; [|by pc_step].
  pc_step. unfold pc, load_slice. destruct (_ =? _); [done|]. destruct (mapM _ _) as [bytes|]; [|done].
  destruct (utf8_valid bytes); [|exact H1]. simpl.
  eapply same_slots_trans; [exact H1|]. split; [destruct (ss_lengths _ _ H1); by split|done|done].
Qed.

Lemma pc_one my (op : M kernel Z) k : in_call my k →
  pc op k (λ _ k', same_slots k k') → pc (one op) k (call_done my).
Proof.
  intros Hc H. unfold one. pc_step. eapply pc_mono; [exact H|]. intros r k' Hs. pc_step.
  apply in_call_done. eapply in_call_same; [exact Hs|exact Hc].
Qed.

(** ** [restart] *)

Section restart_inv.
Context (user_task_entry task_trampoline : Z).

(** Tasks [my] does not wait on may be rebuilt from their image. *)
Lemma in_call_other my k k' i s : in_call my k → slot_id i → i ≠ my → i ≠ 0 →
  touches_slot k k' i s → (sl_live (slot_of k i) → sl_live s) → (sl_ctx s = Cut → sl_alive s = false) →
  settled nobody (slot_of k') i (sl_ctx s) → in_call my k'.
Proof.
  intros Hc Hi Hne Hi0 H Hal Hcut Hs. eapply others_in_call; [exact Hc| | |].
  - eapply others_other; [exact H|apply Hc|done|done| |exact Hcut|done|exact Hs]. intros Ha. left. auto.
  - by rewrite (ts_me _ _ _ _ H).
  - apply (untouched _ _ _ _ _ H); [by eapply in_call_id|congruence].
Qed.

(** A slot that is not alive waits for nothing, whatever its context. *)
Lemma dead_plain gone v t c c' : settled gone v t c → sl_alive (v t) = false →
  sl_pending (v t) = None ∧ sl_wanted (v t) = 0 ∧ sl_waiter (v t) = false ∧ sl_leased (v t) = 0 ∧
  settled gone v t c'.
Proof.
  intros [S1 S2 S3 S4 S5 S6] Hal. destruct (S6 Hal) as (Hp & Hw & Hf).
  assert (Hl : sl_leased (v t) = 0).
  { destruct (decide (sl_leased (v t) = 0)) as [|Hn]; [done|]. destruct (S5 Hn). by rewrite Hp. }
  split; [done|]. split; [done|]. split; [done|]. split; [done|]. by apply settled_plain.
Qed.

Lemma pc_restart my id k : in_call my k → slot_id id →
  pc (restart user_task_entry task_trampoline id) k (λ _ k', in_call my k').
Proof.
  intros Hc Hid. unfold restart. pc_step.
  apply (pc_abandon id my Hid); [by apply others_weaken, Hc|apply (ic_me _ _ Hc)|apply (ic_pending _ _ Hc)|
    apply (ic_leased _ _ Hc)|].
  intros k1 Ho1 Hme1 He1. assert (Hc1 : in_call my k1).
  { eapply others_in_call; [exact Hc|done| |done]. rewrite Hme1. symmetry. apply Hc. }
  clear k Hc Ho1 Hme1 He1. rename k1 into k, Hc1 into Hc. pc_step. pc_step.
  destruct (task_at k id) as [t|] eqn:Ht; [|by pc_step].
  case_bool_decide as Hf; cbn [negb]; [|by pc_step]. destruct (image t) as [img|]; [|by pc_step].
  change (task_at k id) with (sl_task (slot_of k id)) in Ht.
  assert (Hst : sl_state (slot_of k id) = Some Faulted) by (unfold sl_state; rewrite Ht; simpl; congruence).
  assert (Hal : sl_alive (slot_of k id) = false) by (unfold sl_alive; by rewrite Hst).
  assert (Hne : id ≠ my) by (intros ->; rewrite (ic_run _ _ Hc) in Hst; done).
  assert (Hi0 : id ≠ 0).
  { intros ->. rewrite (idle_not_blocked _ _ _ (ic_others _ _ Hc)) in Hst. done. }
  destruct (dead_plain _ _ _ _ Running (oo_others _ _ _ (ic_others _ _ Hc) id Hid Hne) Hal)
    as (Hp & Hw & Hwt & Hle & _).
  pc_step. apply pc_store_task; [by eapply in_call_lengths|done|]. intros k1 H1.
  assert (Hpl : ∀ s c, sl_pending s = None → sl_wanted s = 0 → sl_waiter s = false → sl_leased s = 0 →
    ∀ k', touches_slot k k' id s → settled nobody (slot_of k') id c).
  { intros s c ? ? ? ? k' H. apply settled_plain; by rewrite (touched _ _ _ _ H Hid). }
  assert (Hc1 : in_call my k1).
  { eapply in_call_other; [exact Hc|done|done|done|exact H1|apply live_same; [done|by rewrite Hal]| |].
    { intros _. unfold sl_alive, sl_state. simpl. by rewrite Hf. }
    eapply Hpl; [..|exact H1]; assumption. }
  pc_step. eapply (pc_mono _ _ (λ _ k2, same_slots k1 k2)).
  { destruct (space t); [apply pc_with_mach; [apply H1|intros ? ? H; exact H]|pc_step; apply same_slots_refl, H1]. }
  intros [] k2 H2. pc_step. apply pc_with_mach; [apply H2|]. intros sp k3 H3.
  pc_step. apply pc_with_mach; [apply H3|]. intros sp' k4 H4. pc_step. pc_step.
  pose proof (same_slots_trans _ _ _ H2 (same_slots_trans _ _ _ H3 H4)) as H14.
  pose proof (in_call_same _ _ _ H14 Hc1) as Hc4.
  destruct (task_at k4 id) as [t4|] eqn:Ht4; [|by pc_step].
  pose proof (touches_same _ _ _ _ _ H1 H14) as Hk4. pose proof (touched _ _ _ _ Hk4 Hid) as He4.
  pc_step. apply pc_store_task; [by eapply in_call_lengths|done|]. intros k5 H5. rewrite He4 in H5.
  pose proof (touches_then _ _ _ _ _ _ Hid Hk4 H5) as Hk5.
  pc_step. apply pc_store_ctx; [apply H5|done|]. intros k6 H6. rewrite (touched _ _ _ _ Hk5 Hid) in H6.
  pose proof (touches_then _ _ _ _ _ _ Hid Hk5 H6) as Hk6. pc_step.
  eapply in_call_other; [exact Hc|done|done|done|exact Hk6|intros _; by left|done|].
  eapply Hpl; [..|exact Hk6]; assumption.
Qed.

(** ** All of [dispatch] *)

Theorem pc_dispatch my number a k :
  in_call my k → my ≠ 0 → (∀ i, 0 ≤ a i) →
  pc (dispatch user_task_entry task_trampoline number a) k (call_done my).
Proof.
  intros Hc Hm0 Ha. pose proof (in_call_lengths _ _ Hc) as Hl. unfold dispatch.
  assert (Hone : ∀ r : Z, pc (mret (Ret (r, 0, 0))) k (call_done my)) by (intros r; pc_step; by apply in_call_done).
  assert (Hsame : ∀ r : Z, pc (mret r) k (λ _ k', same_slots k k')) by (intros r; pc_step; by apply same_slots_refl).
  repeat match goal with |- context [if number =? ?n then _ else _] => destruct (number =? n) end.
  - by apply pc_exit.
  - apply pc_one; [done|]. by apply pc_sys_write.
  - unfold sys_yield, yield_now. pc_step. eapply pc_mono; [by apply pc_switch_call|].
    intros [] k' H; pc_step; [apply H|by apply in_call_done].
  - apply pc_one; [done|]. unfold sys_getpid. pc_step. by apply same_slots_refl.
  - by apply pc_send.
  - by apply pc_recv.
  - by apply pc_reply.
  - apply pc_one; [done|]. by apply pc_borrow.
  - apply pc_one; [done|]. by apply pc_borrow.
  - unfold sys_fault_wait. pc_step. pc_step. destruct (negb _); [apply Hone|]. by apply pc_wait_loop.
  - pc_step. unfold sys_fault_info. pc_step. pc_step. destruct (negb _); [pc_step; apply Hone|].
    destruct (_ <=? _); [pc_step; apply Hone|]. unfold fault_of. pc_steps. apply pc_index. intros t _. pc_steps.
    by apply in_call_done.
  - unfold one. pc_step. unfold sys_restart. pc_step. pc_step. destruct (negb _); [pc_step; apply Hone|].
    destruct (Z.leb_spec MAX_TASKS (a 0)) as [|Hlt]; [pc_step; apply Hone|].
    pc_step. eapply pc_mono; [apply (pc_restart my); [done|split; [apply Ha|done]]|].
    intros r k' Hc'. pc_step. pc_step. by apply in_call_done.
  - apply pc_one; [done|]. pc_step. by apply same_slots_refl.
  - apply Hone.
Qed.

End restart_inv.

(** ** All of [resume] *)

Lemma pc_resume c k : kernel_inv k → sl_ctx (slot_of k (me k)) = Inside c → me k ≠ 0 ∨ c = KYield ∨ c = KReturn →
  pc (resume c) k (call_done (me k)).
Proof.
  intros Hk Hc Hm0.
  assert (Hin : ¬ is_recv_wake (Inside c) → c ≠ KFaultWait → in_call (me k) k).
  { intros H1 H2. apply inv_in_call with (Inside c); [done|done|done|congruence]. }
  destruct c; cbn [resume];
    try (destruct Hm0 as [Hm0|[?|?]]; try done);
    try (assert (Hic : in_call (me k) k) by (apply Hin; [by intros (? & ? & ? & ?)|done]));
    try (pc_step; by apply in_call_done).
  - by apply pc_send_park_running.
  - by apply pc_send_wake.
  - by apply pc_recv_wake.
  - by apply pc_recv_loop.
  - by apply pc_fault_wait_wake.
  - unfold gone, yield_now. pc_step. eapply pc_mono; [by apply pc_switch_call|].
    intros [] k' H; pc_step; [apply H|]. split; [apply H| |by apply in_call_settled|done].
    rewrite (ic_me _ _ H). apply H.
Qed.
