(* ===== verification/ImageMem.v ===== *)
(** * ImageMem: stacks and address spaces, taken and given back

    What a task is built from: the frames of a kernel stack, planted with a
    switch frame, and an address space with the image of a user program.  Each
    is taken and given back under the account of [PagingOwn]. *)

From S2P Require Import Prelude Memory FrameAlloc Frames FramesSpec FramesBoot Paging PagingWalk PagingTables PagingMap PagingRange PagingSpace PagingOwn PagingKeep.
From S2P Require Import Kernel Sched Notify Ipc Tasks Syscall.

(** ** Stacks and images *)

(** The frames of the kernel stack at [f]. *)
Definition stack_of (f : Z) : list Z := map (λ j, f + j * FRAME_SIZE) (range 0 STACK_FRAMES).

Lemma elem_of_stack_of f x : x ∈ stack_of f ↔ ∃ j, 0 ≤ j < STACK_FRAMES ∧ x = f + j * FRAME_SIZE.
Proof.
  unfold stack_of. rewrite list_elem_of_fmap. setoid_rewrite elem_of_range. naive_solver.
Qed.

(** Bytes of a stack are bytes of its frames. *)
Lemma in_stack f x : f ≤ x < f + STACK_SIZE → ∃ g, g ∈ stack_of f ∧ in_frame g x.
Proof.
  unfold STACK_SIZE. intros Hx. exists (f + (x - f) / FRAME_SIZE * FRAME_SIZE). rewrite elem_of_stack_of.
  unfold in_frame, STACK_FRAMES, FRAME_SIZE in *. split; [|zdiv]. exists ((x - f) / 4096). split; [zdiv|done].
Qed.

(** The page of a user program's stack. *)
Definition USER_STACK_VA : Z := USER_STACK_TOP - FRAME_SIZE.

(** A user address space maps its text, its stack, and nothing else. *)
Definition image_space (m : mem) (r : Z) : Prop :=
  ∀ x, match walk 3 m r x with
       | Some (l, d) => l = 3 ∧ (page_of x = page_of USER_TEXT_VA ∧ perm d = Attributes.user_text ∨
                                 page_of x = page_of USER_STACK_VA ∧ perm d = Attributes.user_data)
       | None => page_of x ≠ page_of USER_TEXT_VA ∧ page_of x ≠ page_of USER_STACK_VA
       end.

Section machine.
Context (pool : Z → Prop) (m0 : mem).
Abbreviation accounted := (accounted pool m0) (only parsing).

(** The walks of every root are as they were. *)
Definition still (T : tables) (m m' : mem) : Prop :=
  ∀ r x, T !! r = Some 3%nat → walk 3 m' r x = walk 3 m r x.

Lemma entries_still (s : machine) T X m' : accounted s T X →
  same_entries (memory s) m' T (λ _ _, False) → still T (memory s) m'.
Proof. intros H Hs r x Hr. by apply (walk_same _ _ (t_forest _ _ (ac_tables _ _ _ _ _ H))). Qed.

(** Writing only to pages and to frames held. *)
Lemma account_write s T X mm :
  accounted s T X → bytes_ok mm →
  (∀ x, (∀ g, page_in (memory s) T g ∨ g ∈ X → ¬ in_frame g x) → mm x = memory s x) →
  accounted (set_memory mm s) T X ∧ still T (memory s) mm.
Proof.
  intros H Hb Hout. split.
  - eapply accounted_write; [exact H|exact (fa_set_ok mm s (ac_ok _ _ _ _ _ H) Hb)|done|done|exact Hout].
  - eapply entries_still; [exact H|]. exact (account_entries _ _ s (set_memory mm s) T X H Hout).
Qed.

Lemma pc_alloc_stack s T X Q :
  accounted s T X →
  (∀ c s', accounted s' T (stack_of c ++ X) → still T (memory s) (memory s') → Q (Some c) s') →
  Q None s → pc (alloc_contiguous STACK_FRAMES) s Q.
Proof.
  intros H HS HN. pose proof (ac_ok _ _ _ _ _ H) as [Hm Hb]. apply pc_of_wp.
  eapply wp_mono; [by apply wp_alloc_contiguous|]. intros [c|] s' (Hm' & Hram & _ & Hr); [|by destruct Hr as [-> _]].
  destruct Hr as (i & -> & Hrun & _ & Hfs & Hmem).
  assert (Hst : ∀ g, g ∈ stack_of (from_index s i) ↔ ∃ j, g = from_index s j ∧ i ≤ j < i + STACK_FRAMES).
  { intros g. rewrite elem_of_stack_of. unfold from_index. split.
    - intros (j & Hj & ->). exists (i + j). lia.
    - intros (j & -> & Hj). exists (j - i). lia. }
  assert (Htk : took (stack_of (from_index s i)) s s').
  { split.
    - split; [done|]. simpl. rewrite Hmem. by apply zero_range_bytes.
    - intros g. by apply same_ram_frame.
    - split.
      + apply NoDup_fmap_2_strong, NoDup_range. intros x y _ _ He. unfold FRAME_SIZE in He. lia.
      + intros f (j & -> & Hj)%Hst. apply is_avail_index. by apply Hrun.
    - intros g. simpl. unfold is_avail. setoid_rewrite (same_ram_index _ _ _ Hram). setoid_rewrite Hfs.
      setoid_rewrite elem_of_difference. setoid_rewrite Bitmap.elem_of_span. rewrite Hst. split.
      + intros (j & -> & Hj & Hn). split; [by exists j|]. intros (k & ->%from_index_inj & ?). done.
      + intros [(j & -> & Hj) Hn]. exists j. split; [done|]. split; [done|]. intros ?. apply Hn. by exists j.
    - intros x Hx. simpl. rewrite Hmem. apply zero_range_out. intros Hin.
      destruct (in_stack (from_index s i) x) as (g & Hg & Hgx); [done|]. by apply (Hx g). }
  apply HS; [by eapply accounted_alloc|]. eapply entries_still; [exact H|]. exact (took_entries s s' T _ (ac_tables _ _ _ _ _ H) Htk).
Qed.

Lemma pc_free_stack s T X c Q :
  accounted s T (stack_of c ++ X) → (∀ s', accounted s' T X → memory s' = memory s → Q tt s') →
  pc (Frames.free_contiguous c STACK_FRAMES) s Q.
Proof.
  intros H HQ. unfold Frames.free_contiguous, stack_of in *.
  assert (HQ' : ∀ s', accounted s' T X → memory s' = memory s → Q tt s') by exact HQ. clear HQ.
  set (m := memory s) in HQ'. assert (Hm : memory s = m) by done. clearbody m.
  revert s H Hm. generalize (range 0 STACK_FRAMES) as l.
  induction l as [|j l IH]; intros s H Hm; cbn [forM]; [pc_step; by apply HQ'|].
  unfold Frames.from_addr. pc_steps.
  eapply (pc_account_free (FA := frames_alloc) pool m0 s T _ (c + j * FRAME_SIZE)); [exact H|]. intros s' H' Hm'. apply IH; [exact H'|exact (eq_trans Hm' Hm)].
Qed.

(** The frame [switch] pops is planted inside the stack. *)
Lemma pc_plant s T X tramp c entry arg Q :
  accounted s T X → (∀ g, g ∈ stack_of c → g ∈ X) →
  (∀ sp s', accounted s' T X → still T (memory s) (memory s') → Q sp s') →
  pc (plant_switch_frame tramp c entry arg) s Q.
Proof.
  intros H Hin HQ. unfold plant_switch_frame. cbv zeta.
  set (good := λ s1, accounted s1 T X ∧ still T (memory s) (memory s1)).
  assert (Hstep : ∀ a v s1, c ≤ a → a + 8 ≤ c + STACK_SIZE → good s1 → good (set_memory (write_u64 (memory s1) a v) s1)).
  { intros a v s1 Ha Hb [H1 Hs1]. destruct (account_write s1 T X (write_u64 (memory s1) a v)) as [H2 Hs2]; [done| | |].
    - apply write_le_bytes, (ac_ok _ _ _ _ _ H1).
    - intros x Hx. apply write_le_other. intros Hax. destruct (in_stack c x) as (g & Hg & Hgx); [lia|].
      apply (Hx g); [right; by apply Hin|done].
    - split; [exact H2|]. intros r x Hr. exact (eq_trans (Hs2 r x Hr) (Hs1 r x Hr)). }
  unfold write_word. do 5 (pc_step; pc_step). pc_step.
  assert (Hall : ∀ s1, good s1 → ∀ sp, Q sp s1) by (intros s1 [? ?] sp; by apply HQ).
  apply Hall. repeat (apply Hstep; [unfold STACK_SIZE, STACK_FRAMES, FRAME_SIZE, SWITCH_FRAME_WORDS, SLOT_X19,
    SLOT_X20, SLOT_X29, SLOT_X30; lia..|]). done.
Qed.

Lemma pc_alloc_frame s T X Q :
  accounted s T X → (∀ c s', accounted s' T (c :: X) → still T (memory s) (memory s') → Q (Some c) s') →
  Q None s → pc alloc s Q.
Proof.
  intros H HS HN. apply (pc_account_alloc (FA := frames_alloc) pool m0 s T X); [exact H| |exact HN].
  intros c s' H' Hc Hok Hfr Hav Hmem _. apply HS; [exact H'|]. eapply entries_still; [exact H|].
  exact (proj1 (tables_fresh s T s' c (ac_tables _ _ _ _ _ H) Hok Hfr Hc Hav Hmem)).
Qed.

(** A frame held is mapped at one page of a root where nothing was. *)
Lemma pc_image_map s T X root va c attrs Q :
  accounted s T (c :: X) → T !! root = Some 3%nat → attrs ∈ user_attrs → walk 3 (memory s) root va = None →
  (∀ s' T', accounted s' T' X → (∀ r, T' !! r = Some 3%nat ↔ T !! r = Some 3%nat) → page_in (memory s') T' c →
     (∀ r x, T !! r = Some 3%nat → r ≠ root → walk 3 (memory s') r x = walk 3 (memory s) r x) →
     (∀ x, walk 3 (memory s') root x =
        if decide (page_of va = page_of x) then Some (3, page_desc c attrs) else walk 3 (memory s) root x) →
     perm (page_desc c attrs) = attrs → Q tt s') →
  pc (AddressSpace_map root va c FRAME_SIZE attrs) s Q.
Proof.
  intros H Hr Hat Hnone HQ. change FRAME_SIZE with PAGE_SIZE.
  eapply (pc_AddressSpace_map (FA := frames_alloc) pool m0 s T X); [exact H|exact Hr|exact Hat|exact Hnone|].
  intros s' T' H' Hr' Hp Hw. apply (HQ s' T'); [exact H'|exact Hr'|exact Hp| | |].
  - intros r x Hrr Hne. eapply eq_trans; [exact (Hw r x Hrr)|]. by rewrite decide_False by tauto.
  - intros x. eapply eq_trans; [exact (Hw root x Hr)|]. apply decide_ext. tauto.
  - apply perm_desc; [|by apply user_attrs_ok]. eapply (frame_page (FA := frames_alloc)); [exact (ac_ok _ _ _ _ _ H)|].
    by apply (proj2 (ac_held _ _ _ _ _ H) c ltac:(left)).
Qed.

(** An address space for a user program: a new root, with an image. *)
Lemma pc_build_user_space s T X start end_ arg Q :
  accounted s T X →
  (∀ root s' T', accounted s' T' X → T !! root = None →
     (∀ r, T' !! r = Some 3%nat ↔ T !! r = Some 3%nat ∨ r = root) → still T (memory s) (memory s') →
     image_space (memory s') root → Q root s') →
  pc (build_user_space start end_ arg) s Q.
Proof.
  intros H HQ. unfold build_user_space. pc_step. apply (pc_AddressSpace_new pool m0 s T X); [exact H|].
  intros root s1 T1 H1 Hnone HT1 Hnew Hs1.
  assert (Hr1 : ∀ r, T1 !! r = Some 3%nat ↔ T !! r = Some 3%nat ∨ r = root).
  { intros r. rewrite HT1, lookup_insert_Some. destruct (decide (r = root)) as [->|]; [|naive_solver].
    rewrite Hnone. naive_solver. }
  assert (Hroot : T1 !! root = Some 3%nat) by (by apply Hr1; right). clear HT1.
  pc_step. apply pc_lift. intros len Hlen. pc_step. pc_step. pc_step.
  eapply pc_alloc_frame; [exact H1| |by pc_steps]. intros text s2 H2 Hs2. pc_step. pc_step.
  match goal with H : Some _ = Some _ |- _ => injection H as <- end. pc_step. pc_step.
  destruct (account_write s2 T1 (text :: X) (copy_range (memory s2) start text len)) as [H3 Hs3]; [exact H2| | |].
  { apply copy_range_bytes, (ac_ok _ _ _ _ _ H2). }
  { intros x Hx. apply copy_range_out. intros Hin. apply (Hx text); [right; by left|].
    unfold in_frame, FRAME_SIZE in *. assert (len <= 4096) by (by apply Z.leb_le). lia. }
  pc_step. eapply pc_image_map; [exact H3|exact Hroot|by left| |].
  { exact (eq_trans (Hs3 root _ Hroot) (eq_trans (Hs2 root _ Hroot) (Hnew _))). }
  intros s4 T4 H4 Hr4 _ Ho4 Hm4 Hp4. pc_step. eapply pc_alloc_frame; [exact H4| |by pc_steps].
  intros stack s5 H5 Hs5. pc_step. pc_step. match goal with H : Some _ = Some _ |- _ => injection H as <- end.
  assert (Hroot4 : T4 !! root = Some 3%nat) by (by apply Hr4).
  assert (Hw5 : ∀ x, walk 3 (memory s5) root x =
    if decide (page_of USER_TEXT_VA = page_of x) then Some (3, page_desc text Attributes.user_text) else None).
  { intros x. rewrite Hs5, Hm4 by done. case_decide; [done|].
    exact (eq_trans (Hs3 root _ Hroot) (eq_trans (Hs2 root _ Hroot) (Hnew _))). }
  pc_step. eapply pc_image_map; [exact H5|exact Hroot4|right; left|by rewrite Hw5|].
  intros s6 T6 H6 Hr6 Hpg6 Ho6 Hm6 Hp6. unfold write_word. pc_steps.
  destruct (account_write s6 T6 X (write_u64 (memory s6) (stack + FRAME_SIZE - USER_ARG_OFFSET) arg)) as [H7 Hs7]; [exact H6| | |].
  { apply write_le_bytes, (ac_ok _ _ _ _ _ H6). }
  { intros x Hx. apply write_le_other. intros Hin. apply (Hx stack); [by left|].
    unfold in_frame, FRAME_SIZE, USER_ARG_OFFSET in *. lia. }
  apply (HQ root _ T6); [exact H7|exact Hnone|intros r; by rewrite Hr6, Hr4| |].
  - intros r x Hr. assert (Hr' : T1 !! r = Some 3%nat) by (apply Hr1; by left). assert (Hne : r ≠ root) by congruence.
    assert (Hr'' : T4 !! r = Some 3%nat) by (by apply Hr4). refine (eq_trans (Hs7 r x _) _); [by apply Hr6|].
    rewrite Ho6, Hs5, Ho4 by done. exact (eq_trans (Hs3 r _ Hr') (eq_trans (Hs2 r _ Hr') (Hs1 _ _ Hr))).
  - intros x. assert (Hw7 : walk 3 (memory (set_memory (write_u64 (memory s6) (stack + FRAME_SIZE - USER_ARG_OFFSET) arg) s6)) root x =
      walk 3 (memory s6) root x) by (apply Hs7; by apply Hr6).
    rewrite Hw7, Hm6, Hw5. case_decide as Hd; [split; [done|]; right; done|].
    case_decide as Hd'; [split; [done|]; left; done|]. unfold USER_STACK_VA. split; congruence.
Qed.

End machine.
