(* ===== verification/KernelMem.v ===== *)
(** * KernelMem: every frame the kernel hands out has one owner

    The account of [PagingOwn] over the whole kernel: the tables of every address
    space, the pages they map, the kernel stacks of tasks, and what is free.
    [mem_ok] says so of a [kernel]; every kernel operation keeps it. *)

From S2P Require Import Prelude Memory FrameAlloc Frames FramesSpec FramesBoot Paging PagingWalk PagingTables PagingMap PagingRange PagingSpace PagingOwn PagingKeep.
From S2P Require Import Kernel Sched Notify Ipc Tasks Syscall KernelInv SchedSpec CallInv SyscallInv ImageMem.

(** ** What a task holds *)

Definition held_space (o : option Task) : list Z := option_list (o ≫= space).
(** A task holds its stack until it is reaped. *)
Definition held_stack (o : option Task) : list Z :=
  match o with
  | Some t => if owns_stack t && negb (bool_decide (state t = Dead)) then stack_of (stack t) else []
  | None => []
  end.

Definition task_roots (k : kernel) : list Z := flat_map held_space (task_list k).
Definition task_stacks (k : kernel) : list Z := flat_map held_stack (task_list k).
(** The roots of every address space there is. *)
Definition roots (k : kernel) : list Z := option_list (EMPTY_SPACE k) ++ task_roots k.

Record task_ok (t : Task) : Prop := {
  to_dead : state t = Dead → space t = None;
  to_image : image t ≠ None → owns_stack t = true
}.

Lemma flat_map_insert {A} (f : A → list Z) l i o o' :
  l !! i = Some o → f o' ++ flat_map f l ≡ₚ f o ++ flat_map f (<[i:=o']> l).
Proof.
  revert i. induction l as [|a l IH]; intros i; [done|]. destruct i as [|i]; simpl.
  - intros [= ->]. apply Permutation_app_swap_app.
  - intros Hi. rewrite Permutation_app_swap_app, (IH i Hi). apply Permutation_app_swap_app.
Qed.

(** What one slot gives up another list takes over. *)
Lemma flat_map_moved {A} (f : A → list Z) l i o o' R R' :
  l !! i = Some o → f o ++ R ≡ₚ f o' ++ R' → flat_map f l ++ R ≡ₚ flat_map f (<[i:=o']> l) ++ R'.
Proof.
  intros Hi HR. apply (Permutation_app_inv_l (f o')).
  rewrite (app_assoc (f o')), (flat_map_insert f l i o o' Hi).
  rewrite (Permutation_app_comm (f o)), <-app_assoc, HR. apply Permutation_app_swap_app.
Qed.

Lemma task_at_list k i t : task_at k i = Some t ↔ task_list k !! Z.to_nat i = Some (Some t).
Proof. unfold task_at. destruct (task_list k !! Z.to_nat i) as [[u|]|]; naive_solver. Qed.

Lemma space_root_in k i r : space_root_of k i = Some r → r ∈ task_roots k.
Proof.
  unfold space_root_of. intros (t & Ht%task_at_list & Hs)%bind_Some. apply list_elem_of_In, in_flat_map.
  exists (Some t). split; [apply list_elem_of_In; by eapply list_elem_of_lookup_2|].
  unfold held_space. simpl. rewrite Hs. by left.
Qed.

Create HintDb keeps discriminated.

Section kernel_mem.
Context (pool : Z → Prop) (m0 : mem).

(** Every frame of the pool is accounted for; [R] are roots and [Y] frames that
    belong to no task right now. *)
Record mem_ok (k : kernel) (R Y : list Z) : Prop := {
  mo_account : ∃ T, accounted pool m0 (mach k) T (task_stacks k ++ Y) ∧ ∀ r, T !! r = Some 3%nat ↔ r ∈ roots k ++ R;
  mo_roots : NoDup (roots k ++ R);
  mo_tasks : ∀ i t, task_list k !! i = Some (Some t) → task_ok t;
  mo_me : 0 ≤ me k;
  (** The hardware walks the tables of the running task. *)
  mo_current : ∃ t, task_list k !! Z.to_nat (me k) = Some (Some t) ∧ state t ≠ Dead ∧
    Some (ttbr0 k) = match space t with Some r => Some r | None => EMPTY_SPACE k end;
  mo_empty : ∀ e x, EMPTY_SPACE k = Some e → walk 3 (memory (mach k)) e x = None;
  mo_image : ∀ r, r ∈ task_roots k ++ R → image_space (memory (mach k)) r
}.

(** Only the machine, the scheduler and the two roots matter. *)
Definition view (k : kernel) := (mach k, SCHEDULER k, EMPTY_SPACE k, ttbr0 k).

Lemma mem_ok_view k k' R Y : view k' = view k → mem_ok k R Y → mem_ok k' R Y.
Proof.
  unfold view. intros [= Hm Hs He Ht] [H1 H2 H3 H4 H5 H6 H7].
  unfold roots, task_roots, task_stacks, task_list, me in *. rewrite <-Hm, <-Hs, <-He, <-Ht in *. by split.
Qed.

Lemma image_space_same m m' r : (∀ x, walk 3 m' r x = walk 3 m r x) → image_space m r → image_space m' r.
Proof. intros Hw H x. rewrite Hw. apply H. Qed.

Lemma mem_ok_mach k R Y m' T' R' Y' :
  mem_ok k R Y → accounted pool m0 m' T' (task_stacks k ++ Y') → (∀ r, T' !! r = Some 3%nat ↔ r ∈ roots k ++ R') →
  NoDup (roots k ++ R') → (∀ r x, r ∈ roots k → walk 3 (memory m') r x = walk 3 (memory (mach k)) r x) →
  (∀ r, r ∈ R' → image_space (memory m') r) → mem_ok (set_mach m' k) R' Y'.
Proof.
  intros [H1 H2 H3 H4 H5 H6 H7] Ha Hr Hnd Hw Hi. split; try done.
  - by exists T'.
  - intros e x He. change (EMPTY_SPACE k = Some e) in He. rewrite <-(H6 e x He). apply Hw. unfold roots. rewrite He. by left.
  - intros r [Hrr|Hrr]%elem_of_app; [|by apply Hi]. eapply image_space_same; [|apply H7, elem_of_app; by left].
    intros x. apply Hw. unfold roots. apply elem_of_app. by right.
Qed.

(** A slot changes hands. *)
Lemma mem_ok_task k R Y R' Y' i o o' :
  mem_ok k R Y → task_list k !! i = Some o →
  held_space o ++ R ≡ₚ held_space o' ++ R' → held_stack o ++ Y ≡ₚ held_stack o' ++ Y' →
  (∀ t, o' = Some t → task_ok t) →
  (i = Z.to_nat (me k) → ∃ t t', o = Some t ∧ o' = Some t' ∧ space t' = space t ∧ state t' ≠ Dead) →
  mem_ok (set_tasks (<[i := o']> (task_list k)) k) R' Y'.
Proof.
  intros [(T & Ha & HT) H2 H3 H4 (tc & Htc & Hd & Ht) H6 H7] Hi HR HY Hok Hcur.
  set (k' := set_tasks _ k).
  assert (Hroots : task_roots k ++ R ≡ₚ task_roots k' ++ R') by (by apply (flat_map_moved held_space _ i o o')).
  assert (Hall : roots k ++ R ≡ₚ roots k' ++ R').
  { unfold roots. change (EMPTY_SPACE k') with (EMPTY_SPACE k). by rewrite <-!app_assoc, Hroots. }
  split.
  - exists T. split; [|intros r; by rewrite HT, Hall]. eapply accounted_perm; [|exact Ha].
    by apply (flat_map_moved held_stack _ i o o').
  - by rewrite <-Hall.
  - intros j t [(<- & -> & _)|[_ Hj]]%list_lookup_insert_Some; [by apply Hok|by apply (H3 j)].
  - exact H4.
  - change (me k') with (me k). change (task_list k') with (<[i:=o']> (task_list k)).
    destruct (decide (i = Z.to_nat (me k))) as [->|Hne].
    + destruct (Hcur eq_refl) as (t & t' & -> & -> & Hs & Hd'). exists t'. split; [|split; [done|]].
      * apply list_lookup_insert_eq. by eapply lookup_lt_Some.
      * assert (tc = t) as -> by congruence. rewrite Hs. exact Ht.
    + exists tc. by rewrite list_lookup_insert_ne.
  - exact H6.
  - intros r. rewrite <-Hroots. apply H7.
Qed.

(** ** Operations that keep the account *)

(** Whoever holds what meanwhile, the account is as it was. *)
Definition keeps {A} (op : M kernel A) : Prop :=
  ∀ k R Y, mem_ok k R Y → pc op k (λ _ k', mem_ok k' R Y).

Lemma keeps_steady {A} (op : M kernel A) : steady view op → keeps op.
Proof. intros H k R Y Hk. eapply steady_pc; [exact H|]. intros _ k' Hv. by eapply mem_ok_view. Qed.

Lemma keeps_bind {A B} (op : M kernel A) (f : A → M kernel B) :
  keeps op → (∀ a, keeps (f a)) → keeps (op ≫= f).
Proof.
  intros H Hf k R Y Hk. pc_step. eapply pc_mono; [by apply H|]. intros a k' Hk'. by apply Hf.
Qed.

Lemma keeps_forM {A} (body : A → M kernel unit) l : (∀ a, keeps (body a)) → keeps (forM l body).
Proof. intros H k R Y Hk. apply (pc_forM _ _ (λ k', mem_ok k' R Y)); [done| |done]. intros a k' _ Hk'. by apply H. Qed.

(** Reading the state tells nothing that has to be remembered. *)
Lemma keeps_getS {B} (f : kernel → M kernel B) : (∀ k, keeps (f k)) → keeps (getS ≫= f).
Proof. intros H k R Y Hk. pc_steps. by apply H. Qed.

Lemma keeps_index {A} (l : list A) i : keeps (index l i).
Proof. apply keeps_steady. unfold index. auto with steady. Qed.

Lemma keeps_reads {A} (op : M machine A) : reads op → keeps (with_mach op).
Proof.
  intros H k R Y Hk. unfold with_mach. apply pc_zoom_in. apply pc_reads; [exact H|]. intros a. by destruct k.
Qed.

Lemma steady_store {A} (get : kernel → list A) put i v :
  (∀ l k, view (put l k) = view k) → steady view (store get put i v).
Proof. intros H k a k'. unfold store. destruct (get k !! _); [|done]. intros [= _ <-]. apply H. Qed.

Lemma pc_store_some {A} (get : kernel → list A) put i v k Q :
  (∀ o, get k !! Z.to_nat i = Some o → Q tt (put (<[Z.to_nat i := v]> (get k)) k)) → pc (store get put i v) k Q.
Proof. unfold pc, store. destruct (get k !! Z.to_nat i); [|done]. eauto. Qed.

(** A task that holds what it held. *)
Record like (t t' : Task) : Prop := {
  lk_space : space t' = space t;
  lk_stack : stack t' = stack t ∧ owns_stack t' = owns_stack t;
  lk_image : image t' = image t;
  lk_dead : state t' = Dead ↔ state t = Dead
}.

Lemma like_held t t' : like t t' → held_space (Some t') = held_space (Some t) ∧ held_stack (Some t') = held_stack (Some t).
Proof.
  intros [Hs [Hst Ho] _ Hd]. unfold held_space, held_stack. simpl. rewrite Hs, Hst, Ho.
  by rewrite (bool_decide_ext _ _ Hd).
Qed.

Lemma pc_store_like k R Y i t t' :
  mem_ok k R Y → task_at k i = Some t → like t t' → pc (store_task i (Some t')) k (λ _ k', mem_ok k' R Y).
Proof.
  intros Hk Ht%task_at_list Hl. apply pc_store_some. intros o Ho. assert (o = Some t) as -> by congruence.
  destruct (like_held t t' Hl) as [Hs Hst]. destruct (mo_tasks _ _ _ Hk _ _ Ht) as [Td Ti].
  eapply mem_ok_task; [exact Hk|exact Ht|by rewrite Hs|by rewrite Hst| |].
  - intros u [= <-]. split.
    + intros Hd. rewrite (lk_space _ _ Hl). by apply Td, (lk_dead _ _ Hl).
    + rewrite (lk_image _ _ Hl). intros Hi. rewrite (proj2 (lk_stack _ _ Hl)). by apply Ti.
  - intros Hi. exists t, t'. split; [done|]. split; [done|]. split; [apply Hl|]. rewrite (lk_dead _ _ Hl).
    destruct (mo_current _ _ _ Hk) as (tc & Htc & Hd & _). rewrite <-Hi in Htc. congruence.
Qed.

Lemma like_state s t : state t ≠ Dead → s ≠ Dead → like t (with_state s t).
Proof. intros H Hs. by split. Qed.

(** The running task changes its own state. *)
Lemma keeps_update_current f : (∀ t, state t ≠ Dead → like t (f t)) → keeps (update_current f).
Proof.
  intros Hf k R Y Hk. unfold update_current. pc_steps. apply pc_index. intros o Ho. destruct o as [t|]; [|by pc_step].
  eapply pc_store_like; [exact Hk|by apply task_at_list|]. apply Hf.
  destruct (mo_current _ _ _ Hk) as (tc & Htc & Hd & _). congruence.
Qed.

Lemma keeps_unblock_deferred i : keeps (unblock_deferred i).
Proof.
  intros k R Y Hk. unfold unblock_deferred. pc_steps. apply pc_index. intros here _.
  destruct (task_at k i) as [t|] eqn:Ht; [|by pc_step]. case_bool_decide as Hb; [|by pc_step].
  pc_step. eapply pc_mono; [eapply pc_store_like; [exact Hk|exact Ht|]|].
  - apply like_state; congruence.
  - intros [] k' Hk'. by pc_step.
Qed.

(** ** Reaping and switching *)

Lemma mem_salvage k R Y : mem_ok k R Y →
  pc salvage k (λ r k', match r with
    | None => mem_ok k' R Y
    | Some (st, sp) => mem_ok k' (option_list sp ++ R) (match st with Some c => stack_of c | None => [] end ++ Y)
    end).
Proof.
  intros Hk. unfold pc, salvage. destruct (list_find _ _) as [[i [t|]]|] eqn:Hf; [|exact Hk..].
  apply list_find_Some in Hf as (Hi & Hz & _). injection Hz as Hz.
  destruct (Z.eqb_spec (Z.of_nat i) (me k)) as [|Hne]; cbn [negb]; [exact Hk|].
  eapply mem_ok_task; [exact Hk|exact Hi|by apply Permutation_refl| | |].
  - unfold held_stack. simpl. rewrite (bool_decide_false (state t = Dead)) by congruence.
    cbn [negb]. rewrite andb_false_r, andb_true_r. by destruct (owns_stack t).
  - intros u [= <-]. split; [done|]. apply (mo_tasks _ _ _ Hk _ _ Hi).
  - intros ->. pose proof (mo_me _ _ _ Hk). lia.
Qed.

Lemma pc_give_stack k R Y c : mem_ok k R (stack_of c ++ Y) →
  pc (with_mach (Frames.free_contiguous c STACK_FRAMES)) k (λ _ k', mem_ok k' R Y).
Proof.
  intros Hk. destruct (mo_account _ _ _ Hk) as (T & Ha & HT). apply pc_zoom_in.
  eapply pc_free_stack; [eapply accounted_perm; [|exact Ha]; apply Permutation_app_swap_app|].
  intros m' Ha' Hm. eapply mem_ok_mach; [exact Hk|exact Ha'|exact HT|apply Hk|by rewrite Hm|].
  intros r Hr. rewrite Hm. apply (mo_image _ _ _ Hk), elem_of_app. by right.
Qed.

Lemma pc_give_space k R Y root : mem_ok k (root :: R) Y →
  pc (with_mach (AddressSpace_destroy root)) k (λ _ k', mem_ok k' R Y).
Proof.
  intros Hk. destruct (mo_account _ _ _ Hk) as (T & Ha & HT). apply pc_zoom_in.
  pose proof (mo_roots _ _ _ Hk) as Hnd. rewrite <-Permutation_middle in Hnd. apply NoDup_cons in Hnd as [Hni Hnd].
  eapply (pc_AddressSpace_destroy (FA := frames_alloc) pool m0); [exact Ha| |].
  { apply HT. rewrite elem_of_app. right. by left. }
  intros m' T' Ha' Hsub HT' Hm. change (memory m' = memory (mach k)) in Hm.
  eapply mem_ok_mach; [exact Hk|exact Ha'| |exact Hnd|by rewrite Hm|].
  - intros r. rewrite HT', HT, <-Permutation_middle, elem_of_cons. split; [tauto|].
    intros Hr. split; [by right|]. by intros ->.
  - intros r Hr. rewrite Hm. apply (mo_image _ _ _ Hk), elem_of_app. right. by right.
Qed.

Lemma keeps_reap : keeps reap_zombies.
Proof.
  unfold reap_zombies. generalize (S (Z.to_nat MAX_TASKS)) as fuel. induction fuel as [|fuel IH]; intros k R Y Hk; cbn [reap_loop];
    [by pc_step|].
  pc_step. eapply pc_mono; [by apply mem_salvage|]. intros [[st sp]|] k1 H1; [|by pc_step].
  pc_step. eapply (pc_mono _ _ (λ _ k2, mem_ok k2 (option_list sp ++ R) Y)).
  { destruct st as [c|]; [by apply pc_give_stack|by pc_step]. }
  intros [] k2 H2. pc_step. eapply (pc_mono _ _ (λ _ k3, mem_ok k3 R Y)); [|intros [] k3; apply IH].
  destruct sp as [root|]; [by apply pc_give_space|by pc_step].
Qed.

(** The switch hands the hardware the tables of the task it chose. *)
Lemma mem_ok_switch k R Y next t root log :
  mem_ok k R Y → 0 ≤ next → task_list k !! Z.to_nat next = Some (Some t) → state t ≠ Dead →
  Some root = match space t with Some r => Some r | None => EMPTY_SPACE k end →
  mem_ok (set_ttbr0 root (set_SWITCH_LOG log (set_current next k))) R Y.
Proof. intros [H1 H2 H3 H4 H5 H6 H7] Hn Ht Hd Hr. split; try done. by exists t. Qed.

Lemma keeps_switch reason : keeps (switch_to_next reason).
Proof.
  intros k0 R Y Hk0. unfold switch_to_next. pc_step. eapply pc_mono; [by apply keeps_reap|]. intros [] k Hk.
  pc_steps. apply pc_index. intros here _. destruct here as [h|]; [|by pc_step]. pc_step. apply pc_expectM. intros next Hnext.
  destruct (Z.eqb_spec next (me k)) as [|Hne]; [by pc_step|]. do 5 pc_step. apply pc_index. intros o Ho.
  pc_step. apply pc_expectM. intros u ->. change (task_list _) with (task_list k) in Ho.
  pose proof (next_runnable_spec (SCHEDULER k)) as Hn. rewrite Hnext in Hn.
  destruct Hn as (p & st & _ & -> & (t & Ht & Hrun & _) & _).
  unfold task_list in Ho. assert (u = t) as -> by congruence.
  pose proof (candidate_range (SCHEDULER k) st) as Hc.
  assert (Hfin : ∀ root, Some root = match space t with Some r => Some r | None => EMPTY_SPACE k end →
    pc (_ ← activate_root root; mret true)
      (set_SWITCH_LOG (note_switch (me k) (candidate (SCHEDULER k) st) reason (SWITCH_LOG (set_current (candidate (SCHEDULER k) st) k)))
         (set_current (candidate (SCHEDULER k) st) k)) (λ _ k', mem_ok k' R Y)).
  { intros root Hr. unfold activate_root. pc_steps. eapply mem_ok_switch; [exact Hk|lia|exact Ht|congruence|exact Hr]. }
  destruct (space t) as [r|] eqn:Hsp; [pc_step; by apply Hfin|]. unfold empty_space_root. pc_steps. by apply Hfin.
Qed.

(** ** Messages *)

Lemma mem_ok_self k R Y : mem_ok k R Y → mem_ok (set_mach (mach k) k) R Y.
Proof. by destruct k. Qed.

Lemma pc_copy k R Y r1 va1 r2 va2 len :
  mem_ok k R Y → r1 ∈ task_roots k → r2 ∈ task_roots k →
  pc (copy_across r1 va1 r2 va2 len) (mach k) (λ _ m', mem_ok (set_mach m' k) R Y).
Proof.
  intros Hk H1 H2. destruct (mo_account _ _ _ Hk) as (T & Ha & HT).
  assert (Hin : ∀ r, r ∈ task_roots k → T !! r = Some 3%nat).
  { intros r Hr. apply HT. unfold roots. rewrite !elem_of_app. tauto. }
  apply (pc_copy_across (FA := frames_alloc) pool m0 (mach k) T (task_stacks k ++ Y)); [exact Ha|by apply Hin|by apply Hin|].
  intros b m' Ha' Hs. pose proof (entries_still _ _ _ _ _ (memory m') Ha Hs) as Hst.
  eapply mem_ok_mach; [exact Hk|exact Ha'|exact HT|apply Hk| |].
  - intros r x Hr. apply Hst, HT, elem_of_app. by left.
  - intros r Hr. eapply image_space_same; [|apply (mo_image _ _ _ Hk), elem_of_app; by right].
    intros x. apply Hst, HT, elem_of_app. by right.
Qed.

Lemma pc_look {A} (op : M machine A) k Q : reads op → (∀ a, Q a k) → pc (with_mach op) k Q.
Proof. intros H HQ. apply pc_zoom_in, pc_reads; [exact H|]. intros a. specialize (HQ a). by destruct k. Qed.

Lemma reads_user_readable root va len : reads (user_readable root va len : M machine _).
Proof. apply (reads_user_range (FA := frames_alloc)). Qed.
Lemma reads_user_writable root va len : reads (user_writable root va len : M machine _).
Proof. apply (reads_user_range (FA := frames_alloc)). Qed.

Lemma keeps_ret {A} (a : A) : keeps (mret a).
Proof. apply keeps_steady, steady_ret. Qed.

Lemma keeps_deliver src sb sl dst db dc : keeps (deliver src sb sl dst db dc).
Proof.
  unfold deliver. destruct (_ =? 0); [apply keeps_ret|]. intros k R Y Hk. pc_steps.
  destruct (space_root_of k src) as [r1|] eqn:H1; [|by pc_step].
  destruct (space_root_of k dst) as [r2|] eqn:H2; [|by pc_step].
  apply space_root_in in H1, H2. pc_step. apply pc_look; [apply reads_user_readable|]. intros []; cbn [negb]; [|by pc_step].
  pc_step. apply pc_look; [apply reads_user_writable|]. intros []; cbn [negb]; [|by pc_step].
  pc_step. apply pc_zoom_in. eapply pc_mono; [by apply pc_copy|]. intros b m' H. by pc_step.
Qed.

Lemma keeps_borrow peer ix off loc len w : keeps (borrow peer ix off loc len w).
Proof.
  unfold borrow. destruct (_ || _); [apply keeps_ret|]. intros k R Y Hk. do 3 pc_step. apply pc_find_lease.
  intros [l|]; [|by pc_step]. cbv zeta. destruct (_ =? 0); [by pc_step|]. destruct (checked_add64 off len); [|by pc_step].
  destruct (_ <? _); [by pc_step|].
  destruct (space_root_of k peer) as [r1|] eqn:H1; [|by pc_step].
  destruct (space_root_of k (me k)) as [r2|] eqn:H2; [|by pc_step]. apply space_root_in in H1, H2.
  pc_step. apply pc_lift. intros remote _. pc_step. apply pc_zoom_in.
  eapply (pc_mono _ _ (λ _ m', mem_ok (set_mach m' k) R Y)); [|intros ok m' H; by pc_step].
  destruct w; pc_step; (apply pc_reads; [apply reads_user_readable || apply reads_user_writable|]);
    (intros [|]; [by apply pc_copy|pc_step; by apply mem_ok_self]).
Qed.

Lemma reads_collect root va n : reads (collect_leases root va n).
Proof.
  assert (Hu : ∀ r a, reads (read_user_u64 r a)).
  { intros r a. unfold read_user_u64. apply steady_bind; [apply (reads_translate (FA := frames_alloc))|].
    intros [pa|]; [|apply steady_ret]. apply steady_bind; [apply steady_gets|]. intros m. apply steady_ret. }
  assert (Hl : ∀ e, reads (read_lease root e)).
  { intros e. unfold read_lease. apply steady_bind; [apply Hu|]. intros base.
    apply steady_bind; [apply steady_bind; [apply steady_lift|intros a; apply Hu]|]. intros len.
    apply steady_bind; [apply steady_bind; [apply steady_lift|intros a; apply Hu]|]. intros attrs.
    destruct base as [base|]; [|apply steady_ret]. destruct len as [len|]; [|apply steady_ret].
    destruct attrs as [attrs|]; [|apply steady_ret]. destruct (_ || _); [apply steady_ret|].
    apply steady_bind.
    { destruct (negb _); [|apply steady_ret]. apply steady_bind; [apply reads_user_readable|intros; apply steady_ret]. }
    intros []; [apply steady_ret|]. apply steady_bind.
    { destruct (negb _); [|apply steady_ret]. apply steady_bind; [apply reads_user_writable|intros; apply steady_ret]. }
    intros []; apply steady_ret. }
  unfold collect_leases. destruct (_ =? 0); [apply steady_ret|]. destruct (_ <? _); [apply steady_ret|].
  destruct (negb _); [apply steady_ret|]. cbv zeta. apply steady_bind; [apply reads_user_readable|].
  intros []; [|apply steady_ret]. apply steady_bind; [|intros []; apply steady_ret].
  generalize no_leases as acc. generalize (range 0 n) as l. induction l as [|i l IH]; intros acc; cbn [collect_loop];
    [apply steady_ret|].
  apply steady_bind; [apply steady_lift|]. intros e. apply steady_bind; [apply Hl|]. intros []; [apply IH|apply steady_ret].
Qed.

(** *** The rest of the calls, by their structure *)

Lemma keeps_store {A} (get : kernel → list A) put i v :
  (∀ l k, view (put l k) = view k) → keeps (store get put i v).
Proof. intros H. by apply keeps_steady, steady_store. Qed.
Lemma keeps_modify f : (∀ k, view (f k) = view k) → keeps (modify f).
Proof. intros H. by apply keeps_steady, steady_modify. Qed.
Lemma keeps_gets {A} (f : kernel → A) : keeps (gets f).
Proof. apply keeps_steady, steady_gets. Qed.
Lemma keeps_panic {A} why : keeps (panic why : M kernel A).
Proof. apply keeps_steady, steady_panic. Qed.
Lemma keeps_lift {A} (r : res A) : keeps (lift r).
Proof. apply keeps_steady, steady_lift. Qed.
Lemma keeps_expectM {A} (o : option A) why : keeps (expectM o why).
Proof. apply keeps_steady, steady_expectM. Qed.

(** Follow the structure of an operation down to what is known to keep. *)
Ltac keep_step :=
  match goal with
  | |- keeps (getS ≫= _) => apply keeps_getS; intros ?
  | |- keeps (_ ≫= _) => apply keeps_bind; [|intros ?]
  | |- keeps (mret _) => apply keeps_ret
  | |- keeps (gets _) => apply keeps_gets
  | |- keeps (panic _) => apply keeps_panic
  | |- keeps (lift _) => apply keeps_lift
  | |- keeps (expectM _ _) => apply keeps_expectM
  | |- keeps (index _ _) => apply keeps_index
  | |- keeps (store _ _ _ _) => apply keeps_store; reflexivity
  | |- keeps (modify _) => apply keeps_modify; reflexivity
  | |- keeps (switch_to_next _) => apply keeps_switch
  | |- keeps (unblock_deferred _) => apply keeps_unblock_deferred
  | |- keeps (deliver _ _ _ _ _ _) => apply keeps_deliver
  | |- keeps (with_mach (user_readable _ _ _)) => apply keeps_reads, reads_user_readable
  | |- keeps (with_mach (user_writable _ _ _)) => apply keeps_reads, reads_user_writable
  | |- keeps (with_mach (collect_leases _ _ _)) => apply keeps_reads, reads_collect
  | |- keeps (match ?x with _ => _ end) => destruct x
  | |- keeps _ => solve [eauto with keeps]
  end.
Ltac keep := cbv zeta; repeat (keep_step; cbv zeta).

Lemma keeps_mark_blocked : keeps mark_current_blocked.
Proof. apply keeps_update_current. intros t Ht. by apply like_state. Qed.
Hint Resolve keeps_mark_blocked : keeps.

Lemma keeps_park : keeps park.
Proof. unfold park. keep. Qed.
Lemma keeps_unblock i : keeps (unblock i).
Proof. unfold unblock. keep. Qed.
Lemma keeps_take i mask : keeps (take i mask).
Proof. unfold take, posted_at. keep. Qed.
Lemma keeps_deliver_outcome i rc len : keeps (deliver_outcome i rc len).
Proof. unfold deliver_outcome, store_outcome, store_pending, store_lease_count, store_leases. keep. Qed.
Lemma keeps_take_outcome i : keeps (take_outcome i).
Proof. unfold take_outcome, store_outcome. keep. Qed.
Lemma keeps_pending_of i : keeps (pending_of i).
Proof. unfold pending_of. keep. Qed.
Hint Resolve keeps_park keeps_unblock keeps_take keeps_deliver_outcome keeps_take_outcome keeps_pending_of : keeps.

Lemma keeps_finish_sender i rc len : keeps (finish_sender i rc len).
Proof. unfold finish_sender. keep. Qed.
Lemma keeps_send_park : keeps send_park.
Proof. unfold send_park, send_wake. keep. Qed.
Lemma keeps_publish my ls n p : keeps (publish my ls n p).
Proof. unfold publish, store_leases, store_lease_count, store_pending. keep. Qed.
Hint Resolve keeps_finish_sender keeps_send_park keeps_publish : keeps.

Lemma keeps_send tgt op o ol rb rc lt lc : keeps (send tgt op o ol rb rc lt lc).
Proof. unfold send, send_message, store_pending, store_outcome. keep. Qed.

Lemma keeps_recv_loop fuel buf cap mask : keeps (recv_loop fuel buf cap mask).
Proof. induction fuel as [|fuel IH]; cbn [recv_loop]; unfold arm, disarm, store_pending; keep. Qed.
Hint Resolve keeps_recv_loop : keeps.
Lemma keeps_recv_wake buf cap mask : keeps (recv_wake buf cap mask).
Proof. unfold recv_wake, disarm, store_pending. keep. Qed.
Lemma keeps_recv buf cap mask : keeps (recv buf cap mask).
Proof. unfold recv. keep. Qed.
Lemma keeps_reply s rc d dl : keeps (reply s rc d dl).
Proof. unfold reply. keep. Qed.
Lemma keeps_abandon g : keeps (abandon g).
Proof.
  unfold abandon, store_pending, store_lease_count. apply keeps_bind; [|intros ?; keep]. apply keeps_forM. intros slot. keep.
Qed.
Hint Resolve keeps_recv_wake keeps_abandon keeps_send keeps_recv keeps_reply keeps_borrow : keeps.

(** ** Ending, and waiting for others to end *)

Lemma keeps_gone {A} : keeps (@gone A).
Proof. unfold gone, yield_now. keep. Qed.
Lemma keeps_exit code : keeps (exit_current code).
Proof.
  unfold exit_current. apply keeps_getS. intros k. apply keeps_bind; [|intros _; apply keeps_bind; [keep|intros _; apply keeps_gone]].
  apply keeps_update_current. intros t Ht. by split.
Qed.
Lemma keeps_task_finished : keeps task_finished.
Proof.
  unfold task_finished. apply keeps_getS. intros k. apply keeps_bind; [|intros _; apply keeps_bind; [keep|intros _; apply keeps_gone]].
  apply keeps_update_current. intros t Ht. by apply like_state.
Qed.
Lemma keeps_wait_loop : keeps wait_loop.
Proof. unfold wait_loop. keep. Qed.
Hint Resolve keeps_gone keeps_wait_loop : keeps.
Lemma keeps_fault_wait_wake : keeps fault_wait_wake.
Proof. unfold fault_wait_wake. keep. Qed.

Lemma keeps_fault_current f : keeps (fault_current f).
Proof.
  assert (Hrest : ∀ my, keeps (_ ← abandon my; _ ← wake_fault_waiters; @gone (Z * Z * Z))).
  { intros my. unfold wake_fault_waiters. apply keeps_bind; [keep|intros _]. apply keeps_bind; [|intros _; keep].
    apply keeps_forM. intros i. keep. }
  intros k R Y Hk. unfold fault_current. pc_steps. apply pc_index. intros o Ho. pc_step. apply pc_expectM. intros t ->.
  pc_step. eapply pc_mono; [eapply pc_store_like; [exact Hk|by apply task_at_list|]|].
  - destruct (mo_current _ _ _ Hk) as (tc & Htc & Hd & _). assert (tc = t) as -> by congruence. by split.
  - intros [] k' Hk'. by apply Hrest.
Qed.

Lemma keeps_kill i : keeps (kill i).
Proof.
  intros k R Y Hk. unfold kill. pc_steps. apply pc_index. intros o Ho. destruct o as [t|]; [|by pc_step].
  case_bool_decide as Hf; [|by pc_step]. eapply pc_store_like; [exact Hk|by apply task_at_list|]. apply like_state; congruence.
Qed.

Lemma keeps_post t bits : keeps (post t bits).
Proof. unfold post, posted_at, wanted_at, request_reschedule. keep. Qed.

Lemma keeps_on_irq intid : keeps (on_irq intid).
Proof. unfold on_irq. apply keeps_getS. intros k. destruct (list_find _ _) as [[i r]|]; [|keep]. apply keeps_bind; [apply keeps_post|intros ?; keep]. Qed.

Lemma keeps_route intid t bits : keeps (route intid t bits).
Proof. unfold route. keep. Qed.

(** A slot is reused once its task is reaped. *)
Lemma keeps_release : keeps release_dead.
Proof.
  assert (Hl : ∀ l n, (∀ i, i ∈ l → 0 ≤ i) → keeps (release_loop l n)).
  { induction l as [|i l IH]; intros n Hl k R Y Hk; cbn [release_loop]; [by pc_step|].
    assert (Hl' : ∀ j, j ∈ l → 0 ≤ j) by (intros j Hj; apply Hl; by right).
    pc_steps. destruct (Z.eqb_spec i (me k)) as [|Hne]; [by apply IH|]. pc_step. apply pc_index. intros o Ho.
    destruct o as [t|]; [|by apply IH]. case_bool_decide as Hd; [|by apply IH].
    pc_step. apply pc_store_some. intros o' Ho'. apply IH; [done|].
    assert (o' = Some t) as -> by congruence. destruct (mo_tasks _ _ _ Hk _ _ Ho) as [Td _].
    eapply mem_ok_task; [exact Hk|exact Ho| | |done|].
    - unfold held_space. simpl. by rewrite (Td Hd).
    - unfold held_stack. rewrite bool_decide_true by done. by rewrite andb_false_r.
    - intros He. destruct Hne. pose proof (mo_me _ _ _ Hk). pose proof (Hl i ltac:(left)). lia. }
  apply Hl. intros i Hi%elem_of_range. lia.
Qed.

(** ** Building tasks *)

Section build.
Context (user_task_entry task_trampoline : Z).

Lemma mem_ok_fresh_slot k R Y i t :
  mem_ok k (option_list (space t) ++ R) (stack_of (stack t) ++ Y) → task_list k !! i = Some None →
  owns_stack t = true → state t = Runnable → mem_ok (set_tasks (<[i := Some t]> (task_list k)) k) R Y.
Proof.
  intros Hk Hi Ho Hs. eapply mem_ok_task; [exact Hk|exact Hi| | | |].
  - done.
  - unfold held_stack. rewrite Ho, Hs. done.
  - intros u [= <-]. split; [congruence|done].
  - intros ->. destruct (mo_current _ _ _ Hk) as (tc & Htc & _). congruence.
Qed.

Lemma free_slot_list k i : free_slot (SCHEDULER k) = Some i → task_list k !! Z.to_nat i = Some None.
Proof.
  unfold free_slot. destruct (list_find _ _) as [[j o]|] eqn:Hj; [|done]. intros [= <-].
  apply list_find_Some in Hj as (Hj & -> & _). simpl. by rewrite Nat2Z.id.
Qed.

(** Stacks are taken and planted at large before they belong to a task. *)
Lemma pc_stack_mem k R Y : mem_ok k R Y →
  pc (with_mach (alloc_contiguous STACK_FRAMES)) k (λ c k', ∀ f, c = Some f → mem_ok k' R (stack_of f ++ Y)).
Proof.
  intros Hk. destruct (mo_account _ _ _ Hk) as (T & Ha & HT). apply pc_zoom_in.
  eapply pc_alloc_stack; [exact Ha| |done]. intros c m' Ha' Hs f [= <-].
  eapply mem_ok_mach; [exact Hk| |exact HT|apply Hk| |].
  - eapply accounted_perm; [|exact Ha']. apply Permutation_app_swap_app.
  - intros r x Hr. apply Hs, HT, elem_of_app. by left.
  - intros r Hr. eapply image_space_same; [intros x; apply Hs, HT, elem_of_app; by right|].
    apply (mo_image _ _ _ Hk), elem_of_app. by right.
Qed.

Lemma pc_plant_mem k R Y c entry arg : mem_ok k R Y → (∀ g, g ∈ stack_of c → g ∈ task_stacks k ++ Y) →
  pc (with_mach (plant_switch_frame task_trampoline c entry arg)) k (λ _ k', mem_ok k' R Y ∧ SCHEDULER k' = SCHEDULER k).
Proof.
  intros Hk Hin. destruct (mo_account _ _ _ Hk) as (T & Ha & HT). apply pc_zoom_in.
  eapply pc_plant; [exact Ha|exact Hin|]. intros sp m' Ha' Hs. split; [|done].
  eapply mem_ok_mach; [exact Hk|exact Ha'|exact HT|apply Hk| |].
  - intros r x Hr. apply Hs, HT, elem_of_app. by left.
  - intros r Hr. eapply image_space_same; [intros x; apply Hs, HT, elem_of_app; by right|].
    apply (mo_image _ _ _ Hk), elem_of_app. by right.
Qed.

(** A new task takes over the address space it was built with. *)
Lemma pc_spawn_mem k R Y nm entry arg sp prio :
  mem_ok k (option_list sp ++ R) Y →
  pc (spawn_in task_trampoline nm entry arg sp prio) k
    (λ id k', mem_ok k' R Y ∧ ∃ t, task_at k' id = Some t ∧ owns_stack t = true ∧ state t ≠ Dead).
Proof.
  intros Hk. unfold spawn_in. pc_step. eapply pc_mono; [by apply pc_stack_mem|]. intros o k1 H1.
  pc_step. apply pc_expectM. intros c ->. specialize (H1 c eq_refl).
  pc_step. eapply pc_mono; [apply pc_plant_mem; [exact H1|intros g Hg; rewrite !elem_of_app; tauto]|].
  intros sp' k2 [Hk2 _]. pc_steps.
  match goal with H : free_slot _ = Some ?i |- _ => apply free_slot_list in H; rename H into Hfree, i into slot end.
  apply pc_store_some. intros o Ho. pc_step. apply pc_store_some. intros o' _. pc_step.
  set (t := mkTask nm sp sp' c true prio Runnable None None None). split.
  - eapply mem_ok_view; [|exact (mem_ok_fresh_slot k2 R Y _ t Hk2 Hfree eq_refl eq_refl)]. done.
  - exists t. split; [|done]. apply task_at_list.
    change (task_list _) with (<[Z.to_nat slot := Some t]> (task_list k2)).
    apply list_lookup_insert_eq. by eapply lookup_lt_Some.
Qed.

Lemma keeps_spawn_at nm entry arg prio : keeps (spawn_at task_trampoline nm entry arg prio).
Proof. intros k R Y Hk. eapply pc_mono; [exact (pc_spawn_mem k R Y nm entry arg None prio Hk)|]. by intros id k' [? _]. Qed.

(** A new address space joins those in flight. *)
Lemma pc_build_mem k R Y s e a : mem_ok k R Y →
  pc (with_mach (build_user_space s e a)) k (λ root k', mem_ok k' (root :: R) Y ∧ SCHEDULER k' = SCHEDULER k).
Proof.
  intros Hk. destruct (mo_account _ _ _ Hk) as (T & Ha & HT). apply pc_zoom_in.
  eapply pc_build_user_space; [exact Ha|]. intros root m' T' Ha' Hn Hr Hs Hi. split; [|done].
  assert (Hnew : root ∉ roots k ++ R) by (intros Hin%HT; congruence).
  eapply mem_ok_mach; [exact Hk|exact Ha'| | | |].
  - intros r. rewrite Hr, HT, <-Permutation_middle, elem_of_cons. tauto.
  - rewrite <-Permutation_middle. apply NoDup_cons. split; [done|apply Hk].
  - intros r x Hrr. apply Hs, HT, elem_of_app. by left.
  - intros r [->|Hrr]%elem_of_cons; [done|]. eapply image_space_same; [intros x; apply Hs, HT, elem_of_app; by right|].
    apply (mo_image _ _ _ Hk), elem_of_app. by right.
Qed.

Lemma keeps_spawn_user nm s e a prio : keeps (spawn_user_program user_task_entry task_trampoline nm s e a prio).
Proof.
  intros k R Y Hk. unfold spawn_user_program. pc_step. eapply pc_mono; [by apply pc_build_mem|].
  intros root k1 [Hk1 _]. pc_step. eapply pc_mono; [apply (pc_spawn_mem k1 R Y _ _ _ (Some root)); exact Hk1|].
  intros id k2 (Hk2 & t & Ht & Ho & Hd). pc_steps. apply pc_index. intros o Hi. apply task_at_list in Ht as Hl.
  assert (o = Some t) as -> by congruence. pc_step. apply pc_store_some. intros o' Ho'. pc_step.
  assert (o' = Some t) as -> by congruence. eapply mem_ok_task; [exact Hk2|exact Hl|done|done| |].
  - intros u [= <-]. split; [apply (mo_tasks _ _ _ Hk2 _ _ Hl)|done].
  - intros _. by eexists t, _.
Qed.

(** ** Restarting a task: its old space goes back, a new one takes its place *)

Lemma pc_restart_mem my id k R Y : mem_ok k R Y → in_call my k → slot_id id →
  pc (restart user_task_entry task_trampoline id) k (λ _ k', mem_ok k' R Y).
Proof.
  intros Hk Hc Hid. unfold restart. pc_step.
  assert (Hrun : pc (abandon id) k (λ _ k', sl_state (slot_of k' (me k')) = Some Runnable)).
  { apply (pc_abandon id my Hid); [by apply others_weaken, Hc|apply (ic_me _ _ Hc)|apply (ic_pending _ _ Hc)|
      apply (ic_leased _ _ Hc)|]. intros k1 _ -> ->. apply Hc. }
  pose proof (keeps_abandon id k R Y Hk) as Hm. revert Hrun Hm. unfold pc at 1 2 3.
  destruct (abandon id k) as [[[] k1]|]; [|done]. intros Hrun Hk1. clear k Hk Hc. rename k1 into k, Hk1 into Hk.
  pc_steps. destruct (task_at k id) as [t|] eqn:Ht; [|by pc_step].
  case_bool_decide as Hf; cbn [negb]; [|by pc_step]. destruct (image t) as [img|] eqn:Himg; [|by pc_step].
  apply task_at_list in Ht as Hl. destruct (mo_tasks _ _ _ Hk _ _ Hl) as [_ Ti].
  assert (Ho : owns_stack t = true) by (apply Ti; congruence).
  assert (Hne : Z.to_nat id ≠ Z.to_nat (me k)).
  { intros He. unfold sl_state in Hrun. cbn in Hrun. unfold task_at in Hrun. rewrite <-He, Hl in Hrun. simpl in Hrun. congruence. }
  pc_step. apply pc_store_some. intros o Ho'. assert (o = Some t) as -> by congruence.
  set (k1 := set_tasks _ k).
  assert (Hk1 : mem_ok k1 (option_list (space t) ++ R) Y).
  { eapply mem_ok_task; [exact Hk|exact Hl|done|done| |done]. intros u [= <-]. split; [done|]. intros _. exact Ho. }
  assert (Hl1 : task_list k1 !! Z.to_nat id = Some (Some (with_space None t))).
  { apply list_lookup_insert_eq. by eapply lookup_lt_Some. }
  assert (Hme1 : me k1 = me k) by done. clearbody k1. clear Ho' Hl Hk Ht Hrun. rewrite <-Hme1 in Hne. clear Hme1 k.
  pc_step. eapply (pc_mono _ _ (λ _ k2, mem_ok k2 R Y ∧ SCHEDULER k2 = SCHEDULER k1)).
  { destruct (space t) as [old|]; [|by pc_step]. apply (pc_conj _ _ _ (λ _ k2, SCHEDULER k2 = SCHEDULER k1));
      [by apply pc_give_space|by apply pc_zoom]. }
  intros [] k2 [Hk2 He2]. pc_step. eapply pc_mono; [by apply pc_build_mem|]. intros root k3 [Hk3 He3].
  assert (Hl3 : task_list k3 !! Z.to_nat id = Some (Some (with_space None t))) by (unfold task_list; by rewrite He3, He2).
  pc_step. eapply pc_mono; [apply pc_plant_mem; [exact Hk3|]|].
  { intros g Hg. apply elem_of_app. left. apply list_elem_of_In, in_flat_map. exists (Some (with_space None t)).
    split; [apply list_elem_of_In; by eapply list_elem_of_lookup_2|]. apply list_elem_of_In. unfold held_stack. simpl.
    rewrite Ho, bool_decide_false by congruence. exact Hg. }
  intros sp' k4 [Hk4 He4].
  assert (Hl4 : task_list k4 !! Z.to_nat id = Some (Some (with_space None t))) by (unfold task_list in *; by rewrite He4).
  pc_steps. apply task_at_list in Hl4 as Ht4. rewrite Ht4. pc_step. apply pc_store_some. intros o5 Ho5.
  assert (o5 = Some (with_space None t)) as -> by congruence. pc_step. apply pc_store_some. intros o6 _. pc_step.
  eapply mem_ok_view; [|eapply mem_ok_task; [exact Hk4|exact Hl4| | | |]]; [reflexivity|..].
  - done.
  - unfold held_stack. simpl. rewrite Ho, (bool_decide_false (state t = Dead)) by congruence. done.
  - intros u [= <-]. split; [done|]. intros _. exact Ho.
  - intros He. destruct Hne. rewrite He. unfold me. by rewrite He4, He3, He2.
Qed.

(** ** All of [dispatch] and [resume] *)

Lemma keeps_sys_write fd buf len : keeps (sys_write fd buf len).
Proof.
  unfold sys_write. keep. apply keeps_steady, steady_reads. intros w x w'. unfold load_slice.
  destruct (_ =? _); [done|]. destruct (mapM _ _); [|done]. by intros [= _ <-].
Qed.

Lemma keeps_one (op : M kernel Z) : keeps op → keeps (one op).
Proof. intros H. unfold one. keep. Qed.

Lemma pc_dispatch_mem my number a k R Y : mem_ok k R Y → in_call my k → (∀ i, 0 ≤ a i) →
  pc (dispatch user_task_entry task_trampoline number a) k (λ _ k', mem_ok k' R Y).
Proof.
  intros Hk Hc Ha. unfold dispatch.
  repeat match goal with |- context [if number =? ?n then _ else _] => destruct (number =? n) end.
  - by apply keeps_exit.
  - by apply keeps_one; [apply keeps_sys_write|].
  - revert Hk. apply (λ H : keeps sys_yield, H k R Y). unfold sys_yield, yield_now. keep.
  - by apply keeps_one; [apply keeps_gets|].
  - by apply keeps_send.
  - by apply keeps_recv.
  - by apply keeps_reply.
  - by apply keeps_one; [apply keeps_borrow|].
  - by apply keeps_one; [apply keeps_borrow|].
  - revert Hk. apply (λ H : keeps sys_fault_wait, H k R Y). unfold sys_fault_wait, wait_for_fault. keep.
  - revert Hk. apply (λ H : keeps (r ← sys_fault_info (a 0); mret (Ret r)), H k R Y). unfold sys_fault_info, fault_of. keep.
  - unfold one, sys_restart. pc_steps. destruct (negb _); [by pc_steps|].
    destruct (Z.leb_spec MAX_TASKS (a 0)) as [|Hlt]; [by pc_steps|]. pc_step.
    eapply pc_mono; [apply (pc_restart_mem my); [exact Hk|exact Hc|split; [apply Ha|done]]|]. intros r k' Hk'. by pc_steps.
  - by apply keeps_one; [apply keeps_gets|].
  - by pc_step.
Qed.

End build.

Lemma keeps_resume c : keeps (resume c).
Proof.
  destruct c; cbn [resume]; try apply keeps_ret.
  - apply keeps_send_park.
  - unfold send_wake. keep.
  - apply keeps_recv_wake.
  - apply keeps_recv_loop.
  - apply keeps_fault_wait_wake.
  - apply keeps_gone.
Qed.

End kernel_mem.
