(* ===== verification/Devices.v ===== *)
(** * Devices: the bus, the interrupt controller and the timer ([gic.rs], [timer.rs])

    A device is known to the kernel only by what its registers answer, so the
    bus is the history of accesses and a parameter [respond] that gives the
    answer of a read after a history.  The generic timer is two system
    registers and a counter; the counter and its frequency are parameters. *)

From S2P Require Import Prelude Memory Kernel Sched Notify.

(** ** The bus *)

Inductive access : Type :=
  | Read (width addr value : Z)
  | Write (width addr value : Z).

Record devices : Type := mkDevices {
  GICD : Z;
  GICC : Z;
  trace : list access;   (** oldest first *)
  cntp_cval : Z;
  cntp_ctl : Z
}.

Definition set_trace (l : list access) (d : devices) : devices :=
  mkDevices (GICD d) (GICC d) l (cntp_cval d) (cntp_ctl d).
Definition set_bases (distributor cpu : Z) (d : devices) : devices :=
  mkDevices distributor cpu (trace d) (cntp_cval d) (cntp_ctl d).
Definition set_cval (v : Z) (d : devices) : devices :=
  mkDevices (GICD d) (GICC d) (trace d) v (cntp_ctl d).
Definition set_ctl (v : Z) (d : devices) : devices :=
  mkDevices (GICD d) (GICC d) (trace d) (cntp_cval d) v.

Section bus.
Context (respond : list access → Z → Z → Z).

Definition bus_read (width a : Z) : M devices Z := λ d,
  let v := respond (trace d) width a mod 2 ^ (8 * width) in
  Done (v, set_trace (trace d ++ [Read width a v]) d).
Definition bus_write (width a v : Z) : M devices unit :=
  modify (λ d, set_trace (trace d ++ [Write width a v]) d).

(** ** [gic.rs] *)

Definition GICD_BOOTSTRAP : Z := 0x08000000.
Definition GICC_BOOTSTRAP : Z := 0x08010000.
Definition GICD_CTLR : Z := 0x000.
Definition GICD_TYPER : Z := 0x004.
Definition GICD_IGROUPR : Z := 0x080.
Definition GICD_ISENABLER : Z := 0x100.
Definition GICD_ICENABLER : Z := 0x180.
Definition GICD_ICPENDR : Z := 0x280.
Definition GICD_IPRIORITYR : Z := 0x400.
Definition GICD_ITARGETSR : Z := 0x800.
Definition GICC_CTLR : Z := 0x00.
Definition GICC_PMR : Z := 0x04.
Definition GICC_BPR : Z := 0x08.
Definition GICC_IAR : Z := 0x0c.
Definition GICC_EOIR : Z := 0x10.
Definition SPURIOUS_INTID : Z := 1023.
Definition DEFAULT_PRIORITY : Z := 0xa0.

Definition bases (d : devices) : Z * Z := (GICD d, GICC d).
Definition bootstrap_bases : Z * Z := (GICD_BOOTSTRAP, GICC_BOOTSTRAP).
Definition gic_adopt (distributor cpu_interface : Z) : M devices unit :=
  modify (set_bases distributor cpu_interface).

Definition gicd_read (offset : Z) : M devices Z :=
  d ← getS; a ← lift (add64 (GICD d) offset); bus_read 4 a.
Definition gicd_write (offset v : Z) : M devices unit :=
  d ← getS; a ← lift (add64 (GICD d) offset); bus_write 4 a v.
Definition gicd_write_byte (offset v : Z) : M devices unit :=
  d ← getS; a ← lift (add64 (GICD d) offset); bus_write 1 a v.
Definition gicc_read (offset : Z) : M devices Z :=
  d ← getS; a ← lift (add64 (GICC d) offset); bus_read 4 a.
Definition gicc_write (offset v : Z) : M devices unit :=
  d ← getS; a ← lift (add64 (GICC d) offset); bus_write 4 a v.

Definition num_interrupts : M devices Z :=
  t ← gicd_read GICD_TYPER; mret (32 * (Z.land t 0x1f + 1)).

Definition gic_init : M devices unit :=
  lines ← num_interrupts;
  _ ← gicd_write GICD_CTLR 0;
  _ ← forM (range 0 (div_ceil lines 32)) (λ reg,
        let offset := reg * 4 in
        _ ← gicd_write (GICD_ICENABLER + offset) 0xffffffff;
        _ ← gicd_write (GICD_ICPENDR + offset) 0xffffffff;
        gicd_write (GICD_IGROUPR + offset) 0);
  _ ← forM (range 0 lines) (λ intid, gicd_write_byte (GICD_IPRIORITYR + intid) DEFAULT_PRIORITY);
  _ ← forM (range 32 lines) (λ intid, gicd_write_byte (GICD_ITARGETSR + intid) 1);
  _ ← gicd_write GICD_CTLR 1;
  _ ← gicc_write GICC_PMR 0xff;
  _ ← gicc_write GICC_BPR 0;
  gicc_write GICC_CTLR 1.

Definition enable (intid : Z) : M devices unit :=
  let reg := intid / 32 * 4 in
  let bit := Z.shiftl 1 (intid mod 32) in
  gicd_write (GICD_ISENABLER + reg) bit.

Definition acknowledge : M devices Z := gicc_read GICC_IAR.
Definition end_of_interrupt (intid : Z) : M devices unit := gicc_write GICC_EOIR intid.

(** ** [timer.rs] *)

Definition TIMER_INTID : Z := 30.
Definition TICK_HZ : Z := 100.

(** [frequency] is [cntfrq_el0] and [count] the [cntpct_el0] the call reads. *)
Context (frequency : Z).

Definition interval : Z := frequency / TICK_HZ.

Definition arm_first (count : Z) : M devices unit :=
  v ← lift (add64 count interval); modify (set_cval v).

Definition arm_next (count : Z) : M devices unit :=
  d ← getS;
  next ← lift (add64 (cntp_cval d) interval);
  next ← (if next <=? count then lift (add64 count interval) else mret next);
  modify (set_cval next).

Definition timer_init (count : Z) : M devices unit :=
  _ ← enable TIMER_INTID;
  _ ← arm_first count;
  modify (set_ctl 1).

End bus.

(** The half of [on_tick] that concerns tasks. *)
Definition count_tick : M kernel unit :=
  t ← gets TICKS;
  t ← lift (add64 t 1);
  _ ← modify (set_TICKS t);
  request_reschedule.
