(* ===== verification/Exceptions.v ===== *)
(** * Exceptions: everything that enters the kernel ([exceptions.rs])

    [handle_exception] is where every trap arrives, with the registers the
    vector saved.  A handler that switches away leaves the frame on the stack
    of its task, so it ends either with the frame to return to or with the
    continuation it left.  The text [report] prints is in [Reports]; the handlers
    here do not send it. *)

From S2P Require Import Prelude Memory Fmt Kernel Sched Notify Ipc Tasks Syscall Devices.

(** ** Vectors *)

Definition SOURCES : list string :=
  ["current EL, SP_EL0"; "current EL, SP_ELx"; "lower EL, AArch64"; "lower EL, AArch32"]%string.
Definition KINDS : list string := ["synchronous"; "IRQ"; "FIQ"; "SError"]%string.

(** A [VectorIndex] is its [u64]. *)
Definition source (i : Z) : string := default "unknown source"%string (SOURCES !! Z.to_nat (Z.shiftr i 2)).
Definition kind (i : Z) : string := default "unknown kind"%string (KINDS !! Z.to_nat (Z.land i 3)).
Definition is_irq (i : Z) : bool := Z.land i 3 =? 1.
Definition from_lower_el (i : Z) : bool := 2 <=? Z.shiftr i 2.

(** ** Syndromes *)

(** A [Syndrome] is its [u64]. *)
Definition exception_class (s : Z) : Z := Z.land (Z.shiftr s 26) 0x3f.
Definition iss (s : Z) : Z := Z.land s 0x1ffffff.

Definition class_name (s : Z) : string :=
  let ec := exception_class s in
  if ec =? 0x00 then "unknown reason"
  else if ec =? 0x01 then "trapped WFI or WFE"
  else if ec =? 0x07 then "trapped SVE/SIMD/FP access"
  else if ec =? 0x0e then "illegal execution state"
  else if ec =? 0x15 then "SVC from AArch64"
  else if ec =? 0x18 then "trapped MSR/MRS/system instruction"
  else if ec =? 0x20 then "instruction abort from lower EL"
  else if ec =? 0x21 then "instruction abort from current EL"
  else if ec =? 0x22 then "PC alignment fault"
  else if ec =? 0x24 then "data abort from lower EL"
  else if ec =? 0x25 then "data abort from current EL"
  else if ec =? 0x26 then "SP alignment fault"
  else if ec =? 0x2c then "trapped floating point exception"
  else if ec =? 0x2f then "SError interrupt"
  else if (ec =? 0x30) || (ec =? 0x31) then "breakpoint"
  else if (ec =? 0x32) || (ec =? 0x33) then "software step"
  else if (ec =? 0x34) || (ec =? 0x35) then "watchpoint"
  else if ec =? 0x3c then "BRK instruction"
  else "unrecognised class".

Definition is_abort (s : Z) : bool := bool_decide (exception_class s ∈ [0x20; 0x21; 0x24; 0x25]).
Definition is_brk (s : Z) : bool := exception_class s =? 0x3c.
Definition brk_comment (s : Z) : Z := Z.land (iss s) 0xffff.

Definition fault_status (s : Z) : string :=
  let code := Z.land (iss s) 0x3f in
  if in_range 0x00 0x03 code then "address size fault"
  else if in_range 0x04 0x07 code then "translation fault, nothing mapped"
  else if in_range 0x09 0x0b code then "access flag fault"
  else if in_range 0x0d 0x0f code then "permission fault"
  else if code =? 0x10 then "synchronous external abort"
  else if code =? 0x21 then "alignment fault"
  else if code =? 0x30 then "TLB conflict abort"
  else "other".

Definition fault_level (s : Z) : option Z :=
  let code := Z.land (iss s) 0x3f in
  if in_range 0x00 0x03 code || in_range 0x04 0x07 code || in_range 0x09 0x0b code || in_range 0x0d 0x0f code
  then Some (Z.land code 3) else None.
Definition is_write (s : Z) : bool := negb (Z.land (iss s) (Z.shiftl 1 6) =? 0).

(** ** The handler *)

Record TrapFrame : Type := mkFrame {
  x : list Z;
  frame_elr : Z;
  spsr : Z;
  frame_esr : Z;
  frame_far : Z
}.

Definition with_elr (v : Z) (f : TrapFrame) : TrapFrame :=
  mkFrame (x f) v (spsr f) (frame_esr f) (frame_far f).
Definition with_x (l : list Z) (f : TrapFrame) : TrapFrame :=
  mkFrame l (frame_elr f) (spsr f) (frame_esr f) (frame_far f).
Definition reg (f : TrapFrame) (i : Z) : Z := default 0 (x f !! Z.to_nat i).

(** The three result registers [dispatch] writes. *)
Definition with_results (r : Z * Z * Z) (f : TrapFrame) : TrapFrame :=
  let '(r0, r1, r2) := r in with_x (<[2%nat := r2]> (<[1%nat := r1]> (<[0%nat := r0]> (x f)))) f.

Definition EC_SVC64 : Z := 0x15.
Definition EC_UNKNOWN : Z := 0x00.
Definition EC_TRAPPED_SYSTEM : Z := 0x18.

(** The kernel, the devices, and the statics of [exceptions.rs]. *)
Record board : Type := mkBoard {
  kern : kernel;
  devs : devices;
  PRIVILEGED_TRAPS : Z;
  EXPECTING_FAULT : bool;
  PROBE_ESR : Z
}.

Definition set_kern (v : kernel) (b : board) : board :=
  mkBoard v (devs b) (PRIVILEGED_TRAPS b) (EXPECTING_FAULT b) (PROBE_ESR b).
Definition set_devs (v : devices) (b : board) : board :=
  mkBoard (kern b) v (PRIVILEGED_TRAPS b) (EXPECTING_FAULT b) (PROBE_ESR b).
Definition set_traps (v : Z) (b : board) : board :=
  mkBoard (kern b) (devs b) v (EXPECTING_FAULT b) (PROBE_ESR b).
Definition set_expecting (v : bool) (b : board) : board :=
  mkBoard (kern b) (devs b) (PRIVILEGED_TRAPS b) v (PROBE_ESR b).
Definition set_probe_esr (v : Z) (b : board) : board :=
  mkBoard (kern b) (devs b) (PRIVILEGED_TRAPS b) (EXPECTING_FAULT b) v.

Definition in_kernel {A} (op : M kernel A) : M board A := zoom kern set_kern op.
Definition in_devices {A} (op : M devices A) : M board A := zoom devs set_devs op.

(** Return to the frame, or the continuation left behind with it. *)
Inductive exit : Type :=
  | Eret (f : TrapFrame)
  | Away (c : kont).

(** [frame.elr += 4]. *)
Definition step_over (f : TrapFrame) : M board exit :=
  pc ← lift (add64 (frame_elr f) 4); mret (Eret (with_elr pc f)).

Section handler.
Context (respond : list access → Z → Z → Z) (frequency : Z).
Context (user_task_entry task_trampoline : Z).

Definition on_tick (count : Z) : M board unit :=
  _ ← in_devices (arm_next frequency count);
  in_kernel count_tick.

(** What is printed of an interrupt that is nobody's. *)
Definition unhandled (intid : Z) : list Z := ln (bytes_of "unhandled IRQ " ++ dec intid).

(** [count] is what the counter reads during a timer interrupt.  Returns
    whether the CPU moved on. *)
Definition dispatch_irq (count : Z) : M board bool :=
  intid ← in_devices (acknowledge respond);
  if intid =? SPURIOUS_INTID then mret false else
  routed ← in_kernel (on_irq intid);
  _ ← (if intid =? TIMER_INTID then on_tick count else mret tt);
  _ ← (if negb routed && negb (intid =? TIMER_INTID) then
         in_kernel (modify (λ k, set_console (console k ++ unhandled intid) k))
       else mret tt);
  _ ← in_devices (end_of_interrupt intid);
  in_kernel preempt_if_needed.

Definition handle_exception (f : TrapFrame) (index count : Z) : M board exit :=
  if is_irq index then
    switched ← dispatch_irq count;
    mret (if switched : bool then Away KReturn else Eret f)
  else
  let syndrome := frame_esr f in
  if exception_class syndrome =? EC_SVC64 then
    r ← in_kernel (dispatch user_task_entry task_trampoline (reg f 8) (reg f));
    mret (match r with Ret v => Eret (with_results v f) | Sus c => Away c end)
  else if from_lower_el index &&
          ((exception_class syndrome =? EC_UNKNOWN) || (exception_class syndrome =? EC_TRAPPED_SYSTEM)) then
    (** [fetch_add] wraps. *)
    _ ← modify (λ b, set_traps (as_u64 (PRIVILEGED_TRAPS b + 1)) b);
    step_over f
  else if from_lower_el index then
    r ← in_kernel (fault_current (mkFault (frame_esr f) (frame_far f) (frame_elr f)));
    mret (match r with Ret v => Eret f | Sus c => Away c end)
  else
  expecting ← gets EXPECTING_FAULT;
  if is_abort syndrome && expecting then
    _ ← modify (set_probe_esr (frame_esr f));
    step_over f
  else if is_brk syndrome then step_over f
  else panic "unhandled exception".

(** [probe]: [access] is one volatile access, which traps or does not. *)
Definition probe (access : M board unit) : M board Z :=
  _ ← modify (set_probe_esr 0);
  _ ← modify (set_expecting true);
  _ ← access;
  _ ← modify (set_expecting false);
  gets PROBE_ESR.

(** Back from a switch: the continuation runs on, and its frame, [f], is still
    where the trap left it. *)
Definition wake (c : kont) (f : TrapFrame) : M board exit :=
  match c with
  | KReturn => mret (Eret f)
  | _ =>
    r ← in_kernel (resume c);
    mret (match r with Ret v => Eret (with_results v f) | Sus c => Away c end)
  end.

End handler.
