(* ===== verification/Assembly.v ===== *)
(** * Assembly: the code below Rust ([boot.S], [vectors.S], [switch.S])

    The instructions these files use, as the source writes them, over the general
    registers, the stack pointer, the exception registers and memory as the CPU
    addresses it.  The blocks are executed; what Rust does in between is given by
    the state it leaves. *)

From S2P Require Import Prelude Memory Kernel Sched Exceptions.

(** ** The CPU *)

Record cpu : Type := mkCpu {
  gpr : list Z;          (** x0 to x30 *)
  SP : Z;
  SP_EL0 : Z;
  ELR_EL1 : Z;
  SPSR_EL1 : Z;
  ESR_EL1 : Z;
  FAR_EL1 : Z;
  ram : mem
}.

Definition xr (i : nat) (c : cpu) : Z := default 0 (gpr c !! i).
Definition set_x (i : nat) (v : Z) (c : cpu) : cpu :=
  mkCpu (<[i := v]> (gpr c)) (SP c) (SP_EL0 c) (ELR_EL1 c) (SPSR_EL1 c) (ESR_EL1 c) (FAR_EL1 c) (ram c).
Definition set_SP (v : Z) (c : cpu) : cpu :=
  mkCpu (gpr c) v (SP_EL0 c) (ELR_EL1 c) (SPSR_EL1 c) (ESR_EL1 c) (FAR_EL1 c) (ram c).
Definition store (a v : Z) (c : cpu) : cpu :=
  mkCpu (gpr c) (SP c) (SP_EL0 c) (ELR_EL1 c) (SPSR_EL1 c) (ESR_EL1 c) (FAR_EL1 c) (write_u64 (ram c) a v).

(** The system registers [mrs] and [msr] name; the stack pointer of EL0 is one. *)
Inductive sysreg : Type := ELR | SPSR | ESR | FAR | STACK_EL0.

(** [sub sp, sp, #n], [add sp, sp, #n], [stp] and [ldp] at [[sp, #off]], [str] there,
    [str xt, [xn]], [mov] of a number, of a register, from [sp] and to it, [mrs]
    and [msr]. *)
Inductive ins : Type :=
  | SubSp (n : Z)
  | AddSp (n : Z)
  | Stp (a b : nat) (off : Z)
  | Ldp (a b : nat) (off : Z)
  | StrSp (t : nat) (off : Z)
  | StrX (t n : nat)
  | MovI (d : nat) (v : Z)
  | MovR (d n : nat)
  | MovFromSp (d : nat)
  | MovToSp (n : nat)
  | Mrs (t : nat) (s : sysreg)
  | Msr (s : sysreg) (t : nat).

Definition read_sys (s : sysreg) (c : cpu) : Z :=
  match s with
  | ELR => ELR_EL1 c | SPSR => SPSR_EL1 c | ESR => ESR_EL1 c | FAR => FAR_EL1 c | STACK_EL0 => SP_EL0 c
  end.
Definition write_sys (s : sysreg) (v : Z) (c : cpu) : cpu :=
  match s with
  | ELR => mkCpu (gpr c) (SP c) (SP_EL0 c) v (SPSR_EL1 c) (ESR_EL1 c) (FAR_EL1 c) (ram c)
  | SPSR => mkCpu (gpr c) (SP c) (SP_EL0 c) (ELR_EL1 c) v (ESR_EL1 c) (FAR_EL1 c) (ram c)
  | ESR => mkCpu (gpr c) (SP c) (SP_EL0 c) (ELR_EL1 c) (SPSR_EL1 c) v (FAR_EL1 c) (ram c)
  | FAR => mkCpu (gpr c) (SP c) (SP_EL0 c) (ELR_EL1 c) (SPSR_EL1 c) (ESR_EL1 c) v (ram c)
  | STACK_EL0 => mkCpu (gpr c) (SP c) v (ELR_EL1 c) (SPSR_EL1 c) (ESR_EL1 c) (FAR_EL1 c) (ram c)
  end.

Definition exec (c : cpu) (i : ins) : cpu :=
  match i with
  | SubSp n => set_SP (as_u64 (SP c - n)) c
  | AddSp n => set_SP (as_u64 (SP c + n)) c
  | Stp a b off => store (SP c + (off + 8)) (xr b c) (store (SP c + off) (xr a c) c)
  | Ldp a b off => set_x b (read_u64 (ram c) (SP c + (off + 8))) (set_x a (read_u64 (ram c) (SP c + off)) c)
  | StrSp t off => store (SP c + off) (xr t c) c
  | StrX t n => store (xr n c) (xr t c) c
  | MovI d v => set_x d v c
  | MovR d n => set_x d (xr n c) c
  | MovFromSp d => set_x d (SP c) c
  | MovToSp n => set_SP (xr n c) c
  | Mrs t s => set_x t (read_sys s c) c
  | Msr s t => write_sys s (xr t c) c
  end.
Definition execs (l : list ins) (c : cpu) : cpu := foldl exec c l.

(** ** [vectors.S] *)

Definition TRAP_FRAME_SIZE : Z := 0x120.
Definition FRAME_X30 : Z := 0x0f0.
Definition FRAME_SPSR : Z := 0x100.
Definition FRAME_FAR : Z := 0x110.

(** One of the sixteen entries, up to its branch to the shared body. *)
Definition VECTOR (index : Z) : list ins := [SubSp TRAP_FRAME_SIZE; Stp 0 1 0x000; MovI 0 index].

(** The shared body up to the call of [handle_exception]. *)
Definition common_trap : list ins := [
  Stp 2 3 0x010; Stp 4 5 0x020; Stp 6 7 0x030; Stp 8 9 0x040; Stp 10 11 0x050; Stp 12 13 0x060; Stp 14 15 0x070;
  Stp 16 17 0x080; Stp 18 19 0x090; Stp 20 21 0x0a0; Stp 22 23 0x0b0; Stp 24 25 0x0c0; Stp 26 27 0x0d0; Stp 28 29 0x0e0;
  Mrs 1 ELR; Stp 30 1 FRAME_X30; Mrs 1 SPSR; Mrs 2 ESR; Stp 1 2 FRAME_SPSR; Mrs 1 FAR; StrSp 1 FRAME_FAR;
  MovR 1 0; MovFromSp 0].

(** And from its return to the [eret]. *)
Definition common_return : list ins := [
  Ldp 1 2 FRAME_SPSR; Msr SPSR 1; Ldp 30 1 FRAME_X30; Msr ELR 1;
  Ldp 2 3 0x010; Ldp 4 5 0x020; Ldp 6 7 0x030; Ldp 8 9 0x040; Ldp 10 11 0x050; Ldp 12 13 0x060; Ldp 14 15 0x070;
  Ldp 16 17 0x080; Ldp 18 19 0x090; Ldp 20 21 0x0a0; Ldp 22 23 0x0b0; Ldp 24 25 0x0c0; Ldp 26 27 0x0d0; Ldp 28 29 0x0e0;
  Ldp 0 1 0x000; AddSp TRAP_FRAME_SIZE].

Definition trap_entry (index : Z) (c : cpu) : cpu := execs common_trap (execs (VECTOR index) c).
Definition trap_return (c : cpu) : cpu := execs common_return c.

(** The [TrapFrame] at an address, field by field. *)
Definition frame_at (m : mem) (a : Z) : TrapFrame :=
  mkFrame (map (λ i, read_u64 m (a + 8 * i)) (range 0 31)) (read_u64 m (a + 0xf8)) (read_u64 m (a + 0x100))
    (read_u64 m (a + 0x108)) (read_u64 m (a + 0x110)).

(** What the exception took: the interrupted code as a frame. *)
Definition interrupted (c : cpu) : TrapFrame :=
  mkFrame (gpr c) (ELR_EL1 c) (SPSR_EL1 c) (ESR_EL1 c) (FAR_EL1 c).

(** ** [switch.S] *)

Definition SWITCH_FRAME_SIZE : Z := 96.

(** Up to its [ret], which goes to x30. *)
Definition switch : list ins := [
  SubSp SWITCH_FRAME_SIZE;
  Stp 19 20 0x00; Stp 21 22 0x10; Stp 23 24 0x20; Stp 25 26 0x30; Stp 27 28 0x40; Stp 29 30 0x50;
  MovFromSp 2; StrX 2 0;
  MovToSp 1;
  Ldp 19 20 0x00; Ldp 21 22 0x10; Ldp 23 24 0x20; Ldp 25 26 0x30; Ldp 27 28 0x40; Ldp 29 30 0x50;
  AddSp SWITCH_FRAME_SIZE].

(** The twelve registers a call preserves and its return address. *)
Definition saved (c : cpu) : list Z := drop 19 (gpr c).
Definition words_at (m : mem) (a : Z) (n : nat) : list Z := map (λ i, read_u64 m (a + 8 * i)) (range 0 (Z.of_nat n)).

(** Execution goes on here. *)
Definition resumes_at (c : cpu) : Z := xr 30 c.

(** ** [enter_el0] *)

(** Up to its [eret]; the compiler picks the registers for the stack, the entry
    and the zero. *)
Definition enter_el0 (stack entry spsr : nat) : list ins := [Msr STACK_EL0 stack; Msr ELR entry; Msr SPSR spsr].

(** ** [boot.S] *)

(** The loop that zeroes the BSS; x0 is [at_] and x1 is [end_]. *)
Fixpoint zero_bss (fuel : nat) (at_ end_ : Z) (m : mem) : option (Z * mem) :=
  match fuel with
  | O => None
  | S fuel' => if end_ <=? at_ then Some (at_, m) else zero_bss fuel' (as_u64 (at_ + 8)) end_ (write_u64 m at_ 0)
  end.

(** A core either parks for good or calls [kernel_main], with the stack pointer,
    the argument and the memory it is called with. *)
Inductive start : Type :=
  | Parked
  | Calls (sp x0 : Z) (m : mem).
Definition _start (fuel : nat) (stack_top bss_start bss_end mpidr x0 : Z) (m : mem) : option start :=
  let x19 := x0 in
  if negb (Z.land mpidr 0xff =? 0) then Some Parked else
  '(_, m) ← zero_bss fuel bss_start bss_end m; Some (Calls stack_top x19 m).
