(* ===== verification/AssemblyProps.v ===== *)
(** * AssemblyProps: what the assembly keeps

    The trap path builds exactly the [TrapFrame] Rust is told of and restores
    exactly what that says; [switch] is its own inverse; the frame Rust plants on
    a new stack is one [switch] can start from; and what neither of them saves. *)

From S2P Require Import Prelude Memory Frames Paging Kernel Sched Exceptions Assembly.

(** ** Words in a row *)

(** [l] written from [a + 8 * i] on. *)
Fixpoint store_words (m : mem) (a i : Z) (l : list Z) : mem :=
  match l with [] => m | v :: l' => store_words (write_u64 m (a + 8 * i) v) a (i + 1) l' end.

Lemma store_words_other m a i l x :
  0 ≤ i → ¬ (a + 8 * i ≤ x < a + 8 * (i + Z.of_nat (length l))) → store_words m a i l x = m x.
Proof.
  revert m i. induction l as [|v l IH]; intros m i Hi Hx; [done|]. cbn [store_words length] in *.
  rewrite IH by lia. apply write_le_other. lia.
Qed.

Lemma read_store_words m a i l k v :
  0 ≤ i → l !! k = Some v → is_u64 v → read_u64 (store_words m a i l) (a + 8 * (i + Z.of_nat k)) = v.
Proof.
  revert m i k. induction l as [|w l IH]; intros m i k Hi Hk Hv; [done|]. cbn [store_words].
  destruct k as [|k].
  - injection Hk as ->. rewrite Z.add_0_r. rewrite <-(read_write_u64 m (a + 8 * i) v Hv) at 2.
    apply read_le_ext. intros x Hx. apply store_words_other; lia.
  - replace (i + Z.of_nat (S k)) with (i + 1 + Z.of_nat k) by lia. apply IH; [lia|done|done].
Qed.

Lemma words_stored m a l n :
  Forall is_u64 l → (n ≤ length l)%nat → words_at (store_words m a 0 l) a n = take n l.
Proof.
  intros Hl Hn. unfold words_at. apply list_eq. intros k. rewrite list_lookup_fmap.
  destruct (decide (k < n)%nat) as [Hk|Hk].
  - rewrite lookup_take_lt by done. assert (Hr : range 0 (Z.of_nat n) !! k = Some (Z.of_nat k)).
    { rewrite range_seqZ. apply lookup_seqZ. lia. }
    rewrite Hr. cbn [fmap option_fmap option_map].
    destruct (lookup_lt_is_Some_2 l k ltac:(lia)) as [v Hv]. rewrite Hv. f_equal.
    apply (read_store_words m a 0 l k v); [lia|done|]. rewrite Forall_lookup in Hl. by eapply Hl.
  - rewrite lookup_take_ge by lia. rewrite lookup_ge_None_2; [done|]. rewrite length_range. lia.
Qed.

Lemma words_ext m m' a n :
  (∀ x, a ≤ x < a + 8 * Z.of_nat n → m' x = m x) → words_at m' a n = words_at m a n.
Proof.
  intros H. unfold words_at. apply list_fmap_ext. intros k i Hi. apply list_elem_of_lookup_2, elem_of_range in Hi.
  apply read_le_ext. intros x Hx. apply H. lia.
Qed.

(** ** The trap path *)

(** Room for a frame below the stack pointer. *)
Definition stack_ok (n s : Z) : Prop := n ≤ s ≤ u64_max.

Lemma as_u64_id v : is_u64 v → as_u64 v = v.
Proof. intros H. apply Z.mod_small. unfold is_u64 in H. change (2 ^ 64) with (u64_max + 1). lia. Qed.

(** Both sides of an equation of states, after a block of instructions. *)
Ltac run_block := lazy -[write_le read_le Z.add Z.mul as_u64]; reflexivity.

(** The frame in the order of its words. *)
Definition frame_words (f : TrapFrame) : list Z := x f ++ [frame_elr f; spsr f; frame_esr f; frame_far f].

Lemma entry_block index c :
  length (gpr c) = 31%nat →
  let a := as_u64 (SP c - TRAP_FRAME_SIZE) in
  let c' := trap_entry index c in
  ram c' = store_words (ram c) a 0 (frame_words (interrupted c)) ∧ SP c' = a ∧ SP_EL0 c' = SP_EL0 c ∧
  xr 0 c' = a ∧ xr 1 c' = index ∧ length (gpr c') = 31%nat.
Proof.
  intros Hl a c'. subst a c'. destruct c as [g s s0 el sr es fr m]. cbn [gpr] in Hl.
  do 31 (destruct g as [|? g]; [done|]). destruct g as [|]; [|done]. clear. split_and!; run_block.
Qed.

Lemma return_block c :
  length (gpr c) = 31%nat →
  let f := frame_at (ram c) (SP c) in
  let c' := trap_return c in
  gpr c' = x f ∧ ELR_EL1 c' = frame_elr f ∧ SPSR_EL1 c' = spsr f ∧ SP c' = as_u64 (SP c + TRAP_FRAME_SIZE) ∧
  SP_EL0 c' = SP_EL0 c ∧ ram c' = ram c.
Proof.
  intros Hl f c'. subst f c'. destruct c as [g s s0 el sr es fr m]. cbn [gpr] in Hl.
  do 31 (destruct g as [|? g]; [done|]). destruct g as [|]; [|done]. clear. split_and!; run_block.
Qed.

(** A frame reads back from where its words were stored. *)
Lemma frame_stored m a f :
  length (x f) = 31%nat → Forall is_u64 (frame_words f) → frame_at (store_words m a 0 (frame_words f)) a = f.
Proof.
  intros Hl Hf. pose proof (words_stored m a (frame_words f) 31 Hf) as Hx.
  assert (Hn : length (frame_words f) = 35%nat) by (unfold frame_words; rewrite length_app, Hl; done).
  specialize (Hx ltac:(lia)). unfold frame_words at 2 in Hx. rewrite take_app_length' in Hx by done.
  assert (Hr : ∀ k v, frame_words f !! k = Some v → read_u64 (store_words m a 0 (frame_words f)) (a + 8 * Z.of_nat k) = v).
  { intros k v Hk. apply (read_store_words m a 0); [lia|done|]. rewrite Forall_lookup in Hf. by eapply Hf. }
  unfold frame_at. unfold words_at in Hx. change (Z.of_nat 31) with 31 in Hx. rewrite Hx.
  assert (Hk : ∀ k v, [frame_elr f; spsr f; frame_esr f; frame_far f] !! k = Some v → frame_words f !! (31 + k)%nat = Some v).
  { intros k v Hk. unfold frame_words. rewrite lookup_app_r by lia. by rewrite Hl, Nat.add_comm, Nat.add_sub. }
  change (a + 0xf8) with (a + 8 * Z.of_nat 31). change (a + 0x100) with (a + 8 * Z.of_nat 32).
  change (a + 0x108) with (a + 8 * Z.of_nat 33). change (a + 0x110) with (a + 8 * Z.of_nat 34).
  rewrite (Hr 31%nat _ (Hk 0%nat _ eq_refl)), (Hr 32%nat _ (Hk 1%nat _ eq_refl)),
    (Hr 33%nat _ (Hk 2%nat _ eq_refl)), (Hr 34%nat _ (Hk 3%nat _ eq_refl)). by destruct f.
Qed.

(** ** [switch] *)

(** The state after [switch], from the pointer in x0 and the stack in x1. *)
Lemma switch_block c :
  length (gpr c) = 31%nat →
  let a := as_u64 (SP c - SWITCH_FRAME_SIZE) in
  let m := write_u64 (store_words (ram c) a 0 (saved c)) (xr 0 c) a in
  let c' := execs switch c in
  ram c' = m ∧ saved c' = words_at m (xr 1 c) 12 ∧ SP c' = as_u64 (xr 1 c + SWITCH_FRAME_SIZE) ∧
  resumes_at c' = read_u64 m (xr 1 c + 88) ∧ SP_EL0 c' = SP_EL0 c ∧ length (gpr c') = 31%nat ∧
  take 2 (gpr c') = take 2 (gpr c).
Proof.
  intros Hl a m c'. subst a m c'. destruct c as [g s s0 el sr es fr m]. cbn [gpr] in Hl.
  do 31 (destruct g as [|? g]; [done|]). destruct g as [|]; [|done]. clear. split_and!; run_block.
Qed.

(** ** The theorems *)

(** Everything in the registers is a word. *)
Record cpu_ok (c : cpu) : Prop := {
  ck_gpr : length (gpr c) = 31%nat;
  ck_words : Forall is_u64 (gpr c);
  ck_sys : is_u64 (ELR_EL1 c) ∧ is_u64 (SPSR_EL1 c) ∧ is_u64 (ESR_EL1 c) ∧ is_u64 (FAR_EL1 c)
}.

(** Memory is the same but for [n] bytes at [a]. *)
Definition same_but (m m' : mem) (a n : Z) : Prop := ∀ x, ¬ (a ≤ x < a + n) → m' x = m x.

(** C8: the trap path is a round trip: from any interrupted code, an entry of the
    vector table makes room on the stack for exactly one [TrapFrame], calls
    [handle_exception] with its address and the number of the entry, and the
    frame there, field for field, is the interrupted code, its 31 registers among
    them, with no other byte of memory touched; whatever the handler then leaves
    in the frame, every register, the return address and the processor state are
    what the frame says when the [eret] is reached, and the stack is where it was;
    a handler that leaves the frame alone is not noticed. *)
Theorem trap_frame_roundtrip index c :
  cpu_ok c → stack_ok TRAP_FRAME_SIZE (SP c) →
  let c1 := trap_entry index c in
  frame_at (ram c1) (SP c1) = interrupted c ∧ SP c1 = SP c - TRAP_FRAME_SIZE ∧
  xr 0 c1 = SP c1 ∧ xr 1 c1 = index ∧ same_but (ram c) (ram c1) (SP c1) TRAP_FRAME_SIZE ∧
  ∀ c2, length (gpr c2) = 31%nat → SP c2 = SP c1 →
    let f := frame_at (ram c2) (SP c2) in
    let c3 := trap_return c2 in
    gpr c3 = x f ∧ ELR_EL1 c3 = frame_elr f ∧ SPSR_EL1 c3 = spsr f ∧ SP c3 = SP c ∧ ram c3 = ram c2 ∧
    (f = interrupted c → gpr c3 = gpr c ∧ ELR_EL1 c3 = ELR_EL1 c ∧ SPSR_EL1 c3 = SPSR_EL1 c).
Proof.
  intros [Hl Hw (H1 & H2 & H3 & H4)] [Hs Hs'] c1. destruct (entry_block index c Hl) as (Hm & Hsp & _ & H0 & Hi & _).
  fold c1 in Hm, Hsp, H0, Hi. assert (Ha : as_u64 (SP c - TRAP_FRAME_SIZE) = SP c - TRAP_FRAME_SIZE).
  { apply as_u64_id. unfold is_u64, TRAP_FRAME_SIZE in *. lia. }
  assert (Hf : Forall is_u64 (frame_words (interrupted c))).
  { unfold frame_words. apply Forall_app. split; [exact Hw|]. repeat (constructor; [done|]). constructor. }
  rewrite Ha in *. split_and!.
  - rewrite Hm, Hsp. by apply frame_stored.
  - done.
  - by rewrite H0, Hsp.
  - done.
  - intros y Hy. rewrite Hm. apply store_words_other; [lia|]. unfold frame_words. cbn [x interrupted].
    rewrite length_app, Hl. rewrite Hsp in Hy. cbn [length]. unfold TRAP_FRAME_SIZE in *. lia.
  - intros c2 Hl2 Hsp2 f c3. destruct (return_block c2 Hl2) as (R1 & R2 & R3 & R4 & _ & R6). fold f c3 in R1, R2, R3, R4, R6.
    split_and!; [done|done|done| |done|intros He; by rewrite R1, R2, R3, He].
    rewrite R4, Hsp2, Hsp, Z.sub_add. apply as_u64_id. unfold is_u64, TRAP_FRAME_SIZE in *. lia.
Qed.

(** Bytes [n] at [a] and [k] at [b] are apart. *)
Definition apart (a n b k : Z) : Prop := a + n ≤ b ∨ b + k ≤ a.

(** [switch] from a task whose frame goes to [a], to one whose frame is at [x1]. *)
Record switch_ok (c : cpu) : Prop := {
  so_cpu : cpu_ok c;
  so_room : stack_ok SWITCH_FRAME_SIZE (SP c);
  so_next : 0 ≤ xr 1 c ∧ xr 1 c + SWITCH_FRAME_SIZE ≤ u64_max;
  so_frame : apart (SP c - SWITCH_FRAME_SIZE) 96 (xr 1 c) 96;
  so_field : apart (xr 0 c) 8 (xr 1 c) 96 ∧ apart (xr 0 c) 8 (SP c - SWITCH_FRAME_SIZE) 96
}.

Lemma switch_exact c :
  switch_ok c →
  let a := SP c - SWITCH_FRAME_SIZE in
  let c' := execs switch c in
  saved c' = words_at (ram c) (xr 1 c) 12 ∧ SP c' = xr 1 c + SWITCH_FRAME_SIZE ∧
  resumes_at c' = read_u64 (ram c) (xr 1 c + 88) ∧ SP_EL0 c' = SP_EL0 c ∧
  read_u64 (ram c') (xr 0 c) = a ∧ words_at (ram c') a 12 = saved c ∧
  (∀ y, ¬ (a ≤ y < a + 96) → ¬ (xr 0 c ≤ y < xr 0 c + 8) → ram c' y = ram c y).
Proof.
  intros [[Hl Hw _] [Hs Hs'] [Hn Hn'] Hfr [Hf1 Hf2]] a c'. unfold SWITCH_FRAME_SIZE in *.
  destruct (switch_block c Hl) as (Hm & Hsv & Hsp & Hra & H0 & _). fold c' in Hm, Hsv, Hsp, Hra, H0.
  assert (Ha : as_u64 (SP c - SWITCH_FRAME_SIZE) = a).
  { apply as_u64_id. unfold is_u64, SWITCH_FRAME_SIZE in *. lia. }
  rewrite Ha in *. unfold apart in *. fold a in Hfr, Hf2.
  assert (Hlen : length (saved c) = 12%nat) by (unfold saved; rewrite length_drop, Hl; done).
  assert (Hws : Forall is_u64 (saved c)) by by apply Forall_drop.
  assert (Hram : ∀ y, ¬ (a ≤ y < a + 96) → ¬ (xr 0 c ≤ y < xr 0 c + 8) → ram c' y = ram c y).
  { intros y H1 H2. rewrite Hm, write_le_other by lia. apply store_words_other; [lia|]. rewrite Hlen. lia. }
  rewrite <-Hm in Hsv, Hra. split_and!.
  - rewrite Hsv. apply words_ext. intros y Hy. apply Hram; lia.
  - rewrite Hsp. apply as_u64_id. unfold is_u64, SWITCH_FRAME_SIZE in *. lia.
  - rewrite Hra. apply read_le_ext. intros y Hy. apply Hram; lia.
  - done.
  - rewrite Hm. apply read_write_u64. unfold is_u64, a in *. lia.
  - transitivity (words_at (store_words (ram c) a 0 (saved c)) a 12).
    + apply words_ext. intros y Hy. rewrite Hm. apply write_le_other. lia.
    + rewrite words_stored by (done || lia). apply take_ge. lia.
  - exact Hram.
Qed.

(** C9: [switch] is its own inverse: it leaves in the field x0 points to where the
    frame of the task that stops is, puts the preserved registers and the return
    address of that task there, and goes on with what the frame of the next task
    has, on its stack; and when any later [switch] from a third stack is given
    that field, and nobody has touched the frame, the first task goes on with the
    registers, the stack and the return address it had, as after a call. *)
Theorem switch_roundtrip c c2 :
  switch_ok c → switch_ok c2 →
  let c1 := execs switch c in
  let c3 := execs switch c2 in
  xr 1 c2 = read_u64 (ram c1) (xr 0 c) →
  (∀ y, SP c - SWITCH_FRAME_SIZE ≤ y < SP c → ram c2 y = ram c1 y) →
  saved c1 = words_at (ram c) (xr 1 c) 12 ∧ SP c1 = xr 1 c + SWITCH_FRAME_SIZE ∧
  saved c3 = saved c ∧ SP c3 = SP c ∧ resumes_at c3 = xr 30 c.
Proof.
  intros H H2 c1 c3 Hx Hy. destruct (switch_exact c H) as (E1 & E2 & _ & _ & E5 & E6 & _).
  destruct (switch_exact c2 H2) as (G1 & G2 & G3 & _). fold c1 in E1, E2, E5, E6. fold c3 in G1, G2, G3.
  rewrite E5 in Hx. rewrite Hx in G1, G2, G3.
  assert (Hs : words_at (ram c2) (SP c - SWITCH_FRAME_SIZE) 12 = saved c).
  { rewrite <-E6. apply words_ext. intros y Hyy. apply Hy. unfold SWITCH_FRAME_SIZE in *. lia. }
  split_and!; [done|done|congruence|rewrite G2; lia|]. rewrite G3. unfold SWITCH_FRAME_SIZE in *.
  assert (Hr : words_at (ram c2) (SP c - 96) 12 !! 11%nat = saved c !! 11%nat) by by rewrite Hs.
  unfold words_at in Hr. rewrite list_lookup_fmap in Hr. change (range 0 (Z.of_nat 12) !! 11%nat) with (Some 11) in Hr.
  unfold saved in Hr. rewrite lookup_drop in Hr. unfold xr. cbn [fmap option_fmap option_map] in Hr. change (19 + 11)%nat with 30%nat in Hr.
  rewrite <-Hr. reflexivity.
Qed.

(** ** A task that has never run *)

(** Memory with the frame of a new task at [a], below a canary at [stack]. *)
Definition planted (m : mem) (stack a entry arg x30 : Z) : mem :=
  write_u64 (write_u64 (write_u64 (write_u64 (write_u64 m stack STACK_CANARY) a entry) (a + 8) arg) (a + 80) 0) (a + 88) x30.

Lemma plant_exact task_trampoline stack entry arg m :
  let a := stack + STACK_SIZE - SWITCH_FRAME_SIZE in
  plant_switch_frame task_trampoline stack entry arg m =
    Done (a, set_memory (planted (memory m) stack a entry arg task_trampoline) m).
Proof.
  unfold plant_switch_frame, planted. change (SWITCH_FRAME_WORDS * 8) with SWITCH_FRAME_SIZE.
  change (8 * SLOT_X19) with 0. change (8 * SLOT_X20) with 8. change (8 * SLOT_X29) with 80. change (8 * SLOT_X30) with 88.
  rewrite Z.add_0_r. by destruct m.
Qed.

Lemma planted_words m stack a entry arg x30 :
  is_u64 entry → is_u64 arg → is_u64 x30 →
  let m' := planted m stack a entry arg x30 in
  read_u64 m' a = entry ∧ read_u64 m' (a + 8) = arg ∧ read_u64 m' (a + 80) = 0 ∧ read_u64 m' (a + 88) = x30.
Proof.
  intros He Ha Hx m'. subst m'. unfold planted. assert (is_u64 0) by done.
  repeat split; repeat (rewrite read_write_disjoint by lia); by apply read_write_u64.
Qed.

(** A preserved register after a [switch] is a word of the frame. *)
Lemma switch_regs c k :
  switch_ok c → (k < 12)%nat → xr (19 + k) (execs switch c) = read_u64 (ram c) (xr 1 c + 8 * Z.of_nat k).
Proof.
  intros Hc Hk. destruct (switch_exact c Hc) as (E1 & _). revert E1. generalize (execs switch c). intros c' E1.
  unfold xr. rewrite <-lookup_drop. unfold saved in E1. rewrite E1. unfold words_at. rewrite list_lookup_fmap.
  assert (Hg : range 0 (Z.of_nat 12) !! k = Some (Z.of_nat k)) by (rewrite range_seqZ; apply lookup_seqZ; lia).
  by rewrite Hg.
Qed.

(** Memory seen [d] further up. *)
Lemma read_shifted m m' d n a :
  (∀ y, a ≤ y < a + Z.of_nat n → m (y + d) = m' y) → read_le n m (a + d) = read_le n m' a.
Proof.
  revert a. induction n as [|n IH]; intros a H; [done|]. cbn [read_le]. rewrite H by lia.
  replace (a + d + 1) with (a + 1 + d) by lia. rewrite IH; [done|]. intros y Hy. apply H. lia.
Qed.

(** C10: a task starts where [spawn] says: the frame [plant_switch_frame] writes on
    a new stack, seen through the physical map, is one [switch] can be given, and
    the CPU then goes on at the trampoline with the entry function in x19, its
    argument in x20 and a frame pointer of zero, on a stack whose top is the top
    of the frames allocated for it, all of it unused. *)
Theorem new_task_starts task_trampoline stack entry arg m sp m' c :
  plant_switch_frame task_trampoline stack entry arg m = Done (sp, m') →
  is_u64 entry → is_u64 arg → is_u64 task_trampoline →
  switch_ok c → xr 1 c = sp + KERNEL_BASE →
  (∀ y, sp ≤ y < stack + STACK_SIZE → ram c (y + KERNEL_BASE) = memory m' y) →
  let c' := execs switch c in
  resumes_at c' = task_trampoline ∧ xr 19 c' = entry ∧ xr 20 c' = arg ∧ xr 29 c' = 0 ∧
  SP c' = stack + STACK_SIZE + KERNEL_BASE.
Proof.
  intros Hp He Ha Ht Hc Hx Hm. cbv zeta. rewrite plant_exact in Hp. injection Hp as <- <-. cbn [memory set_memory] in Hm.
  destruct (planted_words (memory m) stack (stack + STACK_SIZE - SWITCH_FRAME_SIZE) entry arg task_trampoline He Ha Ht)
    as (P1 & P2 & P3 & P4).
  revert Hm P1 P2 P3 P4. generalize (planted (memory m) stack (stack + STACK_SIZE - SWITCH_FRAME_SIZE) entry arg task_trampoline).
  intros pm Hm P1 P2 P3 P4. pose proof (switch_regs c 0 Hc ltac:(lia)) as R0. pose proof (switch_regs c 1 Hc ltac:(lia)) as R1.
  pose proof (switch_regs c 10 Hc ltac:(lia)) as R10. pose proof (switch_regs c 11 Hc ltac:(lia)) as R11.
  destruct (switch_exact c Hc) as (_ & E2 & _). unfold resumes_at. cbn [Nat.add] in *.
  revert R0 R1 R10 R11 E2. generalize (execs switch c). intros c' R0 R1 R10 R11 E2. rewrite Hx in *.
  assert (Hr : ∀ k v, 0 ≤ k < 12 → read_u64 pm (stack + STACK_SIZE - SWITCH_FRAME_SIZE + 8 * k) = v →
    read_u64 (ram c) (stack + STACK_SIZE - SWITCH_FRAME_SIZE + KERNEL_BASE + 8 * k) = v).
  { intros k v Hk <-. rewrite <-(read_shifted (ram c) pm KERNEL_BASE).
    - f_equal. lia.
    - intros y Hy. apply Hm. unfold SWITCH_FRAME_SIZE in *. lia. }
  split_and!.
  - rewrite R11. by apply Hr.
  - rewrite R0. apply Hr; [lia|]. by rewrite Z.add_0_r.
  - rewrite R1. by apply Hr.
  - rewrite R10. by apply Hr.
  - rewrite E2. lia.
Qed.

(** ** The stack pointer of EL0 *)

(** Where a task is interrupted at EL0 and preempted there: [c] takes the
    exception, [s1] is where Rust calls [switch] below the frame, [s2] is where
    some other task's call of [switch] comes back to it, and [s3] is where the
    handler returns to [vectors.S].  Nobody but the task touches its stack, and
    no Rust writes [SP_EL0] on the way back. *)
Record preempted (index : Z) (c s1 s2 s3 : cpu) : Prop := {
  pr_from : cpu_ok c ∧ stack_ok TRAP_FRAME_SIZE (SP c);
  pr_away : switch_ok s1 ∧ SP s1 ≤ SP (trap_entry index c) ∧
    apart (xr 0 s1) 8 (SP (trap_entry index c)) TRAP_FRAME_SIZE ∧
    ∀ y, SP (trap_entry index c) ≤ y < SP c → ram s1 y = ram (trap_entry index c) y;
  pr_back : switch_ok s2 ∧ xr 1 s2 = read_u64 (ram (execs switch s1)) (xr 0 s1) ∧
    apart (SP s2 - SWITCH_FRAME_SIZE) SWITCH_FRAME_SIZE (SP (trap_entry index c)) TRAP_FRAME_SIZE ∧
    apart (xr 0 s2) 8 (SP (trap_entry index c)) TRAP_FRAME_SIZE ∧
    ∀ y, SP s1 - SWITCH_FRAME_SIZE ≤ y < SP c → ram s2 y = ram (execs switch s1) y;
  pr_up : length (gpr s3) = 31%nat ∧ SP s3 = SP (trap_entry index c) ∧ SP_EL0 s3 = SP_EL0 (execs switch s2) ∧
    ∀ y, SP (trap_entry index c) ≤ y < SP c → ram s3 y = ram (execs switch s2) y
}.

Lemma frame_ext m m' a : (∀ y, a ≤ y < a + TRAP_FRAME_SIZE → m' y = m y) → frame_at m' a = frame_at m a.
Proof.
  intros H. unfold TRAP_FRAME_SIZE in H.
  assert (Hr : ∀ k, 0 ≤ k ≤ 0x118 → read_u64 m' (a + k) = read_u64 m (a + k)).
  { intros k Hk. apply read_le_ext. intros y Hy. apply H. lia. }
  unfold frame_at. rewrite !Hr by lia. f_equal. apply list_fmap_ext.
  intros k i Hi. apply list_elem_of_lookup_2, elem_of_range in Hi. apply Hr. lia.
Qed.

(** C35: the stack pointer of EL0 is not part of a task.  When a program is
    interrupted, switched away from and switched back to, the entry of the
    vector table, [switch] twice and the return to EL0 give it back its 31
    registers, its return address, its processor state and its kernel stack, but
    its [SP_EL0] is the value the register had when the other task called
    [switch]: whatever the last program that ran left there, be it [enter_el0]'s
    for a program that has just started. *)
Theorem stack_pointer_shared index c s1 s2 s3 :
  preempted index c s1 s2 s3 →
  let c3 := execs switch s2 in
  let c4 := trap_return s3 in
  saved c3 = saved s1 ∧ SP c3 = SP s1 ∧ resumes_at c3 = xr 30 s1 ∧
  gpr c4 = gpr c ∧ ELR_EL1 c4 = ELR_EL1 c ∧ SPSR_EL1 c4 = SPSR_EL1 c ∧ SP c4 = SP c ∧
  SP_EL0 c4 = SP_EL0 s2 ∧
  (∀ other stack entry spsr, s2 = execs (enter_el0 stack entry spsr) other → SP_EL0 c4 = xr stack other).
Proof.
  intros [[Hc Hs] (H1 & Hle & Hf1 & Hm1) (H2 & Hx2 & Hw2 & Hf2 & Hm2) (Hl3 & Hsp3 & H03 & Hm3)].
  destruct (trap_frame_roundtrip index c Hc Hs) as (Hfr & Hsp & _ & _ & _ & Hret).
  destruct (switch_exact s1 H1) as (_ & _ & _ & _ & A5 & A6 & A7).
  destruct (switch_exact s2 H2) as (B1 & B2 & B3 & B4 & _ & _ & B7).
  destruct (Hret s3 Hl3 Hsp3) as (R1 & R2 & R3 & R4 & _ & Hsame).
  destruct (return_block s3 Hl3) as (_ & _ & _ & _ & R0 & _).
  revert Hfr Hsp Hle Hf1 Hm1 Hw2 Hf2 Hsp3 Hm3 Hm2 Hx2 A5 A6 A7 B1 B2 B3 B4 B7 H03 R0 R1 R2 R3 R4 Hsame.
  generalize (trap_entry index c) (execs switch s1) (execs switch s2) (trap_return s3). intros c1 c2 c3 c4.
  intros Hfr Hsp Hle Hf1 Hm1 Hw2 Hf2 Hsp3 Hm3 Hm2 Hx2 A5 A6 A7 B1 B2 B3 B4 B7 H03 R0 R1 R2 R3 R4 Hsame.
  rewrite A5 in Hx2. rewrite Hx2 in B1, B2, B3. unfold apart, SWITCH_FRAME_SIZE, TRAP_FRAME_SIZE in *.
  assert (Hws : words_at (ram s2) (SP s1 - 96) 12 = saved s1).
  { rewrite <-A6. apply words_ext. intros y Hy. apply Hm2. lia. }
  assert (Hframe : frame_at (ram s3) (SP s3) = interrupted c).
  { rewrite <-Hfr, Hsp3. apply frame_ext. unfold TRAP_FRAME_SIZE. intros y Hy.
    rewrite Hm3, B7, Hm2, A7, Hm1 by lia. done. }
  destruct (Hsame Hframe) as (G1 & G2 & G3).
  assert (Hra : read_u64 (ram s2) (SP s1 - 96 + 88) = xr 30 s1).
  { assert (Hr : words_at (ram s2) (SP s1 - 96) 12 !! 11%nat = saved s1 !! 11%nat) by by rewrite Hws.
    unfold words_at in Hr. rewrite list_lookup_fmap in Hr. change (range 0 (Z.of_nat 12) !! 11%nat) with (Some 11) in Hr.
    unfold saved in Hr. rewrite lookup_drop in Hr. unfold xr. cbn [fmap option_fmap option_map] in Hr.
    change (19 + 11)%nat with 30%nat in Hr. rewrite <-Hr. reflexivity. }
  assert (H0 : SP_EL0 c4 = SP_EL0 s2) by congruence.
  split_and!; [congruence|lia|congruence|done|done|done|done|done|].
  intros other stack entry spsr ->. rewrite H0. reflexivity.
Qed.

(** ** [boot.S] *)

(** The loop ends, having zeroed the words up to the end of the BSS. *)
Lemma zero_bss_exact n at_ m :
  0 ≤ at_ → at_ + 8 * Z.of_nat n ≤ u64_max →
  ∃ m', zero_bss (S n) at_ (at_ + 8 * Z.of_nat n) m = Some (at_ + 8 * Z.of_nat n, m') ∧
    mem_eq m' (zero_range m at_ (8 * Z.of_nat n)).
Proof.
  revert at_ m. induction n as [|n IH]; intros at_ m H0 Hhi.
  - exists m. cbn [zero_bss]. rewrite Z.mul_0_r, Z.add_0_r, Z.leb_refl. split; [done|]. intros y.
    symmetry. apply zero_range_out. lia.
  - remember (S n) as n'. cbn [zero_bss]. rewrite (proj2 (Z.leb_gt _ _)) by lia. rewrite as_u64_id by (unfold is_u64; lia).
    subst n'. replace (at_ + 8 * Z.of_nat (S n)) with (at_ + 8 + 8 * Z.of_nat n) in * by lia.
    destruct (IH (at_ + 8) (write_u64 m at_ 0)) as (m' & He & Hm); [lia|lia|]. exists m'. split; [exact He|].
    intros y. rewrite (Hm y). unfold zero_range, write_le.
    destruct (Z.leb_spec (at_ + 8) y), (Z.ltb_spec y (at_ + 8 + 8 * Z.of_nat n)), (Z.leb_spec at_ y),
      (Z.ltb_spec y (at_ + 8 * Z.of_nat (S n))), (Z.ltb_spec y (at_ + Z.of_nat 8)); cbn; try done; try lia.
    by rewrite Z.shiftr_0_l.
Qed.

(** What [boot.S] does: every core but the first parks; the first zeroes the BSS,
    which the linker makes of whole words, and calls [kernel_main] on its own
    stack with the address of the device tree it was entered with. *)
Theorem start_exact n stack_top bss_start mpidr x0 m :
  0 ≤ bss_start → bss_start + 8 * Z.of_nat n ≤ u64_max →
  let bss_end := bss_start + 8 * Z.of_nat n in
  if Z.land mpidr 0xff =? 0 then ∃ m', mem_eq m' (zero_range m bss_start (8 * Z.of_nat n)) ∧
    _start (S n) stack_top bss_start bss_end mpidr x0 m = Some (Calls stack_top x0 m')
  else _start (S n) stack_top bss_start bss_end mpidr x0 m = Some Parked.
Proof.
  intros H0 Hhi bss_end. unfold _start. destruct (Z.land mpidr 0xff =? 0); cbn [negb]; [|done].
  destruct (zero_bss_exact n bss_start m H0 Hhi) as (m' & He & Hm). fold bss_end in He. rewrite He. by exists m'.
Qed.

(** ** At a concrete state *)

(** A kernel stack below [0x41000000], registers that are their own numbers, the
    frame of the next task at [0x42000000] and the field for the stack pointer at
    [0x43000000]. *)
Definition sample (x0 x1 : Z) (m : mem) : cpu :=
  mkCpu ([x0; x1] ++ range 2 31) 0x41000000 0x7fffc0 0x40001c 0x60000000 0x56000000 0 m.

Lemma sample_ok x0 x1 m : is_u64 x0 → is_u64 x1 → cpu_ok (sample x0 x1 m).
Proof.
  intros H0 H1. split; [done| |by split_and!]. cbn [gpr sample].
  apply Forall_app. split; [by apply Forall_cons_2, Forall_singleton|].
  apply Forall_forall. intros i Hi%elem_of_range. unfold is_u64. lia.
Qed.

Lemma sample_switch x1 m :
  0x42000000 ≤ x1 ≤ u64_max - 96 → x1 + 96 ≤ 0x43000000 ∨ 0x43000008 ≤ x1 → switch_ok (sample 0x43000000 x1 m).
Proof.
  intros Hx Hx'. split; [apply sample_ok; unfold is_u64; lia|unfold stack_ok, SWITCH_FRAME_SIZE; cbn; lia|..];
    unfold apart, SWITCH_FRAME_SIZE, xr; cbn; lia.
Qed.

Lemma trap_frame_roundtrip_witness :
  let c1 := trap_entry 8 (sample 1 2 (λ _, 0)) in
  frame_at (ram c1) (SP c1) = interrupted (sample 1 2 (λ _, 0)) ∧ gpr (trap_return c1) = [1; 2] ++ range 2 31.
Proof.
  assert (Hok : cpu_ok (sample 1 2 (λ _, 0))) by (apply sample_ok; done).
  assert (Hs : stack_ok TRAP_FRAME_SIZE (SP (sample 1 2 (λ _, 0)))) by (unfold stack_ok, TRAP_FRAME_SIZE; cbn; lia).
  destruct (trap_frame_roundtrip 8 (sample 1 2 (λ _, 0)) Hok Hs) as (Hf & _ & _ & _ & _ & Hr).
  destruct (entry_block 8 (sample 1 2 (λ _, 0)) eq_refl) as (_ & _ & _ & _ & _ & Hl).
  destruct (Hr _ Hl eq_refl) as (_ & _ & _ & _ & _ & Hsame). split; [exact Hf|]. exact (proj1 (Hsame Hf)).
Defined.

(** Back from a stack at [0x44000000], with the field at [0x45000000]. *)
Definition back (c1 : cpu) : cpu :=
  mkCpu ([0x45000000; read_u64 (ram c1) 0x43000000] ++ range 102 131) 0x44000000 0 0 0 0 0 (ram c1).

Lemma back_reads c1 x1 m : xr 1 (back c1) = read_u64 (ram c1) (xr 0 (sample 0x43000000 x1 m)).
Proof. reflexivity. Qed.
Lemma back_ram c1 y : ram (back c1) y = ram c1 y.
Proof. reflexivity. Qed.
Lemma back_ok c1 : read_u64 (ram c1) 0x43000000 = 0x40ffffa0 → switch_ok (back c1).
Proof.
  intros Hx. unfold back. rewrite Hx.
  split; [split; [reflexivity| |by split_and!]|unfold stack_ok, SWITCH_FRAME_SIZE; cbn; lia|..];
    [|unfold apart, SWITCH_FRAME_SIZE, xr; cbn; lia..].
  cbn [gpr]. apply Forall_app. split; [by apply Forall_cons_2, Forall_singleton|].
  apply Forall_forall. intros i Hi%elem_of_range. unfold is_u64. lia.
Qed.

Lemma switch_roundtrip_witness :
  let c := sample 0x43000000 0x42000000 (λ _, 7) in
  saved (execs switch (back (execs switch c))) = range 19 31 ∧ SP (execs switch (back (execs switch c))) = 0x41000000.
Proof.
  intros c. assert (Hc : switch_ok c) by (apply sample_switch; lia).
  destruct (switch_exact c Hc) as (_ & _ & _ & _ & Hf & _).
  destruct (switch_roundtrip c (back (execs switch c)) Hc (back_ok _ Hf) (back_reads _ _ _) (λ y _, back_ram _ y))
    as (_ & _ & Hs & Hsp & _).
  split; [exact Hs|exact Hsp].
Defined.

Lemma new_task_starts_witness :
  let start := 0x42000000 + STACK_SIZE - SWITCH_FRAME_SIZE in
  let c := sample 0x43000000 (start + KERNEL_BASE)
    (λ y, planted (λ _, 0) 0x42000000 start 0x40081200 1 0x40081100 (y - KERNEL_BASE)) in
  resumes_at (execs switch c) = 0x40081100 ∧ xr 19 (execs switch c) = 0x40081200 ∧ xr 20 (execs switch c) = 1.
Proof.
  intros start c. assert (Hc : switch_ok c).
  { apply sample_switch; unfold start, STACK_SIZE, STACK_FRAMES, FRAME_SIZE, SWITCH_FRAME_SIZE, KERNEL_BASE; lia. }
  assert (Hm : ∀ y, start ≤ y < 0x42000000 + STACK_SIZE → ram c (y + KERNEL_BASE) =
    memory (set_memory (planted (λ _, 0) 0x42000000 start 0x40081200 1 0x40081100) (reset (λ _, 0))) y).
  { intros y _. cbn [ram c sample]. by rewrite Z.add_simpl_r. }
  destruct (new_task_starts 0x40081100 0x42000000 0x40081200 1 (reset (λ _, 0)) start _ c
    (plant_exact _ _ _ _ _) ltac:(done) ltac:(done) ltac:(done) Hc eq_refl Hm) as (H1 & H2 & H3 & _).
  split; [exact H1|]. split; [exact H2|exact H3].
Defined.

(** A task interrupted with [0x7fffc0] as its stack pointer, switched away from a
    megabyte further down, and switched back to from another kernel stack, when
    the program that ran last had [0x7fff80]. *)
Definition met (c1 : cpu) : cpu := mkCpu ([0x43000000; 0x42000000] ++ range 2 31) 0x40f00000 0x7fffc0 0 0 0 0 (ram c1).
Definition returning (c2 : cpu) : cpu :=
  mkCpu ([0x45000000; 0x40efffa0] ++ range 102 131) 0x44000000 0x7fff80 0 0 0 0 (ram c2).
Definition returned (c1 c3 : cpu) : cpu := mkCpu (gpr c3) (SP c1) (SP_EL0 c3) 0 0 0 0 (ram c3).

Lemma met_ram c1 y : ram (met c1) y = ram c1 y.
Proof. reflexivity. Qed.
Lemma returning_ram c2 y : ram (returning c2) y = ram c2 y.
Proof. reflexivity. Qed.
Lemma returned_ram c1 c3 y : ram (returned c1 c3) y = ram c3 y.
Proof. reflexivity. Qed.
Lemma returned_gpr c1 c3 : gpr (returned c1 c3) = gpr c3.
Proof. reflexivity. Qed.
Lemma returned_sps c1 c3 : SP (returned c1 c3) = SP c1 ∧ SP_EL0 (returned c1 c3) = SP_EL0 c3.
Proof. by split. Qed.

Lemma regs_ok x0 x1 a b s s0 m : is_u64 x0 → is_u64 x1 → 0 ≤ a → b ≤ 200 → b = a + 29 →
  cpu_ok (mkCpu ([x0; x1] ++ range a b) s s0 0 0 0 0 m).
Proof.
  intros H0 H1 Ha Hb ->. split; [cbn [gpr]; rewrite length_app, length_range; cbn [length]; lia| |by split_and!].
  cbn [gpr]. apply Forall_app. split; [by apply Forall_cons_2, Forall_singleton|].
  apply Forall_forall. intros i Hi%elem_of_range. unfold is_u64. lia.
Qed.

Lemma met_ok c1 : switch_ok (met c1).
Proof.
  split; [apply regs_ok; unfold is_u64; lia|unfold stack_ok, SWITCH_FRAME_SIZE; cbn; lia|..];
    unfold apart, SWITCH_FRAME_SIZE, xr; cbn; lia.
Qed.
Lemma returning_ok c2 : switch_ok (returning c2).
Proof.
  split; [apply regs_ok; unfold is_u64; lia|unfold stack_ok, SWITCH_FRAME_SIZE; cbn; lia|..];
    unfold apart, SWITCH_FRAME_SIZE, xr; cbn; lia.
Qed.

Lemma sample_preempted :
  let c := sample 1 2 (λ _, 0) in
  let s1 := met (trap_entry 9 c) in
  let s2 := returning (execs switch s1) in
  preempted 9 c s1 s2 (returned (trap_entry 9 c) (execs switch s2)).
Proof.
  intros c s1 s2. assert (Hc : cpu_ok c) by (apply sample_ok; done).
  destruct (entry_block 9 c eq_refl) as (_ & Hsp & _). change (as_u64 (SP c - TRAP_FRAME_SIZE)) with 0x40fffee0 in Hsp.
  destruct (switch_exact s1 (met_ok _)) as (_ & _ & _ & _ & Hx & _). change (SP s1 - SWITCH_FRAME_SIZE) with 0x40efffa0 in Hx.
  destruct (switch_block s2 (ck_gpr _ (so_cpu _ (returning_ok _)))) as (_ & _ & _ & _ & _ & Hl & _).
  split.
  - split; [exact Hc|]. unfold stack_ok, TRAP_FRAME_SIZE. cbn. lia.
  - split; [apply met_ok|]. rewrite Hsp. change (SP s1) with 0x40f00000. change (xr 0 s1) with 0x43000000.
    split; [lia|]. split; [unfold apart, TRAP_FRAME_SIZE; lia|]. intros y _. exact (met_ram _ y).
  - split; [apply returning_ok|]. split; [exact (eq_sym Hx)|]. rewrite Hsp.
    change (SP s2) with 0x44000000. change (xr 0 s2) with 0x45000000.
    split; [unfold apart, SWITCH_FRAME_SIZE, TRAP_FRAME_SIZE; lia|].
    split; [unfold apart, TRAP_FRAME_SIZE; lia|]. intros y _. exact (returning_ram _ y).
  - split; [exact (eq_trans (f_equal length (returned_gpr _ _)) Hl)|]. split; [exact (proj1 (returned_sps _ _))|]. split; [exact (proj2 (returned_sps _ _))|].
    intros y _. exact (returned_ram _ _ y).
Qed.

Lemma stack_pointer_shared_witness :
  let c := sample 1 2 (λ _, 0) in
  let s2 := returning (execs switch (met (trap_entry 9 c))) in
  let c4 := trap_return (returned (trap_entry 9 c) (execs switch s2)) in
  gpr c4 = gpr c ∧ ELR_EL1 c4 = 0x40001c ∧ SP_EL0 c = 0x7fffc0 ∧ SP_EL0 c4 = 0x7fff80.
Proof.
  intros c s2 c4. destruct (stack_pointer_shared 9 c _ _ _ sample_preempted) as (_ & _ & _ & H1 & H2 & _ & _ & H3 & _).
  split; [exact H1|]. split; [exact H2|]. split; [reflexivity|exact H3].
Defined.
