(* ===== verification/Mmu.v ===== *)
(** * Mmu: the translation registers and what the kernel can reach

    The system registers [paging.rs] writes, with [PHYS_OFFSET]; an access at EL1
    as the hardware makes it, through the tables the registers name; and the
    self test of [paging.rs], which tries what it must not be able to do.  The
    kernel and its devices are [bd]; [TTBR0_EL1] is the field [ttbr0] of the
    kernel. *)

From S2P Require Import Prelude Memory FrameAlloc Frames FramesBoot Paging PagingWalk PagingTables PagingMap PagingRange PagingProps.
From S2P Require Import KernelMap Kernel Sched Devices Exceptions.

(** ** Registers *)

Record mmu : Type := mkMmu {
  MAIR_EL1 : Z;
  TCR_EL1 : Z;
  TTBR1_EL1 : Z;
  SCTLR_EL1 : Z;
  VBAR_EL1 : Z;
  PHYS_OFFSET : Z
}.

Record core : Type := mkCore { bd : board; cpu : mmu }.
Definition set_bd (b : board) (c : core) : core := mkCore b (cpu c).
Definition set_cpu (r : mmu) (c : core) : core := mkCore (bd c) r.
Definition on_board {A} (op : M board A) : M core A := zoom bd set_bd op.
Definition on_pool {A} (op : M machine A) : M core A := on_board (in_kernel (with_mach op)).

Definition MAIR_ATTR_NORMAL : Z := 0xff.
Definition MAIR_VALUE : Z := Z.shiftl MAIR_ATTR_NORMAL 8.

(** [mmfr0] is what [ID_AA64MMFR0_EL1] reads as. *)
Definition parange (mmfr0 : Z) : Z := Z.min (Z.land mmfr0 15) 5.

Definition tcr_value (mmfr0 : Z) : Z :=
  let t0sz := 16 in let t1sz := 16 in let rgn := 1 in let sh := 3 in
  Z.lor (Z.lor (Z.lor (Z.lor (Z.lor (Z.lor (Z.lor (Z.lor (Z.lor
    t0sz (Z.shiftl rgn 8)) (Z.shiftl rgn 10)) (Z.shiftl sh 12))
    (Z.shiftl t1sz 16)) (Z.shiftl rgn 24)) (Z.shiftl rgn 26)) (Z.shiftl sh 28))
    (Z.shiftl 2 30)) (Z.shiftl (parange mmfr0) 32).

Definition enable (mmfr0 low high : Z) : M core unit :=
  _ ← on_board (in_kernel (activate_root low));
  modify (λ c, let r := cpu c in
    set_cpu (mkMmu MAIR_VALUE (tcr_value mmfr0) high
      (Z.lor (Z.lor (Z.lor (SCTLR_EL1 r) (Z.shiftl 1 0)) (Z.shiftl 1 2)) (Z.shiftl 1 12))
      (VBAR_EL1 r) (PHYS_OFFSET r)) c).

(** Where execution goes on, with what stack and argument. *)
Definition jump_to_high_half (continuation sp arg : Z) : res (Z * Z * Z) :=
  target ← add64 continuation KERNEL_BASE; Done (target, as_u64 (sp + KERNEL_BASE), arg).

Definition finish_high_half : M core unit :=
  _ ← modify (λ c, let r := cpu c in
    set_cpu (mkMmu (MAIR_EL1 r) (TCR_EL1 r) (TTBR1_EL1 r) (SCTLR_EL1 r) (VBAR_EL1 r) KERNEL_BASE) c);
  vbar ← gets (λ c, VBAR_EL1 (cpu c));
  vbar ← lift (add64 vbar KERNEL_BASE);
  _ ← modify (λ c, let r := cpu c in
    set_cpu (mkMmu (MAIR_EL1 r) (Z.lor (TCR_EL1 r) (Z.shiftl 1 7)) (TTBR1_EL1 r) (SCTLR_EL1 r) vbar (PHYS_OFFSET r)) c);
  on_board (in_kernel (activate_root 0)).

Definition phys_to_virt (pa : Z) : M core Z := c ← getS; lift (add64 pa (PHYS_OFFSET (cpu c))).

Definition kernel_root : M core Z :=
  ttbr1 ← gets (λ c, TTBR1_EL1 (cpu c)); on_pool (Paging.from_addr (Z.land ttbr1 ADDR_MASK)).

Definition enable_user_translation : M core unit :=
  modify (λ c, let r := cpu c in
    set_cpu (mkMmu (MAIR_EL1 r) (Z.land (TCR_EL1 r) (not64 (Z.shiftl 1 7))) (TTBR1_EL1 r) (SCTLR_EL1 r)
      (VBAR_EL1 r) (PHYS_OFFSET r)) c).

(** [exceptions::init] and [exceptions::vector_base]. *)
Definition init_vectors (base : Z) : M core unit :=
  modify (λ c, let r := cpu c in
    set_cpu (mkMmu (MAIR_EL1 r) (TCR_EL1 r) (TTBR1_EL1 r) (SCTLR_EL1 r) base (PHYS_OFFSET r)) c).
Definition vector_base : M core Z := gets (λ c, VBAR_EL1 (cpu c)).

(** [tasks::init_address_spaces], with the register it also writes. *)
Definition init_address_spaces_mmu : M core unit :=
  _ ← on_board (in_kernel init_address_spaces); enable_user_translation.

(** ** An access at EL1 *)

Inductive access : Type := Read | Write | Fetch.
Global Instance access_eq_dec : EqDecision access.
Proof. solve_decision. Defined.

(** The table root for an address, unless it is in neither half or in one the
    walker is told not to consult. *)
Definition el1_root (r : mmu) (low va : Z) : option Z :=
  if (0 <=? va) && (va <? 2 ^ (64 - Z.land (TCR_EL1 r) 0x3f)) then
    if Z.testbit (TCR_EL1 r) 7 then None else Some (Z.land low ADDR_MASK)
  else if (2 ^ 64 - 2 ^ (64 - Z.land (Z.shiftr (TCR_EL1 r) 16) 0x3f) <=? va) && (va <? 2 ^ 64) then
    if Z.testbit (TCR_EL1 r) 23 then None else Some (Z.land (TTBR1_EL1 r) ADDR_MASK)
  else None.

(** The level at which a walk that finds nothing stops. *)
Fixpoint fault_depth (k : nat) (m : mem) (t va : Z) : Z :=
  let l := 3 - Z.of_nat k in
  let e := entry m t (table_index va l) in
  match k with
  | O => l
  | S k' => if valid e && is_table e then fault_depth k' m (addr e) va else l
  end.

Definition permitted (a : access) (d : Z) : bool :=
  match a with
  | Read => true
  | Write => (ap d =? AP_RW_EL1) || (ap d =? AP_RW_ALL)
  | Fetch => (Z.land d PXN =? 0) && negb (ap d =? AP_RW_ALL)
  end.

(** The physical address, or the fault status code; [ok] says which descriptors
    permit the access. *)
Definition translate_if (ok : Z → bool) (r : mmu) (low : Z) (m : mem) (va : Z) : Z + Z :=
  if negb (Z.testbit (SCTLR_EL1 r) 0) then inr va else
  match el1_root r low va with
  | None => inl 4
  | Some root =>
    match walk 3 m root va with
    | None => inl (4 + fault_depth 3 m root va)
    | Some (l, d) =>
      match leaf_pa l d va with
      | None => inl 4
      | Some pa =>
        if Z.land d AF =? 0 then inl (8 + l) else
        if ok d then inr pa else inl (12 + l)
      end
    end
  end.
Definition el1_translate (r : mmu) (low : Z) (m : mem) (a : access) (va : Z) : Z + Z :=
  translate_if (permitted a) r low m va.

(** The same at EL0. *)
Definition permitted_el0 (a : access) (d : Z) : bool :=
  match a with
  | Read => (ap d =? AP_RW_ALL) || (ap d =? AP_RO_ALL)
  | Write => ap d =? AP_RW_ALL
  | Fetch => Z.land d UXN =? 0
  end.
Definition el0_translate (r : mmu) (low : Z) (m : mem) (a : access) (va : Z) : Z + Z :=
  translate_if (permitted_el0 a) r low m va.

(** The syndrome of the abort: class, instruction length, direction, status. *)
Definition abort_esr (a : access) (status : Z) : Z :=
  Z.lor (Z.lor (Z.shiftl (match a with Fetch => 0x21 | _ => 0x25 end) 26) (Z.shiftl 1 25))
        (Z.lor (match a with Write => Z.shiftl 1 6 | _ => 0 end) status).

Section el1.
Context (respond : list Devices.access → Z → Z → Z) (frequency : Z).
Context (user_task_entry task_trampoline : Z).

(** The registers at the instruction that traps, which is at [pc]. *)
Context (regs : list Z) (pc pstate count : Z).

(** A trap from EL1 on an instruction that is then stepped over; the handler
    has no other way back to it. *)
Definition trap (esr far : Z) : M board unit :=
  e ← handle_exception respond frequency user_task_entry task_trampoline (mkFrame regs pc pstate esr far) 4 count;
  match e with
  | Eret f => assertM (frame_elr f =? pc + 4) "the instruction would run again"
  | Away _ => panic "the instruction would run again"
  end.

(** A volatile load or store of [n] bytes, aligned so that one page holds it; a
    load that is stepped over yields nothing. *)
Definition load (r : mmu) (n : nat) (va : Z) : M board (option Z) :=
  k ← gets kern;
  match el1_translate r (ttbr0 k) (memory (mach k)) Read va with
  | inr pa => mret (Some (read_le n (memory (mach k)) pa))
  | inl status => _ ← trap (abort_esr Read status) va; mret None
  end.
Definition store (r : mmu) (n : nat) (va v : Z) : M board unit :=
  k ← gets kern;
  match el1_translate r (ttbr0 k) (memory (mach k)) Write va with
  | inr pa => in_kernel (with_mach (modify (λ m, set_memory (write_le n (memory m) pa v) m)))
  | inl status => trap (abort_esr Write status) va
  end.

Definition at_el1 {A} (op : mmu → M board A) : M core A := r ← gets cpu; on_board (op r).

(** [Probe]. *)
Definition faulted (esr : Z) : bool := negb (esr =? 0).
Definition describe (esr : Z) : string := if esr =? 0 then "no fault" else fault_status esr.

(** [running_at] is the address of the code, [text] and [rodata] are the linker's
    symbols; what it reports is returned. *)
Definition self_test (running_at text rodata : Z) : M core (list string) :=
  _ ← assertM (KERNEL_BASE <=? running_at) "self test is not running in the high half";
  instruction ← at_el1 (λ r, load r 4 text);
  _ ← assertM (negb (bool_decide (instruction = Some 0))) "kernel text reads as zero";
  write_text ← at_el1 (λ r, probe (store r 4 text 0xdeadbeef));
  _ ← assertM (faulted write_text) "kernel text is writable";
  write_rodata ← at_el1 (λ r, probe (store r 1 rodata 0xff));
  _ ← assertM (faulted write_rodata) "kernel rodata is writable";
  low_half ← at_el1 (λ r, probe (_ ← load r 8 0x1000; mret tt));
  _ ← assertM (faulted low_half) "the identity map is still live";
  again ← at_el1 (λ r, load r 4 text);
  _ ← assertM (bool_decide (again = instruction)) "a faulting write still modified memory";
  mret [describe write_text; describe write_rodata; describe low_half].

(** [exceptions::self_test]: a breakpoint, taken and stepped over. *)
Definition breakpoint_self_test : M core unit :=
  on_board (trap (Z.lor (Z.lor (Z.shiftl 0x3c 26) (Z.shiftl 1 25)) 0x42) 0).

End el1.
