(* ===== verification/MmuProps.v ===== *)
(** * MmuProps: what the kernel can reach once the MMU is on

    After [build_tables], [enable] and [finish_high_half] an access at EL1 goes
    where the linker's layout says and nowhere else; so the self test of
    [paging.rs] passes on every machine it can run on. *)

From S2P Require Import Prelude Memory FrameAlloc Frames FramesBoot Paging PagingWalk PagingTables PagingMap PagingRange PagingProps.
From S2P Require Import KernelMap Kernel Sched Devices Exceptions Mmu.

(** [kernel_main] from the tables on, and the start of [kernel_main_high]. *)
Definition bring_up_mmu (mmfr0 : Z) (ly : layout) : M core (Z * Z) :=
  '(low, high) ← on_pool (build_tables ly);
  _ ← enable mmfr0 low high;
  _ ← finish_high_half;
  mret (low, high).

(** The registers as they are left. *)
Definition live_regs (mmfr0 high : Z) (r : mmu) : Prop :=
  TCR_EL1 r = Z.lor (tcr_value mmfr0) (Z.shiftl 1 7) ∧ TTBR1_EL1 r = high ∧ Z.testbit (SCTLR_EL1 r) 0 = true.

Definition ram_of_core (c : core) : mem := memory (mach (kern (bd c))).

(** The MMU is on, with the kernel's map and nothing below it. *)
Definition live (mmfr0 : Z) (ly : layout) (c : core) : Prop := ∃ high,
  live_regs mmfr0 high (cpu c) ∧ page_addr high ∧ kmap (ram_of_core c) high KERNEL_BASE (regions ly).

(** ** The registers *)

(** One case for each element of a concrete list. *)
Ltac each H tac :=
  cbn in H; repeat (apply elem_of_cons in H as [-> | H]; [tac|]); by apply not_elem_of_nil in H.

(** [TCR_EL1] depends on the machine in one field, of few values. *)
Lemma tcr_in mmfr0 : ∃ p, tcr_value mmfr0 = tcr_value p ∧ p ∈ range 0 6.
Proof.
  assert (Hin : parange mmfr0 ∈ range 0 6).
  { apply elem_of_range. unfold parange. pose proof (Z.land_nonneg mmfr0 15). lia. }
  exists (parange mmfr0). split; [|done]. unfold tcr_value. generalize dependent (parange mmfr0). intros p Hp.
  replace (parange p) with p; [done|]. each Hp ltac:(by vm_compute).
Qed.

Lemma tcr_fields mmfr0 : let t := Z.lor (tcr_value mmfr0) (Z.shiftl 1 7) in
  Z.land t 0x3f = 16 ∧ Z.land (Z.shiftr t 16) 0x3f = 16 ∧ Z.testbit t 7 = true ∧ Z.testbit t 23 = false.
Proof.
  destruct (tcr_in mmfr0) as (p & -> & Hin). each Hin ltac:(by vm_compute).
Qed.

Lemma el1_root_live mmfr0 high r low va :
  live_regs mmfr0 high r → page_addr high → is_u64 va →
  el1_root r low va = if KERNEL_BASE <=? va then Some high else None.
Proof.
  intros (Ht & Hr & _) Hh Hva. destruct (tcr_fields mmfr0) as (H1 & H2 & H3 & H4). unfold el1_root.
  rewrite Ht, Hr, H1, H2, H3, H4. change (2 ^ (64 - 16)) with 281474976710656.
  change (2 ^ 64) with 18446744073709551616. unfold is_u64 in Hva. unfold KERNEL_BASE.
  change (18446744073709551616 - 281474976710656) with 0xffff000000000000.
  destruct (Z.leb_spec 0xffff000000000000 va) as [Hle|Hlt].
  - rewrite (proj2 (Z.ltb_ge va _)) by lia. rewrite andb_false_r. rewrite (proj2 (Z.ltb_lt va _)) by lia.
    cbn [andb]. f_equal. by apply addr_page.
  - by destruct (_ && _).
Qed.

(** ** Where an access goes *)

Lemma permitted_perm a d : permitted a (perm d) = permitted a d.
Proof. destruct a; simpl; [done|by rewrite ap_perm|]. by rewrite ap_perm, land_perm. Qed.

Lemma region_attrs ly p at_ : region_at (regions ly) p = Some at_ → at_ ∈ Attributes.all.
Proof.
  intros H. assert (Hin : at_ ∈ r_attrs <$> regions ly).
  { revert H. generalize (regions ly). induction l as [|r l IH]; [done|]. simpl.
    destruct (inside p r); [intros [= <-]; by left|intros H; right; by apply IH]. }
  revert Hin. cbn. unfold Attributes.all. rewrite !elem_of_cons. tauto.
Qed.

Lemma attrs_af at_ : at_ ∈ Attributes.all → Z.land at_ AF <> 0.
Proof.
  assert (H : Forall (λ a, Z.land a AF <> 0) Attributes.all) by by repeat constructor.
  by apply (proj1 (Forall_forall _ _) H).
Qed.

Lemma leaf_level l d va pa : leaf_pa l d va = Some pa → 1 ≤ l ≤ 3.
Proof.
  unfold leaf_pa. destruct (Z.eqb_spec l 3); [lia|]. destruct (Z.eqb_spec l 2); [lia|].
  destruct (Z.eqb_spec l 1); [lia|done].
Qed.

Lemma fault_depth_bound k m t va : (k ≤ 3)%nat → 0 ≤ fault_depth k m t va ≤ 3.
Proof.
  revert t. induction k as [|k IH]; intros t Hk; cbn [fault_depth]; [lia|].
  destruct (_ && _); [apply IH|]; lia.
Qed.

(** The high half, as a translation that [ok] permits sees it. *)
Lemma high_translate rs high ok r low m pa :
  (∀ p attrs, region_at rs p = Some attrs → attrs ∈ Attributes.all) →
  (∀ d, ok (perm d) = ok d) → Z.testbit (SCTLR_EL1 r) 0 = true → kmap m high KERNEL_BASE rs →
  0 ≤ pa < 2 ^ 48 → el1_root r low (pa + KERNEL_BASE) = Some high →
  match region_at rs pa with
  | Some attrs => ∃ l, 1 ≤ l ≤ 3 ∧
      translate_if ok r low m (pa + KERNEL_BASE) = if ok attrs then inr pa else inl (12 + l)
  | None => ∃ l, 0 ≤ l ≤ 3 ∧ translate_if ok r low m (pa + KERNEL_BASE) = inl (4 + l)
  end.
Proof.
  intros Hrs Hok Hon Hmap Hp Hroot. unfold translate_if. rewrite Hon, Hroot. cbn [negb].
  pose proof (Hmap pa Hp) as Hk. destruct (region_at rs pa) as [at_|] eqn:Hreg.
  - destruct Hk as (l & d & -> & Hleaf & Hd). rewrite Hleaf. pose proof (attrs_af _ (Hrs _ _ Hreg)) as Haf.
    assert (Hafd : Z.land d AF = Z.land at_ AF) by (rewrite <-Hd; symmetry; by apply land_perm).
    rewrite Hafd, (proj2 (Z.eqb_neq _ _)) by done. rewrite <-Hok, Hd.
    exists l. split; [by eapply leaf_level|done].
  - rewrite Hk. exists (fault_depth 3 m high (pa + KERNEL_BASE)). split; [by apply fault_depth_bound|done].
Qed.

Section reach.
Context (mmfr0 : Z) (ly : layout) (high low : Z) (r : mmu) (m : mem).
Context (Hregs : live_regs mmfr0 high r) (Hhigh : page_addr high) (Hmap : kmap m high KERNEL_BASE (regions ly)).

(** The kernel reaches [va] when it is [KERNEL_BASE] above a byte that a region
    of the layout lets it reach so, and then it reaches that byte. *)
Definition reachable_at (a : access) (va pa : Z) : Prop :=
  va = pa + KERNEL_BASE ∧ 0 ≤ pa ∧
  ∃ attrs, region_at (regions ly) pa = Some attrs ∧ permitted a attrs = true.

Lemma el1_high a pa : 0 ≤ pa < 2 ^ 48 →
  match region_at (regions ly) pa with
  | Some attrs => ∃ l, 1 ≤ l ≤ 3 ∧
      el1_translate r low m a (pa + KERNEL_BASE) = if permitted a attrs then inr pa else inl (12 + l)
  | None => ∃ l, 0 ≤ l ≤ 3 ∧ el1_translate r low m a (pa + KERNEL_BASE) = inl (4 + l)
  end.
Proof.
  intros Hp. destruct Hregs as (_ & _ & Hon). apply (high_translate (regions ly) high); [apply region_attrs|apply permitted_perm|done|done|done|].
  assert (Hu : is_u64 (pa + KERNEL_BASE)).
  { unfold is_u64, KERNEL_BASE. change (2 ^ 48) with 281474976710656 in Hp. lia. }
  by rewrite (el1_root_live mmfr0 high), (proj2 (Z.leb_le KERNEL_BASE _)) by (done || lia).
Qed.

Lemma el1_low a va : 0 ≤ va < KERNEL_BASE → el1_translate r low m a va = inl 4.
Proof.
  intros Hva. unfold el1_translate, translate_if. destruct Hregs as (_ & _ & ->). cbn [negb].
  rewrite (el1_root_live mmfr0 high), (proj2 (Z.leb_gt KERNEL_BASE _)) by
    (done || lia || (unfold is_u64, KERNEL_BASE in *; lia)). done.
Qed.

Lemma el1_exact a va : is_u64 va →
  match el1_translate r low m a va with
  | inr pa => reachable_at a va pa
  | inl _ => ∀ pa, ¬ reachable_at a va pa
  end.
Proof.
  intros Hva. destruct (Z.lt_ge_cases va KERNEL_BASE) as [Hlt|Hge].
  { rewrite el1_low by (unfold is_u64 in Hva; lia). intros pa (-> & H0 & _). lia. }
  assert (Hp : 0 ≤ va - KERNEL_BASE < 2 ^ 48).
  { unfold is_u64, KERNEL_BASE in *. change (2 ^ 48) with 281474976710656. lia. }
  pose proof (el1_high a _ Hp) as Hh. replace (va - KERNEL_BASE + KERNEL_BASE) with va in Hh by lia.
  assert (Hone : ∀ pa, reachable_at a va pa → pa = va - KERNEL_BASE) by (intros pa (-> & _); lia).
  destruct (region_at (regions ly) (va - KERNEL_BASE)) as [at_|] eqn:Hreg; destruct Hh as (l & Hl & ->).
  - destruct (permitted a at_) eqn:Hperm; [split; [lia|split; [lia|by exists at_]]|].
    intros pa Hpa. pose proof (Hone _ Hpa) as ->. destruct Hpa as (_ & _ & at' & Hat & Hok). congruence.
  - intros pa Hpa. pose proof (Hone _ Hpa) as ->. destruct Hpa as (_ & _ & at' & Hat & _). congruence.
Qed.

End reach.

(** ** What the layout allows *)

Section allowed.
Context (ly : layout) (Hly : layout_ok ly).

Lemma layout_bounds :
  0 ≤ ram_base ly ≤ text_start ly ∧ text_start ly ≤ text_end ly ≤ rodata_start ly ∧
  rodata_start ly ≤ rodata_end ly ≤ data_start ly ∧ data_start ly ≤ kernel_end ly ∧ kernel_end ly < 2 ^ 48.
Proof.
  destruct Hly as [_ Hd Ht Hr Hda Hram]. unfold DEVICE_BASE, DEVICE_SIZE in Hd.
  change (2 ^ 48) with 281474976710656 in *. lia.
Qed.

Lemma region_text p : text_start ly ≤ p < text_end ly → region_at (regions ly) p = Some Attributes.kernel_text.
Proof.
  intros Hp. pose proof layout_bounds. unfold regions. cbn [region_at r_attrs].
  rewrite (proj2 (inside_false _ _)), (proj2 (inside_true _ _)) by (simpl; lia). done.
Qed.

Lemma region_rodata p : rodata_start ly ≤ p < rodata_end ly → region_at (regions ly) p = Some Attributes.kernel_rodata.
Proof.
  intros Hp. pose proof layout_bounds. unfold regions. cbn [region_at r_attrs].
  rewrite !(proj2 (inside_false _ _)), (proj2 (inside_true _ _)) by (simpl; lia). done.
Qed.

(** What the kernel may write is neither code nor constant. *)
Lemma writes_spare va pa : reachable_at ly Write va pa →
  ¬ (text_start ly ≤ pa < text_end ly) ∧ ¬ (rodata_start ly ≤ pa < rodata_end ly).
Proof.
  intros (_ & _ & at_ & Hr & Hp). split; intros Hin.
  - rewrite region_text in Hr by done. injection Hr as <-. by vm_compute in Hp.
  - rewrite region_rodata in Hr by done. injection Hr as <-. by vm_compute in Hp.
Qed.

(** What it may execute is its own text. *)
Lemma fetches_text va pa : reachable_at ly Fetch va pa → text_start ly ≤ pa < text_end ly.
Proof.
  intros (_ & _ & at_ & Hr & Hp). unfold regions in Hr. cbn [region_at r_attrs] in Hr.
  destruct (inside pa (mkRegion (text_start ly) _ _)) eqn:Hin; [apply inside_true in Hin; simpl in Hin; lia|].
  repeat match type of Hr with context [if ?b then _ else _] =>
    destruct b; [injection Hr as <-; by vm_compute in Hp|] end. done.
Qed.

End allowed.

(** ** Bringing the MMU up *)

Lemma wp_on_pool {A} (op : M machine A) c (Q : A → core → Prop) :
  wp op (mach (kern (bd c))) (λ a m, Q a (set_bd (set_kern (set_mach m (kern (bd c))) (bd c)) c)) → wp (on_pool op) c Q.
Proof. intros H. apply wp_zoom, wp_zoom, wp_zoom. exact H. Qed.

Section up.
Context (mmfr0 : Z) (ly : layout) (T : tables) (c : core).

(** The frames [build_tables] takes: two roots and what hangs below them. *)
Definition tables_taken : nat := 2 + (tables_needed 0 (regions ly) + tables_needed KERNEL_BASE (regions ly)).

(** The pool holds frames for the tables, and the vectors are where adding
    [KERNEL_BASE] makes sense. *)
Record ready : Prop := {
  rd_layout : layout_ok ly;
  rd_tables : tables_ok (mach (kern (bd c))) T;
  rd_room : room tables_taken (mach (kern (bd c)));
  rd_vbar : 0 ≤ VBAR_EL1 (cpu c) < 2 ^ 48
}.

Lemma wp_bring_up_tables (Hr : ready) : wp (bring_up_mmu mmfr0 ly) c (λ p c',
  live_regs mmfr0 (snd p) (cpu c') ∧ kmap (ram_of_core c') (snd p) KERNEL_BASE (regions ly) ∧
  (∃ T', tables_ok (mach (kern (bd c'))) T' ∧ T' !! snd p = Some 3%nat) ∧
  kern (bd c') = set_ttbr0 0 (set_mach (mach (kern (bd c'))) (kern (bd c))) ∧
  (∀ x, spare (mach (kern (bd c))) T x → ram_of_core c' x = ram_of_core c x) ∧
  (∀ j, room (tables_taken + j) (mach (kern (bd c))) → room j (mach (kern (bd c'))))).
Proof.
  destruct Hr as [Hly HT Hroom Hv]. unfold bring_up_mmu. wp_step. apply wp_on_pool.
  eapply wp_mono; [by apply (wp_build_tables ly _ T)|].
  intros [low high] m (T' & Hok & _ & _ & Hhi & _ & _ & Hk & _ & Hspare & Hrm).
  unfold enable, finish_high_half, activate_root. repeat wp_step. apply wp_zoom, wp_zoom. repeat wp_step.
  eapply wp_lift. { apply add64_ok. simpl. unfold KERNEL_BASE. change (2 ^ 48) with 281474976710656 in Hv. lia. }
  repeat wp_step. apply wp_zoom, wp_zoom. repeat wp_step.
  split_and!; [split_and!; [done|done|]|exact Hk|by exists T'|done|exact Hspare|exact Hrm].
  cbn [set_cpu set_bd cpu SCTLR_EL1]. by rewrite !Z.lor_spec, !orb_true_r.
Qed.

Lemma wp_bring_up (Hr : ready) : wp (bring_up_mmu mmfr0 ly) c (λ _ c',
  live mmfr0 ly c' ∧ ∀ x, spare (mach (kern (bd c))) T x → ram_of_core c' x = ram_of_core c x).
Proof.
  eapply wp_mono; [by apply wp_bring_up_tables|]. intros p c' (Hl & Hk & (T' & Hok & Hhi) & _ & Hs & _). split; [|exact Hs].
  exists (snd p). split_and!; [done|by eapply tables_page|done].
Qed.

(** After the tables are built and the MMU is on in the high half, the kernel
    reaches exactly what the layout allows, for every address and every kind of
    access: the byte [KERNEL_BASE] below, if a region permits the access, and
    otherwise it faults.  So no address lets it write its own text or constants,
    none lets it execute anything but its text, and no low address is anything. *)
Theorem kernel_reach_exact : ready →
  wp (bring_up_mmu mmfr0 ly) c (λ _ c', ∀ a va, is_u64 va →
    match el1_translate (cpu c') (ttbr0 (kern (bd c'))) (ram_of_core c') a va with
    | inr pa => reachable_at ly a va pa ∧ KERNEL_BASE ≤ va ∧
        (a = Write → ¬ (text_start ly ≤ pa < text_end ly) ∧ ¬ (rodata_start ly ≤ pa < rodata_end ly)) ∧
        (a = Fetch → text_start ly ≤ pa < text_end ly)
    | inl _ => ∀ pa, ¬ reachable_at ly a va pa
    end).
Proof.
  intros Hr. eapply wp_mono; [by apply wp_bring_up|]. intros _ c' [(high & Hregs & Hhigh & Hk) _] a va Hva.
  pose proof (el1_exact mmfr0 ly high (ttbr0 (kern (bd c'))) (cpu c') (ram_of_core c') Hregs Hhigh Hk a va Hva) as He.
  pose proof (rd_layout Hr) as Hly.
  destruct (el1_translate _ _ _ a va) as [st|pa]; [exact He|].
  split_and!; [exact He|destruct He; lia|by intros ->; eapply writes_spare|by intros ->; eapply fetches_text].
Qed.

End up.

(** ** The self test *)

Lemma abort_esr_class a st : 4 ≤ st < 16 →
  (exception_class (abort_esr a st) =? EC_SVC64) = false ∧ is_abort (abort_esr a st) = true ∧
  abort_esr a st <> 0 ∧ (a <> Fetch → Z.land (iss (abort_esr a st)) 0x3f = st).
Proof.
  intros Hst. assert (Hin : st ∈ range 4 16) by (apply elem_of_range; lia). each Hin ltac:(destruct a; by vm_compute).
Qed.

Section self_test.
Context (respond : list Devices.access → Z → Z → Z) (frequency : Z).
Context (user_task_entry task_trampoline : Z) (regs : list Z) (pc pstate count : Z).
Context (Hpc : pc + 4 ≤ u64_max).

Local Abbreviation trap := (trap respond frequency user_task_entry task_trampoline regs pc pstate count).
Local Abbreviation load := (load respond frequency user_task_entry task_trampoline regs pc pstate count).
Local Abbreviation store := (store respond frequency user_task_entry task_trampoline regs pc pstate count).
Local Abbreviation self_test := (self_test respond frequency user_task_entry task_trampoline regs pc pstate count).

Lemma trap_expected a st far b : 4 ≤ st < 16 → EXPECTING_FAULT b = true →
  trap (abort_esr a st) far b = Done (tt, set_probe_esr (abort_esr a st) b).
Proof.
  intros Hst He. destruct (abort_esr_class a st Hst) as (Hc & Ha & _).
  unfold Mmu.trap, handle_exception. change (is_irq 4) with false. change (from_lower_el 4) with false.
  cbn [frame_esr andb]. rewrite Hc. cbn [frame_esr]. unfold mbind, M_bind, gets. rewrite He, Ha. cbn [andb].
  unfold modify, step_over, lift, mbind, M_bind, mret, M_ret. cbn [frame_elr].
  rewrite add64_ok by done. cbn [with_elr frame_elr]. unfold assertM. by rewrite Z.eqb_refl.
Qed.

Lemma probe_store r n va v b st : 4 ≤ st < 16 →
  el1_translate r (ttbr0 (kern b)) (memory (mach (kern b))) Write va = inl st →
  probe (store r n va v) b = Done (abort_esr Write st, set_probe_esr (abort_esr Write st) (set_expecting false b)).
Proof.
  intros Hst He. unfold probe, Mmu.store, mbind, M_bind, modify, gets. cbn [kern set_expecting set_probe_esr].
  rewrite He. by rewrite trap_expected.
Qed.

Lemma probe_load r n va b st : 4 ≤ st < 16 →
  el1_translate r (ttbr0 (kern b)) (memory (mach (kern b))) Read va = inl st →
  probe (_ ← load r n va; mret tt) b = Done (abort_esr Read st, set_probe_esr (abort_esr Read st) (set_expecting false b)).
Proof.
  intros Hst He. unfold probe, Mmu.load, mbind, M_bind, modify, gets. cbn [kern set_expecting set_probe_esr].
  rewrite He. by rewrite trap_expected.
Qed.

Lemma load_reads r n va b pa :
  el1_translate r (ttbr0 (kern b)) (memory (mach (kern b))) Read va = inr pa →
  load r n va b = Done (Some (read_le n (memory (mach (kern b))) pa), b).
Proof. intros He. unfold Mmu.load, mbind, M_bind, gets. by rewrite He. Qed.

Lemma wp_at_el1 {A} (op : mmu → M board A) c (Q : A → core → Prop) :
  wp (op (cpu c)) (bd c) (λ a b, Q a (set_bd b c)) → wp (at_el1 op) c Q.
Proof. intros H. unfold at_el1. repeat wp_step. by apply wp_zoom. Qed.

Lemma live_high mmfr0 ly c b a pa at_ :
  live mmfr0 ly c → kern b = kern (bd c) → 0 ≤ pa < 281474976710656 → region_at (regions ly) pa = Some at_ →
  ∃ l, 1 ≤ l ≤ 3 ∧ el1_translate (cpu c) (ttbr0 (kern b)) (memory (mach (kern b))) a (pa + KERNEL_BASE) =
    if permitted a at_ then inr pa else inl (12 + l).
Proof.
  intros (high & Hregs & Hhigh & Hk) -> Hp Hr.
  pose proof (el1_high mmfr0 ly high (ttbr0 (kern (bd c))) _ _ Hregs Hhigh Hk a pa Hp) as H. by rewrite Hr in H.
Qed.

Lemma text_loads mmfr0 ly c b :
  layout_ok ly → live mmfr0 ly c → text_start ly < text_end ly → kern b = kern (bd c) →
  load (cpu c) 4 (text_start ly + KERNEL_BASE) b = Done (Some (read_le 4 (ram_of_core c) (text_start ly)), b).
Proof.
  intros Hly Hlive Ht Hb. pose proof (layout_bounds ly Hly). change (2 ^ 48) with 281474976710656 in *.
  destruct (live_high mmfr0 ly c b Read (text_start ly) _ Hlive Hb ltac:(lia) (region_text ly Hly (text_start ly) ltac:(lia)))
    as (l & _ & He).
  rewrite (load_reads _ _ _ _ _ He). unfold ram_of_core. by rewrite Hb.
Qed.

Lemma describe_abort a st : 4 ≤ st < 16 → a <> Fetch →
  describe (abort_esr a st) = fault_status (abort_esr a st) ∧
  (st = 4 → fault_status (abort_esr a st) = "translation fault, nothing mapped"%string) ∧
  (12 < st → fault_status (abort_esr a st) = "permission fault"%string).
Proof.
  intros Hst _. assert (Hin : st ∈ range 4 16) by (apply elem_of_range; lia).
  each Hin ltac:(destruct a; split_and!; intros; by vm_compute || lia).
Qed.

Lemma wp_self_test mmfr0 ly c running_at :
  layout_ok ly → live mmfr0 ly c → KERNEL_BASE ≤ running_at →
  text_start ly < text_end ly → rodata_start ly < rodata_end ly →
  read_le 4 (ram_of_core c) (text_start ly) ≠ 0 →
  wp (self_test running_at (text_start ly + KERNEL_BASE) (rodata_start ly + KERNEL_BASE)) c (λ report c',
    report = ["permission fault"; "permission fault"; "translation fault, nothing mapped"]%string ∧
    ∃ esr, c' = set_bd (set_probe_esr esr (set_expecting false (bd c))) c).
Proof.
  intros Hly (high & Hregs & Hhigh & Hk) Hrun Htext Hro Hword. pose proof (layout_bounds ly Hly) as Hb.
  assert (Hrest : live mmfr0 ly c) by by exists high. change (2 ^ 48) with 281474976710656 in *.
  assert (Hload : ∀ b, kern b = kern (bd c) → load (cpu c) 4 (text_start ly + KERNEL_BASE) b =
    Done (Some (read_le 4 (ram_of_core c) (text_start ly)), b)) by (intros; by apply text_loads with mmfr0).
  unfold Mmu.self_test. wp_step. apply wp_assertM; [by apply Z.leb_le|]. wp_step. apply wp_at_el1.
  eapply wp_Ok; [by apply Hload|]. wp_step. apply wp_assertM; [rewrite bool_decide_eq_false_2; [done|congruence]|].
  wp_step. apply wp_at_el1.
  destruct (live_high mmfr0 ly c (bd c) Write (text_start ly) _ Hrest eq_refl ltac:(lia) (region_text ly Hly (text_start ly) ltac:(lia))) as (l1 & Hl1 & H1).
  destruct (live_high mmfr0 ly c (bd c) Write (rodata_start ly) _ Hrest eq_refl ltac:(lia) (region_rodata ly Hly (rodata_start ly) ltac:(lia))) as (l2 & Hl2 & H2).
  change (permitted Write Attributes.kernel_text) with false in H1.
  change (permitted Write Attributes.kernel_rodata) with false in H2. cbv iota in H1, H2.
  eapply wp_Ok; [apply (probe_store _ _ _ _ _ (12 + l1)); [lia|exact H1]|].
  destruct (describe_abort Write (12 + l1)) as (D1 & _ & P1); [lia|done|].
  destruct (describe_abort Write (12 + l2)) as (D2 & _ & P2); [lia|done|].
  destruct (describe_abort Read 4) as (D3 & P3 & _); [lia|done|].
  assert (Hf : ∀ a st, 4 ≤ st < 16 → faulted (abort_esr a st) = true).
  { intros a st Hst. destruct (abort_esr_class a st Hst) as (_ & _ & Hne & _). unfold faulted.
    by rewrite (proj2 (Z.eqb_neq _ _)). }
  wp_step. apply wp_assertM; [apply Hf; lia|]. wp_step. apply wp_at_el1.
  eapply wp_Ok; [apply (probe_store _ _ _ _ _ (12 + l2)); [lia|exact H2]|].
  wp_step. apply wp_assertM; [apply Hf; lia|]. wp_step. apply wp_at_el1.
  eapply wp_Ok; [apply (probe_load _ _ _ _ 4); [lia|]|].
  { apply (el1_low mmfr0 high); [done|done|]. unfold KERNEL_BASE. lia. }
  wp_step. apply wp_assertM; [apply Hf; lia|]. wp_step. apply wp_at_el1.
  eapply wp_Ok; [by apply Hload|]. wp_step. apply wp_assertM; [by rewrite bool_decide_eq_true_2|].
  wp_step. rewrite D1, D2, D3, P1, P2, P3 by lia. split; [done|]. by eexists.
Qed.

(** C21: on every machine whose memory holds the kernel's text where the layout
    says, the self test of [paging.rs] passes after the MMU is brought up: the
    stores into text and constants and the load from the low half each fault, as
    the faults it reports say, and only the record of the last probe changes. *)
Theorem paging_self_test_passes mmfr0 ly T c running_at :
  ready ly T c → KERNEL_BASE ≤ running_at →
  text_start ly < text_end ly → rodata_start ly < rodata_end ly →
  read_le 4 (ram_of_core c) (text_start ly) ≠ 0 →
  (∀ x, text_start ly ≤ x < text_start ly + 4 → spare (mach (kern (bd c))) T x) →
  wp (bring_up_mmu mmfr0 ly) c (λ _ c1,
    wp (self_test running_at (text_start ly + KERNEL_BASE) (rodata_start ly + KERNEL_BASE)) c1 (λ report c',
      report = ["permission fault"; "permission fault"; "translation fault, nothing mapped"]%string ∧
      ∃ esr, c' = set_bd (set_probe_esr esr (set_expecting false (bd c1))) c1)).
Proof.
  intros Hr Hrun Htext Hro Hword Hsp. pose proof (rd_layout _ _ _ Hr) as Hly.
  eapply wp_mono; [by apply (wp_bring_up mmfr0 ly T)|]. intros _ c1 [Hlive Hsame].
  apply (wp_self_test mmfr0); [done..|]. intros Hz. apply Hword. rewrite <-Hz. apply read_le_ext.
  intros x Hx. symmetry. apply Hsame, Hsp. lia.
Qed.

End self_test.

(** ** The board *)

(** [virt], with something loaded. *)
Definition virt_loaded : machine := set_memory (λ _, 1) virt.
Definition virt_core : core :=
  mkCore (mkBoard (kernel_new virt_loaded) (mkDevices 0 0 [] 0 0) 0 false 0) (mkMmu 0 0 0 0 0 0).

Lemma virt_ready : ready virt_layout ∅ virt_core.
Proof.
  assert (Hb : bytes_ok (λ _, 1)) by (intros x; lia).
  split; [exact virt_layout_ok| | |done].
  - destruct virt_no_tables as [H _ _]. split; [by apply (fa_set_ok (FrameAllocLaws := frames_laws))| |].
    + split; [intros f k Hf|intros f k i g Hf|intros f f' k k' i i' g Hf]; by rewrite lookup_empty in Hf.
    + intros f k Hf. by rewrite lookup_empty in Hf.
  - destruct virt_tables_room as (l & Hn & Hl & Hav). exists l. split_and!; [done|done|].
    intros f Hf. apply (fa_set_avail (FrameAllocLaws := frames_laws)). by apply Hav.
Qed.

Lemma kernel_reach_exact_witness :
  wp (bring_up_mmu 0x1125 virt_layout) virt_core (λ _ c', ∀ a va, is_u64 va →
    match el1_translate (cpu c') (ttbr0 (kern (bd c'))) (ram_of_core c') a va with
    | inr pa => reachable_at virt_layout a va pa ∧ KERNEL_BASE ≤ va ∧
        (a = Write → ¬ (0x40080000 ≤ pa < 0x400c0000) ∧ ¬ (0x400c0000 ≤ pa < 0x40100000)) ∧
        (a = Fetch → 0x40080000 ≤ pa < 0x400c0000)
    | inl _ => ∀ pa, ¬ reachable_at virt_layout a va pa
    end).
Proof. exact (kernel_reach_exact 0x1125 virt_layout ∅ virt_core virt_ready). Defined.

Lemma virt_spare x : 0x40080000 ≤ x < 0x40080000 + 4 → spare (mach (kern (bd virt_core))) ∅ x.
Proof.
  intros Hx. split; [intros f k Hf; by rewrite lookup_empty in Hf|].
  intros f Hf. assert (Hav : fa_avail virt f) by exact (proj1 (fa_set_avail (FrameAllocLaws := frames_laws) (λ _, 1) virt f) Hf).
  destruct Hav as (i & -> & Hi%virt_free). rewrite virt_index. lia.
Qed.

Lemma virt_word : read_le 4 (ram_of_core virt_core) (text_start virt_layout) ≠ 0.
Proof. change (ram_of_core virt_core) with (λ _ : Z, 1). by vm_compute. Qed.

Lemma paging_self_test_passes_witness :
  wp (bring_up_mmu 0x1125 virt_layout) virt_core (λ _ c1,
    wp (self_test (λ _ _ _, 0) 62500000 0 0 [] 0xffff000040081000 0 0 0xffff000040081000
          (text_start virt_layout + KERNEL_BASE) (rodata_start virt_layout + KERNEL_BASE)) c1 (λ report c',
      report = ["permission fault"; "permission fault"; "translation fault, nothing mapped"]%string ∧
      ∃ esr, c' = set_bd (set_probe_esr esr (set_expecting false (bd c1))) c1)).
Proof.
  assert (Hpc : 0xffff000040081000 + 4 ≤ u64_max) by lia.
  assert (Hrun : KERNEL_BASE ≤ 0xffff000040081000) by (unfold KERNEL_BASE; lia).
  assert (Ht : text_start virt_layout < text_end virt_layout) by (simpl; lia).
  assert (Hr : rodata_start virt_layout < rodata_end virt_layout) by (simpl; lia).
  exact (paging_self_test_passes (λ _ _ _, 0) 62500000 0 0 [] 0xffff000040081000 0 0 Hpc 0x1125 virt_layout ∅ virt_core
    0xffff000040081000 virt_ready Hrun Ht Hr virt_word virt_spare).
Defined.
