(* ===== verification/System.v ===== *)
(** * System: the whole kernel as a transition system

    [step] is everything that can happen between two instructions of a task: a
    trap taken from EL0, an interrupt, a call a kernel thread makes, a task
    that starts, a task that comes back from a switch, a byte a program writes,
    a kernel thread that ends with interrupts arriving as it does.
    [step_inv] is that every step keeps [kernel_inv]; what follows is for
    everything [reachable]. *)

From S2P Require Import Prelude Memory Frames FramesBoot Paging PagingWalk Kernel Sched Notify Ipc Tasks Syscall.
From S2P Require Import KernelInv SchedSpec CallInv SyscallInv Devices Exceptions.

(** ** Steps *)

(** The calls of kernel threads, and of the boot task. *)
Inductive call : Type :=
  | CYield
  | CBlock
  | CUnblock (id : Z)
  | CFinish
  | CPost (task bits : Z)
  | CKill (id : Z)
  | CRelease
  | CReap
  | CSpawn (nm : string) (entry arg prio : Z)
  | CSpawnUser (nm : string) (start end_ arg prio : Z)
  | CSupervise (id : Z)
  | CRoute (intid task bits : Z).

Definition switched_to (k : kont) (b : bool) : ctl (Z * Z * Z) :=
  if b then Sus k else Ret (0, 0, 0).
Definition no_switch {A} (op : M kernel A) : M kernel (ctl (Z * Z * Z)) := _ ← op; mret (Ret (0, 0, 0)).
Definition answer (op : M kernel Z) : M kernel (ctl (Z * Z * Z)) := a ← op; mret (Ret (a, 0, 0)).

(** What the boot task and other threads respect when they call: the boot task
    neither blocks nor ends, and only a thread that blocked itself is woken by
    hand. *)
Definition may_call (k : kernel) (c : call) : Prop :=
  match c with
  | CBlock | CFinish => me k ≠ 0
  | CUnblock id => 0 ≤ id ∧ sl_ctx (slot_of k id) = Inside KReturn
  | CKill id => 0 ≤ id
  | _ => True
  end.

(** A byte written at EL0: through the tables the hardware walks, where they
    let EL0 write. *)
Definition store_user (va v : Z) (k : kernel) : option kernel :=
  let m := memory (mach k) in
  if (0 <=? va) && (va <? 2 ^ 48) then
    '(l, d) ← walk 3 m (ttbr0 k) va;
    if ap d =? AP_RW_ALL then
      pa ← leaf_pa l d va; Some (set_mach (set_memory (fill_range m pa 1 v) (mach k)) k)
    else None
  else None.

Section system.
Context (respond : list access → Z → Z → Z) (frequency : Z).
Context (user_task_entry task_trampoline : Z).

Definition perform (c : call) : M kernel (ctl (Z * Z * Z)) :=
  match c with
  | CYield => b ← yield_now; mret (switched_to KReturn b)
  | CBlock => b ← block_current; mret (switched_to KReturn b)
  | CUnblock id => b ← unblock id; mret (switched_to KReturn b)
  | CFinish => task_finished
  | CPost task bits => no_switch (post task bits)
  | CKill id => no_switch (kill id)
  | CRelease => answer release_dead
  | CReap => no_switch reap_zombies
  | CSpawn nm entry arg prio => answer (spawn_at task_trampoline nm entry arg prio)
  | CSpawnUser nm start end_ arg prio =>
      answer (spawn_user_program user_task_entry task_trampoline nm start end_ arg prio)
  | CSupervise id => no_switch (set_supervisor id)
  | CRoute intid task bits => no_switch (route intid task bits)
  end.

(** Record what is left on the stack of the task that was running. *)
Definition settle_kernel (r : ctl (Z * Z * Z)) (my : Z) : M kernel unit :=
  store contexts set_contexts my (left_as r).
Definition settle (e : exit) (my : Z) : M board unit :=
  in_kernel (store contexts set_contexts my (match e with Eret _ => Running | Away c => Inside c end)).

(** *** A thread that ends *)

(** A kernel thread ends with interrupts live: they are masked while
    [task_finished] and [abandon] hold a lock, and not in between.  These arrive
    one after the other, until one switches away. *)
Fixpoint interrupts (counts : list Z) : M board bool :=
  match counts with
  | [] => mret false
  | count :: rest =>
    switched ← dispatch_irq respond frequency count;
    if switched : bool then mret true else interrupts rest
  end.

(** The loop of [abandon] with the interrupts that arrive before each round, and
    in it once the outcome is delivered; true if one of them switched away.  (One
    that arrives after the look at the table and before the delivery is as one
    that arrives before the round.) *)
Fixpoint abandon_live (gone : Z) (slots : list Z) (irqs : Z → list Z * list Z) : M board bool :=
  match slots with
  | [] => mret false
  | slot :: rest =>
    cut ← interrupts (irqs slot).1;
    if cut : bool then mret true else
    if slot =? gone then abandon_live gone rest irqs else
    p ← in_kernel (pending_of slot);
    if waiting_on gone p then
      _ ← in_kernel (deliver_outcome slot EDEAD 0);
      cut ← interrupts (irqs slot).2;
      if cut : bool then mret true else
      _ ← in_kernel (unblock_deferred slot);
      abandon_live gone rest irqs
    else abandon_live gone rest irqs
  end.

(** [task_finished], and where it leaves the task: one that is switched away from
    once it is a zombie is never switched to again. *)
Definition finish_live (irqs : Z → list Z * list Z) : M board context :=
  b ← getS;
  _ ← in_kernel (update_current (with_state Zombie));
  cut ← abandon_live (me (kern b)) (range 0 MAX_TASKS) irqs;
  if cut : bool then mret Cut else
  cut ← interrupts (irqs MAX_TASKS).1;
  if cut : bool then mret Cut else
  _ ← in_kernel (_ ← store_pending (me (kern b)) None; store_lease_count (me (kern b)) 0);
  r ← in_kernel gone;
  mret (left_as r).

Definition here (b : board) : context := sl_ctx (slot_of (kern b) (me (kern b))).
Definition registers_ok (f : TrapFrame) : Prop := ∀ i, 0 ≤ reg f i.

Inductive step : board → board → Prop :=
  | step_trap b b' f index count :
      here b = Running → current_space_root (kern b) ≠ None → registers_ok f →
      from_lower_el index = true →
      (e ← handle_exception respond frequency user_task_entry task_trampoline f index count;
       settle e (me (kern b))) b = Done (tt, b') →
      step b b'
  | step_irq b b' f index count :
      here b = Running → is_irq index = true →
      (e ← handle_exception respond frequency user_task_entry task_trampoline f index count;
       settle e (me (kern b))) b = Done (tt, b') →
      step b b'
  | step_call b b' c :
      here b = Running → may_call (kern b) c →
      (in_kernel (r ← perform c; settle_kernel r (me (kern b)))) b = Done (tt, b') →
      step b b'
  | step_finish b b' irqs :
      here b = Running → me (kern b) ≠ 0 →
      (c ← finish_live irqs; in_kernel (store contexts set_contexts (me (kern b)) c)) b = Done (tt, b') →
      step b b'
  | step_wake b b' c f :
      here b = Inside c → me (kern b) ≠ 0 ∨ c = KYield ∨ c = KReturn →
      (e ← wake c f; settle e (me (kern b))) b = Done (tt, b') →
      step b b'
  | step_start b b' entry arg :
      here b = Fresh entry arg →
      (settle_kernel (Ret (0, 0, 0)) (me (kern b))) (kern b) = Done (tt, kern b') →
      devs b' = devs b →
      step b b'
  | step_store b va v k' :
      here b = Running → current_space_root (kern b) ≠ None → 0 ≤ v < 256 →
      store_user va v (kern b) = Some k' →
      step b (set_kern k' b).

Inductive reachable (b0 : board) : board → Prop :=
  | reach_here : reachable b0 b0
  | reach_step b b' : reachable b0 b → step b b' → reachable b0 b'.

End system.

(** ** The calls of kernel threads *)

(** [my] is at work inside the kernel since [k0]; nobody's wait for a message has
    changed. *)
Record at_work (gone : Z → Prop) (my : Z) (k0 k : kernel) : Prop := {
  aw_others : others_ok gone k my;
  aw_me : me k = my;
  aw_mine : slot_of k my = slot_of k0 my;
  aw_pending : ∀ t, slot_id t → sl_pending (slot_of k t) = sl_pending (slot_of k0 t)
}.

Lemma at_work_here gone my k : others_ok gone k my → me k = my → at_work gone my k k.
Proof. by split. Qed.

Lemma at_work_same gone my k0 k k' : same_slots k k' → at_work gone my k0 k → at_work gone my k0 k'.
Proof.
  intros Hs [Ho Hm Hmy Hp]. split.
  - by eapply others_same.
  - by rewrite (ss_me _ _ Hs).
  - rewrite (ss_slot _ _ Hs); [exact Hmy|apply Ho].
  - intros t Ht. rewrite (ss_slot _ _ Hs) by done. by apply Hp.
Qed.

Lemma at_work_woken gone my k0 k k' i t :
  at_work gone my k0 k → i ≠ my → slot_id i → sl_task (slot_of k i) = Some t → state t = Blocked →
  waiting_msg (sl_pending (slot_of k i)) = None →
  touches_slot k k' i (with_task (Some (with_state Runnable t)) (slot_of k i)) → at_work gone my k0 k'.
Proof.
  intros [Ho Hm Hmy Hp] Hne Hi Ht Hb Hw H. split.
  - by eapply others_wake.
  - by rewrite (ts_me _ _ _ _ H).
  - rewrite <-Hmy. apply (untouched _ _ _ _ _ H); [apply Ho|congruence].
  - intros u Hu. rewrite <-Hp by done. rewrite (ts_slot _ _ _ _ H) by done. by case_decide; subst.
Qed.

Lemma same_request k : lengths_ok k → same_slots k (set_NEED_RESCHED true k).
Proof. intros []. by split. Qed.

Lemma pc_post_work gone my k0 t bits k :
  sl_wanted (slot_of k0 my) = 0 → at_work gone my k0 k → pc (post t bits) k (λ _ k', at_work gone my k0 k').
Proof.
  intros Hz Hc. unfold post. destruct (Z.leb_spec MAX_TASKS t) as [|Hlt]; [by pc_step|].
  pc_step. unfold posted_at. pc_steps. apply pc_index. intros p _. pc_step.
  apply pc_store_posted; [apply Hc|]. intros k1 H1.
  pose proof (at_work_same _ _ _ _ _ H1 Hc) as Hc1. clear k Hc H1. rename k1 into k, Hc1 into Hc.
  pose proof (oo_lengths _ _ _ (aw_others _ _ _ _ Hc)) as Hl.
  pc_step. unfold wanted_at. pc_steps. apply pc_index. intros w Hw.
  assert (Hsw : sl_wanted (slot_of k t) = w) by (cbn; by rewrite Hw).
  destruct (Z.eqb_spec (Z.land w bits) 0) as [|Hne]; cbn [negb]; [by pc_step|].
  assert (Hw0 : w ≠ 0) by (intros ->; done).
  assert (Hreq : ∀ k', at_work gone my k0 k' → pc request_reschedule k' (λ _ k'', at_work gone my k0 k'')).
  { intros k' Hc'. unfold request_reschedule. pc_step. eapply at_work_same; [|exact Hc'].
    apply same_request, Hc'. }
  pc_step. destruct (decide (0 ≤ t)) as [H0|Hneg].
  2: { unfold unblock_deferred. pc_steps. apply pc_index. intros o _.
       destruct (oo_idle _ _ _ (aw_others _ _ _ _ Hc)) as (t0 & Ht0 & Hs0 & _).
       replace (task_at k t) with (sl_task (slot_of k 0)); [|cbn; unfold task_at; by replace (Z.to_nat t) with 0%nat by lia].
       rewrite Ht0. rewrite bool_decide_false by (rewrite Hs0; done). pc_step. by apply Hreq. }
  assert (Hid : slot_id t) by (unfold slot_id; lia).
  apply pc_unblock_deferred; [done|done|intros _; by apply Hreq|].
  intros u b k' _ Hu Hub H. apply Hreq.
  assert (Hmy : t ≠ my).
  { intros ->. rewrite (aw_mine _ _ _ _ Hc) in Hsw. congruence. }
  eapply at_work_woken; [exact Hc|exact Hmy|exact Hid|exact Hu|exact Hub| |exact H].
  destruct (oo_others _ _ _ (aw_others _ _ _ _ Hc) t Hid Hmy) as [S1 _ _ S4 _ _].
  destruct (waiting_msg _) as [m|]; [|done].
  destruct (S4 m eq_refl) as ([Hx|Hx] & _); destruct (S1 ltac:(congruence)) as (? & ? & ? & Hx'); congruence.
Qed.

Lemma in_call_work my k : in_call my k → at_work nobody my k k.
Proof. intros Hc. apply at_work_here; apply Hc. Qed.
Lemma work_in_call my k k' : in_call my k → at_work nobody my k k' → in_call my k'.
Proof.
  intros Hc [Ho Hm Hs _]. eapply others_in_call; [exact Hc|exact Ho| |exact Hs]. rewrite Hm. symmetry. apply Hc.
Qed.

Lemma pc_post my t bits k : in_call my k → pc (post t bits) k (λ _ k', in_call my k').
Proof.
  intros Hc. eapply pc_mono; [apply pc_post_work; [apply (ic_wanted _ _ Hc)|by apply in_call_work]|].
  intros [] k' Hw. by eapply work_in_call.
Qed.

(** A slot that is not alive may be given a new task, or none. *)
Lemma in_call_retire my k k' i s : in_call my k → slot_id i → sl_alive (slot_of k i) = false →
  touches_slot k k' i s → sl_ctx s = sl_ctx (slot_of k i) ∧ sl_alive s = false ∨ sl_ctx s ≠ Cut ∧ sl_alive s = true →
  sl_pending s = None → sl_wanted s = 0 → sl_waiter s = false → sl_leased s = 0 →
  in_call my k'.
Proof.
  intros Hc Hi Hal H Hctx Hp Hw Hf Hl.
  assert (Hne : i ≠ my) by (intros ->; unfold sl_alive in Hal; by rewrite (ic_run _ _ Hc) in Hal).
  assert (Hi0 : i ≠ 0).
  { intros ->. unfold sl_alive in Hal. by rewrite (idle_not_blocked _ _ _ (ic_others _ _ Hc)) in Hal. }
  eapply in_call_other; [exact Hc|done|done|done|exact H| | |].
  - destruct Hctx as [[Hx _]|[_ Hx]]; [apply live_same; [exact Hx|by rewrite Hal]|intros _; by left].
  - destruct Hctx as [[_ Hx]|[Hx _]]; [by intros _|by intros ?].
  -  apply settled_plain; by rewrite (touched _ _ _ _ H Hi).
Qed.

Lemma in_call_dead my k i : in_call my k → slot_id i → sl_alive (slot_of k i) = false →
  sl_pending (slot_of k i) = None ∧ sl_wanted (slot_of k i) = 0 ∧ sl_waiter (slot_of k i) = false ∧
  sl_leased (slot_of k i) = 0.
Proof.
  intros Hc Hi Hal.
  assert (Hne : i ≠ my) by (intros ->; unfold sl_alive in Hal; by rewrite (ic_run _ _ Hc) in Hal).
  destruct (dead_plain _ _ _ _ Running (oo_others _ _ _ (ic_others _ _ Hc) i Hi Hne) Hal)
    as (Hp & Hw & Hf & Hl & _). done.
Qed.

Lemma pc_kill my id k : in_call my k → 0 ≤ id → pc (kill id) k (λ _ k', in_call my k').
Proof.
  intros Hc H0. unfold kill. pc_steps. apply pc_index. intros o Ho.
  assert (Hid : slot_id id).
  { apply lookup_lt_Some in Ho. rewrite (len_tasks _ (in_call_lengths _ _ Hc)) in Ho. unfold slot_id, MAX_TASKS. lia. }
  rewrite task_at_lookup in Ho by (eapply in_call_lengths || idtac; done). injection Ho as <-.
  destruct (task_at k id) as [t|] eqn:Ht; [|by pc_step].
  case_bool_decide as Hf; [|by pc_step]. apply pc_store_task; [by eapply in_call_lengths|done|]. intros k' H.
  assert (Hal : sl_alive (slot_of k id) = false).
  { unfold sl_alive, sl_state. change (sl_task (slot_of k id)) with (task_at k id). rewrite Ht. simpl. by rewrite Hf. }
  destruct (in_call_dead _ _ _ Hc Hid Hal) as (Hp & Hw & Hwt & Hl).
  eapply in_call_retire; [exact Hc|exact Hid|exact Hal|exact H|by left|assumption..].
Qed.

Lemma pc_release my l n k : in_call my k → (∀ i, i ∈ l → slot_id i) →
  pc (release_loop l n) k (λ _ k', in_call my k').
Proof.
  revert n k. induction l as [|i l IH]; intros n k Hc Hl; cbn [release_loop]; [by pc_step|].
  assert (Hid : slot_id i) by (apply Hl; by left).
  assert (Hrest : ∀ j, j ∈ l → slot_id j) by (intros j Hj; apply Hl; by right).
  pc_step. pc_step. destruct (i =? me k); [by apply IH|]. pc_step. apply pc_index. intros o Ho.
  rewrite task_at_lookup in Ho by (eapply in_call_lengths || idtac; done). injection Ho as <-.
  destruct (task_at k i) as [t|] eqn:Ht; [|by apply IH]. case_bool_decide as Hd; [|by apply IH].
  assert (Hal : sl_alive (slot_of k i) = false).
  { unfold sl_alive, sl_state. change (sl_task (slot_of k i)) with (task_at k i). rewrite Ht. simpl. by rewrite Hd. }
  destruct (in_call_dead _ _ _ Hc Hid Hal) as (Hp & Hw & Hwt & Hle).
  pc_step. apply pc_store_task; [by eapply in_call_lengths|done|]. intros k' H. apply IH; [|done].
  eapply in_call_retire; [exact Hc|exact Hid|exact Hal|exact H|by left|assumption..].
Qed.

Lemma free_slot_none k i : lengths_ok k → free_slot (SCHEDULER k) = Some i →
  slot_id i ∧ sl_task (slot_of k i) = None.
Proof.
  unfold free_slot. intros Hl Hf. destruct (list_find _ _) as [[j o]|] eqn:Hj; [|done]. injection Hf as <-.
  apply list_find_Some in Hj as (Hj & -> & _). simpl. split.
  - apply lookup_lt_Some in Hj. pose proof (len_tasks _ Hl) as H8. unfold task_list in H8. unfold slot_id, MAX_TASKS. lia.
  - unfold task_at, task_list. rewrite Nat2Z.id. by rewrite Hj.
Qed.

Lemma pc_spawn_in my tramp nm entry arg sp prio k : in_call my k →
  pc (spawn_in tramp nm entry arg sp prio) k (λ id k', in_call my k' ∧ slot_id id ∧ id ≠ my ∧
    (id ≠ 0 ∧ sl_pending (slot_of k' id) = None ∧ sl_wanted (slot_of k' id) = 0 ∧
     sl_waiter (slot_of k' id) = false ∧ sl_leased (slot_of k' id) = 0)).
Proof.
  intros Hc. unfold spawn_in. pc_step. apply pc_with_mach; [by eapply in_call_lengths|]. intros st k1 H1.
  pose proof (in_call_same _ _ _ H1 Hc) as Hc1. pc_step. apply pc_expectM. intros st' _.
  pc_step. apply pc_with_mach; [by eapply in_call_lengths|]. intros sp' k2 H2.
  pose proof (in_call_same _ _ _ H2 Hc1) as Hc2. clear k k1 Hc Hc1 H1 H2. rename k2 into k, Hc2 into Hc.
  pc_steps. pose proof (in_call_lengths _ _ Hc) as Hl.
  match goal with H : free_slot _ = Some ?i |- _ => destruct (free_slot_none _ _ Hl H) as [Hid Hn]; rename i into id end.
  assert (Hal : sl_alive (slot_of k id) = false) by (unfold sl_alive, sl_state; by rewrite Hn).
  destruct (in_call_dead _ _ _ Hc Hid Hal) as (Hp & Hw & Hwt & Hle).
  apply pc_store_task; [done|done|]. intros k1 H1. pc_step. apply pc_store_ctx; [apply H1|done|]. intros k2 H2.
  rewrite (touched _ _ _ _ H1 Hid) in H2. pose proof (touches_then _ _ _ _ _ _ Hid H1 H2) as H3. pc_step.
  split; [|split; [done|split; [|split]]].
  - eapply in_call_retire; [exact Hc|exact Hid|exact Hal|exact H3|by right|assumption..].
  - intros ->. unfold sl_alive in Hal. by rewrite (ic_run _ _ Hc) in Hal.
  - intros ->. unfold sl_alive in Hal. by rewrite (idle_not_blocked _ _ _ (ic_others _ _ Hc)) in Hal.
  - rewrite (touched _ _ _ _ H3 Hid). done.
Qed.

Lemma pc_spawn_user my ute tramp nm s e a prio k : in_call my k →
  pc (spawn_user_program ute tramp nm s e a prio) k (λ _ k', in_call my k').
Proof.
  intros Hc. unfold spawn_user_program. pc_step. apply pc_with_mach; [by eapply in_call_lengths|]. intros sp k1 H1.
  pose proof (in_call_same _ _ _ H1 Hc) as Hc1. pc_step. eapply pc_mono; [by apply pc_spawn_in|].
  intros id k2 (Hc2 & Hid & Hne & H0 & Hp & Hw & Hwt & Hle). pc_steps. apply pc_index. intros o Ho.
  rewrite task_at_lookup in Ho by (eapply in_call_lengths || idtac; done). injection Ho as <-.
  pc_step. destruct (task_at k2 id) as [t|] eqn:Ht; [|by pc_steps].
  apply pc_store_task; [by eapply in_call_lengths|done|]. intros k3 H3. pc_step.
  eapply in_call_other; [exact Hc2|done|done|done|exact H3| | |].
  - apply live_same; [done|]. change (task_at k2 id) with (sl_task (slot_of k2 id)) in Ht. unfold sl_alive, sl_state. rewrite Ht. done.
  - intros Hx. destruct (oo_cut _ _ _ (ic_others _ _ Hc2) id Hid Hx) as [_ Ha].
    change (task_at k2 id) with (sl_task (slot_of k2 id)) in Ht. unfold sl_alive, sl_state in *. rewrite Ht in Ha. exact Ha.
  - apply settled_plain; by rewrite (touched _ _ _ _ H3 Hid).
Qed.

Lemma pc_block my k : in_call my k → my ≠ 0 →
  pc block_current k (λ b k', b = true ∧ call_done my (Sus KReturn) k').
Proof.
  intros Hc Hm0. pose proof (in_call_id _ _ Hc) as Hid. destruct (in_call_task _ _ Hc) as (t & Ht & _).
  pose proof (ic_me _ _ Hc) as Hme. unfold block_current. pc_step.
  apply (pc_mark_blocked _ _ t); [by eapply in_call_lengths|by rewrite Hme|]. rewrite Hme. intros k1 H1.
  pose proof (touched _ _ _ _ H1 Hid) as He1. apply pc_park_blocked. split.
  - eapply others_mine; [exact H1|apply Hc|done|by left|done].
  - by rewrite (ts_me _ _ _ _ H1).
  - by rewrite He1.
  - apply settled_plain; rewrite He1; [apply (ic_pending _ _ Hc)|apply (ic_wanted _ _ Hc)|
      apply (ic_waiter _ _ Hc)|apply (ic_leased _ _ Hc)].
Qed.

Lemma pc_unblock my id k : in_call my k → 0 ≤ id → sl_ctx (slot_of k id) = Inside KReturn →
  pc (unblock id) k (λ b k', if b : bool then ∀ c, call_done my (Sus c) k' else in_call my k').
Proof.
  intros Hc H0 Hctx. unfold unblock. pc_step.
  apply pc_unblock_deferred; [by eapply in_call_lengths|done|intros _; by pc_step|].
  intros t b k' Hid Ht Hb H.
  assert (Hne : id ≠ my).
  { intros ->. pose proof (ic_run _ _ Hc) as Hr. unfold sl_state in Hr. rewrite Ht in Hr. simpl in Hr. congruence. }
  pose proof (ic_others _ _ Hc) as Ho.
  assert (Hc' : in_call my k').
  { eapply others_in_call; [exact Hc| | |].
    - eapply others_wake; [exact Ho|exact Hne|exact Hid|exact Ht|exact Hb| |exact H].
      destruct (oo_others _ _ _ Ho id Hid Hne) as [_ _ _ S4 _ _].
      destruct (waiting_msg _) as [m|]; [|done]. destruct (S4 m eq_refl) as ([Hx|Hx] & _); congruence.
    - by rewrite (ts_me _ _ _ _ H).
    - apply (untouched _ _ _ _ _ H); [by eapply in_call_id|congruence]. }
  destruct b; [by apply pc_switch_call|by pc_step].
Qed.

Lemma pc_no_switch {A} my (op : M kernel A) k :
  pc op k (λ _ k', in_call my k') → pc (no_switch op) k (call_done my).
Proof.
  intros H. unfold no_switch. pc_step. eapply pc_mono; [exact H|]. intros a k' Hc. pc_step. by apply in_call_done.
Qed.

Lemma pc_answer my (op : M kernel Z) k :
  pc op k (λ _ k', in_call my k') → pc (answer op) k (call_done my).
Proof.
  intros H. unfold answer. pc_step. eapply pc_mono; [exact H|]. intros a k' Hc. pc_step. by apply in_call_done.
Qed.

Lemma switched_done my k b : (if b : bool then ∀ c, call_done my (Sus c) k else in_call my k) →
  call_done my (switched_to KReturn b) k.
Proof. destruct b; [by intros H; apply H|apply in_call_done]. Qed.

Lemma same_in_call my k k' : in_call my k → (∀ t, slot_of k' t = slot_of k t) → me k' = me k →
  (lengths_ok k → lengths_ok k') → in_call my k'.
Proof.
  intros Hc Hs Hm Hl. eapply in_call_same; [|exact Hc]. split; [by apply Hl; eapply in_call_lengths|done|done].
Qed.

Section system_inv.
Context (respond : list access → Z → Z → Z) (frequency : Z).
Context (user_task_entry task_trampoline : Z).

Lemma pc_perform my c k : in_call my k → may_call k c →
  pc (perform user_task_entry task_trampoline c) k (call_done my).
Proof.
  intros Hc Hmay. pose proof (ic_me _ _ Hc) as Hme. destruct c; cbn [perform may_call] in *; rewrite ?Hme in Hmay.
  - unfold yield_now. pc_step. eapply pc_mono; [by apply pc_switch_call|]. intros b k' H. pc_step.
    by apply switched_done.
  - pc_step. eapply pc_mono; [by apply pc_block|]. intros b k' [-> H]. by pc_step.
  - destruct Hmay as [H0 Hctx]. pc_step. eapply pc_mono; [by apply pc_unblock|]. intros b k' H. pc_step.
    by apply switched_done.
  - by apply pc_task_finished.
  - apply pc_no_switch. by apply pc_post.
  - apply pc_no_switch. by apply pc_kill.
  - apply pc_answer. apply pc_release; [done|]. intros i Hi%elem_of_range. done.
  - apply pc_no_switch. eapply pc_mono; [by eapply pc_reap, in_call_lengths|]. intros _ k' [H1 H2].
    by apply (in_call_life my k k').
  - apply pc_answer. unfold spawn_at. eapply pc_mono; [by apply pc_spawn_in|]. intros id k' (H & _). exact H.
  - apply pc_answer. by apply pc_spawn_user.
  - apply pc_no_switch. unfold set_supervisor. pc_step. eapply same_in_call; [exact Hc|done|done|].
    intros []. by split.
  - apply pc_no_switch. unfold route. pc_steps. eapply same_in_call; [exact Hc|done|done|].
    intros []. by split.
Qed.

(** ** Traps *)

Definition exit_as (e : exit) : ctl (Z * Z * Z) :=
  match e with Eret _ => Ret (0, 0, 0) | Away c => Sus c end.
Definition exit_done (my : Z) (e : exit) (b : board) : Prop := call_done my (exit_as e) (kern b).

Lemma call_done_ret my v w k : call_done my (Ret v) k → call_done my (Ret w) k.
Proof. intros [Ho Hc Hm Hs]. split; [done|done|exact Hm|]. intros _ _. by apply (Hs v). Qed.

Lemma pc_in_kernel {A} (op : M kernel A) b Q :
  pc op (kern b) (λ a k', Q a (set_kern k' b)) → pc (in_kernel op) b Q.
Proof. apply pc_zoom_in. Qed.

Lemma pc_in_devices {A} (op : M devices A) b Q :
  (∀ a d, Q a (set_devs d b)) → pc (in_devices op) b Q.
Proof. intros H. apply pc_zoom. intros a d _. apply H. Qed.

Lemma pc_step_over my f b : in_call my (kern b) → pc (step_over f) b (exit_done my).
Proof.
  intros Hc. unfold step_over. pc_step. unfold pc, lift. destruct (add64 _ _); [|done].
  by apply in_call_done.
Qed.

(** An interrupt, up to where it may switch. *)
Lemma pc_dispatch_work gone my k0 count b (Q : bool → kernel → Prop) :
  sl_wanted (slot_of k0 my) = 0 → at_work gone my k0 (kern b) →
  (∀ k, at_work gone my k0 k → Q false k) →
  (∀ k, at_work gone my k0 k → pc (switch_to_next Preemptive) k Q) →
  pc (dispatch_irq respond frequency count) b (λ s b', Q s (kern b')).
Proof.
  intros Hz Hc HQ Hsw. unfold dispatch_irq. pc_step. apply pc_in_devices. intros intid d1.
  destruct (intid =? SPURIOUS_INTID); [pc_step; by apply HQ|].
  pc_step. apply pc_in_kernel. eapply (pc_mono _ _ (λ _ k', at_work gone my k0 k')).
  { unfold on_irq. pc_step. pc_step. destruct (list_find _ _) as [[i r]|]; [|by pc_step].
    pc_step. eapply pc_mono; [by apply pc_post_work|]. intros [] k' H. by pc_step. }
  intros routed k1 H1. pc_step. eapply (pc_mono _ _ (λ _ b', at_work gone my k0 (kern b'))).
  { destruct (intid =? TIMER_INTID); [|by pc_step]. unfold on_tick. pc_step. apply pc_in_devices.
    intros [] d2. apply pc_in_kernel. unfold count_tick. pc_step. pc_step. pc_step. unfold pc, lift.
    destruct (add64 _ _) as [n|]; [|done]. unfold request_reschedule.
    eapply at_work_same; [|exact H1]. destruct (oo_lengths _ _ _ (aw_others _ _ _ _ H1)). by split. }
  intros [] b2' H2'. pc_step. eapply (pc_mono _ _ (λ _ b', at_work gone my k0 (kern b'))).
  { destruct (_ && _); [|by pc_step]. apply pc_in_kernel. pc_step. eapply at_work_same; [|exact H2'].
    destruct (oo_lengths _ _ _ (aw_others _ _ _ _ H2')). by split. }
  intros [] b2 H2. pc_step. apply pc_in_devices. intros [] d3. apply pc_in_kernel.
  unfold preempt_if_needed. pc_step. pc_step. pc_step. pc_step.
  assert (Hc3 : at_work gone my k0 (set_NEED_RESCHED false (kern b2))).
  { eapply at_work_same; [|exact H2]. destruct (oo_lengths _ _ _ (aw_others _ _ _ _ H2)). by split. }
  destruct (NEED_RESCHED _); [|pc_step; by apply HQ].
  eapply pc_mono; [by apply Hsw|]. done.
Qed.

Lemma pc_dispatch_irq my count b : in_call my (kern b) →
  pc (dispatch_irq respond frequency count) b
    (λ s b', call_done my (switched_to KReturn s) (kern b')).
Proof.
  intros Hc. apply (pc_dispatch_work nobody my (kern b) count b (λ s k, call_done my (switched_to KReturn s) k));
    [apply (ic_wanted _ _ Hc)|by apply in_call_work| |].
  - intros k Hw. apply in_call_done. by eapply work_in_call.
  - intros k Hw. eapply pc_mono; [apply pc_switch_call; by eapply work_in_call|]. intros s k' H. by apply switched_done.
Qed.

(** Anything a task can trap on, and any interrupt. *)
Lemma pc_handle_exception my f index count b :
  in_call my (kern b) → registers_ok f → (my ≠ 0 ∧ from_lower_el index = true) ∨ is_irq index = true →
  pc (handle_exception respond frequency user_task_entry task_trampoline f index count) b (exit_done my).
Proof.
  intros Hc Hf Hix. unfold handle_exception. destruct (is_irq index) eqn:Hirq.
  { pc_step. eapply pc_mono; [by apply pc_dispatch_irq|]. intros s b' H. pc_step. by destruct s. }
  assert (Hlo : my ≠ 0 ∧ from_lower_el index = true) by (destruct Hix as [|Ht]; [assumption|discriminate Ht]).
  clear Hix. destruct Hlo as [Hm0 Hlow].
  cbv zeta. rewrite Hlow. cbn [andb].
  destruct (exception_class _ =? EC_SVC64).
  { pc_step. apply pc_in_kernel. eapply pc_mono; [by apply pc_dispatch|]. intros [v|c] k' H; pc_step; [|exact H].
    by eapply call_done_ret. }
  destruct (_ || _).
  { pc_step. pc_step. by apply pc_step_over. }
  pc_step. apply pc_in_kernel. eapply pc_mono; [by apply pc_fault_current|]. intros [v|c] k' H; pc_step; [|exact H].
  by eapply call_done_ret.
Qed.

Lemma pc_wake c f b : kernel_inv (kern b) → here b = Inside c → me (kern b) ≠ 0 ∨ c = KYield ∨ c = KReturn →
  pc (wake c f) b (exit_done (me (kern b))).
Proof.
  intros Hk Hh Hm0. pose proof (pc_resume c (kern b) Hk Hh Hm0) as Hr. unfold wake.
  assert (Hgen : pc (r ← in_kernel (resume c);
      mret (match r with Ret v => Eret (with_results v f) | Sus c => Away c end)) b (exit_done (me (kern b)))).
  { pc_step. apply pc_in_kernel. eapply pc_mono; [exact Hr|]. intros [v|d] k' H; pc_step; [|exact H].
    by eapply call_done_ret. }
  destruct c; exact Hgen.
Qed.

(** *** A thread that ends *)

(** [my] has made itself a zombie, and there may be some who wait on it. *)
Definition leaving (my : Z) : Z → Prop := λ u, u = my.
Record waits_not (s : slot) : Prop := {
  wn_pending : sl_pending s = None;
  wn_wanted : sl_wanted s = 0;
  wn_waiter : sl_waiter s = false;
  wn_leased : sl_leased s = 0
}.
Record ending (my : Z) (k : kernel) : Prop := {
  ed_others : others_ok (leaving my) k my;
  ed_me : me k = my;
  ed_task : is_Some (sl_task (slot_of k my));
  ed_dead : sl_alive (slot_of k my) = false;
  ed_waits : waits_not (slot_of k my)
}.
(** The CPU has left it for good. *)
Record left_behind (my : Z) (k : kernel) : Prop := {
  lb_others : others_ok (leaving my) k my;
  lb_current : sl_state (slot_of k (me k)) = Some Runnable;
  lb_dead : sl_alive (slot_of k my) = false;
  lb_waits : waits_not (slot_of k my)
}.

Lemma ending_work my k k' : ending my k → at_work (leaving my) my k k' → ending my k'.
Proof. intros [_ _ Ht Hd Hw] [Ho Hm Hs _]. split; rewrite ?Hs; done. Qed.

Lemma ending_away my k reason : ending my k →
  pc (switch_to_next reason) k (λ b k', b = true ∧ left_behind my k' ∧ same_life k k').
Proof.
  intros [Ho Hm Ht Hd Hw]. eapply pc_mono; [apply (pc_switch_away _ _ (leaving my) my); [done|done|done|]|].
  - intros Hr. unfold sl_alive in Hd. by rewrite Hr in Hd.
  - intros b k' (-> & Hlife & Hrun). split; [done|]. split; [|done]. pose proof (oo_my _ _ _ Ho) as Hid. split.
    + by eapply others_life.
    + exact Hrun.
    + by rewrite (same_life_alive _ _ _ Hlife Hid).
    + destruct (sf_slot _ _ Hlife my Hid) as (o & -> & _). destruct Hw. by split.
Qed.

Lemma pc_interrupts my k0 l b : ending my k0 → at_work (leaving my) my k0 (kern b) →
  pc (interrupts respond frequency l) b
    (λ s b', if s : bool then left_behind my (kern b') ∧
        ∀ t, slot_id t → sl_pending (slot_of (kern b') t) = sl_pending (slot_of k0 t)
      else at_work (leaving my) my k0 (kern b')).
Proof.
  intros He. revert b. induction l as [|c l IH]; intros b Hw; cbn [interrupts]; [by pc_step|].
  pc_step. eapply pc_mono; [apply (pc_dispatch_work (leaving my) my k0 c b
    (λ s k, if s : bool then left_behind my k ∧ ∀ t, slot_id t → sl_pending (slot_of k t) = sl_pending (slot_of k0 t)
      else at_work (leaving my) my k0 k));
    [apply (wn_wanted _ (ed_waits _ _ He))|exact Hw|done|]|].
  - intros k Hk. eapply pc_mono; [eapply ending_away, ending_work; [exact He|exact Hk]|]. intros s k' (-> & H & Hl).
    split; [exact H|]. intros t Ht. rewrite <-(aw_pending _ _ _ _ Hk t Ht).
    by destruct (sf_slot _ _ Hl t Ht) as (o & -> & _).
  - intros [] b' H; [by pc_step|by apply IH].
Qed.

Lemma set_kern_same b : set_kern (kern b) b = b.
Proof. by destruct b. Qed.

(** [t] does not wait on [my], or no longer. *)
Definition free_of_it (my : Z) (k : kernel) (t : Z) : Prop := waiting_on my (sl_pending (slot_of k t)) = false.

Lemma ending_deliver my k k' i : ending my k → slot_id i → i ≠ my → waiting_on my (sl_pending (slot_of k i)) = true →
  touches_slot k k' i (with_leased 0 (with_pending None (slot_of k i))) → ending my k'.
Proof.
  intros [Ho Hm Ht Hd Hw] Hi Hne Hwt H. pose proof (oo_my _ _ _ Ho) as Hid.
  assert (Hs : slot_of k' my = slot_of k my) by (apply (untouched _ _ _ _ _ H); congruence).
  assert (Hb : sl_state (slot_of k i) = Some Blocked).
  { destruct (sl_pending (slot_of k i)) as [[m|m|b n]|] eqn:Hpi; try done;
      by destruct (st_send _ _ _ _ (oo_others _ _ _ Ho i Hi Hne) m) as (_ & ? & _); [rewrite Hpi|]. }
  split; rewrite ?Hs; try assumption; [|by rewrite (ts_me _ _ _ _ H)].
  eapply (others_clear (leaving my) k k' my i (sl_task (slot_of k i))); [exact Ho|exact Hne|exact Hi| |exact H|done].
  by eapply blocked_not_idle.
Qed.

Lemma pc_abandon_live my irqs slots b :
  ending my (kern b) → (∀ i, i ∈ slots → slot_id i) →
  pc (abandon_live respond frequency my slots irqs) b (λ s b',
    if s : bool then left_behind my (kern b')
    else ending my (kern b') ∧ ∀ t, slot_id t → t ≠ my → t ∈ slots ∨ free_of_it my (kern b) t → free_of_it my (kern b') t).
Proof.
  revert b. induction slots as [|i slots IH]; intros b He Hsl; cbn [abandon_live].
  { pc_step. split; [exact He|]. intros t _ _ [Ht|Ht]; [by apply elem_of_nil in Ht|exact Ht]. }
  assert (Hi : slot_id i) by (apply Hsl; by left). assert (Hrest : ∀ j, j ∈ slots → slot_id j) by (intros j Hj; apply Hsl; by right).
  pc_step. eapply pc_mono; [apply (pc_interrupts my (kern b)); [exact He|apply at_work_here; apply He]|].
  intros [] b1 H1; [pc_step; apply H1|]. pose proof (ending_work _ _ _ He H1) as He1.
  assert (Hf1 : ∀ t, slot_id t → free_of_it my (kern b) t → free_of_it my (kern b1) t).
  { intros t Ht. unfold free_of_it. by rewrite (aw_pending _ _ _ _ H1 t Ht). }
  assert (Hgo : ∀ b2, ending my (kern b2) → (∀ t, slot_id t → t ≠ my → t = i ∨ free_of_it my (kern b1) t → free_of_it my (kern b2) t) →
    pc (abandon_live respond frequency my slots irqs) b2 (λ s b', if s : bool then left_behind my (kern b')
      else ending my (kern b') ∧ ∀ t, slot_id t → t ≠ my → t ∈ i :: slots ∨ free_of_it my (kern b) t → free_of_it my (kern b') t)).
  { intros b2 He2 Hf2. eapply pc_mono; [by apply IH|]. intros [] b' H; [exact H|]. destruct H as [He' Hf']. split; [exact He'|].
    intros t Ht Hne Hin. apply Hf'; [done|done|]. destruct Hin as [[->|Hin]%elem_of_cons|Hin]; [right; by apply Hf2; [..|left]|by left|].
    right. apply Hf2; [done|done|right; by apply Hf1]. }
  destruct (Z.eqb_spec i my) as [->|Hne].
  { apply Hgo; [exact He1|]. by intros t _ Hne [?|?]. }
  pc_step. apply pc_in_kernel. apply pending_slot; [apply He1|exact Hi|].
  destruct (waiting_on my (sl_pending (slot_of (kern b1) i))) eqn:Hwt.
  2: { rewrite set_kern_same. apply Hgo; [exact He1|]. intros t _ _ [->|?]; done. }
  pc_step. apply pc_in_kernel. rewrite set_kern_same. apply pc_deliver_outcome; [apply He1|exact Hi|]. intros k2 H2.
  pose proof (ending_deliver _ _ _ _ He1 Hi Hne Hwt H2) as He2. pose proof (touched _ _ _ _ H2 Hi) as Hi2.
  pc_step. eapply pc_mono; [apply (pc_interrupts my k2); [exact He2|apply at_work_here; apply He2]|].
  intros [] b3 H3; [pc_step; apply H3|]. pose proof (ending_work _ _ _ He2 H3) as He3.
  assert (Hp3 : sl_pending (slot_of (kern b3) i) = None) by (rewrite (aw_pending _ _ _ _ H3 i Hi), Hi2; done).
  assert (Hf3 : ∀ t, slot_id t → t ≠ my → t = i ∨ free_of_it my (kern b1) t → free_of_it my (kern b3) t).
  { intros t Ht _ Hor. unfold free_of_it in *. destruct (decide (t = i)) as [->|Hti]; [by rewrite Hp3|].
    rewrite (aw_pending _ _ _ _ H3 t Ht), (untouched _ _ _ _ _ H2 Ht Hti). by destruct Hor. }
  pc_step. apply pc_in_kernel. apply pc_unblock_deferred; [apply He3|unfold slot_id in Hi; lia| |].
  { intros _. rewrite set_kern_same. by apply Hgo. }
  intros u w k4 _ Hu Hub H4.
  pose proof (at_work_woken _ _ _ _ _ _ _ (at_work_here _ _ _ (ed_others _ _ He3) (ed_me _ _ He3)) Hne Hi Hu Hub
    ltac:(by rewrite Hp3) H4) as Hw4.
  apply Hgo; [eapply ending_work; [exact He3|exact Hw4]|].
  intros t Ht Htm Hor. change (free_of_it my k4 t). unfold free_of_it. rewrite (aw_pending _ _ _ _ Hw4 t Ht). by apply Hf3.
Qed.

(** Nobody waits on it any more. *)
Lemma others_let_go my k :
  others_ok (leaving my) k my → (∀ t, slot_id t → t ≠ my → free_of_it my k t) → others_ok nobody k my.
Proof.
  intros [Hl Hi Hmy Hc Ho] Hf. split; [done|done|done|done|]. intros t Ht Hne.
  destruct (Ho t Ht Hne) as [S1 S2 S3 S4 S5 S6]. split; try assumption.
  intros m Hm. destruct (S4 m Hm) as (? & ? & Hs & ? & Ha). split_and!; try done; try apply Hs. left.
  destruct Ha as [Ha|Ha]; [exact Ha|]. exfalso. specialize (Hf t Ht Hne). unfold free_of_it in Hf.
  destruct (sl_pending (slot_of k t)) as [[m'|m'|b n]|]; simpl in Hm; try done;
    injection Hm as ->; simpl in Hf; by rewrite Ha, Z.eqb_refl in Hf.
Qed.

Lemma pc_let_go my k : ending my k → (∀ t, slot_id t → t ≠ my → free_of_it my k t) →
  pc (_ ← store_pending my None; store_lease_count my 0) k (λ _ k', ended my k').
Proof.
  intros He Hf. pose proof (oo_my _ _ _ (ed_others _ _ He)) as Hid.
  pc_step. apply pc_store_pending; [apply He|done|]. intros k1 H1.
  apply pc_store_lease_count; [apply H1|done|]. intros k2 H2. rewrite (touched _ _ _ _ H1 Hid) in H2.
  pose proof (touches_then _ _ _ _ _ _ Hid H1 H2) as H3. destruct He as [Ho Hm Ht Hd [Hp Hw Hwt Hl]].
  assert (Hs : same_slots k k2).
  { split; [apply H3|apply H3|]. intros t Htt. rewrite (ts_slot _ _ _ _ H3) by done. case_decide; subst; [|done].
    destruct (slot_of k (me k)); simpl in *; by subst. }
  pose proof (ss_slot _ _ Hs my Hid) as Hmy. split; rewrite ?Hmy; try done.
  - eapply others_same; [exact Hs|]. by apply others_let_go.
  - by rewrite (ss_me _ _ Hs).
  - apply settled_plain; by rewrite Hmy.
Qed.

(** *** Every step keeps the invariant *)

Lemma store_user_mach va v k k' : store_user va v k = Some k' → ∃ m, k' = set_mach m k.
Proof.
  unfold store_user. destruct (_ && _); [|done]. intros ([l d] & _ & H)%bind_Some.
  destruct (_ =? _); [|done]. apply bind_Some in H as (pa & _ & [= <-]). eauto.
Qed.

(** Whoever was excused is known. *)
Lemma settled_found gone v v' t c :
  v' t = v t → (∀ u, slot_id u → sl_live (v u) ∨ gone u → sl_live (v' u)) →
  settled gone v t c → settled nobody v' t c.
Proof.
  intros Ht Hal [H1 H2 H3 H4 H5 H6]. split; rewrite ?Ht; try done.
  intros m Hm. destruct (H4 m Hm) as (? & ? & Hs & ? & Ha). split_and!; try done; try apply Hs. left. by apply Hal.
Qed.

(** What is left on the stack of [my] is recorded. *)
Lemma settle_as gone my c k :
  others_ok gone k my → sl_state (slot_of k (me k)) = Some Runnable → settled gone (slot_of k) my c →
  (c = Cut → sl_alive (slot_of k my) = false) → (∀ u, gone u → u = my ∧ c = Cut) →
  pc (store contexts set_contexts my c) k (λ _ k', kernel_inv k').
Proof.
  intros Ho Hcur Hmine Hcut Hgone. pose proof (oo_my _ _ _ Ho) as Hid.
  apply pc_store_ctx; [apply Ho|done|]. intros k' H. pose proof (touched _ _ _ _ H Hid) as He.
  assert (Htask : ∀ t, slot_id t → sl_task (slot_of k' t) = sl_task (slot_of k t)).
  { intros t Ht. rewrite (ts_slot _ _ _ _ H) by done. by case_decide; subst. }
  assert (Halive : ∀ t, slot_id t → sl_alive (slot_of k' t) = sl_alive (slot_of k t)).
  { intros t Ht. unfold sl_alive, sl_state. by rewrite Htask. }
  assert (Hal : ∀ t, slot_id t → sl_live (slot_of k t) ∨ gone t → sl_live (slot_of k' t)).
  { intros t Ht [Hl|[-> ->]%Hgone]; [|right; by rewrite He]. destruct (decide (t = my)) as [->|Hne].
    - left. rewrite Halive by done. by eapply my_live.
    - by rewrite (untouched _ _ _ _ _ H). }
  split.
  - apply H.
  - destruct (oo_idle _ _ _ Ho) as (t0 & Ht0 & ?). exists t0. by rewrite Htask.
  - rewrite (ts_me _ _ _ _ H). unfold sl_state. rewrite Htask; [exact Hcur|]. apply (len_current _ (oo_lengths _ _ _ Ho)).
  - intros t Ht. rewrite Halive by done. destruct (decide (t = my)) as [->|Hne]; [by rewrite He|].
    rewrite (untouched _ _ _ _ _ H) by done. by apply (oo_cut _ _ _ Ho).
  - intros t Ht. destruct (decide (t = my)) as [->|Hne].
    + rewrite He. change (sl_ctx (with_ctx c (slot_of k my))) with c.
      destruct Hmine as [S1 S2 S3 S4 S5 S6]. split; rewrite ?He; try assumption.
      intros m Hm. destruct (S4 m Hm) as (? & ? & Hs & ? & Ha). split; [done|]. split; [done|].
      split; [exact Hs|]. split; [done|]. left. by apply Hal.
    + pose proof (untouched _ _ _ _ _ H Ht Hne) as Hu. rewrite Hu.
      eapply settled_found; [exact Hu|exact Hal|]. by apply (oo_others _ _ _ Ho).
Qed.

Lemma settle_inv my r k :
  call_done my r k → pc (store contexts set_contexts my (left_as r)) k (λ _ k', kernel_inv k').
Proof. intros [Ho Hcur Hmine _]. eapply settle_as; [exact Ho|exact Hcur|exact Hmine|by destruct r|done]. Qed.

Lemma left_cut my k : left_behind my k → pc (store contexts set_contexts my Cut) k (λ _ k', kernel_inv k').
Proof.
  intros [Ho Hc Hd [Hp Hw Hwt Hl]]. eapply settle_as; [exact Ho|exact Hc|by apply settled_plain|done|]. by intros u Hu.
Qed.

Lemma in_call_ending my k k' t : in_call my k → my ≠ 0 → state t = Zombie →
  touches_slot k k' my (with_task (Some t) (slot_of k my)) → ending my k'.
Proof.
  intros Hc Hm0 Hz H. pose proof (in_call_id _ _ Hc) as Hid. pose proof (touched _ _ _ _ H Hid) as He.
  split; rewrite ?He.
  - eapply others_mine; [exact H|by apply others_weaken, Hc|done|by right|done].
  - rewrite (ts_me _ _ _ _ H). apply Hc.
  - by eexists.
  - unfold sl_alive, sl_state. simpl. by rewrite Hz.
  - destruct Hc. by split.
Qed.

Lemma pc_finish my irqs b : in_call my (kern b) → my ≠ 0 →
  pc (c ← finish_live respond frequency irqs; in_kernel (store contexts set_contexts my c)) b (λ _ b', kernel_inv (kern b')).
Proof.
  intros Hc Hm0. destruct (in_call_task _ _ Hc) as (t & Ht & _). pose proof (ic_me _ _ Hc) as Hme.
  assert (Hcut : ∀ b', left_behind my (kern b') →
    pc (in_kernel (store contexts set_contexts my Cut)) b' (λ _ b'', kernel_inv (kern b''))).
  { intros b' H. apply pc_in_kernel. by apply left_cut. }
  unfold finish_live. pc_step. pc_step. pc_step. pc_step. apply pc_in_kernel.
  apply (pc_update_current _ _ _ t); [by eapply in_call_lengths|by rewrite Hme|]. rewrite Hme. intros k1 H1.
  pose proof (in_call_ending _ _ _ (with_state Zombie t) Hc Hm0 eq_refl H1) as He1.
  pc_step. eapply pc_mono; [apply pc_abandon_live; [exact He1|by intros i Hi%elem_of_range]|].
  intros [] b2 H2; [pc_step; by apply Hcut|]. destruct H2 as [He2 Hf2].
  pc_step. eapply pc_mono; [apply (pc_interrupts my (kern b2)); [exact He2|apply at_work_here; apply He2]|].
  intros [] b3 H3; [pc_step; apply Hcut, H3|]. pose proof (ending_work _ _ _ He2 H3) as He3.
  pc_step. apply pc_in_kernel. eapply pc_mono; [apply pc_let_go; [exact He3|]|].
  { intros u Hu Hne. unfold free_of_it. rewrite (aw_pending _ _ _ _ H3 u Hu). apply Hf2; [done|done|left]. by apply elem_of_range. }
  intros [] k4 H4. pc_step. apply pc_in_kernel. eapply pc_mono; [by apply pc_gone|].
  intros r k5 H5. pc_step. apply pc_in_kernel. by apply settle_inv.
Qed.

Lemma pc_settle my e b : exit_done my e b → pc (settle e my) b (λ _ b', kernel_inv (kern b')).
Proof.
  intros H. unfold settle. apply pc_in_kernel.
  pose proof (settle_inv my (exit_as e) (kern b) H) as Hs. by destruct e.
Qed.

Lemma running_in_call b : kernel_inv (kern b) → here b = Running → in_call (me (kern b)) (kern b).
Proof. intros Hk Hh. apply inv_in_call with Running; [done|done|by intros (? & ? & ? & ?)|done]. Qed.

Lemma step_inv b b' :
  kernel_inv (kern b) → step respond frequency user_task_entry task_trampoline b b' → kernel_inv (kern b').
Proof.
  intros Hk Hstep. destruct Hstep as [b b' f ix n Hh Hsp Hf Hlow Hrun|b b' f ix n Hh Hix Hrun|
    b b' c Hh Hmay Hrun|b b' irqs Hh Hm0 Hrun|b b' c f Hh Hm0 Hrun|b b' e a Hh Hrun _|b va v k' Hh _ _ Hst].
  - pose proof (running_in_call _ Hk Hh) as Hc. eapply (pc_elim _ _ _ _ (λ _ b', kernel_inv (kern b'))); [|exact Hrun].
    pc_step. eapply pc_mono; [apply (pc_handle_exception (me (kern b))); [done|done|]|].
    + left. split; [|done]. intros H0. apply Hsp. destruct (ki_idle _ Hk) as (t & Ht & _ & Hs).
      unfold current_space_root. rewrite H0. change (task_at (kern b) 0) with (sl_task (slot_of (kern b) 0)).
      rewrite Ht. exact Hs.
    + intros e b1 H. by apply pc_settle.
  - pose proof (running_in_call _ Hk Hh) as Hc. eapply (pc_elim _ _ _ _ (λ _ b', kernel_inv (kern b'))); [|exact Hrun].
    pc_step. unfold handle_exception. rewrite Hix. pc_step.
    eapply pc_mono; [by apply pc_dispatch_irq|]. intros s b1 H. pc_step. apply pc_settle. by destruct s.
  - pose proof (running_in_call _ Hk Hh) as Hc. eapply (pc_elim _ _ _ _ (λ _ b', kernel_inv (kern b'))); [|exact Hrun].
    apply pc_in_kernel. pc_step. eapply pc_mono; [by apply pc_perform|]. intros r k1 H. by apply settle_inv.
  - pose proof (running_in_call _ Hk Hh) as Hc. eapply (pc_elim _ _ _ _ (λ _ b', kernel_inv (kern b'))); [|exact Hrun].
    by apply pc_finish.
  - eapply (pc_elim _ _ _ _ (λ _ b', kernel_inv (kern b'))); [|exact Hrun].
    pc_step. eapply pc_mono; [by apply pc_wake|]. intros e b1 H. by apply pc_settle.
  - assert (Hc : in_call (me (kern b)) (kern b)).
    { apply inv_in_call with (Fresh e a); [done|done|by intros (? & ? & ? & ?)|done]. }
    eapply (pc_elim _ _ _ _ (λ _ k', kernel_inv k')); [|exact Hrun]. apply settle_inv. by apply in_call_done.
  - apply store_user_mach in Hst as (m & ->). destruct Hk as [[] H2 H3 H4 H5]. by split.
Qed.

End system_inv.
