(* ===== verification/SystemMem.v ===== *)
(** * SystemMem: memory in every state the kernel can reach

    [mem_ok] from boot on: it holds once the kernel is up, and every step of
    [System] keeps it, user stores included.  The theorems say what that means
    for the frames of the machine and for tasks that do not trust each other. *)

From S2P Require Import Prelude Memory FrameAlloc Frames FramesSpec FramesBoot Paging PagingWalk PagingTables PagingMap PagingRange PagingSpace PagingOwn PagingKeep.
From S2P Require Import Kernel Sched Notify Ipc Tasks Syscall KernelInv SchedSpec CallInv SyscallInv ImageMem KernelMem Devices Exceptions System.

(** The kernel comes up: address spaces first, then the task table. *)
Definition bring_up : M kernel unit := _ ← init_address_spaces; Sched.init.

(** [k] is the kernel just up on the machine [m]. *)
Definition booted (m : machine) (k : kernel) : Prop := bring_up (kernel_new m) = Done (tt, k).

Section system_mem.
Context (respond : list access → Z → Z → Z) (frequency : Z).
Context (user_task_entry task_trampoline : Z).
Context (pool : Z → Prop) (m0 : mem).
Abbreviation mem_ok := (mem_ok pool m0) (only parsing).

(** ** Steps *)

Definition board_keeps {A} (op : M board A) : Prop :=
  ∀ b R Y, mem_ok (kern b) R Y → pc op b (λ _ b', mem_ok (kern b') R Y).

Lemma board_bind {A B} (op : M board A) (f : A → M board B) :
  board_keeps op → (∀ a, board_keeps (f a)) → board_keeps (op ≫= f).
Proof. intros H Hf b R Y Hb. pc_step. eapply pc_mono; [by apply H|]. intros a b' Hb'. by apply Hf. Qed.

Lemma board_kernel {A} (op : M kernel A) : keeps pool m0 op → board_keeps (in_kernel op).
Proof. intros H b R Y Hb. apply pc_in_kernel. by apply H. Qed.

Lemma board_steady {A} (op : M board A) : steady kern op → board_keeps op.
Proof. intros H b R Y Hb. eapply steady_pc; [exact H|]. by intros _ b' ->. Qed.

Lemma steady_in_devices {A} (op : M devices A) : steady kern (in_devices op).
Proof. intros b a b'. unfold in_devices, zoom. destruct (op (devs b)) as [[x d]|]; [|done]. by intros [= _ <-]. Qed.

Lemma board_irq count : board_keeps (dispatch_irq respond frequency count).
Proof.
  unfold dispatch_irq. apply board_bind; [apply board_steady, steady_in_devices|]. intros intid.
  destruct (_ =? _); [apply board_steady, steady_ret|]. apply board_bind; [apply board_kernel, keeps_on_irq|]. intros routed.
  apply board_bind.
  { destruct (_ =? _); [|apply board_steady, steady_ret]. unfold on_tick.
    apply board_bind; [apply board_steady, steady_in_devices|]. intros _. apply board_kernel. unfold count_tick, request_reschedule.
    apply keeps_bind; [apply keeps_gets|]. intros t. apply keeps_bind; [apply keeps_lift|]. intros n.
    apply keeps_bind; [by apply keeps_modify|]. intros _. by apply keeps_modify. }
  intros _. apply board_bind.
  { destruct (_ && _); [|apply board_steady, steady_ret]. apply board_kernel. by apply keeps_modify. }
  intros _. apply board_bind; [apply board_steady, steady_in_devices|]. intros _. apply board_kernel. unfold preempt_if_needed.
  apply keeps_bind; [apply keeps_gets|]. intros n. apply keeps_bind; [by apply keeps_modify|]. intros _.
  destruct n; [apply keeps_switch|apply keeps_ret].
Qed.

Lemma board_step_over f : board_keeps (step_over f).
Proof. apply board_steady. unfold step_over. apply steady_bind; [apply steady_lift|intros; apply steady_ret]. Qed.

Lemma pc_exception_mem my f index count b R Y :
  mem_ok (kern b) R Y → in_call my (kern b) → registers_ok f →
  pc (handle_exception respond frequency user_task_entry task_trampoline f index count) b (λ _ b', mem_ok (kern b') R Y).
Proof.
  intros Hb Hc Hf. unfold handle_exception. destruct (is_irq index).
  { pc_step. eapply pc_mono; [by apply board_irq|]. intros s b' Hb'. by pc_step. }
  cbv zeta. destruct (exception_class _ =? EC_SVC64).
  { pc_step. apply pc_in_kernel. eapply pc_mono; [by apply (pc_dispatch_mem pool m0 _ _ my)|]. intros r k' Hk'. by pc_step. }
  destruct (_ && _). { pc_step. pc_step. by apply board_step_over. }
  destruct (from_lower_el index).
  { pc_step. apply pc_in_kernel. eapply pc_mono; [by apply keeps_fault_current|]. intros r k' Hk'. by pc_step. }
  pc_step. pc_step. destruct (_ && _). { pc_step. pc_step. by apply board_step_over. }
  destruct (is_brk _); [by apply board_step_over|by pc_step].
Qed.

Lemma keeps_no_switch {A} (op : M kernel A) : keeps pool m0 op → keeps pool m0 (no_switch op).
Proof. intros H. unfold no_switch. apply keeps_bind; [done|]. intros a. apply keeps_ret. Qed.

Lemma keeps_answer (op : M kernel Z) : keeps pool m0 op → keeps pool m0 (answer op).
Proof. intros H. unfold answer. apply keeps_bind; [done|]. intros a. apply keeps_ret. Qed.

Lemma keeps_perform c : keeps pool m0 (perform user_task_entry task_trampoline c).
Proof.
  destruct c; cbn [perform]; try first [apply keeps_no_switch|apply keeps_answer].
  - apply keeps_bind; [apply keeps_switch|]. intros b. apply keeps_ret.
  - apply keeps_bind; [|intros b; apply keeps_ret]. unfold block_current.
    apply keeps_bind; [apply keeps_mark_blocked|]. intros _. apply keeps_park.
  - apply keeps_bind; [apply keeps_unblock|]. intros b. apply keeps_ret.
  - apply keeps_task_finished.
  - apply keeps_post.
  - apply keeps_kill.
  - apply keeps_release.
  - apply keeps_reap.
  - apply keeps_spawn_at.
  - apply keeps_spawn_user.
  - by apply keeps_modify.
  - apply keeps_route.
Qed.

Lemma board_wake c f : board_keeps (wake c f).
Proof.
  assert (Hgen : board_keeps (r ← in_kernel (resume c);
      mret (match r with Ret v => Eret (with_results v f) | Sus c => Away c end))).
  { apply board_bind; [apply board_kernel, keeps_resume|]. intros r. apply board_steady, steady_ret. }
  destruct c; first [exact Hgen|apply board_steady, steady_ret].
Qed.

Lemma board_settle e my : board_keeps (settle e my).
Proof. unfold settle. apply board_kernel. by apply keeps_store. Qed.

(** A thread that ends, however often it is interrupted. *)
Lemma board_interrupts l : board_keeps (interrupts respond frequency l).
Proof.
  induction l as [|c l IH]; cbn [interrupts]; [apply board_steady, steady_ret|].
  apply board_bind; [apply board_irq|]. intros []; [apply board_steady, steady_ret|exact IH].
Qed.

Lemma board_abandon_live gone slots irqs : board_keeps (abandon_live respond frequency gone slots irqs).
Proof.
  induction slots as [|i slots IH]; cbn [abandon_live]; [apply board_steady, steady_ret|].
  apply board_bind; [apply board_interrupts|]. intros []; [apply board_steady, steady_ret|].
  destruct (_ =? _); [exact IH|]. apply board_bind; [apply board_kernel, keeps_pending_of|]. intros p.
  destruct (waiting_on _ _); [|exact IH]. apply board_bind; [apply board_kernel, keeps_deliver_outcome|]. intros _.
  apply board_bind; [apply board_interrupts|]. intros []; [apply board_steady, steady_ret|].
  apply board_bind; [apply board_kernel, keeps_unblock_deferred|]. intros _. exact IH.
Qed.

Lemma board_finish irqs : board_keeps (finish_live respond frequency irqs).
Proof.
  assert (Hret : ∀ c : context, board_keeps (mret c)) by (intros c; apply board_steady, steady_ret).
  unfold finish_live. apply board_bind; [apply board_steady; by intros b x b' [= _ <-]|]. intros b0.
  apply board_bind; [apply board_kernel, keeps_update_current; by intros|]. intros _.
  apply board_bind; [apply board_abandon_live|]. intros []; [apply Hret|].
  apply board_bind; [apply board_interrupts|]. intros []; [apply Hret|].
  apply board_bind; [apply board_kernel; apply keeps_bind; [|intros _]; by apply keeps_store|]. intros _.
  apply board_bind; [apply board_kernel, keeps_gone|]. intros r. apply Hret.
Qed.

(** A program writes a byte of a page its tables map. *)
Lemma store_user_mem va v k k' R Y : mem_ok k R Y → 0 ≤ v < 256 → store_user va v k = Some k' → mem_ok k' R Y.
Proof.
  intros Hk Hv. unfold store_user. destruct (_ && _); [|done]. intros ([l d] & Hw & H)%bind_Some.
  destruct (_ =? _); [|done]. apply bind_Some in H as (pa & Hpa & [= <-]).
  destruct (mo_account _ _ _ _ _ Hk) as (T & Ha & HT).
  assert (Hr : T !! ttbr0 k = Some 3%nat).
  { apply HT. destruct (mo_current _ _ _ _ _ Hk) as (t & Ht & _ & Htt). unfold roots. rewrite !elem_of_app.
    destruct (space t) as [r|] eqn:Hs.
    - injection Htt as ->. left; right. apply (space_root_in k (me k)). unfold space_root_of.
      apply task_at_list in Ht. rewrite Ht. exact Hs.
    - rewrite <-Htt. left; left. by left. }
  assert (Htr : translation (memory (mach k)) (ttbr0 k) va = Some pa) by (unfold translation; by rewrite Hw).
  destruct (accounted_translation (FA := frames_alloc) _ _ _ _ _ _ _ _ Ha Hr Htr) as (p & Hp & _ & ->).
  assert (Hb : 0 ≤ Z.land va 4095 < 4096) by (change 4095 with (Z.ones 12); rewrite Z.land_ones by lia; zdiv).
  destruct (account_write pool m0 (mach k) T (task_stacks k ++ Y)
    (fill_range (memory (mach k)) (p + Z.land va 4095) 1 v)) as [Ha' Hs']; [exact Ha| | |].
  - intros x. unfold fill_range. destruct (_ && _); [done|]. apply (fa_bytes _ (ac_ok _ _ _ _ _ Ha)).
  - intros x Hx. unfold fill_range. destruct (_ && _) eqn:Hin; [|done].
    destruct (Hx p); [by left|]. unfold in_frame. lia.
  - eapply mem_ok_mach; [exact Hk|exact Ha'|exact HT|apply Hk| |].
    + intros r x Hrr. apply Hs', HT, elem_of_app. by left.
    + intros r Hrr. eapply image_space_same; [intros x; apply Hs', HT, elem_of_app; by right|].
      apply (mo_image _ _ _ _ _ Hk), elem_of_app. by right.
Qed.

Lemma step_mem b b' R Y :
  kernel_inv (kern b) → mem_ok (kern b) R Y → step respond frequency user_task_entry task_trampoline b b' →
  mem_ok (kern b') R Y.
Proof.
  intros Hi Hk Hstep. destruct Hstep as [b b' f ix n Hh Hsp Hf Hlow Hrun|b b' f ix n Hh Hix Hrun|
    b b' c Hh Hmay Hrun|b b' irqs Hh Hm0 Hrun|b b' c f Hh Hm0 Hrun|b b' e a Hh Hrun _|b va v k' Hh _ Hv Hst].
  - eapply (pc_elim _ _ _ _ (λ _ b', mem_ok (kern b') R Y)); [|exact Hrun]. pc_step.
    eapply pc_mono; [apply (pc_exception_mem (me (kern b))); [exact Hk|by apply running_in_call|exact Hf]|].
    intros e b1 H. by apply board_settle.
  - eapply (pc_elim _ _ _ _ (λ _ b', mem_ok (kern b') R Y)); [|exact Hrun]. pc_step. unfold handle_exception. rewrite Hix.
    pc_step. eapply pc_mono; [by apply board_irq|]. intros s b1 H. pc_step. by apply board_settle.
  - eapply (pc_elim _ _ _ _ (λ _ b', mem_ok (kern b') R Y)); [|exact Hrun]. apply pc_in_kernel. pc_step.
    eapply pc_mono; [by apply keeps_perform|]. intros r k' Hk'. unfold settle_kernel. by apply keeps_store.
  - eapply (pc_elim _ _ _ _ (λ _ b', mem_ok (kern b') R Y)); [|exact Hrun]. pc_step.
    eapply pc_mono; [by apply board_finish|]. intros c b1 H. apply pc_in_kernel. by apply keeps_store.
  - eapply (pc_elim _ _ _ _ (λ _ b', mem_ok (kern b') R Y)); [|exact Hrun]. pc_step.
    eapply pc_mono; [by apply board_wake|]. intros e b1 H. by apply board_settle.
  - eapply (pc_elim _ _ _ _ (λ _ k', mem_ok k' R Y)); [|exact Hrun]. unfold settle_kernel. by apply keeps_store.
  - by eapply store_user_mem.
Qed.

End system_mem.

(** ** The kernel just up *)

Lemma accounted_start (m : machine) : fa_ok m → accounted (fa_avail m) (memory m) m ∅ [].
Proof.
  intros Hm. assert (He : ∀ f k, (∅ : tables) !! f = Some k → False) by (intros f k; by rewrite lookup_empty).
  split; try (intros; exfalso; by eapply He).
  - split; [done| |]; [split|]; intros; exfalso; by eapply He.
  - split; [constructor|]. by intros x ?%elem_of_nil.
  - intros g. rewrite lookup_empty, elem_of_nil. split; [by left|].
    intros [?|[?|[(f & i & Hf & _)|[]]]]; [done|done|by destruct (He _ _ Hf)].
  - done.
Qed.

(** The task table with the boot task in it, on a machine with one address space. *)
Definition just_up (m : machine) (root : Z) (m' : machine) : kernel :=
  set_current 0 (set_tasks (<[0%nat := Some (mkTask "kernel" None 0 0x40000000 false IDLE Runnable None None None)]> (per_task None))
    (set_ttbr0 root (set_EMPTY_SPACE (Some root) (set_mach m' (kernel_new m))))).

Lemma pc_bring_up m : fa_ok m →
  pc bring_up (kernel_new m) (λ _ k, ∃ root m', k = just_up m root m' ∧
    accounted (fa_avail m) (memory m) m' (<[root := 3%nat]> ∅) [] ∧ ∀ x, walk 3 (memory m') root x = None).
Proof.
  intros Hm. unfold bring_up, init_address_spaces. pc_step. pc_step. apply pc_zoom_in.
  apply (pc_AddressSpace_new (FA := frames_alloc) (fa_avail m) (memory m) m ∅ []); [by apply accounted_start|].
  intros root m' T' Ha _ -> Hw _. pc_step. pc_step. unfold empty_space_root. pc_step. pc_step. pc_step.
  apply pc_expectM. intros r [= <-]. unfold activate_root. pc_step. unfold Sched.init, Frames.from_addr.
  pc_steps. apply pc_store. by exists root, m'.
Qed.

Lemma just_up_inv m root m' : kernel_inv (just_up m root m').
Proof.
  split.
  - split; try reflexivity. split; vm_compute; congruence.
  - by eexists.
  - reflexivity.
  - by refine (slot_cases _ _ _ _ _ _ _ _ _).
  - refine (slot_cases _ _ _ _ _ _ _ _ _); by apply settled_plain.
Qed.

Lemma just_up_mem m root m' :
  accounted (fa_avail m) (memory m) m' (<[root := 3%nat]> ∅) [] → (∀ x, walk 3 (memory m') root x = None) →
  mem_ok (fa_avail m) (memory m) (just_up m root m') [] [].
Proof.
  intros Ha Hw. split.
  - exists (<[root := 3%nat]> ∅). split; [exact Ha|]. intros r. change (roots (just_up m root m') ++ []) with [root].
    rewrite list_elem_of_singleton, lookup_insert_Some, lookup_empty. naive_solver.
  - apply NoDup_singleton.
  - intros [|i] t; [by intros [= <-]|]. change (task_list _ !! S i) with (replicate 7 (@None Task) !! i).
    intros Hi. by apply lookup_replicate in Hi as [? _].
  - done.
  - by eexists.
  - intros e x [= <-]. apply Hw.
  - intros r Hr. by apply elem_of_nil in Hr.
Qed.

Lemma booted_ok m k : fa_ok m → booted m k → kernel_inv k ∧ mem_ok (fa_avail m) (memory m) k [] [].
Proof.
  intros Hm Hb. pose proof (pc_elim _ _ _ _ _ (pc_bring_up m Hm) Hb) as (root & m' & -> & Ha & Hw).
  split; [apply just_up_inv|by apply just_up_mem].
Qed.

(** Only kernels that came up, and what they can reach. *)
Lemma reachable_mem respond frequency ute tramp m b0 b :
  fa_ok m → booted m (kern b0) → reachable respond frequency ute tramp b0 b →
  kernel_inv (kern b) ∧ mem_ok (fa_avail m) (memory m) (kern b) [] [].
Proof.
  intros Hm Hb Hr. induction Hr as [|b b' _ [IH1 IH2] Hs]; [by apply booted_ok|].
  split; [by eapply step_inv|by eapply step_mem].
Qed.
