(* ===== verification/SchedProps.v ===== *)
(** * SchedProps: the scheduler's contract

    Strict priority, and rotation among equals. *)

From S2P Require Import Prelude Memory Frames FramesBoot Paging Kernel Sched Notify Ipc Tasks Syscall.
From S2P Require Import KernelInv SchedSpec.

(** C19: [next_runnable] returns a runnable task that no other runnable task
    outranks, and among its equals the first after the current task in slot
    order, wrapping; it returns nothing only if nothing is runnable. *)
Theorem next_runnable_exact s c :
  0 ≤ current s →
  next_runnable s = Some c ↔
  ∃ p st, 1 ≤ st ≤ MAX_TASKS ∧ c = candidate s st ∧ runnable_at s c p ∧
    ∀ c' q, slot_id c' → runnable_at s c' q →
      p < q ∨ p = q ∧ ∃ st', st ≤ st' ≤ MAX_TASKS ∧ c' = candidate s st'.
Proof.
  intros Hcur. pose proof (next_runnable_spec s) as H.
  assert (Huniq : ∀ st st', 1 ≤ st ≤ MAX_TASKS → 1 ≤ st' ≤ MAX_TASKS →
    candidate s st = candidate s st' → st = st').
  { unfold candidate, MAX_TASKS. intros st st' H1 H2 H3. zdiv. }
  split.
  - intros Hc. rewrite Hc in H. destruct H as (p & st & Hst & -> & Hr & Hmin). exists p, st.
    split; [done|]. split; [done|]. split; [done|]. intros c' q Hc' Hq.
    destruct (candidate_onto s c' Hcur Hc') as (st' & Hst' & <-).
    destruct (Hmin st' q Hst' Hq) as [|[? ?]]; [by left|right]. split; [done|]. exists st'. split; [lia|done].
  - intros (p & st & Hst & -> & Hr & Hmin). destruct (next_runnable s) as [d|].
    + destruct H as (p' & st' & Hst' & -> & Hr' & Hmin'). f_equal.
      destruct (Hmin' st p Hst Hr) as [Hlt|[He1 Hle1]];
        destruct (Hmin (candidate s st') p' (candidate_range _ _) Hr') as [Hlt'|[He2 (st2 & Hle2 & Heq)]]; try lia.
      apply Huniq in Heq; [|lia|lia]. subst. f_equal. lia.
    + exfalso. by apply (H st p Hst).
Qed.

Definition two_tasks (current : Z) : Scheduler :=
  mkScheduler [Some (mkTask "kernel" None 0 0 false IDLE Runnable None None None);
    Some (mkTask "low" None 0 0 true LOW Runnable None None None); None;
    Some (mkTask "high" None 0 0 true HIGH Blocked None None None); None; None;
    Some (mkTask "low too" None 0 0 true LOW Runnable None None None); None] current.

Lemma next_runnable_exact_witness :
  next_runnable (two_tasks 1) = Some 6 ∧ ∃ p st, 1 ≤ st ≤ MAX_TASKS ∧ 6 = candidate (two_tasks 1) st ∧
    runnable_at (two_tasks 1) 6 p.
Proof.
  assert (He : next_runnable (two_tasks 1) = Some 6) by reflexivity.
  split; [exact He|].
  destruct (proj1 (next_runnable_exact (two_tasks 1) 6 ltac:(vm_compute; discriminate)) He)
    as (p & st & H1 & H2 & H3 & _).
  exists p, st. split; [exact H1|]. split; [exact H2|exact H3].
Defined.

(** ** Rotation *)

(** The task the [n]-th switch from here goes to, while no task changes. *)
Fixpoint turn (s : Scheduler) (n : nat) : option Z :=
  match n with
  | O => Some (current s)
  | S n' => c ← next_runnable s; turn (mkScheduler (tasks s) c) n'
  end.

(** How many slots [u] is ahead of the current one, [1] to [MAX_TASKS]. *)
Definition ahead (s : Scheduler) (u : Z) : Z := (u - current s - 1) mod MAX_TASKS + 1.

Lemma candidate_ahead s u : slot_id u → candidate s (ahead s u) = u.
Proof. unfold candidate, ahead, slot_id, MAX_TASKS. intros. zdiv. Qed.

Lemma turn_top n s u p :
  slot_id (current s) → slot_id u → runnable_at s u p →
  (∀ c q, slot_id c → runnable_at s c q → p ≤ q) → ahead s u ≤ Z.of_nat n →
  ∃ m, (1 ≤ m ≤ n)%nat ∧ turn s m = Some u.
Proof.
  revert s. induction n as [|n IH]; intros s Hcur Hu Hr Htop Hn.
  { unfold ahead, MAX_TASKS in Hn. assert (0 ≤ (u - current s - 1) mod 8) by zdiv. lia. }
  pose proof (next_runnable_spec s) as H.
  assert (Ha : 1 ≤ ahead s u ≤ MAX_TASKS) by (unfold ahead, MAX_TASKS; zdiv).
  destruct (next_runnable s) as [c|] eqn:Hc.
  2: { exfalso. apply (H (ahead s u) p Ha). by rewrite candidate_ahead. }
  destruct H as (q & st & Hst & Hcst & Hrc & Hmin).
  assert (Hid : slot_id c) by (rewrite Hcst; apply candidate_range).
  destruct (Hmin (ahead s u) p Ha) as [Hlt|[-> Hle]]; [by rewrite candidate_ahead| |].
  { specialize (Htop c q Hid Hrc). lia. }
  destruct (decide (c = u)) as [->|Hne].
  { exists 1%nat. split; [lia|]. simpl. rewrite Hc. done. }
  destruct (IH (mkScheduler (tasks s) c)) as (m & Hm & Ht); [done|done|exact Hr|exact Htop| |].
  - assert (st ≠ ahead s u) by (intros ->; by rewrite candidate_ahead in Hcst).
    unfold ahead, candidate, slot_id, MAX_TASKS in *. simpl. zdiv.
  - exists (S m). split; [lia|]. simpl. rewrite Hc. exact Ht.
Qed.

(** C20: no task of the highest runnable priority starves: while no task changes
    state, every runnable task that none outranks gets its turn within
    [MAX_TASKS] switches. *)
Theorem round_robin s u p :
  slot_id (current s) → slot_id u → runnable_at s u p →
  (∀ c q, slot_id c → runnable_at s c q → p ≤ q) →
  ∃ m, (1 ≤ m ≤ Z.to_nat MAX_TASKS)%nat ∧ turn s m = Some u.
Proof.
  intros Hcur Hu Hr Htop. apply (turn_top _ s u p); [done|done|done|done|].
  unfold ahead, MAX_TASKS. zdiv.
Qed.

Lemma round_robin_witness : ∃ m, (1 ≤ m ≤ 8)%nat ∧ turn (two_tasks 1) m = Some 1.
Proof.
  assert (Hr : runnable_at (two_tasks 1) 1 LOW) by (eexists; split; [reflexivity|split; reflexivity]).
  apply (round_robin (two_tasks 1) 1 LOW); [split; vm_compute; congruence|split; vm_compute; congruence|exact Hr|].
  intros c q Hc (t & Ht & Hs & <-). unfold slot_id, MAX_TASKS in Hc.
  assert (c = 0 ∨ c = 1 ∨ c = 2 ∨ c = 3 ∨ c = 4 ∨ c = 5 ∨ c = 6 ∨ c = 7) as Hd by lia.
  destruct Hd as [->|[->|[->|[->|[->|[->|[->| ->]]]]]]]; simpl in Ht; simplify_eq; vm_compute; discriminate.
Defined.
