(* ===== verification/IpcProps.v ===== *)
(** * IpcProps: what the message calls promise

    Who is served, who may reply, what a lease permits, and that a task that is
    gone leaves nobody waiting. *)

From S2P Require Import Prelude Memory FrameAlloc Frames FramesBoot Paging PagingWalk PagingTables PagingMap PagingSpace PagingProps.
From S2P Require Import Kernel Sched Notify Ipc Tasks Syscall.
From S2P Require Import KernelInv SchedSpec CallInv SyscallInv.

(** ** Tables of the right length never panic *)

Lemma wp_index {S A} (l : list A) i a (s : S) Q : l !! Z.to_nat i = Some a → Q a s → wp (index l i) s Q.
Proof. intros Hl HQ. unfold index. by apply (wp_expectM _ a). Qed.

Lemma wp_store {A} (get : kernel → list A) put i v k Q :
  length (get k) = 8%nat → slot_id i → Q tt (put (<[Z.to_nat i := v]> (get k)) k) → wp (store get put i v) k Q.
Proof.
  intros Hl Hi HQ. unfold wp, store. destruct (lookup_lt_is_Some_2 (get k) (Z.to_nat i)) as [a Ha]; [|by rewrite Ha].
  rewrite Hl. unfold slot_id, MAX_TASKS in Hi. lia.
Qed.

Lemma pending_lookup k i : length (pending (TABLE k)) = 8%nat → slot_id i →
  pending (TABLE k) !! Z.to_nat i = Some (pending_at k i).
Proof.
  intros Hl Hi. unfold pending_at. destruct (lookup_lt_is_Some_2 (pending (TABLE k)) (Z.to_nat i)) as [p Hp]; [|by rewrite Hp].
  rewrite Hl. unfold slot_id, MAX_TASKS in Hi. lia.
Qed.

(** ** Receiving *)

(** [recv] serves senders by priority: [best_sender] is a sender to this
    task that no other one outranks, the lowest slot among equals, and is
    nothing only if nobody is sending. *)
Theorem best_sender_exact k tgt s :
  best_sender k tgt = Some s ↔
  ∃ p, slot_id s ∧ sends_to k tgt s p ∧
    ∀ s' q, slot_id s' → sends_to k tgt s' q → p < q ∨ p = q ∧ s ≤ s'.
Proof.
  pose proof (best_sender_spec k tgt) as H. split.
  - intros He. by rewrite He in H.
  - intros (p & Hs & Hp & Hmin). destruct (best_sender k tgt) as [r|].
    + destruct H as (q & Hr & Hq & Hmin'). f_equal.
      destruct (Hmin r q Hr Hq) as [|[]], (Hmin' s p Hs Hp) as [|[]]; lia.
    + by destruct (H s p Hs).
Qed.

(** ** Replying *)

(** Only the task a message was sent to can answer it: a [reply] to a task
    that is not waiting for one, or waits for one from another task, is refused
    with [EINVAL], and so is one that is out of range; nothing is delivered,
    nobody wakes, no table changes. *)
Theorem forged_reply_refused k s rc data len :
  length (pending (TABLE k)) = 8%nat → 0 ≤ s →
  (s < MAX_TASKS → ∀ m, pending_at k s = Some (ReplyWait m) → target m ≠ me k) →
  reply s rc data len k = Done (Ret (EINVAL, 0, 0), k).
Proof.
  intros Hl H0 Hno. unfold reply. destruct (_ <? _); [done|]. cbn [orb].
  destruct (Z.leb_spec MAX_TASKS s) as [|Hlt]; [done|]. specialize (Hno Hlt).
  unfold pending_of, index, expectM, mbind, M_bind, getS, gets.
  rewrite pending_lookup by (done || by split). destruct (pending_at k s) as [[m|m|b n]|]; try done.
  cbn. destruct (Z.eqb_spec (target m) (me k)) as [He|]; [|reflexivity]. by destruct (Hno m eq_refl).
Qed.

(** ** Leases *)

(** [peer] lent lease [ix] to the current task, and has not been answered yet. *)
Definition lent (k : kernel) (peer ix : Z) (l : Lease) : Prop :=
  slot_id peer ∧ (∃ m, pending_at k peer = Some (ReplyWait m) ∧ target m = me k) ∧
  (∃ n, lease_count (TABLE k) !! Z.to_nat peer = Some n ∧ ix < n) ∧
  (∃ ls, leases (TABLE k) !! Z.to_nat peer = Some ls ∧ ls !! Z.to_nat ix = Some l).

Lemma find_lease_lent k k' peer ix l : slot_id peer → find_lease k peer ix k = Done (Some l, k') → lent k peer ix l ∧ k' = k.
Proof.
  intros Hp. unfold find_lease, index, expectM, mbind, M_bind.
  destruct (pending (TABLE k) !! Z.to_nat peer) as [p|] eqn:Hpe; [|done]. cbn.
  assert (He : pending_at k peer = p) by (unfold pending_at; by rewrite Hpe).
  destruct p as [[m|m|b n]|]; try done.
  destruct (lease_count (TABLE k) !! _) as [n|] eqn:Hn; [|done]. cbn.
  destruct (Z.eqb_spec (target m) (me k)) as [Ht|]; [|done]. cbn [andb].
  destruct (Z.ltb_spec ix n) as [Hlt|]; [|done].
  destruct (leases (TABLE k) !! _) as [ls|] eqn:Hls; [|done]. cbn.
  destruct (ls !! _) as [l'|] eqn:Hl; [|done]. cbn. intros [= <- <-].
  split; [|done]. split; [done|]. split; [by exists m|]. split; [by exists n|]. by exists ls.
Qed.

(** The side of the window that is the peer's memory, or the borrower's own. *)
Definition side (k : kernel) (peer : Z) (l : Lease) (off loc : Z) (theirs : bool) (i x : Z) : Prop :=
  ∃ root, space_root_of k (if theirs then peer else me k) = Some root ∧
    translation (memory (mach k)) root ((if theirs then lease_base l + off else loc) + i) = Some x.

(** The borrower may use its own buffer: read it to write the peer's, and the
    other way round. *)
Definition own_buffer (k : kernel) (loc len : Z) (w : bool) : Prop :=
  ∃ root, space_root_of k (me k) = Some root ∧
    user_check (negb w) root loc len (mach k) = Done (true, mach k).

(** No address space maps a table. *)
Definition tables_apart (k : kernel) (T : tables) : Prop :=
  forest (memory (mach k)) T ∧
  ∀ t root, space_root_of k t = Some root → T !! root = Some 3%nat ∧
    ∀ va pa f n, translation (memory (mach k)) root va = Some pa → T !! f = Some n → ¬ (f ≤ pa < f + 4096).

Lemma check_pure w root va len (m : machine) a m' :
  is_u64 va → 0 ≤ len → user_check w root va len m = Done (a, m') → m' = m.
Proof.
  intros Hva Hlen He. destruct w; cbn [user_check] in He.
  - destruct (user_range_spec root va len (λ a, a =? AP_RW_ALL) m Hva Hlen) as (b & Hr & _).
    unfold user_writable in He. rewrite Hr in He. by injection He.
  - destruct (user_range_spec root va len (λ a, (a =? AP_RW_ALL) || (a =? AP_RO_ALL)) m Hva Hlen) as (b & Hr & _).
    unfold user_readable in He. rewrite Hr in He. by injection He.
Qed.

(** The copy of a borrow, once the lease is found good. *)
Definition borrow_copy (peer_root my_root remote local len : Z) (writing : bool) : M machine bool :=
  if writing then
    r ← user_readable my_root local len;
    if r : bool then copy_across my_root local peer_root remote len else mret false
  else
    w ← user_writable my_root local len;
    if w : bool then copy_across peer_root remote my_root local len else mret false.

Lemma borrow_copy_within k T peer l off loc len w pr mr ok m :
  space_root_of k peer = Some pr → space_root_of k (me k) = Some mr → is_u64 loc → 0 ≤ len →
  borrow_copy pr mr (lease_base l + off) loc len w (mach k) = Done (ok, m) →
  (ok = true → own_buffer k loc len w) ∧ (¬ own_buffer k loc len w → m = mach k) ∧
  (tables_apart k T →
    (∀ x, memory m x ≠ memory (mach k) x → ∃ i, 0 ≤ i < len ∧ side k peer l off loc w i x) ∧
    (own_buffer k loc len w →
     (∀ i, 0 ≤ i < len → (∃ x, side k peer l off loc true i x) ∧ (∃ x, side k peer l off loc false i x)) → ok = true)).
Proof.
  intros Hpr Hmr Hloc Hlen Hrun.
  assert (Hchk : ∃ b, user_check (negb w) mr loc len (mach k) = Done (b, mach k) ∧
    (if b then copy_across (if w then mr else pr) (if w then loc else lease_base l + off)
       (if w then pr else mr) (if w then lease_base l + off else loc) len (mach k)
     else Done (false, mach k)) = Done (ok, m)).
  { unfold borrow_copy, mbind, M_bind in Hrun. destruct w; cbn [negb user_check].
    - destruct (user_readable mr loc len (mach k)) as [[b m1]|] eqn:Hc; [|done].
      rewrite <-(check_pure false mr loc len (mach k) b m1 Hloc Hlen Hc) in *. exists b. by destruct b.
    - destruct (user_writable mr loc len (mach k)) as [[b m1]|] eqn:Hc; [|done].
      rewrite <-(check_pure true mr loc len (mach k) b m1 Hloc Hlen Hc) in *. exists b. by destruct b. }
  destruct Hchk as ([] & Hc & Hcopy).
  2: { injection Hcopy as <- <-. assert (Hno : ¬ own_buffer k loc len w).
       { intros (r & Hr & Hr'). simplify_eq. congruence. }
       split; [done|]. split; [done|]. intros _. by split. }
  assert (Hown : own_buffer k loc len w) by (by exists mr).
  split; [done|]. split; [done|]. intros [HF Hsp].
  destruct (Hsp peer pr Hpr) as [Hprt Hpa]. destruct (Hsp (me k) mr Hmr) as [Hmrt Hma].
  destruct (copy_loop_within (S := machine) T (if w then mr else pr) (if w then loc else lease_base l + off)
    (if w then pr else mr) (if w then lease_base l + off else loc) len (memory (mach k)) (Z.to_nat len) 0 (mach k) ok m HF
    ltac:(by destruct w) ltac:(by destruct w) ltac:(destruct w; intros; by eauto) ltac:(lia) ltac:(done) Hcopy) as [Hx Hb].
  split.
  - intros x (i & Hi & Htr)%Hx. exists i. split; [done|]. destruct w; [by exists pr|by exists mr].
  - intros _ Hboth. apply Hb. intros i Hi. destruct (Hboth i Hi) as [(x & r & Hr & Htr) (y & r' & Hr' & Htr')].
    cbv iota in Hr, Htr, Hr', Htr'. rewrite Hpr in Hr. rewrite Hmr in Hr'. injection Hr as <-. injection Hr' as <-.
    destruct w; split; [by exists y|by exists x|by exists x|by exists y].
Qed.

(** What [borrow_within_lease] says of an answer [r] and the kernel [k'] left. *)
Record borrowed (k : kernel) (peer ix off loc len : Z) (w : bool) (r : Z) (k' : kernel) : Prop := {
  (** Success: the lease covers the window and grants the access. *)
  bw_lease : r = 0 → ∃ l, lent k peer ix l ∧ off + len ≤ lease_len l ∧ len ≤ MAX_BORROW ∧
    Z.land (lease_attrs l) (if w then LEASE_WRITE else LEASE_READ) ≠ 0 ∧ own_buffer k loc len w;
  (** Refusals that change nothing. *)
  bw_refused : r = EINVAL ∨ r = EPERM ∨ ¬ own_buffer k loc len w → k' = k;
  (** Nothing but memory changes, ... *)
  bw_tables : ∃ m, k' = set_mach m k;
  (** ... in the bytes of the window on the side written to; ... *)
  bw_window T x : tables_apart k T → memory (mach k') x ≠ memory (mach k) x →
    ∃ l i, lent k peer ix l ∧ off + len ≤ lease_len l ∧ 0 ≤ i < len ∧ side k peer l off loc w i x;
  (** ... and with both sides mapped throughout, any refusal changes nothing. *)
  bw_fault T : tables_apart k T →
    (∀ l i, lent k peer ix l → 0 ≤ i < len → (∃ x, side k peer l off loc true i x) ∧ (∃ x, side k peer l off loc false i x)) →
    r ≠ 0 → k' = k
}.

Lemma borrowed_not k peer ix off loc len w e : e ≠ 0 → borrowed k peer ix off loc len w e k.
Proof.
  intros He. split; [done|done| |intros T x _ H; by destruct H|done]. exists (mach k). by destruct k.
Qed.


(** ** A task that is gone *)

Lemma wp_of_pc {S A} (m : M S A) s Q : (∃ r, m s = Done r) → pc m s Q → wp m s Q.
Proof. intros [[a s'] He]. unfold pc, wp. by rewrite He. Qed.

Lemma store_done {A} (get : kernel → list A) put i v k :
  length (get k) = 8%nat → slot_id i → ∃ r, store get put i v k = Done r.
Proof.
  intros Hl Hi. destruct (wp_elim _ _ _ (wp_store get put i v k (λ _ _, True) Hl Hi I)) as ([] & k' & He & _).
  by exists (tt, k').
Qed.

(** [s] no longer waits on [g], and can run. *)
Definition let_go (g : Z) (s : slot) : slot :=
  if waiting_on g (sl_pending s) then
    mkSlot ((λ t, if bool_decide (state t = Blocked) then with_state Runnable t else t) <$> sl_task s)
      None 0 (sl_wanted s) (sl_waiter s) (sl_ctx s)
  else s.

Definition outcome_at (k : kernel) (i : Z) : option Outcome := outcome (TABLE k) !! Z.to_nat i.

(** [k'] is [k] after the rounds of [abandon] for the slots in [P]. *)
Definition abandoned (g : Z) (P : Z → Prop) (k k' : kernel) : Prop :=
  lengths_ok k' ∧ me k' = me k ∧ mach k' = mach k ∧
  ∀ t, slot_id t →
    (P t → t ≠ g → slot_of k' t = let_go g (slot_of k t) ∧
       outcome_at k' t = (if waiting_on g (pending_at k t) then Some (mkOutcome EDEAD 0 0) else outcome_at k t)) ∧
    (¬ P t ∨ t = g → slot_of k' t = slot_of k t ∧ outcome_at k' t = outcome_at k t).

Lemma wp_deliver_outcome k i rc len Q :
  lengths_ok k → slot_id i →
  (∀ k', touches_slot k k' i (with_leased 0 (with_pending None (slot_of k i))) →
     mach k' = mach k → outcome_at k' i = Some (mkOutcome rc len 0) →
     (∀ t, slot_id t → t ≠ i → outcome_at k' t = outcome_at k t) → Q tt k') →
  wp (deliver_outcome i rc len) k Q.
Proof.
  intros Hl Hi HQ. pose proof Hl as [L1 L2 L3 L4 L5 L6 L7 L8 L9 L10].
  pose proof (pc_deliver_outcome k i rc len (λ _ k', touches_slot k k' i (with_leased 0 (with_pending None (slot_of k i))))
    Hl Hi (λ k' H, H)) as Hpc.
  unfold wp. unfold deliver_outcome, store_outcome, store_pending, store_lease_count, store_leases, mbind, M_bind in *.
  unfold pc in Hpc.
  repeat match goal with |- context [store ?g ?p i ?v ?s] =>
    let r := fresh in
    assert (r : store g p i v s = Done (tt, p (<[Z.to_nat i := v]> (g s)) s));
      [unfold store; destruct (lookup_lt_is_Some_2 (g s) (Z.to_nat i)) as [? Hx];
        [cbn; rewrite ?length_insert; unfold slot_id, MAX_TASKS in Hi; lia|by rewrite Hx]
      |rewrite r in *; clear r; cbv beta iota in * ]
  end.
  apply HQ; [exact Hpc|done| |].
  - unfold outcome_at. cbn. apply list_lookup_insert_eq. unfold slot_id, MAX_TASKS in Hi. lia.
  - intros t Ht Hne. unfold outcome_at. cbn. apply list_lookup_insert_ne. unfold slot_id in *. lia.
Qed.

Definition woken (t : Task) : Task := if bool_decide (state t = Blocked) then with_state Runnable t else t.

Lemma touches_self k i : lengths_ok k → touches_slot k k i (slot_of k i).
Proof. intros Hl. split; [done|done|]. intros t _. by case_decide; subst. Qed.

Lemma wp_unblock_deferred k id Q :
  lengths_ok k → slot_id id →
  (∀ b k', touches_slot k k' id (with_task (woken <$> sl_task (slot_of k id)) (slot_of k id)) →
     TABLE k' = TABLE k → mach k' = mach k → Q b k') →
  wp (unblock_deferred id) k Q.
Proof.
  intros Hl Hid HQ. unfold unblock_deferred. wp_step. wp_step.
  pose proof (len_current _ Hl) as Hme. wp_step. eapply wp_index; [by apply task_at_lookup|].
  assert (Hsame : ∀ t, task_at k id = t → woken <$> t = t → Q false k).
  { intros t Ht Hw. apply HQ; [|done|done]. change (sl_task (slot_of k id)) with (task_at k id). rewrite Ht, Hw.
    rewrite <-Ht. change (task_at k id) with (sl_task (slot_of k id)). rewrite with_task_id. by apply touches_self. }
  destruct (task_at k id) as [t|] eqn:Ht; [|by apply wp_ret, (Hsame None)].
  case_bool_decide as Hb.
  - wp_step. apply wp_store; [apply Hl|done|]. wp_step. apply HQ; [|done|done].
    change (sl_task (slot_of k id)) with (task_at k id). rewrite Ht. cbn [fmap option_fmap option_map].
    unfold woken. rewrite bool_decide_true by done.
    eapply (pc_elim (store_task id (Some (with_state Runnable t))) k tt _
      (λ _ k', touches_slot k k' id (with_task (Some (with_state Runnable t)) (slot_of k id))));
      [by apply pc_store_task|].
    unfold store_task, store. rewrite (task_at_lookup k id) by done. done.
  - apply wp_ret, (Hsame (Some t)); [done|]. simpl. unfold woken. by rewrite bool_decide_false.
Qed.

Lemma abandon_round_exact g (P : Z → Prop) k k1 i :
  slot_id i → ¬ P i → abandoned g P k k1 →
  wp (if i =? g then mret tt else
      p ← pending_of i;
      if waiting_on g p then
        _ ← deliver_outcome i EDEAD 0; _ ← unblock_deferred i; mret tt
      else mret tt) k1
    (λ _ k', abandoned g (λ t, P t ∨ t = i) k k').
Proof.
  intros Hi HP (Hl & Hme & Hm & Hs).
  assert (Hkeep : slot_of k1 i = slot_of k i ∧ outcome_at k1 i = outcome_at k i).
  { apply (Hs i Hi). by left. }
  assert (Hskip : i = g ∨ waiting_on g (pending_at k i) = false → abandoned g (λ t, P t ∨ t = i) k k1).
  { intros Hor. split; [done|]. split; [done|]. split; [done|]. intros t Ht. split.
    - intros [HPt| ->] Hne; [by apply Hs|]. destruct Hor as [|Hw]; [done|].
      destruct Hkeep as [-> ->]. unfold let_go. change (sl_pending (slot_of k i)) with (pending_at k i). by rewrite Hw.
    - intros Hn. apply (Hs t Ht). destruct Hn as [Hn|]; [left|by right]. intros HPt. apply Hn. by left. }
  destruct (Z.eqb_spec i g) as [->|Hne]; [apply wp_ret; auto|].
  wp_step. unfold pending_of. wp_step. wp_step. eapply wp_index; [by apply pending_lookup; [apply Hl|]|].
  assert (Hpe : pending_at k1 i = pending_at k i) by exact (f_equal sl_pending (proj1 Hkeep)).
  rewrite Hpe. destruct (waiting_on g (pending_at k i)) eqn:Hw; [|apply wp_ret; auto].
  wp_step. apply wp_deliver_outcome; [done|done|]. intros k2 H2 Hm2 Ho2 Hr2.
  wp_step. apply wp_unblock_deferred; [apply H2|done|]. intros b k3 H3 HT Hm3. wp_step.
  rewrite (touched _ _ _ _ H2 Hi), (proj1 Hkeep) in H3. pose proof (touches_then _ _ _ _ _ _ Hi H2 H3) as H4.
  split; [apply H4|]. split; [by rewrite (ts_me _ _ _ _ H4)|]. split; [congruence|]. intros t Ht.
  assert (Hout : ∀ u, outcome_at k3 u = outcome_at k2 u) by (intros u; unfold outcome_at; by rewrite HT).
  split.
  - intros [HPt| ->] Htg.
    + assert (t ≠ i) by (intros ->; done). rewrite (untouched _ _ _ _ _ H4), Hout, Hr2 by done. by apply Hs.
    + rewrite (touched _ _ _ _ H4 Hi), Hout, Ho2, Hw. split; [|done]. unfold let_go.
      change (sl_pending (slot_of k i)) with (pending_at k i). rewrite Hw. done.
  - intros Hn. assert (t ≠ i) by (intros ->; destruct Hn as [Hn|]; [apply Hn; by right|done]).
    rewrite (untouched _ _ _ _ _ H4), Hout, Hr2 by done. apply (Hs t Ht).
    destruct Hn as [Hn|]; [left|by right]. intros HPt. apply Hn. by left.
Qed.

Lemma wp_abandon g k :
  lengths_ok k → slot_id g →
  wp (abandon g) k (λ _ k',
    (∀ t, slot_id t → t ≠ g → slot_of k' t = let_go g (slot_of k t) ∧
       outcome_at k' t = (if waiting_on g (pending_at k t) then Some (mkOutcome EDEAD 0 0) else outcome_at k t)) ∧
    slot_of k' g = with_leased 0 (with_pending None (slot_of k g)) ∧ me k' = me k ∧ mach k' = mach k).
Proof.
  intros Hl Hg. unfold abandon. wp_step.
  apply (wp_forM _ _ (λ dn k', abandoned g (λ t, t ∈ dn) k k')).
  { split; [done|]. split; [done|]. split; [done|]. intros t Ht. split; [|done].
    intros Hin. by apply elem_of_nil in Hin. }
  { intros dn i k1 H1 (rest & Hr). eapply wp_mono; [apply (abandon_round_exact g (λ t, t ∈ dn) k k1 i)|].
    - apply elem_of_range. change (i ∈ range 0 MAX_TASKS). rewrite Hr. set_solver.
    - pose proof (NoDup_range 0 MAX_TASKS) as Hnd. rewrite Hr in Hnd.
      apply NoDup_app in Hnd as (_ & Hnd & _). intros Hin. apply (Hnd i Hin). by left.
    - exact H1.
    - intros [] k2 (H2l & H2m & H2k & H2s). split; [done|]. split; [done|]. split; [done|].
      intros t Ht. destruct (H2s t Ht) as [Ha Hb]. split.
      + intros [Hin|Hin%list_elem_of_singleton]%elem_of_app; apply Ha; auto.
      + intros Hn. apply Hb. destruct Hn as [Hn|]; [left|by right].
        intros [Hin| ->]; apply Hn; apply elem_of_app; [by left|right; by apply list_elem_of_singleton]. }
  intros k1 (Hl1 & Hm1 & Hk1 & Hs1).
  assert (Hin : ∀ t, slot_id t → t ∈ range 0 MAX_TASKS) by (intros t Ht; by apply elem_of_range).
  wp_step. apply wp_of_pc; [apply store_done; [apply Hl1|done]|].
  assert (Hnm : mach k1 = mach k ∧ TABLE k1 = TABLE k1) by done.
  unfold store_pending. apply (pc_mono _ _ (λ _ k2, touches_slot k1 k2 g (with_pending None (slot_of k1 g)) ∧
    mach k2 = mach k1 ∧ ∀ t, outcome_at k2 t = outcome_at k1 t)).
  { unfold pc, store. destruct (_ !! _) eqn:He; [|done]. split; [|by split].
    eapply (pc_elim (store_pending g None) k1 tt _ (λ _ k2, touches_slot k1 k2 g (with_pending None (slot_of k1 g))));
      [by apply pc_store_pending|]. unfold store_pending, store. by rewrite He. }
  intros [] k2 (H2 & Hm2 & Ho2).
  apply wp_of_pc; [apply store_done; [apply H2|done]|].
  unfold store_lease_count. apply (pc_mono _ _ (λ _ k3, touches_slot k2 k3 g (with_leased 0 (slot_of k2 g)) ∧
    mach k3 = mach k2 ∧ ∀ t, outcome_at k3 t = outcome_at k2 t)).
  { unfold pc, store. destruct (_ !! _) eqn:He; [|done]. split; [|by split].
    eapply (pc_elim (store_lease_count g 0) k2 tt _ (λ _ k3, touches_slot k2 k3 g (with_leased 0 (slot_of k2 g))));
      [apply pc_store_lease_count; [apply H2|done|done]|]. unfold store_lease_count, store. by rewrite He. }
  intros [] k3 (H3 & Hm3 & Ho3). rewrite (touched _ _ _ _ H2 Hg) in H3.
  pose proof (touches_then _ _ _ _ _ _ Hg H2 H3) as H4. split; [|split; [|split]].
  - intros t Ht Hne. rewrite (untouched _ _ _ _ _ H4), Ho3, Ho2 by done. apply (Hs1 t Ht); auto.
  - rewrite (touched _ _ _ _ H4 Hg). destruct (proj2 (Hs1 g Hg) (or_intror eq_refl)) as [-> _]. done.
  - by rewrite (ts_me _ _ _ _ H4).
  - congruence.
Qed.

(** C13: [abandon] releases everybody.  It never panics; a task waiting on the one
    that is gone, whether its message was collected or not, wakes with [EDEAD],
    its leases expired; the one that is gone no longer waits and lends nothing;
    and every other task is left exactly as it was. *)
Theorem abandon_releases g k :
  lengths_ok k → slot_id g →
  wp (abandon g) k (λ _ k',
    (∀ t, slot_id t → t ≠ g → slot_of k' t = let_go g (slot_of k t) ∧
       outcome_at k' t = (if waiting_on g (pending_at k t) then Some (mkOutcome EDEAD 0 0) else outcome_at k t)) ∧
    slot_of k' g = with_leased 0 (with_pending None (slot_of k g)) ∧ me k' = me k ∧ mach k' = mach k).
Proof. apply wp_abandon. Qed.

(** ** Witnesses: task 1 serves task 2, which lent it 64 bytes *)

Definition client_task (st : State) : Task := mkTask "user" (Some 0x40200000) 0 0 true NORMAL st None None None.

Definition serving (p2 : Pending) (cur : Z) : kernel :=
  set_lease_count [0; 0; 1; 0; 0; 0; 0; 0]
  (set_leases (<[2%nat := [mkLease 0x402000 64 LEASE_READ; NO_LEASE; NO_LEASE; NO_LEASE]]> (leases Table_new))
  (set_pending [None; None; Some p2; None; None; None; None; None]
  (set_SCHEDULER (mkScheduler [Some (mkTask "kernel" None 0 0 false IDLE Runnable None None None);
     Some (client_task Runnable); Some (client_task Blocked); Some (client_task Runnable); None; None; None; None] cur)
  (kernel_new virt)))).

Definition request : Message := mkMessage 1 7 0 0 0 0.

Lemma serving_lengths p2 : lengths_ok (serving p2 1).
Proof. split; try reflexivity. split; vm_compute; congruence. Qed.

Lemma forged_reply_refused_witness :
  reply 2 0 0 0 (serving (ReplyWait request) 3) = Done (Ret (EINVAL, 0, 0), serving (ReplyWait request) 3).
Proof.
  apply (forged_reply_refused (serving (ReplyWait request) 3) 2 0 0 0); [reflexivity|lia|].
  intros _ m Hm. injection Hm as <-. vm_compute. discriminate.
Defined.

Lemma abandon_releases_witness :
  ∃ k', abandon 1 (serving (SendWait request) 1) = Done (tt, k') ∧ sl_state (slot_of k' 2) = Some Runnable ∧
    outcome_at k' 2 = Some (mkOutcome EDEAD 0 0).
Proof.
  destruct (wp_elim _ _ _ (abandon_releases 1 (serving (SendWait request) 1) (serving_lengths _)
    ltac:(split; vm_compute; congruence))) as ([] & k' & He & Hs & _).
  exists k'. split; [exact He|].
  destruct (Hs 2 ltac:(split; vm_compute; congruence) ltac:(lia)) as [H1 H2].
  split; [rewrite H1; reflexivity|exact H2].
Defined.
