(* ===== verification/KernelProps.v ===== *)
(** * KernelProps: messages, notifications, and what went wrong

    What [deliver] moves, that notifications are neither lost nor doubled, and
    three places where the kernel does less, or more, than it means to. *)

From S2P Require Import Prelude Memory FrameAlloc Frames FramesBoot Paging PagingWalk PagingTables PagingMap PagingSpace.
From S2P Require Import PagingRange PagingProps.
From S2P Require Import Kernel Sched Notify Ipc Tasks Syscall KernelInv SchedSpec CallInv SyscallInv IpcProps.

(** ** Messages *)

(** Every byte of the range may be read, or written, from EL0. *)
Definition readable (m : mem) (root va len : Z) : Prop :=
  va + len ≤ KERNEL_BASE ∧ ∀ x, va ≤ x < va + len → accessible m root (λ a, (a =? AP_RW_ALL) || (a =? AP_RO_ALL)) x.
Definition writable (m : mem) (root va len : Z) : Prop :=
  va + len ≤ KERNEL_BASE ∧ ∀ x, va ≤ x < va + len → accessible m root (λ a, a =? AP_RW_ALL) x.

Lemma user_readable_iff root va len m : is_u64 va → 0 < len →
  ∃ b, user_readable root va len m = Done (b, m) ∧ (b = true ↔ readable (memory m) root va len).
Proof.
  intros Hva Hlen.
  destruct (user_range_spec root va len (λ a, (a =? AP_RW_ALL) || (a =? AP_RO_ALL)) m Hva ltac:(lia)) as (b & Hr & Hb).
  exists b. split; [exact Hr|]. rewrite Hb. split; [intros [|H]; [lia|exact H]|by right].
Qed.
Lemma user_writable_iff root va len m : is_u64 va → 0 < len →
  ∃ b, user_writable root va len m = Done (b, m) ∧ (b = true ↔ writable (memory m) root va len).
Proof.
  intros Hva Hlen.
  destruct (user_range_spec root va len (λ a, a =? AP_RW_ALL) m Hva ltac:(lia)) as (b & Hr & Hb).
  exists b. split; [exact Hr|]. rewrite Hb. split; [intros [|H]; [lia|exact H]|by right].
Qed.

Lemma set_mach_id k : set_mach (mach k) k = k.
Proof. by destruct k. Qed.

Lemma with_mach_pure {A} (op : M machine A) k a :
  op (mach k) = Done (a, mach k) → with_mach op k = Done (a, k).
Proof. intros H. unfold with_mach, zoom. rewrite H. by rewrite set_mach_id. Qed.

(** Task [t] owns an address space in which EL0 may read, or write, the buffer. *)
Definition may_read (k : kernel) (t va len : Z) : Prop :=
  ∃ r, space_root_of k t = Some r ∧ readable (memory (mach k)) r va len.
Definition may_write (k : kernel) (t va len : Z) : Prop :=
  ∃ r, space_root_of k t = Some r ∧ writable (memory (mach k)) r va len.


(** *** A kernel with two tasks in one address space *)

Definition user_task (root : Z) (st : State) : Task := mkTask "user" (Some root) 0 0 true NORMAL st None None None.
Definition boot_task : Task := mkTask "kernel" None 0 0 false IDLE Runnable None None None.

Definition two_users (m : machine) (root cur : Z) : kernel :=
  set_ttbr0 root (set_SCHEDULER (mkScheduler
    [Some boot_task; Some (user_task root Runnable); Some (user_task root Runnable);
     None; None; None; None; None] cur) (kernel_new m)).

Lemma user_board : ∃ root s T, fa_ok s ∧
  readable (memory s) root 0x400ff0 64 ∧ writable (memory s) root 0x402008 64 ∧
  copyable (memory s) T root 0x400ff0 root 0x402008 64 (λ i, 0x09000ff0 + i) (λ i, 0x09002008 + i).
Proof.
  destruct virt_space as (root & s & He & Hsp). exists root.
  pose proof (empty_mappable root s 0x400000 0x09000000 0x3000 Hsp ltac:(lia) eq_refl ltac:(lia)
    ltac:(lia) eq_refl ltac:(lia) ltac:(vm_compute; discriminate) eq_refl) as Hm.
  assert (Hat : attrs_ok Attributes.user_data) by (vm_compute; intuition discriminate).
  assert (Hw : wp (map_range root 0x400000 0x09000000 0x3000 Attributes.user_data) s (λ _ s', ∃ T',
    tables_ok s' T' ∧ T' !! root = Some 3%nat ∧ (∀ g, fa_frame s' g → 0x40000000 ≤ g) ∧
    ∀ o, 0 ≤ o < 0x3000 → maps (fa_mem s') root (0x400000 + o) (0x09000000 + o) Attributes.user_data)).
  { apply (wp_map_range s {[root := 3%nat]}); [exact Hat|exact Hm|]. intros s' T' [Hx Hmaps _]. exists T'.
    split; [apply Hx|]. split; [eapply lookup_weaken; [apply lookup_singleton_eq|apply Hx]|].
    split; [intros g Hg%(x_frame _ _ _ _ _ Hx); by apply Hsp|exact Hmaps]. }
  apply wp_elim in Hw as ([] & s' & He' & T' & Hok & Hroot & Hhigh & Hmaps). exists s', T'.
  assert (Hacc : ∀ x allowed, 0x400000 ≤ x < 0x403000 → allowed (ap Attributes.user_data) = true →
    accessible (memory s') root allowed x).
  { intros x allowed Hx Ha. destruct (Hmaps (x - 0x400000) ltac:(lia)) as (l & d & Hw & _ & Hp).
    replace (0x400000 + (x - 0x400000)) with x in Hw by lia. exists l, d. split; [exact Hw|].
    by rewrite <-ap_perm, Hp. }
  assert (Htr : ∀ o, 0 ≤ o < 0x3000 → translation (memory s') root (0x400000 + o) = Some (0x09000000 + o)).
  { intros o Ho. eapply maps_translation, Hmaps, Ho. }
  split; [apply Hok|]. split; [|split].
  - split; [vm_compute; discriminate|]. intros x Hx. apply Hacc; [lia|reflexivity].
  - split; [vm_compute; discriminate|]. intros x Hx. apply Hacc; [lia|reflexivity].
  - split; [apply Hok|by split| | | |lia|lia].
    + intros i Hi. replace (0x400ff0 + i) with (0x400000 + (0xff0 + i)) by lia. rewrite Htr by lia. f_equal. lia.
    + intros i Hi. replace (0x402008 + i) with (0x400000 + (0x2008 + i)) by lia. rewrite Htr by lia. f_equal. lia.
    + intros i f j Hi Hf. pose proof (Hhigh f (proj1 (t_frame _ _ Hok f j Hf))). lia.
Qed.


(** *** Task 2 has lent task 1, which serves it, 64 bytes to read *)

Definition lending (m : machine) (root : Z) : kernel :=
  set_lease_count [0; 0; 1; 0; 0; 0; 0; 0]
  (set_leases (<[2%nat := [mkLease 0x400ff0 64 LEASE_READ; NO_LEASE; NO_LEASE; NO_LEASE]]> (leases Table_new))
  (set_pending [None; None; Some (ReplyWait (mkMessage 1 7 0 0 0 0)); None; None; None; None; None]
  (two_users m root 1))).


(** ** Notifications *)

Lemma lookup_posted k t : lengths_ok k → slot_id t → ∃ p, POSTED k !! Z.to_nat t = Some p.
Proof.
  intros Hl Ht. apply lookup_lt_is_Some_2. rewrite (len_posted _ Hl). unfold slot_id, MAX_TASKS in Ht. lia.
Qed.

Lemma wp_post k t bits p Q :
  lengths_ok k → slot_id t → POSTED k !! Z.to_nat t = Some p →
  (∀ k', lengths_ok k' → POSTED k' !! Z.to_nat t = Some (Z.lor p bits) → Q tt k') → wp (post t bits) k Q.
Proof.
  intros Hl Ht Hp HQ. unfold post. destruct (Z.leb_spec MAX_TASKS t); [unfold slot_id in Ht; lia|].
  wp_step. unfold posted_at. wp_step. wp_step. eapply wp_index; [exact Hp|].
  wp_step. apply wp_store; [apply Hl|done|].
  set (k1 := set_POSTED _ k).
  assert (Hl1 : lengths_ok k1).
  { destruct Hl. split; unfold k1; cbn; rewrite ?length_insert; assumption. }
  assert (Hp1 : POSTED k1 !! Z.to_nat t = Some (Z.lor p bits)).
  { unfold k1. cbn. apply list_lookup_insert_eq. apply lookup_lt_Some in Hp. done. }
  clearbody k1. destruct (lookup_lt_is_Some_2 (WANTED k1) (Z.to_nat t)) as [w Hw].
  { rewrite (len_wanted _ Hl1). unfold slot_id, MAX_TASKS in Ht. lia. }
  wp_step. unfold wanted_at. wp_step. wp_step. eapply wp_index; [exact Hw|].
  destruct (negb _); [|wp_step; by apply HQ]. wp_step. apply wp_of_pc.
  { destruct (wp_elim _ _ _ (wp_unblock_deferred k1 t (λ _ _, True) Hl1 Ht ltac:(done))) as (b & k2 & He & _).
    by eexists. }
  apply (pc_mono _ _ (λ _ k2, lengths_ok k2 ∧ POSTED k2 = POSTED k1)).
  - unfold unblock_deferred. pc_step. pc_step. pc_step. apply pc_index. intros o _.
    destruct (task_at k1 t) as [u|]; [|by pc_step]. case_bool_decide; [|by pc_step].
    pc_step. apply pc_store. pc_step. split; [|done]. destruct Hl1. split; cbn; rewrite ?length_insert; assumption.
  - intros b k2 [Hl2 Hp2]. unfold request_reschedule. wp_step. apply HQ.
    + destruct Hl2. by split.
    + cbn. by rewrite Hp2.
Qed.

Lemma wp_take k t mask p Q :
  lengths_ok k → slot_id t → POSTED k !! Z.to_nat t = Some p →
  (∀ k', lengths_ok k' → POSTED k' !! Z.to_nat t = Some (Z.land p (not32 (Z.land p mask))) → Q (Z.land p mask) k') →
  wp (take t mask) k Q.
Proof.
  intros Hl Ht Hp HQ. unfold take. wp_step. unfold posted_at. wp_step. wp_step. eapply wp_index; [exact Hp|].
  cbv zeta. wp_step. apply wp_store; [apply Hl|done|]. wp_step. apply HQ.
  - destruct Hl. split; cbn; rewrite ?length_insert; assumption.
  - cbn. apply list_lookup_insert_eq. apply lookup_lt_Some in Hp. done.
Qed.

Lemma testbit_not32 x i : 0 ≤ i < 32 → Z.testbit (not32 x) i = negb (Z.testbit x i).
Proof.
  intros Hi. unfold not32. change u32_max with (Z.ones 32). rewrite Z.lxor_spec, Z.ones_spec_low by lia.
  apply xorb_true_r.
Qed.

Lemma testbit_u32_high x i : 0 ≤ x ≤ u32_max → 32 ≤ i → Z.testbit x i = false.
Proof.
  intros Hx Hi. destruct (decide (x = 0)) as [->|]; [apply Z.testbit_0_l|]. apply Z.bits_above_log2; [lia|].
  apply Z.log2_lt_pow2; [lia|]. assert (2 ^ 32 ≤ 2 ^ i) by (apply Z.pow_le_mono_r; lia).
  change (2 ^ 32) with 4294967296 in *. lia.
Qed.

Lemma land_clear p f m : 0 ≤ p ≤ u32_max → f = Z.land p m → Z.land p (not32 f) = Z.ldiff p m.
Proof.
  intros Hp ->. apply Z.bits_inj_iff'. intros i Hi. rewrite Z.land_spec, Z.ldiff_spec.
  destruct (Z.lt_ge_cases i 32); [|by rewrite (testbit_u32_high p)].
  rewrite testbit_not32, Z.land_spec by lia. by destruct (Z.testbit p i), (Z.testbit m i).
Qed.

(** Notification bits are neither lost nor doubled: posts accumulate, [take]
    returns exactly the posted bits of its mask and clears exactly those, a
    second [take] finds none of them, and the bits outside the mask are still
    there. *)
Theorem notifications_exact k t p b1 b2 mask :
  lengths_ok k → slot_id t → POSTED k !! Z.to_nat t = Some p → is_u32 p → is_u32 b1 → is_u32 b2 →
  let all := Z.lor (Z.lor p b1) b2 in
  wp (_ ← post t b1; _ ← post t b2; first ← take t mask; again ← take t mask; rest ← take t u32_max;
      mret (first, again, rest)) k
    (λ r _, r = (Z.land all mask, 0, Z.ldiff all mask)).
Proof.
  intros Hl Ht Hp Hpu H1 H2 all.
  assert (Hall : 0 ≤ all ≤ u32_max).
  { unfold is_u32 in *. pose proof (lor_range (Z.lor p b1) b2 32). pose proof (lor_range p b1 32).
    change (2 ^ 32) with 4294967296 in *. unfold all. lia. }
  assert (Hd : 0 ≤ Z.ldiff all mask ≤ u32_max).
  { rewrite Z.ldiff_land. pose proof (land_range all (Z.lnot mask) 32) as Hr. change (2 ^ 32) with 4294967296 in Hr. lia. }
  wp_step. eapply wp_post; [done|done|exact Hp|]. intros k1 Hl1 Hp1.
  wp_step. eapply wp_post; [done|done|exact Hp1|]. intros k2 Hl2 Hp2. fold all in Hp2.
  wp_step. eapply wp_take; [done|done|exact Hp2|]. intros k3 Hl3 Hp3. rewrite (land_clear all _ mask) in Hp3 by done.
  assert (Hz : Z.land (Z.ldiff all mask) mask = 0).
  { apply Z.bits_inj_iff'. intros i Hi. rewrite Z.land_spec, Z.ldiff_spec, Z.testbit_0_l.
    by destruct (Z.testbit all i), (Z.testbit mask i). }
  wp_step. eapply wp_take; [done|done|exact Hp3|]. intros k4 Hl4 Hp4. rewrite Hz in *.
  change (not32 0) with u32_max in Hp4.
  assert (Hones : ∀ x, 0 ≤ x ≤ u32_max → Z.land x u32_max = x).
  { intros x Hx. change u32_max with (Z.ones 32). rewrite Z.land_ones by lia. apply Z.mod_small.
    change (2 ^ 32) with 4294967296. lia. }
  rewrite Hones in Hp4 by done. wp_step. eapply wp_take; [done|done|exact Hp4|]. intros k5 _ _. wp_step.
  by rewrite Hones.
Qed.

Lemma kernel_new_lengths m : lengths_ok (kernel_new m).
Proof. split; try reflexivity. split; vm_compute; congruence. Qed.

Lemma notifications_exact_witness :
  ∃ k', (_ ← post 3 5; _ ← post 3 6; first ← take 3 2; again ← take 3 2; rest ← take 3 u32_max;
         mret (first, again, rest)) (kernel_new virt) = Done ((2, 0, 5), k').
Proof.
  destruct (wp_elim _ _ _ (notifications_exact (kernel_new virt) 3 0 5 6 2 (kernel_new_lengths virt)
    ltac:(split; vm_compute; congruence) eq_refl ltac:(unfold is_u32; lia) ltac:(unfold is_u32; lia)
    ltac:(unfold is_u32; lia))) as (r & k' & He & ->).
  exists k'. exact He.
Defined.

(** A notification wakes exactly the task that waits for it: if the blocked
    task wants one of the bits it becomes runnable and a reschedule is asked
    for; if it wants none of them it stays as it is and nothing is asked for. *)
Theorem post_wakes k t bits u w p :
  lengths_ok k → slot_id t → task_at k t = Some u → state u = Blocked →
  WANTED k !! Z.to_nat t = Some w → POSTED k !! Z.to_nat t = Some p →
  wp (post t bits) k (λ _ k',
    POSTED k' !! Z.to_nat t = Some (Z.lor p bits) ∧
    if Z.land w bits =? 0 then task_at k' t = Some u ∧ NEED_RESCHED k' = NEED_RESCHED k
    else task_at k' t = Some (with_state Runnable u) ∧ NEED_RESCHED k' = true).
Proof.
  intros Hl Ht Hu Hb Hw Hp. unfold post. destruct (Z.leb_spec MAX_TASKS t); [unfold slot_id in Ht; lia|].
  wp_step. unfold posted_at. wp_step. wp_step. eapply wp_index; [exact Hp|].
  wp_step. apply wp_store; [apply Hl|done|].
  wp_step. unfold wanted_at. wp_step. wp_step. eapply wp_index; [exact Hw|].
  assert (Hp' : <[Z.to_nat t := Z.lor p bits]> (POSTED k) !! Z.to_nat t = Some (Z.lor p bits)).
  { apply list_lookup_insert_eq. by apply lookup_lt_Some in Hp. }
  destruct (Z.land w bits =? 0); cbn [negb]; [by wp_step|].
  unfold unblock_deferred. wp_step. wp_step. wp_step. wp_step.
  eapply wp_index; [exact (task_at_lookup k (me k) Hl (len_current _ Hl))|].
  change (task_at (set_POSTED _ k) t) with (task_at k t). rewrite Hu. rewrite bool_decide_true by done.
  wp_step. apply wp_store; [apply Hl|done|]. wp_step. unfold request_reschedule. wp_step.
  split; [exact Hp'|]. split; [|done].
  unfold task_at, task_list. cbn. rewrite list_lookup_insert_eq; [done|].
  pose proof (len_tasks _ Hl) as H8. unfold task_list in H8. rewrite H8. unfold slot_id, MAX_TASKS in Ht. lia.
Qed.

(** Task 2 waits for messages and for bits 0 and 1. *)
Definition waiting_kernel : kernel :=
  set_WANTED [0; 0; 3; 0; 0; 0; 0; 0]
    (set_tasks [Some boot_task; Some (user_task 0 Runnable); Some (user_task 0 Blocked); None; None; None; None; None]
      (two_users virt 0 1)).

Lemma waiting_lengths : lengths_ok waiting_kernel.
Proof. split; try reflexivity. split; vm_compute; congruence. Qed.

Lemma post_wakes_witness : ∃ k', post 2 6 waiting_kernel = Done (tt, k') ∧
  task_at k' 2 = Some (user_task 0 Runnable) ∧ NEED_RESCHED k' = true.
Proof.
  destruct (wp_elim _ _ _ (post_wakes waiting_kernel 2 6 _ 3 0 waiting_lengths ltac:(split; vm_compute; congruence)
    eq_refl eq_refl eq_refl eq_refl)) as ([] & k' & He & _ & H).
  exists k'. split; [exact He|exact H].
Defined.

(** ** What user code can do to the kernel *)

(** C31: [sys_write] believes [user_readable] about an address the hardware does
    not translate: a buffer [2^48] above one the task can read passes the check,
    and the kernel's own load from it is an exception nothing handles, so any
    task with an address space can stop the machine. *)
Theorem sys_write_stops_kernel k root va len :
  current_space_root k = Some root → ttbr0 k = root →
  is_u64 va → 0 < len ≤ MAX_WRITE → va + 2 ^ 48 + len ≤ KERNEL_BASE →
  user_readable root va len (mach k) = Done (true, mach k) →
  sys_write 1 (va + 2 ^ 48) len k = Panic "unexpected exception".
Proof.
  intros Hroot Htt Hva Hlen Hk Hr. unfold sys_write.
  change (negb (1 =? 1)) with false. cbv iota. destruct (Z.ltb_spec MAX_WRITE len); [lia|].
  cbv [mbind M_bind getS gets]. rewrite Hroot. cbv beta iota.
  rewrite (with_mach_pure (user_readable root (va + 2 ^ 48) len) k true).
  2: { rewrite <-Hr. apply user_readable_alias; [exact Hva|lia|exact Hk]. }
  cbn [negb]. unfold load_slice, range. rewrite (proj2 (Z.eqb_neq _ 0)) by (unfold is_u64 in Hva; lia).
  replace (Z.to_nat (va + 2 ^ 48 + len - (va + 2 ^ 48))) with (S (Z.to_nat (len - 1))) by lia.
  assert (Hn : load_user k (va + 2 ^ 48) = None).
  { unfold load_user. by rewrite (proj2 (Z.ltb_ge (va + 2 ^ 48) (2 ^ 48))) by (unfold is_u64 in Hva; lia). }
  cbn [range_from mapM]. rewrite Hn. reflexivity.
Qed.

Lemma sys_write_stops_kernel_witness :
  ∃ root m, sys_write 1 (0x400ff0 + 2 ^ 48) 64 (two_users m root 1) = Panic "unexpected exception".
Proof.
  destruct user_board as (root & m & T & _ & Hr & _). exists root, m.
  destruct (user_readable_iff root 0x400ff0 64 m ltac:(unfold is_u64; lia) ltac:(lia)) as (b & He & Hb).
  rewrite (proj2 Hb Hr) in He.
  apply (sys_write_stops_kernel (two_users m root 1) root 0x400ff0 64 eq_refl eq_refl
    ltac:(unfold is_u64; lia) ltac:(split; [lia|vm_compute; discriminate]) ltac:(vm_compute; discriminate) He).
Defined.

(** C32: the null buffer stops the kernel too: [user_readable] says yes to no
    bytes at any address, and [sys_write] then makes a slice of them, which panics
    for a null pointer.  So [write(1, 0, 0)], from any task with an address space,
    never returns: in Rust's words a safe caller is trusted with an unsafe
    precondition. *)
Theorem null_write_stops_kernel ute tramp k (a : Z → Z) :
  current_space_root k ≠ None → a 0 = 1 → a 1 = 0 → a 2 = 0 →
  dispatch ute tramp SYS_WRITE a k = Panic "unsafe precondition(s) violated: slice::from_raw_parts".
Proof.
  intros Hroot H0 H1 H2. unfold dispatch. change (SYS_WRITE =? SYS_EXIT) with false. rewrite Z.eqb_refl. cbv iota.
  unfold one, sys_write. rewrite H0, H1, H2. change (negb (1 =? 1)) with false. change (MAX_WRITE <? 0) with false.
  cbv iota. cbv [mbind M_bind getS gets]. destruct (current_space_root k) as [root|]; [|done]. cbv beta iota.
  rewrite (with_mach_pure (user_readable root 0 0) k true eq_refl). reflexivity.
Qed.

Lemma null_write_stops_kernel_witness :
  current_space_root (two_users virt 0x40200000 1) ≠ None ∧
  dispatch 0 0 SYS_WRITE (λ i, if i =? 0 then 1 else 0) (two_users virt 0x40200000 1) =
    Panic "unsafe precondition(s) violated: slice::from_raw_parts".
Proof.
  split; [discriminate|].
  apply (null_write_stops_kernel 0 0 (two_users virt 0x40200000 1) (λ i, if i =? 0 then 1 else 0));
    [discriminate|reflexivity|reflexivity|reflexivity].
Defined.

(** C33: [restart] of a task that has not faulted is refused, but not without
    effect: whatever the healthy task was waiting for is forgotten, and every
    task that sent to it is failed with [EDEAD] as if it had died. *)
Theorem restart_disturbs_healthy ute tramp id k t :
  lengths_ok k → slot_id id → task_at k id = Some t → state t ≠ Faulted →
  wp (restart ute tramp id) k (λ r k', r = false ∧
    task_at k' id = Some t ∧ pending_at k' id = None ∧
    ∀ s m, slot_id s → s ≠ id → pending_at k s = Some (SendWait m) → target m = id →
      pending_at k' s = None ∧ outcome_at k' s = Some (mkOutcome EDEAD 0 0)).
Proof.
  intros Hl Hid Ht Hf. unfold restart. wp_step. eapply wp_mono; [by apply wp_abandon|].
  intros [] k1 (Hs & Hg & _). wp_step. wp_step.
  assert (Ht1 : task_at k1 id = Some t) by (exact (eq_trans (f_equal sl_task Hg) Ht)).
  rewrite Ht1. rewrite bool_decide_false by done. cbn [negb]. wp_step. split; [done|]. split; [done|].
  split; [exact (f_equal sl_pending Hg)|]. intros s m Hsid Hne Hp Htg.
  destruct (Hs s Hsid Hne) as [H1 H2].
  assert (Hw : waiting_on id (pending_at k s) = true) by (rewrite Hp; simpl; by apply Z.eqb_eq).
  rewrite Hw in H2. split; [|exact H2]. pose proof (f_equal sl_pending H1) as H3.
  unfold let_go in H3. change (sl_pending (slot_of k s)) with (pending_at k s) in H3. rewrite Hw in H3. exact H3.
Qed.

(** A supervisor, 1, a healthy receiver, 2, and a task that sent to it, 3. *)
Definition supervised : kernel :=
  set_pending [None; None; Some (RecvWait 0x402008 256); Some (SendWait (mkMessage 2 7 0 0 0 0)); None; None; None; None]
    (set_tasks [Some boot_task; Some (user_task 0 Runnable); Some (user_task 0 Blocked); Some (user_task 0 Blocked);
       None; None; None; None] (two_users virt 0 1)).

Lemma restart_disturbs_healthy_witness : ∃ k', restart 0 0 2 supervised = Done (false, k') ∧
  pending_at k' 2 = None ∧ pending_at k' 3 = None.
Proof.
  assert (Hl : lengths_ok supervised) by (split; try reflexivity; split; vm_compute; congruence).
  destruct (wp_elim _ _ _ (restart_disturbs_healthy 0 0 2 supervised _ Hl ltac:(split; vm_compute; congruence)
    eq_refl ltac:(discriminate))) as (r & k' & He & -> & _ & Hp & Hs).
  exists k'. split; [exact He|]. split; [exact Hp|].
  apply (Hs 3 (mkMessage 2 7 0 0 0 0)); [split; vm_compute; congruence|lia|reflexivity|reflexivity].
Defined.
