(* ===== verification/SystemProps.v ===== *)
(** * SystemProps: what holds in every state the kernel can reach *)

From S2P Require Import Prelude Memory Frames FramesBoot Paging Kernel Sched Notify Ipc Tasks Syscall.
From S2P Require Import KernelInv SchedSpec CallInv SyscallInv IpcProps Devices Exceptions System KernelProps.

Section reachable.
Context (respond : list access → Z → Z → Z) (frequency : Z).
Context (user_task_entry task_trampoline : Z).
Abbreviation reaches := (reachable respond frequency user_task_entry task_trampoline).

Lemma reachable_inv b0 b : kernel_inv (kern b0) → reaches b0 b → kernel_inv (kern b).
Proof. intros H0 H. induction H as [|b b' _ IH Hs]; [done|]. eapply step_inv; [exact IH|exact Hs]. Qed.

(** C7: in every reachable state a task whose message has not been answered is
    blocked inside [send], and the task it waits on is another one, and either
    alive, so that somebody is left to answer it, or a kernel thread that was
    preempted in [task_finished] between making itself a zombie and the end of
    [abandon], and that nobody has taken the place of: the one way out
    ([finish_strands_sender]).  Leases live only that long: a task has leases
    outstanding only while its message is unanswered. *)
Theorem senders_wait_on_the_living b0 b t :
  kernel_inv (kern b0) → reaches b0 b → slot_id t →
  (∀ m, waiting_msg (pending_at (kern b) t) = Some m →
     is_send (sl_ctx (slot_of (kern b) t)) ∧ sl_state (slot_of (kern b) t) = Some Blocked ∧
     slot_id (target m) ∧ target m ≠ t ∧
     (is_alive (kern b) (target m) = true ∨ sl_ctx (slot_of (kern b) (target m)) = Cut)) ∧
  (∀ n, lease_count (TABLE (kern b)) !! Z.to_nat t = Some n → n ≠ 0 →
     ∃ m, waiting_msg (pending_at (kern b) t) = Some m).
Proof.
  intros H0 Hr Ht. destruct (ki_slots _ (reachable_inv _ _ H0 Hr) t Ht) as [_ _ _ S4 S5 _]. split.
  - intros m Hm. destruct (S4 m Hm) as (? & ? & Hs & ? & [Ha|[]]). by rewrite is_alive_slot.
  - intros n Hn Hne. destruct (waiting_msg (pending_at (kern b) t)) as [m|] eqn:Hw; [by exists m|].
    destruct (S5 ltac:(cbn; by rewrite Hn) Hw).
Qed.

(** Without interrupts a thread ends as [task_finished] says. *)
Lemma abandon_live_quiet gone slots b :
  abandon_live respond frequency gone slots (λ _, ([], [])) b =
  (_ ← in_kernel (forM slots (λ slot,
    if slot =? gone then mret tt else
    p ← pending_of slot;
    if waiting_on gone p then _ ← deliver_outcome slot EDEAD 0; _ ← unblock_deferred slot; mret tt else mret tt));
   mret false) b.
Proof.
  revert b. induction slots as [|i slots IH]; intros b; [by destruct b|].
  cbn [abandon_live interrupts fst snd forM]. unfold in_kernel, zoom in *. cbv [mbind M_bind mret M_ret].
  destruct (i =? gone); [by rewrite IH; destruct b|].
  destruct (pending_of i (kern b)) as [[p k1]|]; [|done]. destruct (waiting_on gone p).
  - cbn [kern set_kern]. destruct (deliver_outcome i EDEAD 0 k1) as [[[] k2]|]; [|done]. cbn [kern set_kern].
    destruct (unblock_deferred i k2) as [[w k3]|]; [|done]. rewrite IH. by destruct b.
  - rewrite IH. by destruct b.
Qed.

Lemma finish_live_quiet b :
  finish_live respond frequency (λ _, ([], [])) b = (r ← in_kernel task_finished; mret (left_as r)) b.
Proof.
  unfold finish_live, task_finished, abandon. cbn [interrupts fst snd].
  unfold in_kernel, zoom.
  cbv [mbind M_bind mret M_ret getS gets]. cbn [kern set_kern].
  destruct (update_current _ (kern b)) as [[[] k1]|]; [|done]. rewrite abandon_live_quiet.
  unfold in_kernel, zoom. cbv [mbind M_bind mret M_ret getS gets]. cbn [kern set_kern].
  destruct (forM _ _ k1) as [[[] k2]|]; [|done]. cbn [kern set_kern].
  destruct (store_pending _ _ k2) as [[[] k3]|]; [|done].
  destruct (store_lease_count _ _ k3) as [[[] k4]|]; [|done]. cbn [kern set_kern].
  destruct (gone k4) as [[r k5]|]; [|done]. by destruct b.
Qed.


(** C18: in every reachable state the task the CPU is on is runnable, and the
    scheduler has somebody to switch to, so that the panic "every task is
    blocked" cannot happen: the boot task is runnable, and stays that way. *)
Theorem somebody_can_run b0 b :
  kernel_inv (kern b0) → reaches b0 b →
  sl_state (slot_of (kern b) (me (kern b))) = Some Runnable ∧
  sl_state (slot_of (kern b) 0) = Some Runnable ∧
  ∃ c, next_runnable (SCHEDULER (kern b)) = Some c ∧ slot_id c ∧ sl_state (slot_of (kern b) c) = Some Runnable.
Proof.
  intros H0 Hr. pose proof (reachable_inv _ _ H0 Hr) as Hk. split; [apply Hk|]. split.
  - destruct (ki_idle _ Hk) as (t & Ht & Hs & _). unfold sl_state. rewrite Ht. simpl. by f_equal.
  - apply next_runnable_slot; apply Hk.
Qed.

(** In every reachable state a task that ended, by exit, fault or being
    killed, or a slot that is free, waits for nothing: it has no message pending,
    wants no notification, waits for no fault; and only a task parked inside
    [recv] waits to receive or wants notifications. *)
Theorem waits_end_with_the_task b0 b t :
  kernel_inv (kern b0) → reaches b0 b → slot_id t →
  (is_alive (kern b) t = false →
     pending_at (kern b) t = None ∧ default 0 (WANTED (kern b) !! Z.to_nat t) = 0 ∧
     default false (FAULT_WAITERS (kern b) !! Z.to_nat t) = false) ∧
  ((∃ buf cap, pending_at (kern b) t = Some (RecvWait buf cap)) ∨
   default 0 (WANTED (kern b) !! Z.to_nat t) ≠ 0 → is_recv_wake (sl_ctx (slot_of (kern b) t))).
Proof.
  intros H0 Hr Ht. destruct (ki_slots _ (reachable_inv _ _ H0 Hr) t Ht) as [S1 _ S3 _ _ S6].
  rewrite is_alive_slot. split; [exact S6|]. intros [(buf & cap & Hp)|Hw]; [by eapply S3|by apply S1].
Qed.

End reachable.

(** ** Witnesses: two user tasks *)

Definition quiet_bus : list access → Z → Z → Z := λ _ _ _, SPURIOUS_INTID.

Definition user_start (k : kernel) : board := mkBoard k (mkDevices GICD_BOOTSTRAP GICC_BOOTSTRAP [] 0 0) 0 false 0.

Definition registers (number : Z) : TrapFrame := mkFrame (<[8%nat := number]> (replicate 31 0)) 0x400000 0 0x56000000 0.

(** The state a run ends in, if it does not panic. *)
Definition is_done {A} (r : res A) : bool := match r with Done _ => true | Panic _ => false end.
Definition state_of {S A} (s : S) (r : res (A * S)) : S := match r with Done (_, s') => s' | Panic _ => s end.
Lemma done_state {S} (s : S) (r : res (unit * S)) : is_done r = true → r = Done (tt, state_of s r).
Proof. by destruct r as [[[] s']|]. Qed.

Lemma user_start_inv : kernel_inv (kern (user_start (two_users virt 0x40200000 1))).
Proof.
  split.
  - split; try reflexivity. split; vm_compute; congruence.
  - exists boot_task. done.
  - reflexivity.
  - by refine (slot_cases _ _ _ _ _ _ _ _ _).
  - refine (slot_cases _ _ _ _ _ _ _ _ _); by apply settled_plain.
Qed.

Definition after_yield : board :=
  state_of (user_start (two_users virt 0x40200000 1))
    ((e ← handle_exception quiet_bus 62500000 0 0 (registers SYS_YIELD) 8 0; settle e 1)
       (user_start (two_users virt 0x40200000 1))).

Lemma reaches_switch : reachable quiet_bus 62500000 0 0 (user_start (two_users virt 0x40200000 1)) after_yield ∧
  me (kern after_yield) = 2.
Proof.
  split; [|reflexivity]. eapply reach_step; [apply reach_here|].
  apply (step_trap _ _ _ _ _ _ (registers SYS_YIELD) 8 0); [reflexivity|discriminate| |reflexivity|].
  - intros i. unfold reg, registers. cbn [x]. destruct (_ !! Z.to_nat i) as [v|] eqn:Hv; [|done].
    apply list_elem_of_lookup_2 in Hv. simpl. revert v Hv.
    assert (Hall : Forall (λ v, 0 ≤ v) (<[8%nat := SYS_YIELD]> (replicate 31 0))) by (repeat constructor; vm_compute; congruence).
    by apply Forall_forall.
  - apply done_state. reflexivity.
Qed.

(** A kernel thread, task 1, that task 2 has sent a message to, on a board where
    every acknowledged interrupt is the timer's. *)
Definition tick_bus : list access → Z → Z → Z := λ _ _ _, TIMER_INTID.
Definition server_thread : Task := mkTask "server" None 0 0 true NORMAL Runnable None None None.
Definition served : board := user_start
  (set_contexts (<[2%nat := Inside KSendWake]> (per_task Running))
  (set_pending (<[2%nat := Some (SendWait (mkMessage 1 7 0 0 0 0))]> (per_task None))
  (set_EMPTY_SPACE (Some 0x40201000)
  (set_SCHEDULER (mkScheduler [Some boot_task; Some server_thread; Some (user_task 0x40200000 Blocked);
     None; None; None; None; None] 1) (kernel_new virt))))).

Lemma served_inv : kernel_inv (kern served).
Proof.
  split.
  - split; try reflexivity. split; vm_compute; congruence.
  - exists boot_task. done.
  - reflexivity.
  - by refine (slot_cases _ _ _ _ _ _ _ _ _).
  - refine (slot_cases _ _ _ _ _ _ _ _ _); try by apply settled_plain.
    split; [done|done|done| |done|done]. intros m [= <-].
    split; [by right|]. split; [done|]. split; [split; vm_compute; congruence|]. split; [done|]. left. by left.
Qed.

Definition ended_server : board := state_of served (in_kernel (update_current (with_state Zombie)) served).
Definition ticked (r : res (bool * board)) : bool := match r with Done (true, _) => true | _ => false end.
Definition after_tick : board := state_of ended_server (interrupts tick_bus 62500000 [0] ended_server).

Lemma served_ends : in_kernel (update_current (with_state Zombie)) served = Done (tt, ended_server).
Proof. apply done_state. reflexivity. Qed.
Lemma served_ticks : interrupts tick_bus 62500000 [0] ended_server = Done (true, after_tick).
Proof.
  unfold after_tick. assert (H : ticked (interrupts tick_bus 62500000 [0] ended_server) = true) by reflexivity.
  revert H. generalize (interrupts tick_bus 62500000 [0] ended_server). by intros [[[] b]|].
Qed.


Lemma senders_wait_on_the_living_witness :
  (∃ m, waiting_msg (pending_at (kern served) 2) = Some m ∧ target m = 1) ∧
  sl_state (slot_of (kern served) 2) = Some Blocked ∧
  (is_alive (kern served) 1 = true ∨ sl_ctx (slot_of (kern served) 1) = Cut).
Proof.
  split; [by eexists|].
  destruct (senders_wait_on_the_living quiet_bus 62500000 0 0 served served 2 served_inv (reach_here _ _ _ _ _)
    ltac:(split; vm_compute; congruence)) as [H _].
  destruct (H (mkMessage 1 7 0 0 0 0) eq_refl) as (_ & Hb & _ & _ & Ha). split; [exact Hb|exact Ha].
Defined.

Lemma somebody_can_run_witness :
  me (kern after_yield) = 2 ∧ ∃ c, next_runnable (SCHEDULER (kern after_yield)) = Some c.
Proof.
  split; [exact (proj2 reaches_switch)|].
  destruct (somebody_can_run _ _ _ _ _ after_yield user_start_inv (proj1 reaches_switch)) as (_ & _ & c & Hc & _).
  exists c. exact Hc.
Defined.

Lemma waits_end_with_the_task_witness :
  is_alive (kern after_yield) 5 = false ∧ pending_at (kern after_yield) 5 = None.
Proof.
  assert (Hd : is_alive (kern after_yield) 5 = false) by reflexivity.
  split; [exact Hd|].
  exact (proj1 (proj1 (waits_end_with_the_task _ _ _ _ _ after_yield 5 user_start_inv (proj1 reaches_switch)
    ltac:(split; vm_compute; congruence)) Hd)).
Defined.
