(* ===== verification/MemProps.v ===== *)
(** * MemProps: whose memory is whose, in every state the kernel can reach

    From the account of [SystemMem]: no frame is lost or used twice, tasks cannot
    reach each other's memory or the kernel's, and every address space has the
    shape a user program was given. *)

From S2P Require Import Prelude Memory FrameAlloc Frames FramesSpec FramesBoot Paging PagingWalk PagingTables PagingMap PagingRange PagingSpace PagingOwn PagingKeep.
From S2P Require Import KernelMap Kernel Sched Notify Ipc Tasks Syscall KernelInv SchedSpec CallInv SyscallInv IpcProps ImageMem KernelMem Devices Exceptions System SystemMem SystemProps.

(** Every frame in use: what hangs under a root, and kernel stacks. *)
Definition used (k : kernel) : list Z := concat (map (owned 3 (memory (mach k))) (roots k)) ++ task_stacks k.

(** ** Consequences of the account *)

Section account.
Context (pool : Z → Prop) (m0 : mem) (k : kernel) (T : tables).
Let mm := memory (mach k).
Context (Ha : accounted pool m0 (mach k) T (task_stacks k)) (HT : ∀ r, T !! r = Some 3%nat ↔ r ∈ roots k).
Context (Hnd : NoDup (roots k)).

Lemma used_in g : g ∈ used k ↔ T !! g ≠ None ∨ page_in mm T g ∨ g ∈ task_stacks k.
Proof.
  unfold used. rewrite elem_of_app, elem_of_concat_map. split.
  - intros [(r & Hr%HT & Hg)|?]; [|by right; right].
    destruct (owned_level (FA := frames_alloc) _ _ _ _ _ Ha 3 r g Hr Hg) as [(j & Hj & _)|[_ ?]]; [left; congruence|by right; left].
  - assert (Hup : ∀ t l, T !! t = Some l → g ∈ owned l mm t → ∃ r, r ∈ roots k ∧ g ∈ owned 3 mm r).
    { intros t l Ht Hg. destruct (owned_root (FA := frames_alloc) _ _ _ _ _ Ha l t Ht) as (r & Hr & Hsub).
      exists r. split; [by apply HT|by apply Hsub]. }
    intros [Hg|[(f & i & Hf & Hp)|?]]; [left|left|by right].
    + destruct (T !! g) as [l|] eqn:Hl; [|done]. apply (Hup g l Hl). by apply (owned_self (FA := frames_alloc) _ _ _ _ _ Ha).
    + apply (Hup f 0%nat Hf). apply (owned_page (FA := frames_alloc)). right. by exists i.
Qed.

Lemma used_nodup : NoDup (used k).
Proof.
  unfold used. apply NoDup_app. split; [|split].
  - apply NoDup_concat_map; [exact Hnd| |].
    + intros r Hr%HT. exact (owned_nodup (FA := frames_alloc) _ _ _ _ _ Ha 3 r Hr).
    + intros r r' g Hr%HT Hr'%HT Hg Hg'. exact (owned_unique (FA := frames_alloc) _ _ _ _ _ Ha 3 r r' g Hr Hr' Hg Hg').
  - intros g (r & Hr%HT & Hg)%elem_of_concat_map Hs. destruct (proj2 (ac_held _ _ _ _ _ Ha) g Hs) as (_ & _ & Hn).
    destruct (owned_level (FA := frames_alloc) _ _ _ _ _ Ha 3 r g Hr Hg) as [(j & Hj & _)|[_ (f & i & Hf & Hp)]]; [congruence|].
    by destruct (ac_page _ _ _ _ _ Ha f i g Hf Hp) as (_ & _ & _ & ? & _).
  - apply (ac_held _ _ _ _ _ Ha).
Qed.

Lemma used_taken g : g ∈ used k → fa_frame (mach k) g ∧ ¬ fa_avail (mach k) g.
Proof. intros Hg%used_in. exact (ac_frame (FA := frames_alloc) _ _ _ _ _ g Ha Hg). Qed.

Lemma used_pool g : pool g ↔ fa_avail (mach k) g ∨ g ∈ used k.
Proof. rewrite used_in. apply (ac_pool _ _ _ _ _ Ha). Qed.

(** Two frames in use that share a byte are one. *)
Lemma used_apart g h x : g ∈ used k → h ∈ used k → in_frame g x → in_frame h x → g = h.
Proof.
  intros [Hg _]%used_taken [Hh _]%used_taken Hx Hx'. destruct (decide (g = h)) as [|Hne]; [done|].
  pose proof (frames_apart _ g h (ac_ok _ _ _ _ _ Ha) Hg Hh Hne). unfold frame_apart, in_frame in *. lia.
Qed.

(** A byte an address space reaches. *)
Lemma reached_page r va pa : r ∈ roots k → translation mm r va = Some pa →
  ∃ p, in_frame p pa ∧ p ∈ used k ∧ p ∈ owned 3 mm r ∧ T !! p = None ∧ p ∉ task_stacks k.
Proof.
  intros Hr%HT Ht. destruct (accounted_translation (FA := frames_alloc) _ _ _ _ _ _ _ _ Ha Hr Ht) as (p & Hp & Ho & ->).
  exists p. split.
  { unfold in_frame. change 4095 with (Z.ones 12). rewrite Z.land_ones by lia. zdiv. }
  split; [apply used_in; by right; left|]. split; [exact Ho|]. destruct Hp as (f & i & Hf & Hp).
  by destruct (ac_page _ _ _ _ _ Ha f i p Hf Hp) as (_ & _ & ? & ? & _).
Qed.

End account.

(** Two slots never hold the same root. *)
Lemma flat_map_two {A} (f : A → list Z) l i j a b x :
  NoDup (flat_map f l) → l !! i = Some a → l !! j = Some b → x ∈ f a → x ∈ f b → i = j.
Proof.
  revert i j. induction l as [|c l IH]; intros i j; [done|]. simpl. rewrite NoDup_app. intros (Hc & Hd & Hl).
  assert (Hlater : ∀ n d, l !! n = Some d → x ∈ f d → x ∈ f c → False).
  { intros n d Hn Hx Hxc. apply (Hd x Hxc). apply list_elem_of_In, in_flat_map. exists d.
    split; apply list_elem_of_In; [by eapply list_elem_of_lookup_2|done]. }
  destruct i as [|i], j as [|j]; simpl; [done| | |].
  - intros [= ->] Hb Hx Hx'. by destruct (Hlater j b Hb Hx' Hx).
  - intros Ha' [= ->] Hx Hx'. by destruct (Hlater i a Ha' Hx Hx').
  - intros. f_equal. by eapply IH.
Qed.

Lemma roots_apart k i j r : NoDup (roots k) → slot_id i → slot_id j →
  space_root_of k i = Some r → space_root_of k j = Some r → i = j.
Proof.
  unfold roots. intros (_ & _ & Hnd)%NoDup_app Hi Hj (t & Ht%task_at_list & Hs)%bind_Some (u & Hu%task_at_list & Hs')%bind_Some.
  assert (Z.to_nat i = Z.to_nat j); [|unfold slot_id in *; lia].
  eapply (flat_map_two held_space _ _ _ _ _ r Hnd Ht Hu); unfold held_space; simpl; [rewrite Hs|rewrite Hs']; by left.
Qed.

(** The frames an allocator has left, one by one. *)
Lemma avail_list m : alloc_inv m →
  ∃ l, NoDup l ∧ (∀ g, g ∈ l ↔ is_avail m g) ∧ Z.of_nat (length l) = free_frames m.
Proof.
  intros Hm. exists (map (from_index m) (elements (free_of m))). split; [|split].
  - apply NoDup_fmap_2_strong; [|apply NoDup_elements]. intros x y _ _. apply from_index_inj.
  - intros g. rewrite list_elem_of_fmap. unfold is_avail. setoid_rewrite elem_of_elements. done.
  - rewrite length_map. rewrite (inv_count _ Hm). done.
Qed.

(** The permission field is one of the attribute bits. *)
Lemma ap_of_perm d : ap (perm d) = ap d.
Proof.
  unfold ap, perm. rewrite Z.shiftr_land, <-Z.land_assoc. f_equal.
Qed.

Section reachable.
Context (respond : list access → Z → Z → Z) (frequency : Z).
Context (user_task_entry task_trampoline : Z).
Abbreviation reaches := (reachable respond frequency user_task_entry task_trampoline).
Context (m : machine) (b0 : board) (Hm : fa_ok m) (Hboot : booted m (kern b0)).

(** What [reachable_mem] says, taken apart. *)
Lemma reachable_account b : reaches b0 b →
  ∃ T, accounted (fa_avail m) (memory m) (mach (kern b)) T (task_stacks (kern b)) ∧
    (∀ r, T !! r = Some 3%nat ↔ r ∈ roots (kern b)) ∧ NoDup (roots (kern b)).
Proof.
  intros Hr. destruct (reachable_mem _ _ _ _ _ _ _ Hm Hboot Hr) as [_ [(T & Ha & HT) Hnd _ _ _ _ _]].
  rewrite app_nil_r in Ha, Hnd. exists T. split; [exact Ha|]. split; [|exact Hnd]. intros r. by rewrite HT, app_nil_r.
Qed.

Lemma reachable_image b : reaches b0 b → ∀ i r, space_root_of (kern b) i = Some r →
  r ∈ roots (kern b) ∧ image_space (memory (mach (kern b))) r.
Proof.
  intros Hr i r Hi%space_root_in. destruct (reachable_mem _ _ _ _ _ _ _ Hm Hboot Hr) as [_ Hk].
  split; [apply elem_of_app; by right|]. apply (mo_image _ _ _ _ _ Hk), elem_of_app. by left.
Qed.

Lemma current_root b r : reaches b0 b → current_space_root (kern b) = Some r → ttbr0 (kern b) = r.
Proof.
  intros Hr Hc. destruct (reachable_mem _ _ _ _ _ _ _ Hm Hboot Hr) as [_ Hk].
  destruct (mo_current _ _ _ _ _ Hk) as (t & Ht%task_at_list & _ & Hroot).
  unfold current_space_root in Hc. rewrite Ht in Hc. simpl in Hc. rewrite Hc in Hroot. by injection Hroot.
Qed.

(** C4: in every state the kernel can reach, each frame that was free when it
    came up is either free or in use in exactly one place: as a table or a page
    of one address space, or in the kernel stack of one task.  No frame is lost
    and none is used twice: the free frames and those in use add up to what
    there was. *)
Theorem frames_accounted b : reaches b0 b →
  NoDup (used (kern b)) ∧
  (∀ g, fa_avail m g ↔ fa_avail (mach (kern b)) g ∨ g ∈ used (kern b)) ∧
  (∀ g, g ∈ used (kern b) → ¬ fa_avail (mach (kern b)) g) ∧
  free_frames (mach (kern b)) + Z.of_nat (length (used (kern b))) = free_frames m.
Proof.
  intros (T & Ha & HT & Hnd)%reachable_account.
  assert (Hn : NoDup (used (kern b))) by (by eapply used_nodup).
  assert (Hp : ∀ g, fa_avail m g ↔ fa_avail (mach (kern b)) g ∨ g ∈ used (kern b)) by (intros g; by eapply used_pool).
  assert (Ht : ∀ g, g ∈ used (kern b) → ¬ fa_avail (mach (kern b)) g) by (intros g Hg; by eapply used_taken).
  split; [done|]. split; [done|]. split; [done|].
  destruct (avail_list m (proj1 Hm)) as (l & Hl & Hle & <-).
  destruct (avail_list (mach (kern b)) (proj1 (ac_ok _ _ _ _ _ Ha))) as (l' & Hl' & Hle' & <-).
  assert (Hperm : l ≡ₚ l' ++ used (kern b)).
  { apply NoDup_Permutation; [done| |].
    - apply NoDup_app. split; [done|]. split; [|done]. intros g Hg%Hle' Hu. by apply (Ht g Hu).
    - intros g. rewrite elem_of_app, Hle, Hle'. apply Hp. }
  rewrite Hperm, length_app. lia.
Qed.

(** C1: tasks are isolated: in every state the kernel can reach, a byte that the
    address space of one task translates to lies in a frame that was free when
    the kernel came up, in no kernel stack and in no translation table of any
    address space; and no other task's address space translates to it. *)
Theorem tasks_isolated b i r va pa : reaches b0 b → slot_id i →
  space_root_of (kern b) i = Some r → translation (memory (mach (kern b))) r va = Some pa →
  (∃ p, fa_avail m p ∧ in_frame p pa) ∧
  (∀ s, s ∈ task_stacks (kern b) → ¬ in_frame s pa) ∧
  (∀ r' va' t e, r' ∈ roots (kern b) → (t, e) ∈ visited 3 (memory (mach (kern b))) r' va' → ¬ in_frame t pa) ∧
  (∀ j r' va', slot_id j → j ≠ i → space_root_of (kern b) j = Some r' →
     translation (memory (mach (kern b))) r' va' ≠ Some pa).
Proof.
  intros Hr Hi Hs Htr. destruct (reachable_account b Hr) as (T & Ha & HT & Hnd).
  destruct (reachable_image b Hr i r Hs) as [Hin _].
  destruct (reached_page _ _ _ T Ha HT r va pa Hin Htr) as (p & Hp & Hu & Ho & HpT & Hps).
  assert (Hone : ∀ g, g ∈ used (kern b) → in_frame g pa → g = p) by (intros g Hg Hx; by eapply used_apart).
  split; [exists p; split; [|done]; eapply used_pool; [done..|by right]|]. split; [|split].
  - intros s Hst Hx. apply Hps. rewrite <-(Hone s); [done| |done]. eapply used_in; [done..|by right; right].
  - intros r' va' t e Hr' Hv Hx.
    destruct (visited_in _ _ (t_forest _ _ (ac_tables _ _ _ _ _ Ha)) 3 r' va' t e) as (l & Hl & _); [by apply HT|done|].
    rewrite (Hone t) in Hl; [congruence| |done]. eapply used_in; [done..|left; congruence].
  - intros j r' va' Hj Hne Hs' Htr'. destruct (reachable_image b Hr j r' Hs') as [Hin' _].
    destruct (reached_page _ _ _ T Ha HT r' va' pa Hin' Htr') as (p' & Hp' & Hu' & Ho' & _).
    rewrite (Hone p' Hu' Hp') in Ho'. apply HT in Hin as Hrt, Hin' as Hrt'.
    pose proof (owned_unique (FA := frames_alloc) _ _ _ _ _ Ha 3 r r' p Hrt Hrt' Ho Ho') as <-.
    apply Hne. by apply (roots_apart (kern b) j i r).
Qed.

(** The part of the image the kernel writes as it runs: its statics and the boot
    stack.  The model keeps what they hold in records, so as bytes of memory it
    says nothing of them. *)
Definition image_data (ly : layout) (x : Z) : Prop := data_start ly ≤ x < kernel_end ly.

(** C5: outside the data of the image and the frames that were free when the
    kernel came up, memory is never written: in every state the kernel can reach,
    its text and constants, the tables of its own map, the device tree and what
    lies below the image hold, byte for byte, what they held.  System calls,
    restarts, messages and user stores all stay inside the frames the allocator
    handed out. *)
Theorem kernel_memory_untouched ly b x : reaches b0 b → ¬ image_data ly x →
  (∀ g, fa_avail m g → ¬ in_frame g x) → memory (mach (kern b)) x = memory m x.
Proof. intros (T & Ha & _)%reachable_account _ Hx. by apply (ac_outside _ _ _ _ _ Ha). Qed.

(** In every state the kernel can reach, no address space maps a table: what
    [IpcProps.borrowed] asks for. *)
Lemma reachable_tables_apart b : reaches b0 b → ∃ T, tables_apart (kern b) T.
Proof.
  intros Hr. destruct (reachable_account b Hr) as (T & Ha & HT & _). exists T.
  split; [apply (t_forest _ _ (ac_tables _ _ _ _ _ Ha))|]. intros t r Hs.
  destruct (reachable_image b Hr t r Hs) as [Hin _]. split; [by apply HT|]. intros va pa f n Htr Hf Hx.
  destruct (reached_page _ _ _ T Ha HT r va pa Hin Htr) as (p & Hp & Hu & _ & Hnt & _).
  assert (p = f) as ->; [|congruence]. eapply used_apart; [exact Ha|exact HT|exact Hu| |exact Hp|exact Hx].
  eapply used_in; [exact Ha|exact HT|]. left. congruence.
Qed.


(** A program writes only to its own stack: in every state the kernel can
    reach, a store the hardware lets the running task make is to the page of its
    stack, changes no table, and leaves every byte of every other task's address
    space and of every kernel stack as it was. *)
Theorem user_store_confined b va v k' : reaches b0 b →
  current_space_root (kern b) ≠ None → store_user va v (kern b) = Some k' →
  USER_STACK_VA ≤ va < USER_STACK_TOP ∧
  (∀ r x, r ∈ roots (kern b) → translation (memory (mach k')) r x = translation (memory (mach (kern b))) r x) ∧
  (∀ j r x pa, slot_id j → j ≠ me (kern b) → space_root_of (kern b) j = Some r →
     translation (memory (mach (kern b))) r x = Some pa → memory (mach k') pa = memory (mach (kern b)) pa) ∧
  (∀ s x, s ∈ task_stacks (kern b) → in_frame s x → memory (mach k') x = memory (mach (kern b)) x).
Proof.
  intros Hr Hc Hst. destruct (current_space_root (kern b)) as [r0|] eqn:Hr0; [|done].
  assert (Hid : slot_id (me (kern b))).
  { destruct (reachable_mem _ _ _ _ _ _ _ Hm Hboot Hr) as [Hk _]. apply (len_current _ (ki_lengths _ Hk)). }
  pose proof (current_root b r0 Hr Hr0) as Htt. unfold store_user in Hst. destruct (_ && _) eqn:Hva; [|done].
  rewrite Htt in Hst. apply bind_Some in Hst as ([l d] & Hw & Hst). destruct (Z.eqb_spec (ap d) AP_RW_ALL) as [Hap|]; [|done].
  apply bind_Some in Hst as (pa & Hpa & [= <-]). cbn [mach set_mach].
  assert (Htr : translation (memory (mach (kern b))) r0 va = Some pa) by (unfold translation; by rewrite Hw).
  assert (Hothers : ∀ x, x ≠ pa → fill_range (memory (mach (kern b))) pa 1 v x = memory (mach (kern b)) x).
  { intros x Hx. unfold fill_range. destruct ((pa <=? x) && (x <? pa + 1)) eqn:Hin; [|done]. clear Hva. lia. }
  destruct (tasks_isolated b (me (kern b)) r0 va pa Hr Hid Hr0 Htr) as (_ & Hstk & Htab & Hoth).
  destruct (reachable_account b Hr) as (T & Ha & HT & Hnd). split; [|split; [|split]].
  - destruct (reachable_image b Hr _ r0 Hr0) as [_ Himg]. specialize (Himg va). rewrite Hw in Himg.
    destruct Himg as [_ [[_ Hp]|[Hp _]]]; [rewrite <-ap_of_perm, Hp in Hap; by vm_compute in Hap|].
    unfold page_of in Hp. change (USER_STACK_VA / 4096 mod 2 ^ 36) with 2047 in Hp.
    change USER_STACK_VA with (2047 * 4096). change USER_STACK_TOP with (2048 * 4096).
    change (2 ^ 36) with 68719476736 in Hp.
    apply andb_true_iff in Hva as [Hv0%Z.leb_le Hv1%Z.ltb_lt]. change (2 ^ 48) with 281474976710656 in Hv1. zdiv.
  - intros r x Hin. eapply translation_untouched; [apply (t_forest _ _ (ac_tables _ _ _ _ _ Ha))|by apply HT|].
    intros f l' y Hf Hy. apply Hothers. intros ->.
    destruct (reached_page _ _ _ T Ha HT r0 va pa (proj1 (reachable_image b Hr _ r0 Hr0)) Htr) as (p & Hp & Hu & _ & HpT & _).
    rewrite (used_apart _ _ _ T Ha HT f p pa) in Hf; [congruence| |done|exact Hy|done].
    eapply used_in; [done..|left; congruence].
  - intros j r x pb Hj Hne Hs Htb. apply Hothers. intros ->. by apply (Hoth j r x Hj Hne Hs).
  - intros st x Hin Hx. apply Hothers. intros ->. by apply (Hstk st).
Qed.

End reachable.

(** ** Witnesses: a kernel that came up and started two programs *)

Definition up : board := mkBoard (state_of (kernel_new virt) (bring_up (kernel_new virt)))
  (mkDevices GICD_BOOTSTRAP GICC_BOOTSTRAP [] 0 0) 0 false 0.

Lemma up_booted : booted virt (kern up).
Proof. apply done_state. vm_compute. reflexivity. Qed.

(** The state a call of the running thread leaves. *)
Definition called (b : board) (c : call) : board :=
  state_of b ((in_kernel (r ← perform 0 0 c; settle_kernel r (me (kern b)))) b).

(** Two programs are loaded, the boot task yields, the first program starts. *)
Definition one_loaded : board := called up (CSpawnUser "a" 0x40100000 0x40100100 7 NORMAL).
Definition loaded : board := called one_loaded (CSpawnUser "b" 0x40101000 0x40101080 9 NORMAL).
Definition chosen : board := called loaded CYield.
Definition started : board := set_kern (state_of (kern chosen) (settle_kernel (Ret (0, 0, 0)) 1 (kern chosen))) chosen.

Lemma devs_set_kern k b : devs (set_kern k b) = devs b.
Proof. done. Qed.

Lemma started_reached : reachable quiet_bus 62500000 0 0 up started ∧ me (kern started) = 1 ∧ here started = Running.
Proof.
  split; [|split; vm_compute; reflexivity].
  assert (Hc : ∀ b c, here b = Running → may_call (kern b) c →
    is_done ((in_kernel (r ← perform 0 0 c; settle_kernel r (me (kern b)))) b) = true →
    step quiet_bus 62500000 0 0 b (called b c)).
  { intros b c Hh Hm Hd. apply (step_call _ _ _ _ b _ c Hh Hm). by apply done_state. }
  apply (reach_step _ _ _ _ _ chosen).
  - apply (reach_step _ _ _ _ _ loaded); [apply (reach_step _ _ _ _ _ one_loaded); [apply (reach_step _ _ _ _ _ up); [apply reach_here|]|]|].
    + apply Hc; [vm_compute; reflexivity|done|vm_compute; reflexivity].
    + apply Hc; [vm_compute; reflexivity|done|vm_compute; reflexivity].
    + apply Hc; [vm_compute; reflexivity|done|vm_compute; reflexivity].
  - apply (step_start _ _ _ _ chosen started 0 0x400000); [vm_compute; reflexivity| |apply devs_set_kern].
    apply done_state. vm_compute. reflexivity.
Qed.

Definition virt_fa : fa_ok virt := proj1 virt_contract.

Lemma frames_accounted_witness :
  reachable quiet_bus 62500000 0 0 up started ∧ NoDup (used (kern started)) ∧
  free_frames (mach (kern started)) + Z.of_nat (length (used (kern started))) = free_frames virt.
Proof.
  destruct (frames_accounted quiet_bus 62500000 0 0 virt up virt_fa up_booted started (proj1 started_reached)) as (H1 & _ & _ & H2).
  split; [exact (proj1 started_reached)|]. split; [exact H1|exact H2].
Defined.

Lemma tasks_isolated_witness :
  space_root_of (kern started) 1 = Some 1075843072 ∧ space_root_of (kern started) 2 = Some 1075888128 ∧
  translation (memory (mach (kern started))) 1075843072 0x400000 = Some 1075847168 ∧
  ∀ va, translation (memory (mach (kern started))) 1075888128 va ≠ Some 1075847168.
Proof.
  assert (H1 : space_root_of (kern started) 1 = Some 1075843072) by (vm_compute; reflexivity).
  assert (H2 : space_root_of (kern started) 2 = Some 1075888128) by (vm_compute; reflexivity).
  assert (Ht : translation (memory (mach (kern started))) 1075843072 0x400000 = Some 1075847168) by (vm_compute; reflexivity).
  split; [exact H1|]. split; [exact H2|]. split; [exact Ht|]. intros va.
  destruct (tasks_isolated quiet_bus 62500000 0 0 virt up virt_fa up_booted started 1 _ _ _ (proj1 started_reached)
    ltac:(split; vm_compute; congruence) H1 Ht) as (_ & _ & _ & H).
  exact (H 2 1075888128 va ltac:(split; vm_compute; congruence) ltac:(lia) H2).
Defined.

Lemma kernel_memory_untouched_witness :
  ¬ image_data virt_layout 0x40080000 ∧ (∀ g, fa_avail virt g → ¬ in_frame g 0x40080000) ∧
  memory (mach (kern started)) 0x40080000 = memory virt 0x40080000.
Proof.
  assert (Hx : ∀ g, fa_avail virt g → ¬ in_frame g 0x40080000).
  { intros g (i & -> & Hi%virt_free) Hx. rewrite virt_index in Hx. unfold in_frame in Hx. lia. }
  assert (Hd : ¬ image_data virt_layout 0x40080000) by (unfold image_data; cbn; lia).
  split; [exact Hd|]. split; [exact Hx|].
  exact (kernel_memory_untouched quiet_bus 62500000 0 0 virt up virt_fa up_booted virt_layout started _
    (proj1 started_reached) Hd Hx).
Defined.


Lemma user_store_confined_witness : ∃ k', store_user 0x7ff010 65 (kern started) = Some k' ∧
  ∀ x pa, translation (memory (mach (kern started))) 1075888128 x = Some pa → memory (mach k') pa = memory (mach (kern started)) pa.
Proof.
  assert (Hsome : (if store_user 0x7ff010 65 (kern started) is Some _ then true else false) = true) by (vm_compute; reflexivity).
  destruct (store_user 0x7ff010 65 (kern started)) as [k'|] eqn:Hs; [clear Hsome|discriminate Hsome].
  exists k'. split; [reflexivity|].
  assert (Hc : current_space_root (kern started) ≠ None) by (vm_compute; discriminate).
  destruct (user_store_confined quiet_bus 62500000 0 0 virt up virt_fa up_booted started _ _ k' (proj1 started_reached)
    Hc Hs) as (_ & _ & H & _).
  intros x pa Htr. apply (H 2 1075888128 x pa); [split; vm_compute; congruence|rewrite (proj1 (proj2 started_reached)); lia| |exact Htr].
  vm_compute; reflexivity.
Defined.
