(* ===== verification/Fdt.v ===== *)
(** * Fdt: the flattened device tree ([fdt.rs])

    A blob is [totalsize] bytes of memory somebody else wrote.  Every read is
    big endian and checked against [totalsize]; [be32] is [ptr::read], which in
    the development profile panics on a pointer that is not aligned.  Strings
    are their bytes.  Here memory is indexed by the address the running code
    uses: the physical one while the MMU is off, the physical map's after. *)

From S2P Require Import Prelude Memory Frames Syscall.

(** ** Results that may also be missing *)

Definition obind {A B} (x : res (option A)) (f : A → res (option B)) : res (option B) :=
  o ← x; match o with Some a => f a | None => Done None end.
Notation "x ?← y ; z" := (obind y (λ x, z))
  (at level 20, y at level 100, z at level 200, only parsing) : stdpp_scope.
Notation "' x ?← y ; z" := (obind y (λ x, z))
  (at level 20, x pattern, y at level 100, z at level 200, only parsing) : stdpp_scope.
Definition some {A} (a : A) : res (option A) := Done (Some a).
Definition none {A} : res (option A) := Done None.

(** ** The header *)

Definition MAGIC : Z := 0xd00dfeed.
Definition HEADER_SIZE : Z := 40.
Definition SUPPORTED_VERSION : Z := 17.
Definition MAX_BLOB : Z := 1024 * 1024.

Inductive Error : Type :=
  | Null
  | Misaligned (a : Z)
  | BadMagic (magic : Z)
  | TooSmall (size : Z)
  | TooLarge (size : Z)
  | Version (version : Z)
  | BlockOutOfRange
  | OutsideRam (a : Z).

Record Header : Type := mkHeader {
  totalsize : Z;
  off_dt_struct : Z;
  off_dt_strings : Z;
  off_mem_rsvmap : Z;
  version : Z;
  last_comp_version : Z;
  boot_cpuid_phys : Z;
  size_dt_strings : Z;
  size_dt_struct : Z
}.

Record Blob : Type := mkBlob { blob_pa : Z; va : Z; header : Header }.

Global Instance Error_eq_dec : EqDecision Error.
Proof. solve_decision. Defined.
Global Instance Header_eq_dec : EqDecision Header.
Proof. solve_decision. Defined.

Definition describe (e : Error) : string :=
  match e with
  | Null => "null pointer"
  | Misaligned _ => "not 8 byte aligned"
  | BadMagic _ => "bad magic"
  | TooSmall _ => "totalsize too small"
  | TooLarge _ => "totalsize too large"
  | Version _ => "unsupported version"
  | BlockOutOfRange => "block runs off the end"
  | OutsideRam _ => "blob is not in RAM"
  end.

(** Whether [offset + size] stays within the blob. *)
Definition ends_inside (totalsize offset size : Z) : bool :=
  match checked_add32 offset size with
  | Some e => e <=? totalsize
  | None => false
  end.

(** ** Constants of the structure block *)

Definition FDT_BEGIN_NODE : Z := 0x1.
Definition FDT_END_NODE : Z := 0x2.
Definition FDT_PROP : Z := 0x3.
Definition FDT_NOP : Z := 0x4.
Definition FDT_END : Z := 0x9.
Definition MAX_DEPTH : Z := 16.
Definition DEFAULT_ADDRESS_CELLS : Z := 2.
Definition DEFAULT_SIZE_CELLS : Z := 1.

Record Node : Type := mkNode { offset : Z; depth : Z; address_cells : Z; size_cells : Z }.

Inductive Step : Type :=
  | SNode (n : Node) (name : list Z)
  | SProperty (name value : list Z).

Record Walker : Type := mkWalker { w_offset : Z; w_end : Z; w_depth : Z; cells : list (Z * Z) }.

Record Region : Type := mkRegion { base : Z; size : Z }.

(** ** Bytes *)

Definition be_bytes (l : list Z) : Z := foldl (λ v b, v * 256 + b) 0 l.

Definition align4 (o : Z) : Z := Z.land (saturating_add32 o 3) (not32 3).

(** [slice::split] and [str::split]. *)
Fixpoint split_on (sep : Z) (l : list Z) : list (list Z) :=
  match l with
  | [] => [[]]
  | c :: l' =>
    match split_on sep l' with
    | part :: parts => if c =? sep then [] :: part :: parts else (c :: part) :: parts
    | [] => [[c]]
    end
  end.

(** What precedes the first [sep], if there is one: [split_once]. *)
Fixpoint before (sep : Z) (l : list Z) : option (list Z) :=
  match l with
  | [] => None
  | c :: l' => if c =? sep then Some [] else (λ p, c :: p) <$> before sep l'
  end.

Definition same (blob_bytes want : list Z) : bool := bool_decide (blob_bytes = want).

Definition name_matches (name component : list Z) : bool :=
  if same name component then true else
  match before 64 name with Some base => same base component | None => false end.

Definition string_list_contains (l wanted : list Z) : bool :=
  existsb (λ entry, same entry wanted) (split_on 0 l).

(** [value.get(lo..hi)]. *)
Definition get_range (l : list Z) (lo hi : Z) : option (list Z) :=
  if (lo <=? hi) && (hi <=? Z.of_nat (length l)) then Some (take (Z.to_nat (hi - lo)) (drop (Z.to_nat lo) l))
  else None.

Fixpoint take_cells_from (count : nat) (value : Z) (rest : list Z) : option (Z * list Z) :=
  match count with
  | O => Some (value, rest)
  | S count' =>
    match get_range rest 0 4 with
    | None => None
    | Some cell =>
      take_cells_from count' (Z.lor (as_u64 (Z.shiftl value 32)) (be_bytes cell)) (drop 4 rest)
    end
  end.
Definition take_cells (bytes : list Z) (count : Z) : option (Z * list Z) :=
  take_cells_from (Z.to_nat count) 0 bytes.

Definition read_cells (value : list Z) : option Z := be_bytes <$> get_range value 0 4.

(** ** Reading the blob *)

Section blob.
Context (m : mem).

(** The [n] bytes at a pointer. *)
Definition load (p n : Z) : list Z := m <$> range p (p + n).

Definition be32 (a o : Z) : res Z :=
  p ← add64 a o;
  if is_multiple_of p 4 then Done (be_bytes (load p 4))
  else Panic "ptr::read requires that the pointer argument is aligned".

Definition probe (a : Z) : res (Result Header Error) :=
  if a =? 0 then Done (Err Null) else
  if negb (is_multiple_of a 8) then Done (Err (Misaligned a)) else
  magic ← be32 a 0;
  if negb (magic =? MAGIC) then Done (Err (BadMagic magic)) else
  total ← be32 a 4;
  if total <? HEADER_SIZE then Done (Err (TooSmall total)) else
  if MAX_BLOB <? total then Done (Err (TooLarge total)) else
  o_struct ← be32 a 8;
  o_strings ← be32 a 12;
  o_rsvmap ← be32 a 16;
  ver ← be32 a 20;
  last_comp ← be32 a 24;
  boot_cpu ← be32 a 28;
  s_strings ← be32 a 32;
  s_struct ← be32 a 36;
  let h := mkHeader total o_struct o_strings o_rsvmap ver last_comp boot_cpu s_strings s_struct in
  if (SUPPORTED_VERSION <? last_comp) || (ver <? last_comp) then Done (Err (Version ver)) else
  if negb (ends_inside total o_struct s_struct) || negb (ends_inside total o_strings s_strings)
     || (total <=? o_rsvmap)
  then Done (Err BlockOutOfRange)
  else Done (Ok h).

(** [init], with the RAM the allocator knows of and the offset of the physical
    map: the blob it returns... *)
Definition fdt_init (ram_base ram_size PHYS_OFFSET pa : Z) : res (Result Blob Error) :=
  if pa =? 0 then Done (Err Null) else
  outside ← (if pa <? ram_base then Done true else
             e ← add64 ram_base ram_size; Done (e <? saturating_add64 pa HEADER_SIZE));
  if outside : bool then Done (Err (OutsideRam pa)) else
  a ← add64 pa PHYS_OFFSET;
  h ← probe a;
  match h with
  | Err e => Done (Err e)
  | Ok h =>
    last ← add64 pa (totalsize h);
    e ← add64 ram_base ram_size;
    if e <? last then Done (Err (OutsideRam pa)) else Done (Ok (mkBlob pa a h))
  end.

(** ... which the static [BLOB] remembers. *)
Definition init_blob (ram_base ram_size PHYS_OFFSET pa : Z) (BLOB : option Blob)
    : res (Result Blob Error * option Blob) :=
  r ← fdt_init ram_base ram_size PHYS_OFFSET pa;
  Done (r, match r with Ok b => Some b | Err _ => BLOB end).

Definition early_probe (dtb_pa : Z) : res (option (Z * Z)) :=
  if dtb_pa =? 0 then none else
  h ← probe dtb_pa;
  match h with Ok h => some (dtb_pa, totalsize h) | Err _ => none end.

(** *** Checked reads *)

Definition u32_at (b : Blob) (o : Z) : res (option Z) :=
  match checked_add32 o 4 with
  | None => none
  | Some e => if totalsize (header b) <? e then none else v ← be32 (va b) o; some v
  end.

Definition u64_at (b : Blob) (o : Z) : res (option Z) :=
  high ?← u32_at b o;
  o4 ← add32 o 4;
  low ?← u32_at b o4;
  some (Z.lor (Z.shiftl high 32) low).

Definition bytes_at (b : Blob) (o len : Z) : res (option (list Z)) :=
  match checked_add32 o len with
  | None => none
  | Some e => if totalsize (header b) <? e then none else p ← add64 (va b) o; some (load p len)
  end.

(** The loop of [str_at]: the first zero byte among the [n] from [e] on. *)
Fixpoint find_nul (n : nat) (a e : Z) : res (option Z) :=
  match n with
  | O => none
  | S n' => p ← add64 a e; if m p =? 0 then some e else find_nul n' a (e + 1)
  end.

Definition str_at (b : Blob) (o limit : Z) : res (option (list Z)) :=
  let limit := Z.min limit (totalsize (header b)) in
  if limit <=? o then none else
  e ?← find_nul (Z.to_nat (limit - o)) (va b) o;
  bytes ?← bytes_at b o (e - o);
  if utf8_valid bytes then some bytes else none.

Definition string_at (b : Blob) (name_offset : Z) : res (option (list Z)) :=
  match checked_add32 (off_dt_strings (header b)) name_offset,
        checked_add32 (off_dt_strings (header b)) (size_dt_strings (header b)) with
  | Some start, Some e => if e <=? start then none else str_at b start e
  | _, _ => none
  end.

(** *** Properties of a node *)

(** [u32] additions in a row. *)
Definition sum32 (a b c : Z) : res Z := ab ← add32 a b; add32 ab c.

(** A property at [o], after its token: its name, its value, and what follows. *)
Definition prop_at (b : Blob) (o : Z) : res (option (list Z * list Z * Z)) :=
  o4 ← add32 o 4;
  len ?← u32_at b o4;
  o8 ← add32 o 8;
  name_offset ?← u32_at b o8;
  o12 ← add32 o 12;
  value ?← bytes_at b o12 len;
  name ?← string_at b name_offset;
  next ← sum32 o 12 len;
  some (name, value, align4 next).

(** Rounds that are enough: every one passes a token of four bytes. *)
Definition rounds (b : Blob) : nat := Z.to_nat (totalsize (header b) / 4 + 2).

(** [Properties::next]: the iterator is the offset it has reached. *)
Fixpoint next_property (fuel : nat) (b : Blob) (o : Z) : res (option (list Z * list Z * Z)) :=
  match fuel with
  | O => Panic "out of fuel"
  | S fuel' =>
    token ?← u32_at b o;
    if token =? FDT_NOP then o4 ← add32 o 4; next_property fuel' b o4 else
    if negb (token =? FDT_PROP) then none else prop_at b o
  end.

Definition properties (b : Blob) (n : Node) : res Z :=
  o4 ← add32 (offset n) 4;
  name ← str_at b o4 (totalsize (header b));
  match name with
  | Some name => after ← sum32 o4 (Z.of_nat (length name)) 1; Done (align4 after)
  | None => Done u32_max
  end.

(** [self.properties(node).find(..)]. *)
Fixpoint find_property (fuel : nat) (b : Blob) (o : Z) (name : list Z) : res (option (list Z)) :=
  match fuel with
  | O => Panic "out of fuel"
  | S fuel' =>
    '(found, value, o') ?← next_property (rounds b) b o;
    if same found name then some value else find_property fuel' b o' name
  end.

Definition property (b : Blob) (n : Node) (name : list Z) : res (option (list Z)) :=
  o ← properties b n; find_property (rounds b) b o name.

Definition property_u32 (b : Blob) (n : Node) (name : list Z) : res (option Z) :=
  value ?← property b n name; Done (read_cells value).

Definition property_str (b : Blob) (n : Node) (name : list Z) : res (option (list Z)) :=
  value ?← property b n name;
  match before 0 value with
  | Some bytes => if utf8_valid bytes then some bytes else none
  | None => none
  end.

(** One entry of a [reg] value, decoded with the cell counts of the parent. *)
Definition reg_entry (n : Node) (value : list Z) (index : Z) : option (Z * Z) :=
  let entry := (address_cells n + size_cells n) * 4 in
  if u64_max <? index * entry then None else
  match checked_add64 (index * entry) entry with
  | None => None
  | Some e =>
    match get_range value (index * entry) e with
    | None => None
    | Some bytes =>
      match take_cells bytes (address_cells n) with
      | None => None
      | Some (address, rest) =>
        match take_cells rest (size_cells n) with
        | None => None
        | Some (size, _) => Some (address, size)
        end
      end
    end
  end.

Definition reg (b : Blob) (n : Node) (index : Z) : res (option (Z * Z)) :=
  if (2 <? address_cells n) || (2 <? size_cells n) || (address_cells n =? 0) then none else
  value ?← property b n (bytes_of "reg");
  Done (reg_entry n value index).

(** [regions] with room for [room] of them; [found] is the index reached. *)
Fixpoint regions_from (room : nat) (b : Blob) (n : Node) (found : Z) : res (list Region) :=
  match room with
  | O => Done []
  | S room' =>
    r ← reg b n found;
    match r with
    | None => Done []
    | Some (base, size) => rest ← regions_from room' b n (found + 1); Done (mkRegion base size :: rest)
    end
  end.
Definition regions (b : Blob) (n : Node) (room : nat) : res (list Region) := regions_from room b n 0.

(** *** The walker *)

Definition walk (b : Blob) : Walker :=
  mkWalker (off_dt_struct (header b))
    (saturating_add32 (off_dt_struct (header b)) (size_dt_struct (header b))) 0
    (replicate (Z.to_nat MAX_DEPTH) (DEFAULT_ADDRESS_CELLS, DEFAULT_SIZE_CELLS)).

Definition with_offset (o : Z) (w : Walker) : Walker := mkWalker o (w_end w) (w_depth w) (cells w).
Definition with_depth (d : Z) (w : Walker) : Walker := mkWalker (w_offset w) (w_end w) d (cells w).
Definition with_cells (l : list (Z * Z)) (w : Walker) : Walker := mkWalker (w_offset w) (w_end w) (w_depth w) l.

(** What a property says of the cells below the node that is open. *)
Definition note_cells (w : Walker) (name value : list Z) : Walker :=
  match read_cells value, cells w !! Z.to_nat (w_depth w) with
  | Some v, Some (a, s) =>
    if 0 <? w_depth w then
      if same name (bytes_of "#address-cells") then with_cells (<[Z.to_nat (w_depth w) := (v, s)]> (cells w)) w
      else if same name (bytes_of "#size-cells") then with_cells (<[Z.to_nat (w_depth w) := (a, v)]> (cells w)) w
      else w
    else w
  | _, _ => w
  end.

(** [Walker::next]. *)
Fixpoint next (fuel : nat) (b : Blob) (w : Walker) : res (option (Step * Walker)) :=
  match fuel with
  | O => Panic "out of fuel"
  | S fuel' =>
    if w_end w <=? w_offset w then none else
    token ?← u32_at b (w_offset w);
    if token =? FDT_NOP then o ← add32 (w_offset w) 4; next fuel' b (with_offset o w) else
    if token =? FDT_END then none else
    if token =? FDT_BEGIN_NODE then
      let o := w_offset w in
      o4 ← add32 o 4;
      name ?← str_at b o4 (w_end w);
      if MAX_DEPTH <=? w_depth w + 1 then none else
      let d := w_depth w + 1 in
      match cells w !! Z.to_nat (d - 1), cells w !! Z.to_nat d with
      | Some (pa, ps), Some _ =>
        after ← sum32 o4 (Z.of_nat (length name)) 1;
        some (SNode (mkNode o d pa ps) name,
              mkWalker (align4 after) (w_end w) d
                (<[Z.to_nat d := (DEFAULT_ADDRESS_CELLS, DEFAULT_SIZE_CELLS)]> (cells w)))
      | _, _ => Panic "index out of bounds"
      end
    else if token =? FDT_END_NODE then
      if w_depth w =? 0 then none else
      o ← add32 (w_offset w) 4;
      next fuel' b (with_offset o (with_depth (w_depth w - 1) w))
    else if token =? FDT_PROP then
      '(name, value, o) ?← prop_at b (w_offset w);
      some (SProperty name value, note_cells (with_offset o w) name value)
    else none
  end.

(** *** Searching *)

Definition components (path : list Z) : list (list Z) := filter (λ part, part ≠ []) (split_on 47 path).

(** The loop of [find_node]: [on_path] remembers which open nodes match. *)
Fixpoint find_node_loop (fuel : nat) (b : Blob) (w : Walker) (path : list Z) (on_path : list bool)
    : res (option Node) :=
  match fuel with
  | O => Panic "out of fuel"
  | S fuel' =>
    '(step, w') ?← next (rounds b) b w;
    match step with
    | SProperty _ _ => find_node_loop fuel' b w' path on_path
    | SNode n name =>
      let matched :=
        if depth n =? 1 then bool_decide (name = []) else
        match components path !! Z.to_nat (depth n - 2) with
        | Some component => default false (on_path !! Z.to_nat (depth n - 1)) && name_matches name component
        | None => false
        end in
      match on_path !! Z.to_nat (depth n) with
      | None => Panic "index out of bounds"
      | Some _ =>
        if matched && (depth n =? Z.of_nat (length (components path)) + 1) then some n
        else find_node_loop fuel' b w' path (<[Z.to_nat (depth n) := matched]> on_path)
      end
    end
  end.

Definition find_node (b : Blob) (path : list Z) : res (option Node) :=
  find_node_loop (rounds b) b (walk b) path (<[0%nat := true]> (replicate (Z.to_nat MAX_DEPTH) false)).

Fixpoint find_compatible_loop (fuel : nat) (b : Blob) (w : Walker) (wanted : list Z) (after : Z)
    : res (option Node) :=
  match fuel with
  | O => Panic "out of fuel"
  | S fuel' =>
    '(step, w') ?← next (rounds b) b w;
    match step with
    | SProperty _ _ => find_compatible_loop fuel' b w' wanted after
    | SNode n _ =>
      if offset n <=? after then find_compatible_loop fuel' b w' wanted after else
      l ← property b n (bytes_of "compatible");
      match l with
      | Some l => if string_list_contains l wanted then some n else find_compatible_loop fuel' b w' wanted after
      | None => find_compatible_loop fuel' b w' wanted after
      end
    end
  end.

Definition find_compatible_after (b : Blob) (wanted : list Z) (after : Z) : res (option Node) :=
  find_compatible_loop (rounds b) b (walk b) wanted after.
Definition find_compatible (b : Blob) (wanted : list Z) : res (option Node) := find_compatible_after b wanted 0.

(** *** The memory map *)

Definition MAX_RESERVATIONS : Z := 8.

Record MemoryMap : Type := mkMap {
  map_base : Z;
  map_size : Z;
  banks : Z;
  reserved : list (Z * Z);   (** the first [reservation_count] entries *)
  dropped : Z
}.

Definition empty_map : MemoryMap := mkMap 0 0 0 [] 0.

Definition reserve (base size : Z) (p : MemoryMap) : MemoryMap :=
  if size =? 0 then p else
  if Z.of_nat (length (reserved p)) =? MAX_RESERVATIONS then
    mkMap (map_base p) (map_size p) (banks p) (reserved p) (dropped p + 1)
  else mkMap (map_base p) (map_size p) (banks p) (reserved p ++ [(base, size)]) (dropped p).

Fixpoint rsvmap_loop (fuel : nat) (b : Blob) (o : Z) (p : MemoryMap) : res MemoryMap :=
  match fuel with
  | O => Panic "out of fuel"
  | S fuel' =>
    base ← u64_at b o;
    o8 ← add32 o 8;
    size ← u64_at b o8;
    match base, size with
    | Some base, Some size =>
      if (base =? 0) && (size =? 0) then Done p else
      o16 ← add32 o 16;
      rsvmap_loop fuel' b o16 (reserve base size p)
    | _, _ => Done p
    end
  end.

Fixpoint reserved_children (fuel : nat) (b : Blob) (w : Walker) (parent : Node) (p : MemoryMap)
    : res MemoryMap :=
  match fuel with
  | O => Panic "out of fuel"
  | S fuel' =>
    s ← next (rounds b) b w;
    match s with
    | None => Done p
    | Some (SProperty _ _, w') => reserved_children fuel' b w' parent p
    | Some (SNode n _, w') =>
      if offset n <=? offset parent then reserved_children fuel' b w' parent p else
      if depth n <=? depth parent then Done p else
      if depth n =? depth parent + 1 then
        r ← reg b n 0;
        reserved_children fuel' b w' parent (match r with Some (base, size) => reserve base size p | None => p end)
      else reserved_children fuel' b w' parent p
    end
  end.

Definition memory_map (b : Blob) : res MemoryMap :=
  let p := reserve (blob_pa b) (totalsize (header b)) empty_map in
  p ← rsvmap_loop (rounds b) b (off_mem_rsvmap (header b)) p;
  parent ← find_node b (bytes_of "/reserved-memory");
  p ← (match parent with
       | Some parent => reserved_children (rounds b) b (walk b) parent p
       | None => Done p
       end);
  memory ← find_node b (bytes_of "/memory");
  match memory with
  | None => Done p
  | Some memory =>
    r ← reg b memory 0;
    match r with
    | Some (base, size) =>
      if negb (size =? 0) then
        value ← property b memory (bytes_of "reg");
        let entry := Z.max ((address_cells memory + size_cells memory) * 4) 1 in
        let n := match value with Some v => Z.of_nat (length v) / entry | None => 1 end in
        Done (mkMap base size n (reserved p) (dropped p))
      else Done p
    | None => Done p
    end
  end.

End blob.
