(* ===== verification/FdtSpec.v ===== *)
(** * FdtSpec: reading a device tree stays inside it and comes back

    Two memories that agree on the blob give the same answers, and a blob whose
    structure and reservation blocks are aligned gives them without a panic.
    One pass proves both: [sim ok x y P] says that the two runs end the same
    way, with a result that satisfies [P], and that they end at all under [ok]. *)

From S2P Require Import Prelude Memory Frames Syscall Fdt.

Definition sim (ok : Prop) {A} (x y : res A) (P : A → Prop) : Prop :=
  match x, y with
  | Done a, Done b => a = b ∧ P a
  | Panic w, Panic w' => w = w' ∧ ¬ ok
  | _, _ => False
  end.

(** What holds of a result when there is one. *)
Definition opt {A} (P : A → Prop) (o : option A) : Prop := match o with Some a => P a | None => True end.

Section sim.
Context (ok : Prop).

Lemma sim_ret {A} (a : A) (P : A → Prop) : P a → sim ok (Done a) (Done a) P.
Proof. done. Qed.
Lemma sim_some {A} (a : A) (P : option A → Prop) : P (Some a) → sim ok (some a) (some a) P.
Proof. done. Qed.
Lemma sim_none {A} (P : option A → Prop) : P None → sim ok none none P.
Proof. done. Qed.
Lemma sim_bind {A B} (x y : res A) (f g : A → res B) (P : A → Prop) Q :
  sim ok x y P → (∀ a, P a → sim ok (f a) (g a) Q) → sim ok (x ≫= f) (y ≫= g) Q.
Proof. unfold sim at 1. destruct x, y; try done. intros [-> HP] H. by apply H. Qed.
Lemma sim_obind {A B} (x y : res (option A)) (f g : A → res (option B)) (P : option A → Prop) Q :
  sim ok x y P → (P None → Q None) → (∀ a, P (Some a) → sim ok (f a) (g a) Q) →
  sim ok (obind x f) (obind y g) Q.
Proof.
  intros H HN HS. eapply sim_bind; [exact H|]. intros [a|] Ha; [by apply HS|]. by apply sim_none, HN.
Qed.
Lemma sim_mono {A} (x y : res A) (P Q : A → Prop) : sim ok x y P → (∀ a, P a → Q a) → sim ok x y Q.
Proof. unfold sim. destruct x, y; naive_solver. Qed.
Lemma sim_refl_done {A} (x : res A) (P : A → Prop) a : x = Done a → P a → sim ok x x P.
Proof. by intros ->. Qed.
Lemma sim_eq {A} (x y : res A) P : sim ok x y P → x = y.
Proof. unfold sim. destruct x, y; naive_solver. Qed.
Lemma sim_done {A} (x y : res A) P : sim ok x y P → ok → ∃ a, x = Done a ∧ P a.
Proof. unfold sim. destruct x, y; naive_solver. Qed.

Lemma sim_add32 a b (P : Z → Prop) : a + b ≤ u32_max → P (a + b) → sim ok (add32 a b) (add32 a b) P.
Proof. intros H HP. eapply sim_refl_done; [by apply add32_ok|done]. Qed.
Lemma sim_add64 a b (P : Z → Prop) : a + b ≤ u64_max → P (a + b) → sim ok (add64 a b) (add64 a b) P.
Proof. intros H HP. eapply sim_refl_done; [by apply add64_ok|done]. Qed.
Lemma sim_sum32 a b c (P : Z → Prop) :
  0 ≤ c → a + b + c ≤ u32_max → P (a + b + c) → sim ok (sum32 a b c) (sum32 a b c) P.
Proof.
  intros Hc H HP. eapply sim_refl_done; [|done]. unfold sum32.
  rewrite (add32_ok a b) by lia. simpl. apply add32_ok. lia.
Qed.
End sim.

(** ** A blob whose header has passed the checks *)

Record blob_ok (b : Blob) : Prop := mkBlobOk {
  bo_size : HEADER_SIZE ≤ totalsize (header b) ≤ MAX_BLOB;
  bo_va : 0 ≤ va b ∧ va b + totalsize (header b) ≤ u64_max;
  bo_align : va b mod 8 = 0;
  bo_struct : 0 ≤ off_dt_struct (header b) ∧ 0 ≤ size_dt_struct (header b) ∧
    off_dt_struct (header b) + size_dt_struct (header b) ≤ totalsize (header b);
  bo_strings : 0 ≤ off_dt_strings (header b) ∧ 0 ≤ size_dt_strings (header b) ∧
    off_dt_strings (header b) + size_dt_strings (header b) ≤ totalsize (header b);
  bo_rsvmap : 0 ≤ off_mem_rsvmap (header b) < totalsize (header b)
}.

(** The blocks the header check does not insist on aligning. *)
Definition blob_aligned (b : Blob) : Prop :=
  off_dt_struct (header b) mod 4 = 0 ∧ off_mem_rsvmap (header b) mod 4 = 0.

(** ** Bytes *)

Lemma be_bytes_app l1 l2 : be_bytes (l1 ++ l2) = be_bytes l1 * 256 ^ Z.of_nat (length l2) + be_bytes l2.
Proof.
  unfold be_bytes. rewrite foldl_app. generalize (foldl (λ v b : Z, v * 256 + b) 0 l1).
  induction l2 as [|b l IH] using rev_ind; intros v; [simpl; lia|].
  rewrite !foldl_app. cbn [foldl]. rewrite IH, length_app, Nat2Z.inj_add, Z.pow_add_r by lia.
  change (256 ^ Z.of_nat (length [b])) with 256. lia.
Qed.

Lemma be_bytes_bound l :
  Forall (λ b, 0 ≤ b < 256) l → 0 ≤ be_bytes l < 256 ^ Z.of_nat (length l).
Proof.
  induction l as [|b l IH] using rev_ind; intros H; [done|].
  apply Forall_app in H as [Hl Hb]. rewrite Forall_singleton in Hb. rewrite be_bytes_app, length_app.
  change (length [b]) with 1%nat. rewrite Nat2Z.inj_add, Z.pow_add_r by lia.
  change (256 ^ Z.of_nat 1) with 256. specialize (IH Hl).
  change (be_bytes [b]) with (0 * 256 + b). lia.
Qed.

Lemma align4_spec o :
  0 ≤ o ≤ u32_max - 3 → o ≤ align4 o ≤ o + 3 ∧ align4 o mod 4 = 0.
Proof.
  intros Ho. unfold align4, saturating_add32. rewrite Z.min_l by lia.
  assert (He : Z.land (o + 3) (not32 3) = (o + 3) / 4 * 4).
  { change (not32 3) with (Z.ldiff u32_max (Z.ones 2)).
    rewrite Z.ldiff_land, Z.land_assoc. change u32_max with (Z.ones 32).
    rewrite (Z.land_ones (o + 3) 32) by lia.
    rewrite Z.mod_small by (change (2 ^ 32) with (u32_max + 1); lia).
    rewrite <-Z.ldiff_land, Z.ldiff_ones_r by lia. rewrite Z.shiftr_div_pow2, Z.shiftl_mul_pow2 by lia.
    done. }
  rewrite He. split; [pose proof (align_down_le (o + 3) 4); lia|]. apply Z.mod_mul. lia.
Qed.

(** ** Reads *)

Section reads.
Context (m m' : mem) (b : Blob).
Context (Hm : bytes_ok m) (Hb : blob_ok b).
Context (Hag : mem_agree m m' (va b) (totalsize (header b))).
Local Abbreviation T := (totalsize (header b)).
Local Abbreviation aligned := (blob_aligned b).

Lemma load_length p n : 0 ≤ n → Z.of_nat (length (load m p n)) = n.
Proof. intros Hn. unfold load. rewrite length_fmap, length_range. lia. Qed.

Lemma load_bytes p n : Forall (λ x, 0 ≤ x < 256) (load m p n).
Proof. unfold load. apply Forall_fmap, Forall_true. intros x. apply Hm. Qed.

Lemma load_ext p n : va b ≤ p → p + n ≤ va b + T → load m p n = load m' p n.
Proof.
  intros Hlo Hhi. unfold load. apply list_fmap_ext. intros i x Hx.
  apply list_elem_of_lookup_2, elem_of_range in Hx. apply Hag. lia.
Qed.

Ltac bounds := destruct (bo_size _ Hb), (bo_va _ Hb), (bo_struct _ Hb) as (? & ? & ?),
  (bo_strings _ Hb) as (? & ? & ?), (bo_rsvmap _ Hb); unfold HEADER_SIZE, MAX_BLOB in *.

Lemma be32_sim o :
  0 ≤ o → o + 4 ≤ T → (aligned → o mod 4 = 0) →
  sim aligned (be32 m (va b) o) (be32 m' (va b) o) is_u32.
Proof.
  intros Ho HT Hal. bounds. pose proof (bo_align _ Hb) as Hva. unfold be32.
  eapply sim_bind; [by apply (sim_add64 _ _ _ (λ p, p = va b + o)); [lia|]|]. intros p ->.
  unfold is_multiple_of. destruct (Z.eqb_spec ((va b + o) mod 4) 0) as [He|He].
  - rewrite <-load_ext by lia. apply sim_ret.
    pose proof (be_bytes_bound _ (load_bytes (va b + o) 4)) as Hbd. rewrite load_length in Hbd by lia.
    change (256 ^ 4) with (u32_max + 1) in Hbd. unfold is_u32. lia.
  - split; [done|]. intros Ha. specialize (Hal Ha). zdiv.
Qed.

(** A token or a cell may be read: it is aligned, or outside the blob. *)
Definition at_token (o : Z) : Prop := 0 ≤ o ∧ (aligned → o mod 4 = 0 ∨ T < o).

Lemma at_token_aligned o : 0 ≤ o → (aligned → o mod 4 = 0) → at_token o.
Proof. intros Ho Ha. split; [done|]. intros H. left. auto. Qed.
Lemma at_token_inside o : at_token o → o + 4 ≤ T → aligned → o mod 4 = 0.
Proof. intros [_ Ha] HT H. destruct (Ha H); [done|lia]. Qed.

Lemma u32_at_sim o :
  at_token o →
  sim aligned (u32_at m b o) (u32_at m' b o) (opt (λ v, is_u32 v ∧ o + 4 ≤ T)).
Proof.
  intros Ho. unfold u32_at. destruct (checked_add32 o 4) as [e|] eqn:He; [|by apply sim_none].
  apply checked_add32_Some in He as [-> He]. destruct (Z.ltb_spec T (o + 4)); [by apply sim_none|].
  eapply sim_bind; [apply be32_sim; [apply Ho|lia|by apply at_token_inside; [|lia]]|].
  intros v Hv. by apply sim_some.
Qed.

Lemma u64_at_sim o :
  at_token o →
  sim aligned (u64_at m b o) (u64_at m' b o) (opt (λ v, is_u64 v ∧ o + 8 ≤ T)).
Proof.
  intros Ho. unfold u64_at. bounds. eapply sim_obind; [by apply u32_at_sim|done|]. intros high [Hh Hin].
  pose proof (at_token_inside _ Ho Hin) as Hal. destruct Ho as [Ho _].
  eapply sim_bind; [by apply (sim_add32 _ _ _ (λ x, x = o + 4)); [lia|]|]. intros o4 ->.
  eapply sim_obind; [apply u32_at_sim, at_token_aligned; [lia|intros Ha; specialize (Hal Ha); zdiv]|done|].
  intros low [Hl ?]. apply sim_some. split; [|lia].
  unfold is_u32, is_u64 in *. rewrite Z.shiftl_mul_pow2 by lia.
  assert (0 ≤ Z.lor (high * 2 ^ 32) low < 2 ^ 64); [|lia].
  apply lor_range; [lia| |]; lia.
Qed.

Lemma bytes_at_sim o len :
  0 ≤ o → 0 ≤ len →
  sim aligned (bytes_at m b o len) (bytes_at m' b o len)
    (opt (λ v, v = load m (va b + o) len ∧ Z.of_nat (length v) = len ∧ o + len ≤ T)).
Proof.
  intros Ho Hlen. unfold bytes_at. destruct (checked_add32 o len) as [e|] eqn:He; [|by apply sim_none].
  apply checked_add32_Some in He as [-> He]. destruct (Z.ltb_spec T (o + len)); [by apply sim_none|].
  bounds. eapply sim_bind; [by apply (sim_add64 _ _ _ (λ p, p = va b + o)); [lia|]|]. intros p ->.
  rewrite <-load_ext by lia. apply sim_some. split; [done|]. split; [by apply load_length|done].
Qed.

Lemma find_nul_sim n e :
  0 ≤ e → e + Z.of_nat n ≤ T →
  sim aligned (find_nul m n (va b) e) (find_nul m' n (va b) e) (opt (λ x, e ≤ x < e + Z.of_nat n)).
Proof.
  revert e. induction n as [|n IH]; intros e He HT; cbn [find_nul]; [by apply sim_none|].
  bounds. eapply sim_bind; [by apply (sim_add64 _ _ _ (λ p, p = va b + e)); [lia|]|]. intros p ->.
  rewrite <-Hag by lia. destruct (m (va b + e) =? 0); [apply sim_some; simpl; lia|].
  eapply sim_mono; [apply IH; lia|]. intros [x|]; simpl; [lia|done].
Qed.

Lemma str_at_sim o limit :
  0 ≤ o →
  sim aligned (str_at m b o limit) (str_at m' b o limit)
    (opt (λ s, o + Z.of_nat (length s) < Z.min limit T)).
Proof.
  intros Ho. unfold str_at. destruct (Z.leb_spec (Z.min limit T) o); [by apply sim_none|].
  eapply sim_obind; [apply find_nul_sim; lia|done|]. intros e He. simpl in He.
  eapply sim_obind; [apply bytes_at_sim; lia|done|]. intros s (_ & Hs & _).
  destruct (utf8_valid s); [apply sim_some|by apply sim_none]. simpl. lia.
Qed.

Lemma string_at_sim o :
  0 ≤ o → sim aligned (string_at m b o) (string_at m' b o) (λ _, True).
Proof.
  intros Ho. unfold string_at. bounds.
  destruct (checked_add32 _ o) as [s|] eqn:Hs; [|by apply sim_none].
  destruct (checked_add32 _ (size_dt_strings _)) as [e|] eqn:He; [|by apply sim_none].
  apply checked_add32_Some in Hs as [-> Hs]. destruct (Z.leb_spec e (off_dt_strings (header b) + o)); [by apply sim_none|].
  eapply sim_mono; [apply str_at_sim; lia|done].
Qed.

(** What a property says: its value lies in the blob, what follows is aligned. *)
Lemma prop_at_sim o :
  0 ≤ o → o + 4 ≤ T → (aligned → o mod 4 = 0) →
  sim aligned (prop_at m b o) (prop_at m' b o)
    (opt (λ '(name, value, o'), o + 12 ≤ o' ≤ T + 3 ∧ o' mod 4 = 0 ∧ Z.of_nat (length value) ≤ T)).
Proof.
  intros Ho HT Hal. unfold prop_at. bounds.
  assert (Hk : ∀ k, k mod 4 = 0 → aligned → (o + k) mod 4 = 0).
  { intros k Hk Ha. specialize (Hal Ha). rewrite Zplus_mod, Hal, Hk. done. }
  eapply sim_bind; [by apply (sim_add32 _ _ _ (λ x, x = o + 4)); [lia|]|]. intros ? ->.
  eapply sim_obind; [apply u32_at_sim, at_token_aligned; [lia|by apply Hk]|done|]. intros len [Hlen ?].
  eapply sim_bind; [by apply (sim_add32 _ _ _ (λ x, x = o + 8)); [lia|]|]. intros ? ->.
  eapply sim_obind; [apply u32_at_sim, at_token_aligned; [lia|by apply Hk]|done|]. intros no [Hno ?].
  eapply sim_bind; [by apply (sim_add32 _ _ _ (λ x, x = o + 12)); [lia|]|]. intros ? ->.
  unfold is_u32 in *.
  eapply sim_obind; [apply bytes_at_sim; lia|done|]. intros value (_ & Hv & ?).
  eapply sim_obind; [apply string_at_sim; lia|done|]. intros name _.
  eapply sim_bind; [by apply (sim_sum32 _ _ _ _ (λ x, x = o + 12 + len)); [lia|lia|]|]. intros ? ->.
  apply sim_some. simpl. destruct (align4_spec (o + 12 + len)); [lia|]. split; [lia|]. split; [done|lia].
Qed.

(** ** The properties of a node *)

Lemma rounds_enough o : 0 ≤ o → T < o + 4 * Z.of_nat (rounds b) ∧ (0 < rounds b)%nat.
Proof. intros Ho. bounds. unfold rounds. pose proof (Z.div_mod T 4). pose proof (Z.mod_pos_bound T 4). lia. Qed.

Lemma next_property_sim fuel o :
  at_token o → T < o + 4 * Z.of_nat fuel → (0 < fuel)%nat →
  sim aligned (next_property m fuel b o) (next_property m' fuel b o)
    (opt (λ '(name, value, o'), o + 12 ≤ o' ≤ T + 3 ∧ o' mod 4 = 0 ∧ Z.of_nat (length value) ≤ T)).
Proof.
  revert o. induction fuel as [|fuel IH]; intros o Ho HT Hf; [lia|]. cbn [next_property].
  bounds. eapply sim_obind; [by apply u32_at_sim|done|]. intros token [_ Hend].
  pose proof (at_token_inside _ Ho Hend) as Hal. destruct Ho as [Ho _].
  destruct (token =? FDT_NOP).
  - eapply sim_bind; [by apply (sim_add32 _ _ _ (λ x, x = o + 4)); [lia|]|]. intros ? ->.
    eapply sim_mono; [apply IH; [apply at_token_aligned; [lia|intros Ha; specialize (Hal Ha); zdiv]|lia|lia]|].
    intros [[[name value] o']|]; simpl; [lia|done].
  - destruct (negb _); [by apply sim_none|]. by apply prop_at_sim.
Qed.

Record node_ok (n : Node) : Prop := mkNodeOk {
  no_offset : 0 ≤ offset n ∧ offset n + 4 ≤ T;
  no_depth : 1 ≤ depth n < MAX_DEPTH;
  no_align : aligned → offset n mod 4 = 0
}.

Lemma properties_sim n :
  node_ok n → sim aligned (properties m b n) (properties m' b n) at_token.
Proof.
  intros [[Hn HnT] _ Hal]. unfold properties. bounds.
  eapply sim_bind; [by apply (sim_add32 _ _ _ (λ x, x = offset n + 4)); [lia|]|]. intros o4 ->.
  eapply sim_bind; [apply str_at_sim; lia|]. intros [s|] Hs; [|by apply sim_ret; split; [|right; lia]].
  simpl in Hs.
  eapply sim_bind; [by apply (sim_sum32 _ _ _ _ (λ x, x = offset n + 4 + Z.of_nat (length s) + 1)); [lia|lia|]|].
  intros ? ->. apply sim_ret. destruct (align4_spec (offset n + 4 + Z.of_nat (length s) + 1)); [lia|].
  split; [lia|]. by left.
Qed.

Lemma find_property_sim fuel o name :
  at_token o → T < o + 4 * Z.of_nat fuel → (0 < fuel)%nat →
  sim aligned (find_property m fuel b o name) (find_property m' fuel b o name)
    (opt (λ v, Z.of_nat (length v) ≤ T)).
Proof.
  revert o. induction fuel as [|fuel IH]; intros o Ho HT Hf; [lia|]. cbn [find_property].
  destruct (rounds_enough o (proj1 Ho)) as [Hr Hr0].
  eapply sim_obind; [by apply next_property_sim|done|].
  intros [[found value] o'] (Ho' & Ha' & Hv). destruct (same found name); [by apply sim_some|].
  destruct Ho as [Ho _].
  destruct fuel as [|fuel]; [|by apply IH; [apply at_token_aligned; [lia|]|lia|lia]].
  (* one round was left, so the offset was past the last token *)
  exfalso. lia.
Qed.

Lemma property_sim n name :
  node_ok n → sim aligned (property m b n name) (property m' b n name) (opt (λ v, Z.of_nat (length v) ≤ T)).
Proof.
  intros Hn. unfold property. eapply sim_bind; [by apply properties_sim|]. intros o Ho.
  destruct (rounds_enough o (proj1 Ho)). by apply find_property_sim.
Qed.

Lemma reg_sim n i : node_ok n → sim aligned (reg m b n i) (reg m' b n i) (λ _, True).
Proof.
  intros Hn. unfold reg. destruct (_ || _); [by apply sim_none|].
  eapply sim_obind; [by apply property_sim|done|]. intros value _. by apply sim_ret.
Qed.

Lemma regions_from_sim room n i :
  node_ok n → sim aligned (regions_from m room b n i) (regions_from m' room b n i)
    (λ l, (length l ≤ room)%nat).
Proof.
  intros Hn. revert i. induction room as [|room IH]; intros i; cbn [regions_from]; [by apply sim_ret|].
  eapply sim_bind; [by apply reg_sim|]. intros [[base size]|] _; [|by apply sim_ret; simpl; lia].
  eapply sim_bind; [apply IH|]. intros l Hl. apply sim_ret. simpl in *. lia.
Qed.

(** ** The walker *)

Record walk_ok (w : Walker) : Prop := mkWalkOk {
  wo_offset : 0 ≤ w_offset w ≤ T + 3;
  wo_align : aligned → w_offset w mod 4 = 0;
  wo_end : w_end w ≤ T;
  wo_depth : 0 ≤ w_depth w < MAX_DEPTH;
  wo_cells : length (cells w) = Z.to_nat MAX_DEPTH
}.

Lemma walk_walk_ok : walk_ok (walk b).
Proof.
  bounds. split; cbn [walk w_offset w_end w_depth cells].
  - lia.
  - by intros [].
  - unfold saturating_add32. lia.
  - done.
  - done.
Qed.

Lemma note_cells_ok w name value : walk_ok w → walk_ok (note_cells w name value).
Proof.
  intros [H1 H2 H3 H4 H5]. unfold note_cells. destruct (read_cells value); [|done].
  destruct (cells w !! _) as [[]|]; [|done]. destruct (0 <? w_depth w); [|done].
  destruct (same _ _); [split; simpl; rewrite ?length_insert; done|].
  destruct (same _ _); [split; simpl; rewrite ?length_insert; done|done].
Qed.

Lemma note_cells_offset w name value : w_offset (note_cells w name value) = w_offset w.
Proof.
  unfold note_cells. destruct (read_cells value); [|done]. destruct (cells w !! _) as [[]|]; [|done].
  repeat case_match; done.
Qed.

(** Every step moves past the token it read. *)
Definition stepped (w : Walker) (r : Step * Walker) : Prop :=
  walk_ok r.2 ∧ w_offset w + 4 ≤ w_offset r.2 ∧
  match r.1 with SNode n _ => node_ok n ∧ w_offset w ≤ offset n < w_offset r.2 | SProperty _ _ => True end.

Lemma next_sim fuel w :
  walk_ok w → T < w_offset w + 4 * Z.of_nat fuel → (0 < fuel)%nat →
  sim aligned (next m fuel b w) (next m' fuel b w) (opt (stepped w)).
Proof.
  revert w. induction fuel as [|fuel IH]; intros w Hw HT Hf; [lia|]. cbn [next].
  destruct Hw as [Ho Hal Hend Hd Hc]. bounds.
  destruct (Z.leb_spec (w_end w) (w_offset w)); [by apply sim_none|].
  eapply sim_obind; [apply u32_at_sim, at_token_aligned; [lia|done]|done|]. intros token [_ Htok].
  (* a token that is only stepped over *)
  assert (Hskip : ∀ d, 0 ≤ d < MAX_DEPTH →
    sim aligned (next m fuel b (with_offset (w_offset w + 4) (with_depth d w)))
      (next m' fuel b (with_offset (w_offset w + 4) (with_depth d w))) (opt (stepped w))).
  { intros d Hdd. eapply sim_mono; [apply IH; simpl; [|lia|lia]|].
    - split; simpl; [lia|intros Ha; specialize (Hal Ha); zdiv|lia|done|done].
    - intros [[s w']|]; [|done]. unfold stepped. simpl. intros (Hw' & ? & Hs). split; [done|].
      split; [lia|]. destruct s; [|done]. destruct Hs. split; [done|lia]. }
  destruct (token =? FDT_NOP).
  { eapply sim_bind; [by apply (sim_add32 _ _ _ (λ x, x = w_offset w + 4)); [lia|]|]. intros ? ->.
    replace (with_offset _ w) with (with_offset (w_offset w + 4) (with_depth (w_depth w) w)) by (by destruct w).
    by apply Hskip. }
  destruct (token =? FDT_END); [by apply sim_none|].
  destruct (token =? FDT_BEGIN_NODE).
  { eapply sim_bind; [by apply (sim_add32 _ _ _ (λ x, x = w_offset w + 4)); [lia|]|]. intros ? ->.
    eapply sim_obind; [apply str_at_sim; lia|done|]. intros name Hn. cbn [opt] in Hn.
    destruct (Z.leb_spec MAX_DEPTH (w_depth w + 1)); [by apply sim_none|].
    destruct (lookup_lt_is_Some_2 (cells w) (Z.to_nat (w_depth w + 1 - 1))) as [[pa ps] ->]; [lia|].
    destruct (lookup_lt_is_Some_2 (cells w) (Z.to_nat (w_depth w + 1))) as [? ->]; [lia|].
    eapply sim_bind.
    { by apply (sim_sum32 _ _ _ _ (λ x, x = w_offset w + 4 + Z.of_nat (length name) + 1)); [lia|lia|]. }
    intros ? ->. apply sim_some.
    destruct (align4_spec (w_offset w + 4 + Z.of_nat (length name) + 1)) as [Hb1 Hb2]; [lia|].
    unfold stepped. simpl. split; [|split; [lia|split; [|simpl; lia]]].
    - split; simpl; [lia|done|done|lia|by rewrite length_insert].
    - split; simpl; [lia|lia|done]. }
  destruct (token =? FDT_END_NODE).
  { destruct (Z.eqb_spec (w_depth w) 0); [by apply sim_none|].
    eapply sim_bind; [by apply (sim_add32 _ _ _ (λ x, x = w_offset w + 4)); [lia|]|]. intros ? ->.
    apply Hskip. lia. }
  destruct (token =? FDT_PROP); [|by apply sim_none].
  eapply sim_obind; [by apply prop_at_sim; [lia|lia|]|done|]. intros [[name value] o] (Ho1 & Ho2 & _).
  apply sim_some. cbn [opt]. unfold stepped. cbn [fst snd]. rewrite note_cells_offset. split; [|by split; [simpl; lia|]].
  apply note_cells_ok. split; simpl; [lia|done|done|done|done].
Qed.

(** Enough rounds for a walk from [w] to its end. *)
Definition walk_fuel (fuel : nat) (w : Walker) : Prop := T < w_offset w + 4 * Z.of_nat fuel ∧ (0 < fuel)%nat.

Lemma walk_fuel_rounds w : walk_ok w → walk_fuel (rounds b) w.
Proof. intros Hw. apply rounds_enough, Hw. Qed.

Lemma walk_fuel_step fuel w r : walk_ok w → walk_fuel (S fuel) w → stepped w r → w_offset w + 4 ≤ T → walk_fuel fuel r.2.
Proof. intros Hw [HT _] (Hr & Hs & _) Hin. destruct Hr. unfold walk_fuel. lia. Qed.

Lemma next_step_sim w :
  walk_ok w →
  sim aligned (next m (rounds b) b w) (next m' (rounds b) b w)
    (opt (λ r, stepped w r ∧ w_offset w + 4 ≤ T)).
Proof.
  intros Hw. destruct (walk_fuel_rounds _ Hw).
  assert (Hr : rounds b = S (pred (rounds b))) by lia.
  destruct (decide (w_offset w + 4 ≤ T)) as [Hin|Hout].
  - eapply sim_mono; [by apply next_sim|]. by intros [r|].
  - rewrite Hr. cbn [next]. destruct (Z.leb_spec (w_end w) (w_offset w)); [by apply sim_none|].
    unfold u32_at. destruct (checked_add32 _ 4) as [e|] eqn:He; [|by apply sim_none].
    apply checked_add32_Some in He as [-> _]. rewrite (proj2 (Z.ltb_lt _ _)) by lia. by apply sim_none.
Qed.

(** A loop over the steps of a walk ends and stays inside, when each round does. *)
Lemma find_node_loop_sim fuel w path on_path :
  walk_ok w → walk_fuel fuel w → length on_path = Z.to_nat MAX_DEPTH →
  sim aligned (find_node_loop m fuel b w path on_path) (find_node_loop m' fuel b w path on_path) (opt node_ok).
Proof.
  revert w on_path. induction fuel as [|fuel IH]; intros w on_path Hw Hf Hp; [by destruct Hf; lia|].
  cbn [find_node_loop]. eapply sim_obind; [by apply next_step_sim|done|]. intros [s w'] [Hs Hin].
  pose proof (walk_fuel_step _ _ _ Hw Hf Hs Hin) as Hf'. destruct Hs as (Hw' & _ & Hn). cbn [fst snd] in *.
  destruct s as [n name|]; [|by apply IH]. destruct Hn as [Hn _].
  destruct (lookup_lt_is_Some_2 on_path (Z.to_nat (depth n))) as [? ->]; [destruct (no_depth _ Hn); lia|].
  cbv zeta. destruct (_ && (depth n =? _)); [by apply sim_some|]. apply IH; [done|done|by rewrite length_insert].
Qed.

Lemma find_node_sim path : sim aligned (find_node m b path) (find_node m' b path) (opt node_ok).
Proof. unfold find_node. apply find_node_loop_sim; [apply walk_walk_ok|apply walk_fuel_rounds, walk_walk_ok|done]. Qed.

Lemma find_compatible_loop_sim fuel w wanted after :
  walk_ok w → walk_fuel fuel w →
  sim aligned (find_compatible_loop m fuel b w wanted after) (find_compatible_loop m' fuel b w wanted after)
    (opt (λ n, node_ok n ∧ after < offset n)).
Proof.
  revert w. induction fuel as [|fuel IH]; intros w Hw Hf; [by destruct Hf; lia|].
  cbn [find_compatible_loop]. eapply sim_obind; [by apply next_step_sim|done|]. intros [s w'] [Hs Hin].
  pose proof (walk_fuel_step _ _ _ Hw Hf Hs Hin) as Hf'. destruct Hs as (Hw' & _ & Hn). cbn [fst snd] in *.
  destruct s as [n name|]; [|by apply IH]. destruct Hn as [Hn _].
  destruct (Z.leb_spec (offset n) after); [by apply IH|].
  eapply sim_bind; [by apply property_sim|]. intros [l|] _; [|by apply IH].
  destruct (string_list_contains l wanted); [by apply sim_some|by apply IH].
Qed.

Lemma find_compatible_after_sim wanted after :
  sim aligned (find_compatible_after m b wanted after) (find_compatible_after m' b wanted after)
    (opt (λ n, node_ok n ∧ after < offset n)).
Proof. unfold find_compatible_after. apply find_compatible_loop_sim; [apply walk_walk_ok|apply walk_fuel_rounds, walk_walk_ok]. Qed.

(** ** The memory map *)

(** At most [MAX_RESERVATIONS] reservations, none of them empty. *)
Definition map_ok (p : MemoryMap) : Prop :=
  Z.of_nat (length (reserved p)) ≤ MAX_RESERVATIONS ∧ Forall (λ r, r.2 ≠ 0) (reserved p) ∧
  head (reserved p) = Some (blob_pa b, T).

Lemma reserve_ok base size p : map_ok p → map_ok (reserve base size p).
Proof.
  intros (Hl & Hz & Hh). unfold reserve. destruct (Z.eqb_spec size 0); [done|].
  destruct (Z.eqb_spec (Z.of_nat (length (reserved p))) MAX_RESERVATIONS); [done|].
  split; cbn [reserved]; [rewrite length_app; simpl; lia|]. split.
  - apply Forall_app. split; [done|]. by apply Forall_singleton.
  - by destruct (reserved p).
Qed.

Lemma rsvmap_loop_sim fuel o p :
  at_token o → o ≤ T + 15 → T < o + 4 * Z.of_nat fuel → (0 < fuel)%nat → map_ok p →
  sim aligned (rsvmap_loop m fuel b o p) (rsvmap_loop m' fuel b o p) map_ok.
Proof.
  revert o p. induction fuel as [|fuel IH]; intros o p Ho Hhi HT Hf Hp; [lia|]. cbn [rsvmap_loop].
  bounds. destruct Ho as [Ho Hal].
  assert (Hr : ∀ k, k mod 4 = 0 → 0 ≤ k → at_token (o + k)).
  { intros k Hk Hk0. split; [lia|]. intros Ha. destruct (Hal Ha) as [He|]; [left|right; lia].
    by rewrite Zplus_mod, He, Hk. }
  eapply sim_bind; [apply u64_at_sim; by rewrite <-(Z.add_0_r o); apply Hr|]. intros base Hbase.
  eapply sim_bind; [by apply (sim_add32 _ _ _ (λ x, x = o + 8)); [lia|]|]. intros ? ->.
  eapply sim_bind; [by apply u64_at_sim, Hr|]. intros size Hsize.
  destruct base as [base|]; [|by apply sim_ret]. destruct size as [size|]; [|by apply sim_ret].
  destruct Hsize as [_ Hin]. destruct (_ && _); [by apply sim_ret|].
  eapply sim_bind; [by apply (sim_add32 _ _ _ (λ x, x = o + 16)); [lia|]|]. intros ? ->.
  apply IH; [by apply Hr|lia|lia|lia|by apply reserve_ok].
Qed.

Lemma reserved_children_sim fuel w parent p :
  walk_ok w → walk_fuel fuel w → map_ok p →
  sim aligned (reserved_children m fuel b w parent p) (reserved_children m' fuel b w parent p) map_ok.
Proof.
  revert w p. induction fuel as [|fuel IH]; intros w p Hw Hf Hp; [by destruct Hf; lia|].
  cbn [reserved_children]. eapply sim_bind; [by apply next_step_sim|].
  intros [[s w']|] Hr; [|by apply sim_ret]. destruct Hr as [Hs Hin].
  pose proof (walk_fuel_step _ _ _ Hw Hf Hs Hin) as Hf'. destruct Hs as (Hw' & _ & Hn). cbn [fst snd] in *.
  destruct s as [n name|]; [|by apply IH]. destruct Hn as [Hn _].
  destruct (offset n <=? offset parent); [by apply IH|].
  destruct (depth n <=? depth parent); [by apply sim_ret|].
  destruct (depth n =? depth parent + 1); [|by apply IH].
  eapply sim_bind; [by apply reg_sim|]. intros [[base size]|] _; apply IH; try done. by apply reserve_ok.
Qed.

Lemma empty_map_ok : map_ok (reserve (blob_pa b) T empty_map).
Proof.
  bounds. unfold reserve. destruct (Z.eqb_spec T 0); [lia|]. split; [simpl; unfold MAX_RESERVATIONS; lia|].
  split; [|done]. by apply Forall_singleton.
Qed.

Lemma memory_map_sim : sim aligned (memory_map m b) (memory_map m' b) map_ok.
Proof.
  unfold memory_map. bounds. pose proof (rounds_enough (off_mem_rsvmap (header b))) as Hr.
  eapply sim_bind.
  { apply rsvmap_loop_sim; [apply at_token_aligned; [lia|by intros []]|lia|apply Hr; lia|apply Hr; lia|].
    apply empty_map_ok. }
  intros p Hp. eapply sim_bind; [apply find_node_sim|]. intros parent _.
  eapply sim_bind.
  { apply (sim_mono _ _ _ map_ok map_ok); [|done].
    destruct parent; [|by apply sim_ret].
    apply reserved_children_sim; [apply walk_walk_ok|apply walk_fuel_rounds, walk_walk_ok|done]. }
  clear p Hp. intros p Hp. eapply sim_bind; [apply find_node_sim|]. intros [n|] Hn; [|by apply sim_ret].
  eapply sim_bind; [by apply reg_sim|]. intros [[base size]|] _; [|by apply sim_ret].
  destruct (negb _); [|by apply sim_ret].
  eapply sim_bind; [by apply property_sim|]. intros value _. by apply sim_ret.
Qed.

End reads.

(** ** What the header check establishes *)

Definition word (m : mem) (a o : Z) : Z := be_bytes (load m (a + o) 4).

(** The header as its ten words say. *)
Definition header_at (m : mem) (a : Z) : Header :=
  mkHeader (word m a 4) (word m a 8) (word m a 12) (word m a 16) (word m a 20) (word m a 24)
    (word m a 28) (word m a 32) (word m a 36).

Record header_ok (h : Header) : Prop := mkHeaderOk {
  ho_size : HEADER_SIZE ≤ totalsize h ≤ MAX_BLOB;
  ho_version : last_comp_version h ≤ SUPPORTED_VERSION ∧ last_comp_version h ≤ version h;
  ho_struct : off_dt_struct h + size_dt_struct h ≤ totalsize h;
  ho_strings : off_dt_strings h + size_dt_strings h ≤ totalsize h;
  ho_rsvmap : off_mem_rsvmap h < totalsize h
}.

Lemma word_bound m a o : bytes_ok m → is_u32 (word m a o).
Proof.
  intros Hm. pose proof (be_bytes_bound _ (load_bytes m Hm (a + o) 4)) as Hb.
  rewrite load_length in Hb by lia. change (256 ^ 4) with (u32_max + 1) in Hb. unfold word, is_u32. lia.
Qed.

Lemma be32_word m a o : a mod 8 = 0 → o mod 4 = 0 → a + o ≤ u64_max → be32 m a o = Done (word m a o).
Proof.
  intros Ha Ho Hb. unfold be32. rewrite add64_ok by done. cbn [mbind res_bind].
  unfold is_multiple_of. rewrite (proj2 (Z.eqb_eq _ _)) by zdiv. done.
Qed.

Lemma ends_inside_spec t o s : t ≤ u32_max → ends_inside t o s = true ↔ o + s ≤ t.
Proof.
  intros Ht. unfold ends_inside. destruct (checked_add32 o s) as [e|] eqn:He.
  - apply checked_add32_Some in He as [-> _]. apply Z.leb_le.
  - split; [done|]. intros H. assert (checked_add32 o s = Some (o + s)) as Hc by (apply checked_add32_Some; lia).
    by rewrite Hc in He.
Qed.

(** Why a blob is refused. *)
Definition refusal (m : mem) (a : Z) (e : Error) : Prop :=
  let h := header_at m a in
  match e with
  | Null => a = 0
  | Misaligned x => x = a ∧ a mod 8 ≠ 0
  | BadMagic w => w = word m a 0 ∧ w ≠ MAGIC
  | TooSmall t => t = totalsize h ∧ t < HEADER_SIZE
  | TooLarge t => t = totalsize h ∧ MAX_BLOB < t
  | Version v => v = version h ∧ (SUPPORTED_VERSION < last_comp_version h ∨ v < last_comp_version h)
  | BlockOutOfRange =>
    totalsize h < off_dt_struct h + size_dt_struct h ∨ totalsize h < off_dt_strings h + size_dt_strings h
    ∨ totalsize h ≤ off_mem_rsvmap h
  | OutsideRam _ => False
  end.

Lemma probe_cases m a :
  bytes_ok m → 0 ≤ a → a + HEADER_SIZE ≤ u64_max →
  match probe m a with
  | Done (Ok h) => h = header_at m a ∧ header_ok h ∧ a ≠ 0 ∧ a mod 8 = 0 ∧ word m a 0 = MAGIC
  | Done (Err e) => refusal m a e
  | Panic _ => False
  end.
Proof.
  intros Hm Ha Hb. unfold HEADER_SIZE in Hb. unfold probe.
  destruct (Z.eqb_spec a 0); [done|]. unfold is_multiple_of.
  destruct (Z.eqb_spec (a mod 8) 0) as [Hal|]; [|done]. cbn [negb].
  assert (Hw : ∀ o, o mod 4 = 0 → o < 40 → be32 m a o = Done (word m a o)).
  { intros o Ho Hlt. apply be32_word; [done|done|lia]. }
  rewrite (Hw 0) by done. cbn [mbind res_bind].
  destruct (Z.eqb_spec (word m a 0) MAGIC); [|done]. cbn [negb].
  rewrite (Hw 4) by done. cbn [mbind res_bind].
  destruct (Z.ltb_spec (word m a 4) HEADER_SIZE); [done|].
  destruct (Z.ltb_spec MAX_BLOB (word m a 4)); [done|].
  do 8 (rewrite Hw by done; cbn [mbind res_bind]).
  destruct (Z.ltb_spec SUPPORTED_VERSION (word m a 24)); [simpl; auto|].
  destruct (Z.ltb_spec (word m a 20) (word m a 24)); [simpl; auto|]. cbn [orb].
  assert (Ht : word m a 4 ≤ u32_max) by (unfold MAX_BLOB in *; lia).
  pose proof (ends_inside_spec (word m a 4) (word m a 8) (word m a 36) Ht) as Hs1.
  pose proof (ends_inside_spec (word m a 4) (word m a 12) (word m a 32) Ht) as Hs2.
  destruct (ends_inside _ (word m a 8) _); [|left; simpl; naive_solver lia].
  destruct (ends_inside _ (word m a 12) _); [|right; left; simpl; naive_solver lia]. cbn [negb orb].
  destruct (Z.leb_spec (word m a 4) (word m a 16)); [by right; right|].
  split; [done|]. split; [|done]. split; simpl; naive_solver lia.
Qed.
