(* ===== verification/FdtTree.v ===== *)
(** * FdtTree: the trees [fdt.rs] writes for its own tests

    [Tree] assembles a blob in a 512 byte buffer a token at a time and
    [Scratch] a bare header; [dtree] is the tree a blob describes, with the
    property names as offsets into [TEST_STRINGS], and [write_tree] the calls
    that write it.  [steps] is what a walk should find. *)

From S2P Require Import Prelude Memory Frames Syscall Fdt.

(** [u32::to_be_bytes]. *)
Definition to_be_bytes (v : Z) : list Z :=
  [v / 2 ^ 24 mod 256; v / 2 ^ 16 mod 256; v / 2 ^ 8 mod 256; v mod 256].

(** [buffer[o..o + v.len()].copy_from_slice(v)]. *)
Definition copy_at (l : list Z) (o : Z) (v : list Z) : res (list Z) :=
  if o + Z.of_nat (length v) <=? Z.of_nat (length l) then
    Done (take (Z.to_nat o) l ++ v ++ drop (Z.to_nat o + length v) l)
  else Panic "range end index out of range".

(** Memory with a buffer placed at [a]. *)
Definition place (m : mem) (a : Z) (l : list Z) : mem := λ x,
  if (a <=? x) && (x <? a + Z.of_nat (length l)) then default 0 (l !! Z.to_nat (x - a)) else m x.

(** ** Headers built by hand *)

Definition put (l : list Z) (o value : Z) : res (list Z) := copy_at l o (to_be_bytes value).

Definition scratch_good : res (list Z) :=
  s ← put (replicate 64 0) 0 MAGIC;
  s ← put s 4 64;
  s ← put s 8 40;
  s ← put s 12 56;
  s ← put s 16 40;
  s ← put s 20 17;
  s ← put s 24 16;
  s ← put s 28 0;
  s ← put s 32 8;
  put s 36 16.

(** ** Trees built a token at a time *)

Definition TEST_STRINGS : list Z :=
  bytes_of "compatible" ++ [0] ++ bytes_of "reg" ++ [0] ++
  bytes_of "#address-cells" ++ [0] ++ bytes_of "#size-cells" ++ [0].
Definition STR_COMPATIBLE : Z := 0.
Definition STR_REG : Z := 11.
Definition STR_ADDRESS_CELLS : Z := 15.
Definition STR_SIZE_CELLS : Z := 30.

Definition TREE_BYTES : Z := 512.
Record Tree : Type := mkTree { bytes : list Z; len : Z }.

Definition tree_new : Tree := mkTree (replicate (Z.to_nat TREE_BYTES) 0) 40.

Definition tree_u32 (value : Z) (t : Tree) : res Tree :=
  l ← copy_at (bytes t) (len t) (to_be_bytes value);
  Done (mkTree l (len t + 4)).

Definition tree_begin (name : list Z) (t : Tree) : res Tree :=
  t ← tree_u32 FDT_BEGIN_NODE t;
  l ← copy_at (bytes t) (len t) name;
  Done (mkTree l (next_multiple_of (len t + (Z.of_nat (length name) + 1)) 4)).

Definition tree_end_node (t : Tree) : res Tree := tree_u32 FDT_END_NODE t.

Definition tree_prop (name_offset : Z) (value : list Z) (t : Tree) : res Tree :=
  t ← tree_u32 FDT_PROP t;
  t ← tree_u32 (Z.of_nat (length value)) t;
  t ← tree_u32 name_offset t;
  l ← copy_at (bytes t) (len t) value;
  Done (mkTree l (next_multiple_of (len t + Z.of_nat (length value)) 4)).

Definition tree_cells (address size : Z) (t : Tree) : res Tree :=
  t ← tree_prop STR_ADDRESS_CELLS (to_be_bytes address) t;
  tree_prop STR_SIZE_CELLS (to_be_bytes size) t.

Definition lying_prop (name_offset claimed : Z) (t : Tree) : res Tree :=
  t ← tree_u32 FDT_PROP t;
  t ← tree_u32 claimed t;
  tree_u32 name_offset t.

(** The loop of [finish] over the ten fields. *)
Fixpoint put_fields (l : list Z) (index : Z) (fields : list Z) : res (list Z) :=
  match fields with
  | [] => Done l
  | f :: fields' => l ← copy_at l (index * 4) (to_be_bytes f); put_fields l (index + 1) fields'
  end.

(** [finish], with the buffer at [a]: the memory it leaves, and the blob. *)
Definition finish (m : mem) (a : Z) (t : Tree) : res (mem * Blob) :=
  t ← tree_u32 FDT_END t;
  let struct_start := 40 in
  let struct_size := len t - struct_start in
  let strings_start := len t in
  l ← copy_at (bytes t) (len t) TEST_STRINGS;
  let total := len t + Z.of_nat (length TEST_STRINGS) in
  l ← put_fields l 0
    [MAGIC; total; struct_start; strings_start; struct_start; 17; 16; 0; Z.of_nat (length TEST_STRINGS); struct_size];
  let m := place m a l in
  h ← probe m a;
  match h with
  | Ok h => Done (m, mkBlob 0 a h)
  | Err _ => Panic "the test tree must pass the header checks"
  end.

Definition test_tree (address_cells size_cells : Z) : res Tree :=
  t ← tree_begin [] tree_new;
  t ← tree_cells address_cells size_cells t;
  t ← tree_prop STR_COMPATIBLE (bytes_of "test,root" ++ [0]) t;
  t ← tree_begin (bytes_of "memory@1000") t;
  t ← tree_prop STR_COMPATIBLE (bytes_of "test,memory" ++ [0] ++ bytes_of "test,thing" ++ [0]) t;
  t ← tree_prop STR_REG [0; 0; 0; 0; 0; 0; 0x10; 0; 0; 0; 0; 0; 0; 0; 0x20; 0] t;
  t ← tree_end_node t;
  tree_end_node t.

(** ** What a tree is *)

(** A property is the offset of its name and its value. *)
Inductive dtree : Type :=
  | DNode (name : list Z) (props : list (Z * list Z)) (children : list dtree).

Fixpoint write_props (props : list (Z * list Z)) (t : Tree) : res Tree :=
  match props with
  | [] => Done t
  | (o, v) :: props' => t ← tree_prop o v t; write_props props' t
  end.

Fixpoint write_tree (d : dtree) (t : Tree) : res Tree :=
  match d with
  | DNode name props children =>
    t ← tree_begin name t;
    t ← write_props props t;
    t ← (fix go (l : list dtree) (t : Tree) : res Tree :=
           match l with
           | [] => Done t
           | c :: l' => t ← write_tree c t; go l' t
           end) children t;
    tree_end_node t
  end.

(** The bytes it comes to: every token is padded to four. *)
Definition pad4 (l : list Z) : list Z :=
  l ++ replicate (Z.to_nat (next_multiple_of (Z.of_nat (length l)) 4) - length l) 0.

Definition begin_bytes (name : list Z) : list Z := to_be_bytes FDT_BEGIN_NODE ++ pad4 (name ++ [0]).
Definition prop_bytes (p : Z * list Z) : list Z :=
  to_be_bytes FDT_PROP ++ to_be_bytes (Z.of_nat (length p.2)) ++ to_be_bytes p.1 ++ pad4 p.2.
Fixpoint tree_bytes (d : dtree) : list Z :=
  match d with
  | DNode name props children =>
    begin_bytes name ++ (props ≫= prop_bytes) ++ (children ≫= tree_bytes) ++ to_be_bytes FDT_END_NODE
  end.

(** The name a property offset stands for. *)
Definition test_name (o : Z) : list Z := default [] (before 0 (drop (Z.to_nat o) TEST_STRINGS)).

(** What a node's properties declare for its children. *)
Definition declare (c : Z * Z) (p : Z * list Z) : Z * Z :=
  match read_cells p.2 with
  | None => c
  | Some v =>
    if same (test_name p.1) (bytes_of "#address-cells") then (v, c.2)
    else if same (test_name p.1) (bytes_of "#size-cells") then (c.1, v) else c
  end.
Definition declared (props : list (Z * list Z)) : Z * Z :=
  foldl declare (DEFAULT_ADDRESS_CELLS, DEFAULT_SIZE_CELLS) props.

(** What a walk finds: the node, with the cells its parent [pc] declares, its
    properties, then its children in order. *)
Fixpoint steps (pc : Z * Z) (d o : Z) (t : dtree) : list Step :=
  match t with
  | DNode name props children =>
    SNode (mkNode o d pc.1 pc.2) name :: (((λ p, SProperty (test_name p.1) p.2) <$> props) ++
    (fix go (o : Z) (l : list dtree) : list Step :=
       match l with
       | [] => []
       | c :: l' => steps (declared props) (d + 1) o c ++ go (o + Z.of_nat (length (tree_bytes c))) l'
       end) (o + Z.of_nat (length (begin_bytes name ++ (props ≫= prop_bytes)))) children)
  end.

(** ** Collecting a walk *)

Fixpoint collect (m : mem) (fuel : nat) (b : Blob) (w : Walker) : res (list Step) :=
  match fuel with
  | O => Panic "out of fuel"
  | S fuel' =>
    s ← next m (rounds b) b w;
    match s with
    | None => Done []
    | Some (s, w') => l ← collect m fuel' b w'; Done (s :: l)
    end
  end.
Definition collect_all (m : mem) (b : Blob) : res (list Step) := collect m (rounds b) b (walk b).

(** A tree the format can express and the walker can hold. *)
Definition name_ok (name : list Z) : Prop := Forall (λ c, 0 < c < 256) name ∧ utf8_valid name = true.
Definition prop_ok (p : Z * list Z) : Prop :=
  p.1 ∈ [STR_COMPATIBLE; STR_REG; STR_ADDRESS_CELLS; STR_SIZE_CELLS] ∧ Forall (λ c, 0 ≤ c < 256) p.2.
Fixpoint tree_ok (depth : nat) (t : dtree) : Prop :=
  match t, depth with
  | DNode name props children, S depth' =>
    name_ok name ∧ Forall prop_ok props ∧
    (fix go (l : list dtree) : Prop :=
       match l with [] => True | c :: l' => tree_ok depth' c ∧ go l' end) children
  | _, O => False
  end.

(** ** Looking a path up in a tree *)

Definition dname (t : dtree) : list Z := match t with DNode name _ _ => name end.
Definition dprops (t : dtree) : list (Z * list Z) := match t with DNode _ props _ => props end.

(** The first node down the path [t / path], as a walk would name it. *)
Fixpoint resolve (path : list (list Z)) (pc : Z * Z) (d o : Z) (t : dtree) : option (Node * dtree) :=
  match t with
  | DNode name props children =>
    match path with
    | [] => Some (mkNode o d pc.1 pc.2, t)
    | c :: path' =>
      (fix go (o : Z) (l : list dtree) : option (Node * dtree) :=
         match l with
         | [] => None
         | t' :: l' =>
           match (if name_matches (dname t') c then resolve path' (declared props) (d + 1) o t' else None) with
           | Some r => Some r
           | None => go (o + Z.of_nat (length (tree_bytes t'))) l'
           end
         end) (o + Z.of_nat (length (begin_bytes name)) + Z.of_nat (length (props ≫= prop_bytes))) children
    end
  end.

(** The root has no name and every path starts there. *)
Definition resolve_path (path : list Z) (o : Z) (t : dtree) : option (Node * dtree) :=
  if bool_decide (dname t = []) then
    resolve (components path) (DEFAULT_ADDRESS_CELLS, DEFAULT_SIZE_CELLS) 1 o t
  else None.

(** The first property of a name. *)
Fixpoint prop_named (name : list Z) (props : list (Z * list Z)) : option (list Z) :=
  match props with
  | [] => None
  | p :: props' => if same (test_name p.1) name then Some p.2 else prop_named name props'
  end.
