(* ===== verification/FdtBuild.v ===== *)
(** * FdtBuild: what [Tree] leaves in its buffer

    Writing a tree that fits leaves exactly [tree_bytes] after the header, and
    [finish] a blob that passes the header check. *)

From S2P Require Import Prelude Memory Frames Syscall Fdt FdtSpec FdtTree.

(** ** Numbers and padding *)

Lemma length_to_be_bytes v : length (to_be_bytes v) = 4%nat.
Proof. done. Qed.

Lemma be_to_be_bytes v : is_u32 v → be_bytes (to_be_bytes v) = v.
Proof. intros Hv. unfold is_u32 in Hv. unfold be_bytes, to_be_bytes. simpl foldl. zdiv. Qed.

Lemma to_be_bytes_ok v : Forall (λ c, 0 ≤ c < 256) (to_be_bytes v).
Proof. unfold to_be_bytes. repeat constructor; zdiv. Qed.

Lemma length_pad4 l : Z.of_nat (length (pad4 l)) = next_multiple_of (Z.of_nat (length l)) 4.
Proof.
  unfold pad4. rewrite length_app, length_replicate.
  destruct (next_multiple_of_spec (Z.of_nat (length l)) 4) as [Hn _]; [lia|lia|]. lia.
Qed.

Lemma align4_next o : 0 ≤ o ≤ u32_max - 3 → align4 o = next_multiple_of o 4.
Proof.
  intros Ho. destruct (align4_spec o Ho) as [H1 H2].
  destruct (next_multiple_of_spec o 4) as [H3 H4]; [lia|lia|]. zdiv.
Qed.

Lemma next_multiple_add a b : a mod 4 = 0 → 0 ≤ b → 0 ≤ a → next_multiple_of (a + b) 4 = a + next_multiple_of b 4.
Proof.
  intros Ha Hb Ha0. destruct (next_multiple_of_spec (a + b) 4) as [H1 H2]; [lia|lia|].
  destruct (next_multiple_of_spec b 4) as [H3 H4]; [lia|lia|]. zdiv.
Qed.

Definition padded (l : list Z) : Prop := Z.of_nat (length l) mod 4 = 0.

Lemma padded_app l1 l2 : padded l1 → padded l2 → padded (l1 ++ l2).
Proof. unfold padded. intros H1 H2. rewrite length_app, Nat2Z.inj_add. zdiv. Qed.
Lemma padded_be v : padded (to_be_bytes v).
Proof. done. Qed.
Lemma padded_pad4 l : padded (pad4 l).
Proof. unfold padded. rewrite length_pad4. apply next_multiple_of_spec; lia. Qed.
Lemma padded_begin name : padded (begin_bytes name).
Proof. apply padded_app; [done|apply padded_pad4]. Qed.
Lemma padded_prop p : padded (prop_bytes p).
Proof. repeat (apply padded_app; [done|]). apply padded_pad4. Qed.
Lemma padded_props props : padded (props ≫= prop_bytes).
Proof. induction props as [|p l IH]; [done|]. apply padded_app; [apply padded_prop|done]. Qed.

(** The induction a tree wants: a property of every child. *)
Lemma dtree_ind' (P : dtree → Prop) :
  (∀ name props children, Forall P children → P (DNode name props children)) → ∀ t, P t.
Proof.
  intros H. fix IH 1. intros [name props children]. apply H.
  induction children as [|c l IHl]; constructor; [apply IH|apply IHl].
Qed.

Lemma padded_tree t : padded (tree_bytes t).
Proof.
  induction t as [name props children IH] using dtree_ind'. cbn [tree_bytes].
  apply padded_app; [apply padded_begin|]. apply padded_app; [apply padded_props|]. apply padded_app; [|done].
  induction IH as [|c l Hc _ IHl]; [done|]. by apply padded_app.
Qed.

(** ** Writing into the buffer *)

Lemma copy_at_app (l1 l2 l3 v : list Z) :
  length l2 = length v → copy_at (l1 ++ l2 ++ l3) (Z.of_nat (length l1)) v = Done (l1 ++ v ++ l3).
Proof.
  intros Hl. unfold copy_at. rewrite (proj2 (Z.leb_le _ _)) by (rewrite !length_app; lia).
  rewrite Nat2Z.id, take_app_length.
  replace (length l1 + length v)%nat with (length (l1 ++ l2)) by (rewrite length_app; lia).
  by rewrite (app_assoc l1 l2 l3), drop_app_length.
Qed.

(** The buffer after [pre] has been written. *)
Definition buf (pre : list Z) : Tree :=
  mkTree (pre ++ replicate (Z.to_nat TREE_BYTES - length pre) 0) (Z.of_nat (length pre)).

Definition fits (l : list Z) : Prop := Z.of_nat (length l) ≤ TREE_BYTES.

Lemma fits_app_l l1 l2 : fits (l1 ++ l2) → fits l1.
Proof. unfold fits. rewrite length_app. lia. Qed.

Lemma copy_at_buf pre v w :
  fits (pre ++ v ++ w) → Forall (eq 0) w →
  copy_at (bytes (buf pre)) (len (buf pre)) v = Done (bytes (buf (pre ++ v ++ w))).
Proof.
  unfold fits, buf, TREE_BYTES. cbn [bytes len]. intros Hf Hw.
  rewrite !length_app in Hf. rewrite !length_app.
  replace (Z.to_nat 512 - length pre)%nat
    with (length v + (length w + (Z.to_nat 512 - (length pre + (length v + length w)))))%nat by lia.
  rewrite replicate_add, copy_at_app by by rewrite length_replicate.
  rewrite replicate_add, <-!app_assoc. do 4 f_equal.
  clear -Hw. induction Hw as [|x l <- _ IH]; [done|]. simpl. by f_equal.
Qed.

Lemma buf_eq l n : n = Z.of_nat (length l) → mkTree (bytes (buf l)) n = buf l.
Proof. by intros ->. Qed.

Lemma tree_u32_buf pre v : fits (pre ++ to_be_bytes v) → tree_u32 v (buf pre) = Done (buf (pre ++ to_be_bytes v)).
Proof.
  intros Hf. unfold tree_u32. rewrite (copy_at_buf _ _ []) by (by rewrite ?app_nil_r).
  rewrite app_nil_r. cbn [mbind res_bind]. f_equal. apply buf_eq.
  rewrite length_app, length_to_be_bytes. cbn [buf len]. lia.
Qed.

(** Bytes followed by their padding. *)
Lemma copy_pad4_buf pre v k :
  padded pre → fits (pre ++ pad4 (v ++ replicate k 0)) →
  (l ← copy_at (bytes (buf pre)) (len (buf pre)) v;
   Done (mkTree l (next_multiple_of (len (buf pre) + (Z.of_nat (length v) + Z.of_nat k)) 4)))
  = Done (buf (pre ++ pad4 (v ++ replicate k 0))).
Proof.
  intros Hp Hf. unfold pad4 in Hf |- *. rewrite <-!app_assoc in Hf |- *.
  erewrite copy_at_buf; [|exact Hf|].
  - cbn [mbind res_bind]. f_equal. apply buf_eq. cbn [buf len].
    rewrite next_multiple_add by (done || lia). rewrite !length_app, !length_replicate, Nat2Z.inj_add.
    destruct (next_multiple_of_spec (Z.of_nat (length v) + Z.of_nat k) 4); [lia|lia|].
    rewrite (Nat2Z.inj_add (length v) k). lia.
  - apply Forall_app. split; apply Forall_replicate; done.
Qed.

Lemma tree_begin_buf pre name :
  padded pre → fits (pre ++ begin_bytes name) →
  tree_begin name (buf pre) = Done (buf (pre ++ begin_bytes name)).
Proof.
  intros Hp Hf. unfold tree_begin, begin_bytes in *. rewrite app_assoc in Hf |- *.
  rewrite tree_u32_buf by (by eapply fits_app_l). cbn [mbind res_bind].
  apply (copy_pad4_buf _ name 1); [by apply padded_app|done].
Qed.

Lemma tree_prop_buf pre p :
  padded pre → fits (pre ++ prop_bytes p) →
  tree_prop p.1 p.2 (buf pre) = Done (buf (pre ++ prop_bytes p)).
Proof.
  intros Hp Hf. unfold tree_prop, prop_bytes in *. rewrite !app_assoc in Hf |- *.
  assert (Hf3 := fits_app_l _ _ Hf). assert (Hf2 := fits_app_l _ _ Hf3). assert (Hf1 := fits_app_l _ _ Hf2).
  rewrite tree_u32_buf by done. cbn [mbind res_bind]. rewrite tree_u32_buf by done. cbn [mbind res_bind].
  rewrite tree_u32_buf by done. cbn [mbind res_bind].
  pose proof (copy_pad4_buf (((pre ++ to_be_bytes FDT_PROP) ++ to_be_bytes (Z.of_nat (length p.2))) ++
    to_be_bytes p.1) p.2 0) as Hc.
  simpl replicate in Hc. rewrite app_nil_r, Z.add_0_r in Hc. apply Hc; [|done].
  by repeat (apply padded_app; [|done]).
Qed.

Lemma write_props_buf pre props :
  padded pre → fits (pre ++ (props ≫= prop_bytes)) →
  write_props props (buf pre) = Done (buf (pre ++ (props ≫= prop_bytes))).
Proof.
  revert pre. induction props as [|[o v] l IH]; intros pre Hp Hf; [by rewrite app_nil_r|].
  change (((o, v) :: l) ≫= prop_bytes) with (prop_bytes (o, v) ++ (l ≫= prop_bytes)) in Hf |- *.
  rewrite app_assoc in Hf |- *. cbn [write_props].
  pose proof (tree_prop_buf pre (o, v) Hp (fits_app_l _ _ Hf)) as He. cbn [fst snd] in He. rewrite He.
  cbn [mbind res_bind]. apply IH; [apply padded_app; [done|apply padded_prop]|done].
Qed.

Lemma write_tree_buf t pre :
  padded pre → fits (pre ++ tree_bytes t) → write_tree t (buf pre) = Done (buf (pre ++ tree_bytes t)).
Proof.
  revert pre. induction t as [name props children IH] using dtree_ind'. intros pre Hp Hf.
  cbn [tree_bytes] in *. rewrite !app_assoc in Hf |- *. cbn [write_tree].
  assert (Hf3 := fits_app_l _ _ Hf). assert (Hf2 := fits_app_l _ _ Hf3). assert (Hf1 := fits_app_l _ _ Hf2).
  rewrite tree_begin_buf by done. cbn [mbind res_bind].
  rewrite write_props_buf by first [done | apply padded_app; [done|apply padded_begin]]. cbn [mbind res_bind].
  assert (Hp2 : padded ((pre ++ begin_bytes name) ++ (props ≫= prop_bytes))).
  { apply padded_app; [apply padded_app; [done|apply padded_begin]|apply padded_props]. }
  assert (Hgo : (fix go (l : list dtree) (t : Tree) : res Tree :=
    match l with [] => Done t | c :: l' => t ← write_tree c t; go l' t end) children
      (buf ((pre ++ begin_bytes name) ++ (props ≫= prop_bytes))) =
    Done (buf (((pre ++ begin_bytes name) ++ (props ≫= prop_bytes)) ++ (children ≫= tree_bytes)))).
  { revert Hf3 Hp2. clear -IH. generalize ((pre ++ begin_bytes name) ++ (props ≫= prop_bytes)). clear pre.
    induction IH as [|c l Hc _ IHl]; intros pre Hf Hp; [by rewrite app_nil_r|].
    change ((c :: l) ≫= tree_bytes) with (tree_bytes c ++ (l ≫= tree_bytes)) in Hf |- *.
    rewrite app_assoc in Hf |- *. rewrite Hc by first [done | by eapply fits_app_l]. cbn [mbind res_bind].
    apply IHl; [done|]. apply padded_app; [done|apply padded_tree]. }
  rewrite Hgo. cbn [mbind res_bind]. unfold tree_end_node. by apply tree_u32_buf.
Qed.

(** ** The blob *)

(** The bytes [l] lie at [p]. *)
Definition holds (m : mem) (p : Z) (l : list Z) : Prop :=
  ∀ i x, l !! i = Some x → m (p + Z.of_nat i) = x.

Lemma holds_app m p l1 l2 :
  holds m p (l1 ++ l2) → holds m p l1 ∧ holds m (p + Z.of_nat (length l1)) l2.
Proof.
  intros H. split; intros i x Hi.
  - apply H. by apply lookup_app_l_Some.
  - rewrite <-Z.add_assoc, <-Nat2Z.inj_add. apply H. rewrite lookup_app_r by lia. by rewrite Nat.add_sub', Hi.
Qed.

Lemma holds_load m p l : holds m p l → load m p (Z.of_nat (length l)) = l.
Proof.
  intros H. unfold load. apply list_eq. intros i. rewrite list_lookup_fmap, range_seqZ.
  destruct (l !! i) as [x|] eqn:Hi.
  - assert (i < length l)%nat by by eapply lookup_lt_Some.
    assert (seqZ p (p + Z.of_nat (length l) - p) !! i = Some (p + Z.of_nat i)) as -> by (apply lookup_seqZ; lia).
    simpl. by rewrite (H i x).
  - rewrite lookup_ge_None_2; [done|]. rewrite length_seqZ. apply lookup_ge_None_1 in Hi. lia.
Qed.

Lemma holds_word m a o v : holds m (a + o) (to_be_bytes v) → is_u32 v → word m a o = v.
Proof.
  intros H Hv. unfold word. change 4 with (Z.of_nat (length (to_be_bytes v))).
  by rewrite holds_load, be_to_be_bytes.
Qed.

Lemma place_holds m a l : holds (place m a l) a l.
Proof.
  intros i x Hi. assert (i < length l)%nat by by eapply lookup_lt_Some.
  unfold place. rewrite (proj2 (Z.leb_le _ _)), (proj2 (Z.ltb_lt _ _)) by lia. simpl.
  replace (Z.to_nat (a + Z.of_nat i - a)) with i by lia. by rewrite Hi.
Qed.

Lemma place_bytes_ok m a l : bytes_ok m → Forall (λ c, 0 ≤ c < 256) l → bytes_ok (place m a l).
Proof.
  intros Hm Hl x. unfold place. destruct ((a <=? x) && (x <? a + Z.of_nat (length l))); [|apply Hm].
  destruct (l !! _) as [c|] eqn:Hc; simpl; [|lia]. by eapply (Forall_lookup_1 _ _ _ _ Hl).
Qed.

Lemma put_fields_app pre fields rest zeros :
  padded pre → length zeros = (4 * length fields)%nat →
  put_fields (pre ++ zeros ++ rest) (Z.of_nat (length pre) / 4) fields =
    Done (pre ++ (fields ≫= to_be_bytes) ++ rest).
Proof.
  revert pre zeros. induction fields as [|f l IH]; intros pre zeros Hp Hz; simpl in Hz.
  - by destruct zeros.
  - do 4 (destruct zeros as [|? zeros]; [simpl in Hz; lia|]).
    cbn [put_fields]. replace (Z.of_nat (length pre) / 4 * 4) with (Z.of_nat (length pre)) by (unfold padded in Hp; zdiv).
    change (pre ++ (z :: z0 :: z1 :: z2 :: zeros) ++ rest) with (pre ++ [z; z0; z1; z2] ++ (zeros ++ rest)).
    rewrite copy_at_app by done. cbn [mbind res_bind]. rewrite app_assoc.
    replace (Z.of_nat (length pre) / 4 + 1) with (Z.of_nat (length (pre ++ to_be_bytes f)) / 4)
      by (rewrite length_app, length_to_be_bytes; unfold padded in Hp; zdiv).
    rewrite IH; [|by apply padded_app|simpl in Hz; lia].
    change ((f :: l) ≫= to_be_bytes) with (to_be_bytes f ++ (l ≫= to_be_bytes)). by rewrite <-!app_assoc.
Qed.

(** Its fields, when the structure block holds [body] and the end token. *)
Definition fields_of (body : list Z) : list Z :=
  let s := Z.of_nat (length body) + 4 in
  [MAGIC; 40 + s + Z.of_nat (length TEST_STRINGS); 40; 40 + s; 40; 17; 16; 0; Z.of_nat (length TEST_STRINGS); s].
Definition header_of (body : list Z) : Header :=
  let s := Z.of_nat (length body) + 4 in
  mkHeader (40 + s + Z.of_nat (length TEST_STRINGS)) 40 (40 + s) 40 17 16 0 (Z.of_nat (length TEST_STRINGS)) s.
Definition blob_bytes (body : list Z) : list Z :=
  (fields_of body ≫= to_be_bytes) ++ body ++ to_be_bytes FDT_END ++ TEST_STRINGS.

Lemma probe_accepts m a :
  bytes_ok m → 0 < a → a + HEADER_SIZE ≤ u64_max → a mod 8 = 0 → word m a 0 = MAGIC →
  header_ok (header_at m a) → probe m a = Done (Ok (header_at m a)).
Proof.
  intros Hm Ha Hb Hal Hw [[] [] ? ? ?]. pose proof (probe_cases m a Hm ltac:(lia) Hb) as Hc.
  destruct (probe m a) as [[h|e]|]; [by destruct Hc as [-> _]| |done].
  exfalso. destruct e; unfold refusal in Hc; naive_solver lia.
Qed.

Lemma blob_bytes_length body :
  Z.of_nat (length (blob_bytes body)) = totalsize (header_of body).
Proof. unfold blob_bytes. rewrite !length_app. cbn [header_of totalsize]. change (length (fields_of body ≫= to_be_bytes)) with 40%nat.
  rewrite length_to_be_bytes. lia. Qed.

Lemma blob_bytes_ok body : Forall (λ c, 0 ≤ c < 256) body → Forall (λ c, 0 ≤ c < 256) (blob_bytes body).
Proof.
  intros Hb. unfold blob_bytes.
  assert (Hs : Forall (λ c, 0 ≤ c < 256) TEST_STRINGS) by (apply (bool_decide_unpack _); by vm_compute).
  apply Forall_app_2; [|apply Forall_app_2; [done|apply Forall_app_2; [apply to_be_bytes_ok|done]]].
  generalize (fields_of body). intros l. induction l as [|f l IH]; [constructor|].
  apply Forall_app_2; [apply to_be_bytes_ok|done].
Qed.

Lemma header_at_blob m a body :
  holds m a (blob_bytes body) → Z.of_nat (length body) ≤ TREE_BYTES →
  word m a 0 = MAGIC ∧ header_at m a = header_of body.
Proof.
  intros H Hl. unfold TREE_BYTES in Hl. apply holds_app in H as [H _].
  assert (Hw : ∀ i f, fields_of body !! i = Some f → is_u32 f → word m a (4 * Z.of_nat i) = f).
  { intros i f Hi Hf. apply holds_word; [|done]. revert H Hi. generalize (fields_of body). intros l.
    revert a i. induction l as [|g l IH]; intros a i H Hi; [done|].
    change ((g :: l) ≫= to_be_bytes) with (to_be_bytes g ++ (l ≫= to_be_bytes)) in H.
    apply holds_app in H as [Hg Hr]. destruct i as [|i].
    - injection Hi as ->. by replace (a + 4 * Z.of_nat 0) with a by lia.
    - replace (a + 4 * Z.of_nat (S i)) with (a + Z.of_nat (length (to_be_bytes g)) + 4 * Z.of_nat i)
        by (rewrite length_to_be_bytes; lia). by apply IH. }
  assert (Hs : length TEST_STRINGS = 42%nat) by done.
  assert (Hf : Forall is_u32 (fields_of body)).
  { unfold fields_of. rewrite Hs. unfold is_u32, MAGIC. repeat constructor; lia. }
  assert (Hw' : ∀ i f, fields_of body !! i = Some f → word m a (4 * Z.of_nat i) = f).
  { intros i f Hi. apply Hw; [done|]. by eapply (Forall_lookup_1 _ _ _ _ Hf). }
  split; [by apply (Hw' 0%nat)|]. unfold header_at, header_of. f_equal.
  all: first [by apply (Hw' 1%nat) | by apply (Hw' 2%nat) | by apply (Hw' 3%nat) | by apply (Hw' 4%nat)
    | by apply (Hw' 5%nat) | by apply (Hw' 6%nat) | by apply (Hw' 7%nat) | by apply (Hw' 8%nat) | by apply (Hw' 9%nat)].
Qed.

Lemma finish_buf m a body :
  bytes_ok m → Forall (λ c, 0 ≤ c < 256) body → padded body →
  40 + Z.of_nat (length body) + 46 ≤ TREE_BYTES → 0 < a → a mod 8 = 0 → a + TREE_BYTES ≤ u64_max →
  ∃ m', finish m a (buf (replicate 40 0 ++ body)) = Done (m', mkBlob 0 a (header_of body)) ∧
    bytes_ok m' ∧ holds m' a (blob_bytes body).
Proof.
  intros Hm Hbody Hp Hfit Ha Hal Hhi. assert (Hs : length TEST_STRINGS = 42%nat) by done.
  unfold TREE_BYTES in Hfit. assert (Hfit' : fits ((replicate 40 0 ++ body) ++ to_be_bytes FDT_END ++ TEST_STRINGS)).
  { unfold fits, TREE_BYTES. rewrite !length_app, length_replicate, length_to_be_bytes, Hs. lia. }
  unfold finish. rewrite tree_u32_buf by (eapply fits_app_l; by rewrite <-app_assoc). cbn [mbind res_bind].
  rewrite app_assoc in Hfit'.
  rewrite (copy_at_buf _ _ []) by (by rewrite ?app_nil_r). rewrite app_nil_r. cbn [mbind res_bind].
  set (rest := replicate (Z.to_nat TREE_BYTES - length (((replicate 40 0 ++ body) ++ to_be_bytes FDT_END) ++ TEST_STRINGS)) 0).
  assert (He : len (buf ((replicate 40 0 ++ body) ++ to_be_bytes FDT_END)) = 40 + (Z.of_nat (length body) + 4)).
  { cbn [buf len]. rewrite !length_app, length_replicate, length_to_be_bytes. lia. }
  rewrite He. replace (40 + (Z.of_nat (length body) + 4) - 40) with (Z.of_nat (length body) + 4) by lia.
  change (bytes (buf _)) with ((((replicate 40 0 ++ body) ++ to_be_bytes FDT_END) ++ TEST_STRINGS) ++ rest).
  rewrite <-!app_assoc.
  pose proof (put_fields_app [] (fields_of body) (body ++ to_be_bytes FDT_END ++ TEST_STRINGS ++ rest) (replicate 40 0)
    eq_refl eq_refl) as Hput. change (Z.of_nat (length []) / 4) with 0 in Hput. cbn [app] in Hput.
  unfold fields_of in Hput at 1. rewrite Hput. cbn [mbind res_bind].
  set (l := (fields_of body ≫= to_be_bytes) ++ body ++ to_be_bytes FDT_END ++ TEST_STRINGS ++ rest).
  assert (Hl : l = blob_bytes body ++ rest) by (unfold l, blob_bytes; by rewrite <-!app_assoc).
  assert (Hh : holds (place m a l) a (blob_bytes body)).
  { pose proof (place_holds m a l) as H. rewrite Hl in H |- *. by apply holds_app in H as [H _]. }
  assert (Hok : bytes_ok (place m a l)).
  { apply place_bytes_ok; [done|]. rewrite Hl. apply Forall_app_2; [by apply blob_bytes_ok|]. by apply Forall_replicate. }
  destruct (header_at_blob _ _ _ Hh) as [Hmagic Hhd]; [unfold TREE_BYTES; lia|].
  unfold TREE_BYTES in Hhi.
  rewrite probe_accepts; [|done|done|unfold HEADER_SIZE; lia|done|done|].
  - cbn [mbind res_bind]. rewrite Hhd. by eauto.
  - rewrite Hhd. unfold header_of. rewrite Hs.
    split; cbn [totalsize last_comp_version version off_dt_struct size_dt_struct off_dt_strings size_dt_strings off_mem_rsvmap];
      unfold HEADER_SIZE, MAX_BLOB, SUPPORTED_VERSION; lia.
Qed.

(** What a walk of the blob relies on. *)
Lemma blob_of_ok a body :
  padded body → 40 + Z.of_nat (length body) + 46 ≤ TREE_BYTES → 0 < a → a mod 8 = 0 → a + TREE_BYTES ≤ u64_max →
  blob_ok (mkBlob 0 a (header_of body)) ∧ blob_aligned (mkBlob 0 a (header_of body)).
Proof.
  unfold TREE_BYTES. intros Hp Hfit Ha Hal Hhi. assert (Hs : length TEST_STRINGS = 42%nat) by done.
  split; [|done]. unfold header_of. rewrite Hs.
  split; cbn [header va totalsize off_dt_struct size_dt_struct off_dt_strings size_dt_strings off_mem_rsvmap];
    unfold HEADER_SIZE, MAX_BLOB; lia.
Qed.
