(* ===== verification/FdtWalk.v ===== *)
(** * FdtWalk: walking a blob that holds a tree

    Every token is decoded to what was written, and so a walk finds the nodes
    and properties of the tree in order, each node with the cell counts its
    parent declares. *)

From S2P Require Import Prelude Memory Frames Syscall Fdt FdtSpec FdtTree FdtBuild.

Section walk.
Context (m : mem) (b : Blob).
Context (Hm : bytes_ok m) (Hb : blob_ok b) (Hal : blob_aligned b).
Context (Hsize : size_dt_strings (header b) = Z.of_nat (length TEST_STRINGS)).
Context (Hstrings : holds m (va b + off_dt_strings (header b)) TEST_STRINGS).
Local Abbreviation T := (totalsize (header b)).

Ltac bounds := destruct (bo_size _ Hb), (bo_va _ Hb), (bo_struct _ Hb) as (? & ? & ?),
  (bo_strings _ Hb) as (? & ? & ?), (bo_rsvmap _ Hb); unfold HEADER_SIZE, MAX_BLOB in *.

(** ** Tokens *)

Lemma u32_at_holds o v :
  0 ≤ o → o mod 4 = 0 → o + 4 ≤ T → is_u32 v → holds m (va b + o) (to_be_bytes v) →
  u32_at m b o = Done (Some v).
Proof.
  intros Ho Hmod HT Hv Hh. bounds. unfold u32_at.
  rewrite (proj2 (checked_add32_Some o 4 (o + 4))) by lia. rewrite (proj2 (Z.ltb_ge _ _)) by lia.
  rewrite be32_word; [|apply Hb|done|lia]. by rewrite (holds_word _ _ _ v).
Qed.

Lemma find_nul_holds name n o :
  holds m (va b + o) (name ++ [0]) → Forall (λ c, 0 < c < 256) name → (length name < n)%nat →
  va b + o + Z.of_nat (length name) ≤ u64_max →
  find_nul m n (va b) o = Done (Some (o + Z.of_nat (length name))).
Proof.
  intros Hh Hn. revert n o Hh. induction Hn as [|c name Hc _ IH]; intros n o Hh Hl Hb64;
    (destruct n as [|n]; [simpl in Hl; lia|]); cbn [find_nul]; rewrite add64_ok by (simpl in Hb64; lia);
    cbn [mbind res_bind].
  - specialize (Hh 0%nat 0 eq_refl). rewrite Z.add_0_r in Hh. rewrite Hh. simpl. by rewrite Z.add_0_r.
  - pose proof (Hh 0%nat c eq_refl) as H0. rewrite Z.add_0_r in H0. rewrite H0.
    rewrite (proj2 (Z.eqb_neq _ _)) by lia. simpl in Hl, Hb64. rewrite IH; [do 2 f_equal; simpl; lia| |lia|lia].
    apply (holds_app _ _ [c]) in Hh as [_ Hh]. by rewrite <-Z.add_assoc in Hh.
Qed.

Lemma bytes_at_holds o v :
  0 ≤ o → o + Z.of_nat (length v) ≤ T → holds m (va b + o) v →
  bytes_at m b o (Z.of_nat (length v)) = Done (Some v).
Proof.
  intros Ho HT Hh. bounds. unfold bytes_at.
  rewrite (proj2 (checked_add32_Some o _ _)) by (split; [reflexivity|lia]).
  rewrite (proj2 (Z.ltb_ge _ _)) by lia. rewrite add64_ok by lia. cbn [mbind res_bind]. by rewrite holds_load.
Qed.

Lemma str_at_holds o limit name :
  0 ≤ o → o + Z.of_nat (length name) + 1 ≤ Z.min limit T → name_ok name → holds m (va b + o) (name ++ [0]) →
  str_at m b o limit = Done (Some name).
Proof.
  intros Ho Hl [Hn Hu] Hh. bounds. unfold str_at. rewrite (proj2 (Z.leb_gt _ _)) by lia.
  rewrite (find_nul_holds name); [|done|done|lia|lia]. cbn [obind mbind res_bind].
  replace (o + Z.of_nat (length name) - o) with (Z.of_nat (length name)) by lia.
  rewrite bytes_at_holds; [|done|lia|by apply holds_app in Hh as [Hh _]]. cbn [obind mbind res_bind].
  by rewrite Hu.
Qed.

(** Every name offset a tree uses resolves to its name. *)
Lemma string_at_test o :
  o ∈ [STR_COMPATIBLE; STR_REG; STR_ADDRESS_CELLS; STR_SIZE_CELLS] →
  string_at m b o = Done (Some (test_name o)).
Proof.
  intros Hin. bounds. assert (Hs : Z.of_nat (length TEST_STRINGS) = 42) by done. rewrite Hs in Hsize.
  assert (Hgo : ∀ pre name post, TEST_STRINGS = pre ++ (name ++ [0]) ++ post → o = Z.of_nat (length pre) →
    name_ok name → string_at m b o = Done (Some name)).
  { intros pre name post He -> Hok. pose proof Hs as Hlen. rewrite He, !length_app in Hlen.
    change (length [0]) with 1%nat in Hlen. unfold string_at.
    rewrite (proj2 (checked_add32_Some _ (Z.of_nat (length pre)) _)) by (split; [reflexivity|lia]).
    rewrite (proj2 (checked_add32_Some _ (size_dt_strings _) _)) by (split; [reflexivity|lia]).
    rewrite (proj2 (Z.leb_gt _ _)) by lia. apply str_at_holds; [lia|lia|done|].
    rewrite He in Hstrings. apply holds_app in Hstrings as [_ Hx]. apply holds_app in Hx as [Hx _].
    by rewrite Z.add_assoc. }
  assert (Hdec : ∀ l, bool_decide (Forall (λ c, 0 < c < 256) l) && utf8_valid l = true → name_ok l).
  { intros l Hd. apply andb_true_iff in Hd as [Hd1 Hd2]. split; [by apply bool_decide_eq_true_1 in Hd1|done]. }
  unfold STR_COMPATIBLE, STR_REG, STR_ADDRESS_CELLS, STR_SIZE_CELLS in Hin.
  repeat (apply elem_of_cons in Hin as [->|Hin]); [| | | |by apply elem_of_nil in Hin].
  - apply (Hgo [] _ (drop 11 TEST_STRINGS)); [done|done|by apply Hdec].
  - apply (Hgo (take 11 TEST_STRINGS) _ (drop 15 TEST_STRINGS)); [done|done|by apply Hdec].
  - apply (Hgo (take 15 TEST_STRINGS) _ (drop 30 TEST_STRINGS)); [done|done|by apply Hdec].
  - apply (Hgo (take 30 TEST_STRINGS) _ []); [done|done|by apply Hdec].
Qed.

Lemma prop_bytes_length p :
  Z.of_nat (length (prop_bytes p)) = 12 + next_multiple_of (Z.of_nat (length p.2)) 4.
Proof. unfold prop_bytes. rewrite !length_app, !length_to_be_bytes, <-length_pad4. lia. Qed.

Lemma begin_bytes_length name :
  Z.of_nat (length (begin_bytes name)) = 4 + next_multiple_of (Z.of_nat (length name) + 1) 4.
Proof.
  unfold begin_bytes. rewrite length_app, Nat2Z.inj_add, length_pad4, length_app, length_to_be_bytes.
  change (length [0]) with 1%nat. by rewrite Nat2Z.inj_add.
Qed.

Lemma prop_at_holds o p :
  0 ≤ o → o mod 4 = 0 → prop_ok p → o + Z.of_nat (length (prop_bytes p)) ≤ T →
  holds m (va b + o) (prop_bytes p) →
  prop_at m b o = Done (Some (test_name p.1, p.2, o + Z.of_nat (length (prop_bytes p)))).
Proof.
  intros Ho Hmod [Hin _] HT Hh. bounds. pose proof (prop_bytes_length p) as Hl. rewrite Hl in HT.
  destruct (next_multiple_of_spec (Z.of_nat (length p.2)) 4) as [Hnm _]; [lia|lia|].
  unfold prop_bytes in Hh. apply holds_app in Hh as [_ Hh]. rewrite length_to_be_bytes in Hh.
  apply holds_app in Hh as [Hlen Hh]. rewrite length_to_be_bytes in Hh.
  apply holds_app in Hh as [Hno Hh]. rewrite length_to_be_bytes in Hh. apply holds_app in Hh as [Hv _].
  rewrite <-!Z.add_assoc in *. change (Z.of_nat 4 + (Z.of_nat 4 + Z.of_nat 4)) with 12 in *.
  change (Z.of_nat 4 + Z.of_nat 4) with 8 in *. change (Z.of_nat 4) with 4 in *.
  unfold prop_at. rewrite (add32_ok o 4) by lia. cbn [mbind res_bind].
  rewrite (u32_at_holds _ (Z.of_nat (length p.2))); [|lia|zdiv|lia|unfold is_u32; lia|done]. cbn [obind mbind res_bind].
  rewrite (add32_ok o 8) by lia. cbn [mbind res_bind].
  rewrite (u32_at_holds _ p.1); [|lia|zdiv|lia| |done].
  2: { unfold is_u32. unfold STR_COMPATIBLE, STR_REG, STR_ADDRESS_CELLS, STR_SIZE_CELLS in Hin.
       rewrite !elem_of_cons, elem_of_nil in Hin. lia. }
  cbn [obind mbind res_bind]. rewrite (add32_ok o 12) by lia. cbn [mbind res_bind].
  rewrite bytes_at_holds; [|lia|lia|done]. cbn [obind mbind res_bind].
  rewrite string_at_test by done. cbn [obind mbind res_bind].
  unfold sum32. rewrite add32_ok by lia. cbn [mbind res_bind]. rewrite add32_ok by lia. cbn [mbind res_bind].
  unfold some. do 3 f_equal. rewrite align4_next by lia. rewrite Hl.
  rewrite next_multiple_add; [lia|zdiv|lia|lia].
Qed.

(** ** Steps of the walker *)

(** More rounds than enough change nothing. *)
Lemma next_mono fuel fuel' w r : next m fuel b w = Done r → (fuel ≤ fuel')%nat → next m fuel' b w = Done r.
Proof.
  revert fuel' w r. induction fuel as [|fuel IH]; intros fuel' w r H Hle; [done|].
  destruct fuel' as [|fuel']; [lia|]. cbn [next] in H |- *.
  destruct (w_end w <=? w_offset w); [done|].
  destruct (u32_at m b (w_offset w)) as [[token|]|]; [|done|done]. cbn [obind mbind res_bind] in H |- *.
  destruct (token =? FDT_NOP).
  { destruct (add32 (w_offset w) 4); [|done]. cbn [mbind res_bind] in H |- *. apply IH; [done|lia]. }
  destruct (token =? FDT_END); [done|]. destruct (token =? FDT_BEGIN_NODE); [done|].
  destruct (token =? FDT_END_NODE); [|done]. destruct (w_depth w =? 0); [done|].
  destruct (add32 (w_offset w) 4); [|done]. cbn [mbind res_bind] in H |- *. apply IH; [done|lia].
Qed.

Local Abbreviation nx := (next m (rounds b) b).

Lemma nx_total fuel w :
  walk_ok b w → T < w_offset w + 4 * Z.of_nat fuel → (0 < fuel)%nat → ∃ r, next m fuel b w = Done r.
Proof.
  intros Hw HT Hf. pose proof (next_sim m m b Hm Hb ltac:(by intros ??) fuel w Hw HT Hf) as Hs.
  destruct (sim_done _ _ _ _ Hs Hal) as (r & Hr & _). eauto.
Qed.

Lemma nx_fuel fuel w :
  walk_ok b w → T < w_offset w + 4 * Z.of_nat fuel → (0 < fuel)%nat → next m fuel b w = nx w.
Proof.
  intros Hw HT Hf. destruct (nx_total fuel w Hw HT Hf) as [r Hr].
  destruct (rounds_enough b Hb (w_offset w)) as [HT' Hf']; [apply Hw|].
  destruct (nx_total (rounds b) w Hw HT' Hf') as [r' Hr'].
  pose proof (next_mono _ (fuel + rounds b) _ _ Hr ltac:(lia)) as H1.
  pose proof (next_mono _ (fuel + rounds b) _ _ Hr' ltac:(lia)) as H2. congruence.
Qed.

(** A walker between two tokens. *)
Record ready (o d : Z) (cs : list (Z * Z)) : Prop := mkReady {
  re_offset : 0 ≤ o ≤ T;
  re_align : o mod 4 = 0;
  re_depth : 0 ≤ d < MAX_DEPTH;
  re_cells : length cs = Z.to_nat MAX_DEPTH
}.
Local Abbreviation at_end := (off_dt_struct (header b) + size_dt_struct (header b)).
Definition walker (o d : Z) (cs : list (Z * Z)) : Walker := mkWalker o at_end d cs.

Lemma ready_ok o d cs : ready o d cs → walk_ok b (walker o d cs).
Proof. intros []. bounds. split; simpl; [lia|done|lia|done|done]. Qed.

Lemma nx_token o d cs v :
  ready o d cs → is_u32 v → holds m (va b + o) (to_be_bytes v) → o + 4 ≤ at_end →
  (w_end (walker o d cs) <=? w_offset (walker o d cs)) = false ∧ u32_at m b o = Done (Some v).
Proof.
  intros [] Hv Hh He. bounds. split; [simpl; apply Z.leb_gt; lia|]. apply u32_at_holds; [lia|done|lia|done|done].
Qed.

Lemma nx_begin o d cs pc name :
  ready o d cs → d + 1 < MAX_DEPTH → cs !! Z.to_nat d = Some pc → name_ok name →
  holds m (va b + o) (begin_bytes name) → o + Z.of_nat (length (begin_bytes name)) ≤ at_end →
  nx (walker o d cs) = Done (Some (SNode (mkNode o (d + 1) pc.1 pc.2) name,
    walker (o + Z.of_nat (length (begin_bytes name))) (d + 1)
      (<[Z.to_nat (d + 1) := (DEFAULT_ADDRESS_CELLS, DEFAULT_SIZE_CELLS)]> cs))).
Proof.
  intros Hr Hd Hpc Hn Hh He. destruct (rounds_enough b Hb o) as [_ Hf]; [apply Hr|]. bounds.
  pose proof (begin_bytes_length name) as Hl.
  destruct (next_multiple_of_spec (Z.of_nat (length name) + 1) 4) as [Hnm _]; [lia|lia|].
  unfold begin_bytes, pad4 in Hh. apply holds_app in Hh as [Ht Hh]. apply holds_app in Hh as [Hname _].
  rewrite length_to_be_bytes in Hname. rewrite <-Z.add_assoc in Hname. change (Z.of_nat 4) with 4 in Hname.
  destruct (nx_token o d cs FDT_BEGIN_NODE) as [Hlt Ht']; [done|done|done|lia|]. destruct Hr as [[Ho HoT] Hmod Hdd Hc].
  destruct (rounds b) as [|f]; [lia|]. cbn [next]. rewrite Hlt. change (w_offset (walker o d cs)) with o. rewrite Ht'.
  cbn [obind mbind res_bind]. change (FDT_BEGIN_NODE =? FDT_NOP) with false. change (FDT_BEGIN_NODE =? FDT_END) with false.
  change (FDT_BEGIN_NODE =? FDT_BEGIN_NODE) with true. cbn iota.
  rewrite (add32_ok o 4) by lia. cbn [mbind res_bind]. cbn [walker w_end w_depth cells].
  rewrite (str_at_holds _ _ name); [|lia|lia|done|done]. cbn [obind mbind res_bind].
  rewrite (proj2 (Z.leb_gt _ _)) by lia. replace (d + 1 - 1) with d by lia. rewrite Hpc. destruct pc as [pa ps].
  destruct (lookup_lt_is_Some_2 cs (Z.to_nat (d + 1))) as [? ->]; [lia|].
  unfold sum32. rewrite add32_ok by lia. cbn [mbind res_bind]. rewrite add32_ok by lia. cbn [mbind res_bind fst snd].
  unfold some, walker. do 5 f_equal. rewrite align4_next by lia. rewrite Hl.
  rewrite <-!Z.add_assoc, (next_multiple_add o), (next_multiple_add 4) by first [done | lia]. done.
Qed.

Lemma nx_prop o d cs p :
  ready o d cs → prop_ok p → holds m (va b + o) (prop_bytes p) → o + Z.of_nat (length (prop_bytes p)) ≤ at_end →
  nx (walker o d cs) = Done (Some (SProperty (test_name p.1) p.2,
    note_cells (walker (o + Z.of_nat (length (prop_bytes p))) d cs) (test_name p.1) p.2)).
Proof.
  intros Hr Hp Hh He. destruct (rounds_enough b Hb o) as [_ Hf]; [apply Hr|]. bounds.
  pose proof (prop_bytes_length p) as Hl.
  destruct (next_multiple_of_spec (Z.of_nat (length p.2)) 4) as [Hnm _]; [lia|lia|].
  pose proof Hh as Hh'. unfold prop_bytes in Hh'. apply holds_app in Hh' as [Ht _].
  destruct (nx_token o d cs FDT_PROP) as [Hlt Ht']; [done|done|done|lia|]. destruct Hr as [[Ho HoT] Hmod Hdd Hc].
  destruct (rounds b) as [|f]; [lia|]. cbn [next]. rewrite Hlt. change (w_offset (walker o d cs)) with o. rewrite Ht'.
  cbn [obind mbind res_bind]. change (FDT_PROP =? FDT_NOP) with false. change (FDT_PROP =? FDT_END) with false.
  change (FDT_PROP =? FDT_BEGIN_NODE) with false. change (FDT_PROP =? FDT_END_NODE) with false.
  change (FDT_PROP =? FDT_PROP) with true. cbn iota.
  by rewrite (prop_at_holds o p) by first [done | lia].
Qed.

Lemma nx_end_node o d cs :
  ready o d cs → 0 < d → holds m (va b + o) (to_be_bytes FDT_END_NODE) → o + 4 ≤ at_end →
  nx (walker o d cs) = nx (walker (o + 4) (d - 1) cs).
Proof.
  intros Hr Hd Hh He. destruct (rounds_enough b Hb o) as [Hf1 Hf]; [apply Hr|]. bounds.
  destruct (nx_token o d cs FDT_END_NODE) as [Hlt Ht']; [done|done|done|lia|].
  assert (Hr' : ready (o + 4) (d - 1) cs) by (destruct Hr as [[] ? [] ?]; split; [lia|zdiv|lia|done]).
  transitivity (next m (S (rounds b)) b (walker o d cs)).
  - symmetry. apply nx_fuel; [by apply ready_ok|simpl; lia|lia].
  - cbn [next]. rewrite Hlt. change (w_offset (walker o d cs)) with o. rewrite Ht'.
    cbn [obind mbind res_bind]. change (FDT_END_NODE =? FDT_NOP) with false. change (FDT_END_NODE =? FDT_END) with false.
    change (FDT_END_NODE =? FDT_BEGIN_NODE) with false. change (FDT_END_NODE =? FDT_END_NODE) with true. cbn iota.
    change (w_depth (walker o d cs)) with d. rewrite (proj2 (Z.eqb_neq _ _)) by lia.
    rewrite (add32_ok o 4) by lia. cbn [mbind res_bind]. done.
Qed.

Lemma nx_end o d cs :
  ready o d cs → holds m (va b + o) (to_be_bytes FDT_END) → o + 4 ≤ at_end → nx (walker o d cs) = Done None.
Proof.
  intros Hr Hh He. destruct (rounds_enough b Hb o) as [Hf1 Hf]; [apply Hr|].
  destruct (nx_token o d cs FDT_END) as [Hlt Ht']; [done|done|done|lia|].
  destruct (rounds b) as [|f]; [lia|]. cbn [next]. rewrite Hlt. change (w_offset (walker o d cs)) with o. by rewrite Ht'.
Qed.

(** ** Whole walks *)

Inductive walks : Walker → list Step → Prop :=
  | walks_end w : nx w = Done None → walks w []
  | walks_step w s w' l : nx w = Done (Some (s, w')) → walks w' l → walks w (s :: l).

Lemma walks_nx w w' l : nx w = nx w' → walks w' l → walks w l.
Proof. intros He Hw. destruct Hw; [apply walks_end|eapply walks_step]; by rewrite ?He. Qed.

Lemma walks_collect w l fuel : walks w l → walk_ok b w → walk_fuel b fuel w → collect m fuel b w = Done l.
Proof.
  intros Hw. revert fuel. induction Hw as [w Hn|w s w' l Hn Hw IH]; intros fuel Hok Hf;
    (destruct fuel as [|fuel]; [by destruct Hf; lia|]); cbn [collect]; rewrite Hn; [done|].
  cbn [mbind res_bind]. pose proof (next_step_sim m m b Hm Hb ltac:(by intros ??) w Hok) as Hs.
  rewrite Hn in Hs. destruct Hs as [_ [Hs Hin]]. rewrite IH; [done|apply Hs|].
  by apply (walk_fuel_step _ _ _ _ Hok Hf Hs Hin).
Qed.

(** A node's properties leave what they declare in its cell. *)
Lemma note_declare o d cs c p :
  0 < d → length cs = Z.to_nat MAX_DEPTH → d < MAX_DEPTH →
  note_cells (walker o d (<[Z.to_nat d := c]> cs)) (test_name p.1) p.2 =
    walker o d (<[Z.to_nat d := declare c p]> cs).
Proof.
  intros Hd Hc Hlt. unfold note_cells, declare. destruct (read_cells p.2) as [v|]; [|done].
  cbn [walker cells w_depth]. rewrite list_lookup_insert_eq by lia. destruct c as [a s].
  rewrite (proj2 (Z.ltb_lt _ _)) by done. unfold with_cells, walker. cbn [w_offset w_end w_depth fst snd].
  destruct (same _ _); [by rewrite list_insert_insert_eq|].
  destruct (same _ _); [by rewrite list_insert_insert_eq|done].
Qed.

Lemma walks_props props o d cs c l :
  0 < d < MAX_DEPTH → length cs = Z.to_nat MAX_DEPTH → 0 ≤ o → o mod 4 = 0 → Forall prop_ok props →
  holds m (va b + o) (props ≫= prop_bytes) → o + Z.of_nat (length (props ≫= prop_bytes)) ≤ at_end →
  walks (walker (o + Z.of_nat (length (props ≫= prop_bytes))) d (<[Z.to_nat d := foldl declare c props]> cs)) l →
  walks (walker o d (<[Z.to_nat d := c]> cs)) (((λ p, SProperty (test_name p.1) p.2) <$> props) ++ l).
Proof.
  intros Hd Hc. revert o c. induction props as [|p props IH]; intros o c Ho Hmod Hok Hh He Hw.
  - cbn in Hw. by rewrite Z.add_0_r in Hw.
  - change ((p :: props) ≫= prop_bytes) with (prop_bytes p ++ (props ≫= prop_bytes)) in *.
    rewrite length_app, Nat2Z.inj_add in *. apply holds_app in Hh as [Hp Hh].
    apply Forall_cons in Hok as [Hpo Hok]. bounds. pose proof (padded_prop p) as Hpad.
    rewrite Z.add_assoc in Hw. rewrite <-Z.add_assoc in Hh.
    eapply walks_step; [apply nx_prop; [|done|done|lia]|].
    + split; [lia|done|lia|by rewrite length_insert].
    + rewrite note_declare by (done || lia). apply IH; [lia|unfold padded in Hpad; zdiv|done|done|lia|done].
Qed.

(** The children of a node, one after the other. *)
Fixpoint steps_list (pc : Z * Z) (d o : Z) (l : list dtree) : list Step :=
  match l with
  | [] => []
  | c :: l' => steps pc d o c ++ steps_list pc d (o + Z.of_nat (length (tree_bytes c))) l'
  end.

Lemma steps_node pc d o name props children :
  steps pc d o (DNode name props children) =
    SNode (mkNode o d pc.1 pc.2) name :: (((λ p, SProperty (test_name p.1) p.2) <$> props) ++
      steps_list (declared props) (d + 1)
        (o + Z.of_nat (length (begin_bytes name)) + Z.of_nat (length (props ≫= prop_bytes))) children).
Proof.
  cbn [steps]. rewrite length_app, Nat2Z.inj_add, Z.add_assoc. do 2 f_equal.
  generalize (o + Z.of_nat (length (begin_bytes name)) + Z.of_nat (length (props ≫= prop_bytes))).
  induction children as [|c l IH]; intros k; [done|]. cbn [steps_list]. by rewrite <-IH.
Qed.

Lemma tree_ok_node n name props children :
  tree_ok (S n) (DNode name props children) ↔ name_ok name ∧ Forall prop_ok props ∧ Forall (tree_ok n) children.
Proof.
  cbn [tree_ok]. split; intros (Hn & Hp & Hc); (split; [done|split; [done|]]);
    (induction children as [|c l IH]; [done|]).
  - destruct Hc. constructor; auto.
  - apply Forall_cons in Hc as [Hc Hl]. split; [done|by apply IH].
Qed.

Lemma holds_at p q l : holds m p l → p = q → holds m q l.
Proof. by intros H <-. Qed.

(** What is left to walk after [l] bytes, whatever a subtree leaves in the
    cells below depth [d]. *)
Definition resumes (o d : Z) (cs : list (Z * Z)) (l : list Step) : Prop :=
  ∀ cs', length cs' = length cs → (∀ i, (i ≤ Z.to_nat d)%nat → cs' !! i = cs !! i) → walks (walker o d cs') l.

Definition walks_as (t : dtree) : Prop := ∀ n o d cs pc l,
  tree_ok n t → d + Z.of_nat n < MAX_DEPTH → ready o d cs → cs !! Z.to_nat d = Some pc →
  holds m (va b + o) (tree_bytes t) → o + Z.of_nat (length (tree_bytes t)) ≤ at_end →
  resumes (o + Z.of_nat (length (tree_bytes t))) d cs l → walks (walker o d cs) (steps pc (d + 1) o t ++ l).

Lemma walks_children children n o d cs pc l :
  Forall walks_as children → Forall (tree_ok n) children →
  d + Z.of_nat n < MAX_DEPTH → ready o d cs → cs !! Z.to_nat d = Some pc →
  holds m (va b + o) (children ≫= tree_bytes) → o + Z.of_nat (length (children ≫= tree_bytes)) ≤ at_end →
  resumes (o + Z.of_nat (length (children ≫= tree_bytes))) d cs l →
  walks (walker o d cs) (steps_list pc (d + 1) o children ++ l).
Proof.
  intros Hw. revert o cs. induction Hw as [|c children Hc _ IH]; intros o cs Hok Hd Hr Hpc Hh He Hl.
  - specialize (Hl cs eq_refl ltac:(done)). cbn in Hl. by rewrite Z.add_0_r in Hl.
  - change ((c :: children) ≫= tree_bytes) with (tree_bytes c ++ (children ≫= tree_bytes)) in *.
    rewrite length_app, Nat2Z.inj_add in *. rewrite Z.add_assoc in *. apply holds_app in Hh as [Hhc Hh].
    apply Forall_cons in Hok as [Hokc Hok]. pose proof (padded_tree c) as Hpad.
    cbn [steps_list]. rewrite <-app_assoc. apply (Hc n); try done; [lia|].
    intros cs' Hlen Hcs. bounds. apply IH; [done|done| |by rewrite Hcs by lia|apply (holds_at _ _ _ Hh); lia|lia|].
    + destruct Hr. split; [lia|unfold padded in Hpad; zdiv|done|by rewrite Hlen].
    + intros cs'' Hlen' Hcs'. apply Hl; [by rewrite Hlen'|]. intros i Hi. by rewrite Hcs', Hcs.
Qed.

Lemma walks_tree t : walks_as t.
Proof.
  induction t as [name props children IH] using dtree_ind'. intros n o d cs pc l Hok Hd Hr Hpc Hh He Hl.
  destruct n as [|n]; [by destruct Hok|]. apply tree_ok_node in Hok as (Hn & Hp & Hc).
  cbn [tree_bytes] in *. rewrite !length_app, !Nat2Z.inj_add, length_to_be_bytes, !Z.add_assoc in *.
  apply holds_app in Hh as [Hbeg Hh]. apply holds_app in Hh as [Hpr Hh]. apply holds_app in Hh as [Hch Hend].
  rewrite steps_node. rewrite <-app_comm_cons, <-app_assoc.
  pose proof (padded_begin name) as Hpad1. pose proof (padded_props props) as Hpad2.
  assert (Hpad3 : padded (children ≫= tree_bytes)).
  { clear. induction children; [done|]. by apply padded_app; [apply padded_tree|]. }
  unfold padded in Hpad1, Hpad2, Hpad3. destruct Hr as [Ho Hmod Hdd Hcs]. bounds.
  eapply walks_step; [apply (nx_begin _ _ _ pc); [done|lia|done|done|done|lia]|].
  apply walks_props; [lia|done|lia|zdiv|done|apply (holds_at _ _ _ Hpr); lia|lia|].
  apply (walks_children _ n); [done|done|lia| | |apply (holds_at _ _ _ Hch); lia|lia|].
  - split; [lia|zdiv|lia|by rewrite length_insert].
  - by rewrite list_lookup_insert_eq by lia.
  - intros cs' Hlen Hsame. rewrite length_insert in Hlen. eapply walks_nx.
    { apply nx_end_node; [split; [lia|zdiv|lia|by rewrite Hlen]|lia|apply (holds_at _ _ _ Hend); lia|lia]. }
    replace (d + 1 - 1) with d by lia. apply Hl; [done|]. intros i Hi.
    rewrite Hsame by lia. by rewrite list_lookup_insert_ne by lia.
Qed.

(** The structure block holds one tree and the end token. *)
Lemma collect_tree t n :
  tree_ok n t → Z.of_nat n < MAX_DEPTH →
  off_dt_struct (header b) + Z.of_nat (length (tree_bytes t)) + 4 = at_end →
  holds m (va b + off_dt_struct (header b)) (tree_bytes t ++ to_be_bytes FDT_END) →
  walks (walk b) (steps (DEFAULT_ADDRESS_CELLS, DEFAULT_SIZE_CELLS) 1 (off_dt_struct (header b)) t).
Proof.
  intros Hok Hn He Hh. bounds. apply holds_app in Hh as [Ht Hend]. destruct Hal as [Hmod _].
  assert (Hw : walk b = walker (off_dt_struct (header b)) 0
    (replicate (Z.to_nat MAX_DEPTH) (DEFAULT_ADDRESS_CELLS, DEFAULT_SIZE_CELLS))).
  { unfold walk, walker, saturating_add32. f_equal. lia. }
  rewrite Hw, <-(app_nil_r (steps _ _ _ t)). pose proof (padded_tree t) as Hpad. unfold padded in Hpad.
  apply (walks_tree t n); [done|lia|split; [lia|done|done|done]|done|done|lia|].
  intros cs' Hlen _. apply walks_end. apply nx_end; [split; [lia|zdiv|done|done]| |lia].
  apply (holds_at _ _ _ Hend). lia.
Qed.

End walk.
