(* ===== verification/FdtFind.v ===== *)
(** * FdtFind: looking nodes and properties up in a blob that holds a tree

    [find_node] is [resolve] on the tree, and [property] the first property of
    that name of the node. *)

From S2P Require Import Prelude Memory Frames Syscall Fdt FdtSpec FdtTree FdtBuild FdtWalk.

(** ** The search as a function of the steps *)

Fixpoint find_steps (path : list (list Z)) (on_path : list bool) (l : list Step) : option Node :=
  match l with
  | [] => None
  | SProperty _ _ :: l' => find_steps path on_path l'
  | SNode n name :: l' =>
    let matched :=
      if depth n =? 1 then bool_decide (name = []) else
      match path !! Z.to_nat (depth n - 2) with
      | Some component => default false (on_path !! Z.to_nat (depth n - 1)) && name_matches name component
      | None => false
      end in
    if matched && (depth n =? Z.of_nat (length path) + 1) then Some n
    else find_steps path (<[Z.to_nat (depth n) := matched]> on_path) l'
  end.

Lemma find_node_loop_steps m b w l fuel path on_path :
  bytes_ok m → blob_ok b → walks m b w l → walk_ok b w → walk_fuel b fuel w →
  length on_path = Z.to_nat MAX_DEPTH →
  find_node_loop m fuel b w path on_path = Done (find_steps (components path) on_path l).
Proof.
  intros Hm Hb Hw. revert fuel on_path. induction Hw as [w Hn|w s w' l Hn Hw IH]; intros fuel on_path Hok Hf Hp;
    (destruct fuel as [|fuel]; [by destruct Hf; lia|]); cbn [find_node_loop]; rewrite Hn; [done|].
  cbn [obind mbind res_bind]. pose proof (next_step_sim m m b Hm Hb ltac:(by intros ??) w Hok) as Hs.
  rewrite Hn in Hs. destruct Hs as [_ [Hs Hin]].
  pose proof (walk_fuel_step _ _ _ _ Hok Hf Hs Hin) as Hf'. destruct Hs as (Hok' & _ & Hd). cbn [fst snd] in *.
  destruct s as [n name|]; [|by apply IH]. destruct Hd as [Hd _]. cbn [find_steps].
  destruct (lookup_lt_is_Some_2 on_path (Z.to_nat (depth n))) as [? ->]; [destruct (no_depth _ _ Hd); lia|].
  cbv zeta. destruct (_ && (depth n =? _)); [done|]. apply IH; [done|done|by rewrite length_insert].
Qed.

Lemma find_steps_props path on_path props l :
  find_steps path on_path (((λ p : Z * list Z, SProperty (test_name p.1) p.2) <$> props) ++ l) =
  find_steps path on_path l.
Proof. by induction props. Qed.

(** ** ... is [resolve] on the tree *)

Section find.
Context (path : list (list Z)).

(** What a subtree at depth [d] contributes when its parent is on the path, or not. *)
Definition hit (p : bool) (pc : Z * Z) (d o : Z) (t : dtree) : option Node :=
  if p then
    match path !! Z.to_nat (d - 2) with
    | Some c => if name_matches (dname t) c then fst <$> resolve (drop (Z.to_nat (d - 1)) path) pc d o t else None
    | None => None
    end
  else None.

Fixpoint hits (p : bool) (pc : Z * Z) (d o : Z) (l : list dtree) : option Node :=
  match l with
  | [] => None
  | t :: l' =>
    match hit p pc d o t with Some n => Some n | None => hits p pc d (o + Z.of_nat (length (tree_bytes t))) l' end
  end.

(** The search through [l] answers [r] or goes on, its flags above depth [d] kept. *)
Definition answers (d : Z) (on_path : list bool) (l : list Step) (r : option Node) : Prop :=
  ∀ rest, ∃ on', length on' = length on_path ∧ (∀ i, (i < Z.to_nat d)%nat → on' !! i = on_path !! i) ∧
    find_steps path on_path (l ++ rest) = match r with Some n => Some n | None => find_steps path on' rest end.

Definition found_in (t : dtree) : Prop := ∀ n p pc d o on_path,
  tree_ok n t → 2 ≤ d → d + Z.of_nat n ≤ MAX_DEPTH → length on_path = Z.to_nat MAX_DEPTH →
  on_path !! Z.to_nat (d - 1) = Some p → answers d on_path (steps pc d o t) (hit p pc d o t).

Lemma found_children children n p pc d o on_path :
  Forall found_in children → Forall (tree_ok n) children → 2 ≤ d → d + Z.of_nat n ≤ MAX_DEPTH →
  length on_path = Z.to_nat MAX_DEPTH → on_path !! Z.to_nat (d - 1) = Some p →
  answers d on_path (steps_list pc d o children) (hits p pc d o children).
Proof.
  intros Hw. revert o on_path. induction Hw as [|c children Hc _ IH]; intros o on_path Hok Hd Hn Hl Hp rest.
  - exists on_path. done.
  - apply Forall_cons in Hok as [Hokc Hok]. cbn [steps_list hits]. rewrite <-app_assoc.
    destruct (Hc n p pc d o on_path Hokc Hd Hn Hl Hp (steps_list pc d (o + Z.of_nat (length (tree_bytes c))) children ++ rest))
      as (on1 & Hl1 & H1 & ->).
    destruct (hit p pc d o c) as [r|]; [by exists on_path|].
    destruct (IH (o + Z.of_nat (length (tree_bytes c))) on1 Hok Hd Hn ltac:(by rewrite Hl1) ltac:(rewrite H1 by lia; done) rest)
      as (on2 & Hl2 & H2 & He).
    exists on2. split; [by rewrite Hl2|]. split; [|done]. intros i Hi. by rewrite H2, H1.
Qed.

Lemma hits_false pc d o l : hits false pc d o l = None.
Proof. revert o. by induction l as [|t l IH]; intros o; [|apply IH]. Qed.

(** Below a node that matches, the children are searched for the next component. *)
Lemma hits_true name props children pc d o :
  1 ≤ d → d ≠ Z.of_nat (length path) + 1 → (d = 1 ∨ is_Some (path !! Z.to_nat (d - 2))) →
  hits true (declared props) (d + 1)
    (o + Z.of_nat (length (begin_bytes name)) + Z.of_nat (length (props ≫= prop_bytes))) children =
  fst <$> resolve (drop (Z.to_nat (d - 1)) path) pc d o (DNode name props children).
Proof.
  intros Hd Hne Hlk. assert (Hlt : (Z.to_nat (d - 1) < length path)%nat).
  { destruct Hlk as [->|[c Hc]]; [lia|]. apply lookup_lt_Some in Hc. lia. }
  destruct (lookup_lt_is_Some_2 _ _ Hlt) as [c Hc]. rewrite (drop_S _ _ _ Hc). cbn [resolve].
  generalize (o + Z.of_nat (length (begin_bytes name)) + Z.of_nat (length (props ≫= prop_bytes))). clear o.
  induction children as [|t l IH]; intros o; [done|]. cbn [hits]. rewrite IH. unfold hit.
  replace (d + 1 - 2) with (d - 1) by lia. rewrite Hc.
  replace (Z.to_nat (d + 1 - 1)) with (S (Z.to_nat (d - 1))) by lia.
  destruct (name_matches (dname t) c); [|done].
  by destruct (resolve _ _ (d + 1) o t) as [[]|].
Qed.

(** A node and all below it, once it is known whether the node is on the path. *)
Lemma found_node name props children n pc d o on_path (matched : bool) :
  Forall found_in children → Forall (tree_ok n) children → 1 ≤ d → d + Z.of_nat n < MAX_DEPTH →
  length on_path = Z.to_nat MAX_DEPTH →
  (if matched then d = 1 ∨ is_Some (path !! Z.to_nat (d - 2)) else True) →
  (matched && (d =? Z.of_nat (length path) + 1)) = false →
  answers d (<[Z.to_nat d := matched]> on_path)
    (((λ p : Z * list Z, SProperty (test_name p.1) p.2) <$> props) ++ steps_list (declared props) (d + 1)
        (o + Z.of_nat (length (begin_bytes name)) + Z.of_nat (length (props ≫= prop_bytes))) children)
    (if matched then fst <$> resolve (drop (Z.to_nat (d - 1)) path) pc d o (DNode name props children) else None).
Proof.
  intros Hch Hok Hd Hn Hl Hm Hne rest. rewrite <-app_assoc, find_steps_props.
  destruct (found_children children n matched (declared props) (d + 1)
    (o + Z.of_nat (length (begin_bytes name)) + Z.of_nat (length (props ≫= prop_bytes)))
    (<[Z.to_nat d := matched]> on_path) Hch Hok ltac:(lia) ltac:(lia) ltac:(by rewrite length_insert)
    ltac:(by replace (d + 1 - 1) with d by lia; rewrite list_lookup_insert_eq by lia) rest) as (on1 & Hl1 & H1 & ->).
  exists on1. split; [done|]. split; [intros i Hi; by rewrite H1 by lia|].
  destruct matched; [|by rewrite hits_false]. rewrite (hits_true name props children pc d o); [done|done| |done].
  simpl in Hne. by apply Z.eqb_neq.
Qed.

Lemma find_tree t : found_in t.
Proof.
  induction t as [name props children IH] using dtree_ind'. intros n p pc d o on_path Hok Hd Hn Hl Hp rest.
  destruct n as [|n]; [by destruct Hok|]. apply tree_ok_node in Hok as (_ & _ & Hc).
  rewrite steps_node. cbn [app find_steps depth]. rewrite (proj2 (Z.eqb_neq d 1)) by lia. rewrite Hp. change (default false (Some p)) with p.
  set (matched := match path !! Z.to_nat (d - 2) with Some component => p && name_matches name component | None => false end).
  assert (Hhit : hit p pc d o (DNode name props children) =
    if matched then fst <$> resolve (drop (Z.to_nat (d - 1)) path) pc d o (DNode name props children) else None).
  { unfold hit, matched. cbn [dname]. by destruct p, (path !! Z.to_nat (d - 2)). }
  assert (Hm : if matched then d = 1 ∨ is_Some (path !! Z.to_nat (d - 2)) else True).
  { unfold matched. destruct (path !! Z.to_nat (d - 2)); [|done]. destruct (p && _); [right; eauto|done]. }
  rewrite Hhit. destruct (matched && (d =? Z.of_nat (length path) + 1)) eqn:He.
  - apply andb_true_iff in He as [-> He%Z.eqb_eq]. exists on_path. split; [done|]. split; [done|].
    rewrite drop_ge by lia. done.
  - destruct (found_node name props children n pc d o on_path matched IH Hc ltac:(lia) ltac:(lia) Hl Hm He rest)
      as (on1 & Hl1 & H1 & ->).
    exists on1. rewrite length_insert in Hl1. split; [done|]. split; [|done].
    intros i Hi. rewrite H1 by lia. by rewrite list_lookup_insert_ne by lia.
Qed.

(** The whole tree, from the root. *)
Lemma find_root name props children n pc o on_path :
  tree_ok n (DNode name props children) → Z.of_nat n < MAX_DEPTH → length on_path = Z.to_nat MAX_DEPTH →
  find_steps path on_path (steps pc 1 o (DNode name props children)) =
    if bool_decide (name = []) then fst <$> resolve path pc 1 o (DNode name props children) else None.
Proof.
  intros Hok Hn Hl. destruct n as [|n]; [by destruct Hok|]. apply tree_ok_node in Hok as (_ & _ & Hc).
  rewrite steps_node. cbn [find_steps depth]. change (1 =? 1) with true. cbn iota.
  destruct (bool_decide (name = []) && (1 =? Z.of_nat (length path) + 1)) eqn:He.
  - apply andb_true_iff in He as [-> He%Z.eqb_eq]. by destruct path; [|simpl in He; lia].
  - assert (Hch : Forall found_in children) by (apply Forall_true; apply find_tree).
    assert (Hroot : if bool_decide (name = []) then 1 = 1 ∨ is_Some (path !! Z.to_nat (1 - 2)) else True)
      by (destruct (bool_decide (name = [])); [by left|done]).
    destruct (found_node name props children n pc 1 o on_path (bool_decide (name = [])) Hch Hc ltac:(lia) ltac:(lia) Hl
      Hroot He []) as (on1 & _ & _ & Hr).
    rewrite app_nil_r in Hr. rewrite Hr. change (drop (Z.to_nat (1 - 1)) path) with path.
    destruct (bool_decide (name = [])); [|done]. by destruct (fst <$> resolve path pc 1 o _).
Qed.
End find.

(** ** Properties of the node that was found *)

Section props.
Context (m : mem) (b : Blob).
Context (Hm : bytes_ok m) (Hb : blob_ok b) (Hal : blob_aligned b).
Context (Hsize : size_dt_strings (header b) = Z.of_nat (length TEST_STRINGS)).
Context (Hstrings : holds m (va b + off_dt_strings (header b)) TEST_STRINGS).
Local Abbreviation T := (totalsize (header b)).

(** The subtree [t] lies at offset [o] of the blob. *)
Record lies (n : nat) (o : Z) (t : dtree) : Prop := mkLies {
  li_ok : tree_ok n t;
  li_offset : 0 ≤ o ∧ o + Z.of_nat (length (tree_bytes t)) ≤ T;
  li_align : o mod 4 = 0;
  li_holds : holds m (va b + o) (tree_bytes t)
}.

Lemma lies_children n o name props children :
  lies (S n) o (DNode name props children) →
  let o' := o + Z.of_nat (length (begin_bytes name)) + Z.of_nat (length (props ≫= prop_bytes)) in
  0 ≤ o' ∧ o' + Z.of_nat (length (children ≫= tree_bytes)) + 4 ≤ T ∧ o' mod 4 = 0 ∧
  holds m (va b + o') (children ≫= tree_bytes) ∧ Forall (tree_ok n) children ∧ Forall prop_ok props ∧
  holds m (va b + (o + Z.of_nat (length (begin_bytes name)))) (props ≫= prop_bytes) ∧
  holds m (va b + o) (begin_bytes name) ∧ name_ok name ∧
  holds m (va b + (o' + Z.of_nat (length (children ≫= tree_bytes)))) (to_be_bytes FDT_END_NODE).
Proof.
  intros [Hok Ho Hmod Hh] o'. apply tree_ok_node in Hok as (Hn & Hp & Hc). cbn [tree_bytes] in *.
  rewrite !length_app, !Nat2Z.inj_add, length_to_be_bytes in Ho.
  apply holds_app in Hh as [Hbeg Hh]. apply holds_app in Hh as [Hpr Hh]. apply holds_app in Hh as [Hch Hend].
  pose proof (padded_begin name) as Hpad1. pose proof (padded_props props) as Hpad2. unfold padded in *.
  split; [unfold o'; lia|]. split; [unfold o'; lia|]. split; [unfold o'; zdiv|].
  split; [apply (holds_at _ _ _ _ Hch); unfold o'; lia|]. split; [done|]. split; [done|].
  split; [apply (holds_at _ _ _ _ Hpr); lia|]. split; [done|]. split; [done|].
  apply (holds_at _ _ _ _ Hend); unfold o'; lia.
Qed.

Lemma resolve_lies t : ∀ n path pc d o r,
  lies n o t → resolve path pc d o t = Some r → ∃ k, lies k (offset r.1) r.2.
Proof.
  induction t as [name props children IH] using dtree_ind'. intros n path pc d o r Hl Hr.
  destruct n as [|n]; [by destruct (li_ok _ _ _ Hl)|].
  destruct path as [|c path]; cbn [resolve] in Hr; [injection Hr as <-; by exists (S n)|].
  apply lies_children in Hl as (Ho & HT & Hmod & Hh & Hok & _). revert Ho HT Hmod Hh Hr.
  generalize (o + Z.of_nat (length (begin_bytes name)) + Z.of_nat (length (props ≫= prop_bytes))). clear o.
  induction IH as [|t l Ht _ IHl]; intros o Ho HT Hmod Hh Hr; [done|].
  change ((t :: l) ≫= tree_bytes) with (tree_bytes t ++ (l ≫= tree_bytes)) in *.
  rewrite length_app, Nat2Z.inj_add in HT. apply holds_app in Hh as [Hht Hh].
  apply Forall_cons in Hok as [Hokt Hok]. pose proof (padded_tree t) as Hpad. unfold padded in Hpad.
  destruct (if name_matches (dname t) c then _ else _) as [r'|] eqn:Hf.
  - injection Hr as <-. destruct (name_matches (dname t) c); [|done].
    eapply (Ht n); [|exact Hf]. split; [done|lia|done|done].
  - eapply (IHl Hok); [..|exact Hr]; [lia|lia|zdiv|apply (holds_at _ _ _ _ Hh); lia].
Qed.

(** The token after the properties is not another. *)
Lemma next_property_stop fuel o v :
  0 ≤ o → o mod 4 = 0 → o + 4 ≤ T → is_u32 v → holds m (va b + o) (to_be_bytes v) →
  v ≠ FDT_NOP → v ≠ FDT_PROP → next_property m (S fuel) b o = Done None.
Proof.
  intros Ho Hmod HT Hv Hh Hnop Hprop. cbn [next_property].
  rewrite (u32_at_holds m b Hb o v) by done. cbn [obind mbind res_bind].
  by rewrite (proj2 (Z.eqb_neq _ _) Hnop), (proj2 (Z.eqb_neq _ _) Hprop).
Qed.

Lemma next_property_prop fuel o p :
  0 ≤ o → o mod 4 = 0 → prop_ok p → o + Z.of_nat (length (prop_bytes p)) ≤ T → holds m (va b + o) (prop_bytes p) →
  next_property m (S fuel) b o = Done (Some (test_name p.1, p.2, o + Z.of_nat (length (prop_bytes p)))).
Proof.
  intros Ho Hmod Hp HT Hh. cbn [next_property]. pose proof (prop_bytes_length p) as Hl.
  destruct (next_multiple_of_spec (Z.of_nat (length p.2)) 4) as [Hnm _]; [lia|lia|].
  pose proof Hh as Ht. unfold prop_bytes in Ht. apply holds_app in Ht as [Ht _].
  rewrite (u32_at_holds m b Hb o FDT_PROP) by first [done | lia]. cbn [obind mbind res_bind].
  change (FDT_PROP =? FDT_NOP) with false. change (negb (FDT_PROP =? FDT_PROP)) with false. cbn iota.
  by apply prop_at_holds.
Qed.

Lemma find_property_tree props name v : ∀ fuel o,
  0 ≤ o → o mod 4 = 0 → Forall prop_ok props → o + Z.of_nat (length (props ≫= prop_bytes)) + 4 ≤ T →
  holds m (va b + o) (props ≫= prop_bytes) →
  holds m (va b + (o + Z.of_nat (length (props ≫= prop_bytes)))) (to_be_bytes v) →
  is_u32 v → v ≠ FDT_NOP → v ≠ FDT_PROP → T < o + 4 * Z.of_nat fuel → (0 < fuel)%nat →
  find_property m fuel b o name = Done (prop_named name props).
Proof.
  induction props as [|p props IH]; intros fuel o Ho Hmod Hok HT Hh Hv Hv32 Hnop Hprop Hf Hf0;
    (destruct fuel as [|fuel]; [lia|]); cbn [find_property];
    destruct (rounds_enough b Hb o Ho) as [_ Hr]; destruct (rounds b) as [|r] eqn:Hreq; [lia| |lia|].
  - cbn in Hv, HT. rewrite Z.add_0_r in Hv. by rewrite (next_property_stop _ _ v) by first [done | lia].
  - change ((p :: props) ≫= prop_bytes) with (prop_bytes p ++ (props ≫= prop_bytes)) in *.
    rewrite length_app, Nat2Z.inj_add in *. apply holds_app in Hh as [Hp Hh].
    apply Forall_cons in Hok as [Hpo Hok]. pose proof (padded_prop p) as Hpad. unfold padded in Hpad.
    pose proof (prop_bytes_length p) as Hl.
    destruct (next_multiple_of_spec (Z.of_nat (length p.2)) 4) as [Hnm _]; [lia|lia|].
    rewrite (next_property_prop _ o p) by first [done | lia]. cbn [obind mbind res_bind prop_named].
    destruct (same (test_name p.1) name); [done|].
    apply (IH fuel); [lia|zdiv|done|lia|apply (holds_at _ _ _ _ Hh); lia|apply (holds_at _ _ _ _ Hv); lia|done..|lia|lia].
Qed.

Lemma property_tree k node name props children nm :
  lies k (offset node) (DNode name props children) → property m b node nm = Done (prop_named nm props).
Proof.
  intros Hl. destruct k as [|k]; [by destruct (li_ok _ _ _ Hl)|].
  pose proof (li_offset _ _ _ Hl) as [Ho _]. pose proof (li_align _ _ _ Hl) as Hmod.
  apply lies_children in Hl as (Ho' & HT & Hmod' & Hh & _ & Hp & Hpr & Hbeg & Hn & Hend).
  destruct (bo_size _ Hb) as [_ HT32]. unfold MAX_BLOB in HT32.
  pose proof (begin_bytes_length name) as Hl.
  destruct (next_multiple_of_spec (Z.of_nat (length name) + 1) 4) as [Hnm _]; [lia|lia|].
  unfold begin_bytes, pad4 in Hbeg. apply holds_app in Hbeg as [_ Hbeg]. apply holds_app in Hbeg as [Hname _].
  rewrite length_to_be_bytes in Hname. change (Z.of_nat 4) with 4 in Hname.
  pose proof (padded_begin name) as Hpad. unfold padded in Hpad.
  set (o := offset node) in *. unfold property, properties. fold o. rewrite add32_ok by lia. cbn [mbind res_bind].
  rewrite (str_at_holds m b Hb (o + 4) _ name); [|lia|lia|done|apply (holds_at _ _ _ _ Hname); lia].
  cbn [mbind res_bind]. unfold sum32. rewrite add32_ok by lia. cbn [mbind res_bind]. rewrite add32_ok by lia.
  cbn [mbind res_bind]. rewrite align4_next by lia.
  replace (next_multiple_of (o + 4 + Z.of_nat (length name) + 1) 4) with (o + Z.of_nat (length (begin_bytes name)))
    by (rewrite <-!Z.add_assoc, (next_multiple_add o), (next_multiple_add 4) by first [done | lia]; lia).
  destruct (rounds_enough b Hb (o + Z.of_nat (length (begin_bytes name)))) as [Hf Hf0]; [lia|].
  assert (Hv : ∃ v, is_u32 v ∧ v ≠ FDT_NOP ∧ v ≠ FDT_PROP ∧
    holds m (va b + (o + Z.of_nat (length (begin_bytes name)) + Z.of_nat (length (props ≫= prop_bytes)))) (to_be_bytes v)).
  { destruct children as [|[cn cp cc] l].
    - exists FDT_END_NODE. cbn in Hend. rewrite Z.add_0_r in Hend. done.
    - exists FDT_BEGIN_NODE. change ((DNode cn cp cc :: l) ≫= tree_bytes) with (tree_bytes (DNode cn cp cc) ++ (l ≫= tree_bytes)) in Hh.
      cbn [tree_bytes] in Hh. unfold begin_bytes at 2 in Hh. rewrite <-!app_assoc in Hh. apply holds_app in Hh as [Hh _]. done. }
  destruct Hv as (v & Hv32 & Hnop & Hprop & Hv).
  apply (find_property_tree props nm v); try done; [lia|zdiv|lia].
Qed.
End props.
