(* ===== verification/FdtTest.v ===== *)
(** * FdtTest: the self tests of [fdt.rs]

    [self_test] and [tree_self_test] as they run, the buffers they build on the
    stack placed at an aligned address [a], one at a time; each returns
    what its report needs, which [KernelMain] prints. *)

From S2P Require Import Prelude Memory Frames Syscall Fdt FdtTree.

Definition assert_eq {A} `{EqDecision A} (x y : A) : res unit :=
  if decide (x = y) then Done tt else Panic "assertion failed".
Definition expect {A} (o : option A) (why : string) : res A :=
  match o with Some a => Done a | None => Panic why end.
Definition expect_ok {A E} (r : Result A E) (why : string) : res A :=
  match r with Ok a => Done a | Err _ => Panic why end.

Section tests.
Context (m : mem) (a ram_base ram_size PHYS_OFFSET : Z).

Definition scratch_probe (s : list Z) : res (Result Header Error) := probe (place m a s) a.

(** [Scratch::good] with one field changed, then probed. *)
Definition broken (o value : Z) : res (Result Header Error) :=
  s ← scratch_good; s ← put s o value; scratch_probe s.

Definition self_test : res unit :=
  good ← scratch_good;
  r ← scratch_probe good;
  h ← expect_ok r "a well formed header must parse";
  _ ← assert_eq (totalsize h) 64;
  _ ← assert_eq (version h) 17;
  _ ← assert_eq (size_dt_struct h) 16;
  r ← probe m 0;
  _ ← assert_eq r (Err Null);
  r ← probe (place m a good) (a + 4);
  _ ← assert_eq r (Err (Misaligned (a + 4)));
  r ← broken 0 0xdeadbeef;
  _ ← assert_eq r (Err (BadMagic 0xdeadbeef));
  r ← broken 4 (HEADER_SIZE - 1);
  _ ← assert_eq r (Err (TooSmall (HEADER_SIZE - 1)));
  r ← broken 4 (MAX_BLOB + 1);
  _ ← assert_eq r (Err (TooLarge (MAX_BLOB + 1)));
  r ← broken 24 (SUPPORTED_VERSION + 1);
  _ ← assert_eq r (Err (Version 17));
  r ← broken 36 4096;
  _ ← assert_eq r (Err BlockOutOfRange);
  s ← scratch_good;
  s ← put s 8 u32_max;
  s ← put s 36 64;
  r ← scratch_probe s;
  _ ← assert_eq r (Err BlockOutOfRange);
  s ← scratch_good;
  s ← put s 12 60;
  s ← put s 32 8;
  r ← scratch_probe s;
  _ ← assert_eq r (Err BlockOutOfRange);
  r ← fdt_init m ram_base ram_size PHYS_OFFSET 0x1000;
  match r with
  | Ok _ => Panic "called `Result::unwrap_err()` on an `Ok` value"
  | Err e => assert_eq e (OutsideRam 0x1000)
  end.

Global Instance Node_eq_dec : EqDecision Node.
Proof. solve_decision. Defined.

(** [MAX_DEPTH + 2] nodes, none of them closed. *)
Fixpoint deep (n : nat) (t : Tree) : res Tree :=
  match n with O => Done t | S n' => t ← tree_begin [] t; deep n' t end.

(** The tree test, up to the live tree, and its check of the live one. *)
Definition built_tree_test : res unit :=
  t ← test_tree 2 2;
  '(mt, tree) ← finish m a t;
  memory ← find_node mt tree (bytes_of "/memory");
  memory ← expect memory "no /memory node";
  _ ← assert_eq (depth memory) 2;
  r ← reg mt tree memory 0;
  _ ← assert_eq r (Some (0x1000, 0x2000));
  full ← find_node mt tree (bytes_of "/memory@1000");
  _ ← assert_eq full (Some memory);
  t ← test_tree 1 1;
  '(mn, narrow) ← finish m a t;
  narrow_memory ← find_node mn narrow (bytes_of "/memory");
  narrow_memory ← expect narrow_memory "no /memory node";
  r ← reg mn narrow narrow_memory 0;
  _ ← assert_eq r (Some (0x0, 0x1000));
  r ← reg mn narrow narrow_memory 1;
  _ ← assert_eq r (Some (0x0, 0x2000));
  root ← find_node mt tree (bytes_of "/");
  root ← expect root "no root node";
  _ ← assert_eq (depth root) 1;
  s ← property_str mt tree root (bytes_of "compatible");
  _ ← assert_eq s (Some (bytes_of "test,root"));
  c ← find_compatible mt tree (bytes_of "test,thing");
  _ ← assert_eq c (Some memory);
  c ← find_compatible mt tree (bytes_of "test,memory");
  _ ← assert_eq c (Some memory);
  c ← find_compatible mt tree (bytes_of "test,mem");
  _ ← assert_eq c None;
  n ← find_node mt tree (bytes_of "/nowhere");
  _ ← assert_eq n None;
  n ← find_node mt tree (bytes_of "/memory/deeper");
  _ ← assert_eq n None;
  s ← property mt tree memory (bytes_of "status");
  _ ← assert_eq s None;
  r ← reg mt tree memory 9;
  _ ← assert_eq r None;
  t ← tree_begin [] tree_new;
  t ← lying_prop STR_COMPATIBLE 0x10000 t;
  t ← tree_end_node t;
  '(ml, lying) ← finish m a t;
  lying_root ← find_node ml lying (bytes_of "/");
  lying_root ← expect lying_root "no root node";
  s ← property ml lying lying_root (bytes_of "compatible");
  _ ← assert_eq s None;
  t ← tree_u32 FDT_BEGIN_NODE tree_new;
  l ← copy_at (bytes t) (len t) (bytes_of "aaaa");
  '(mu, unterminated) ← finish m a (mkTree l (len t + 4));
  n ← find_node mu unterminated (bytes_of "/");
  _ ← assert_eq n None;
  t ← deep (Z.to_nat (MAX_DEPTH + 2)) tree_new;
  '(md, d) ← finish m a t;
  seen ← collect_all md d;
  assert_eq (Z.of_nat (length seen)) (MAX_DEPTH - 1).

Definition live_tree_test (live : Blob) : res (list Z * Z * Z) :=
  root ← find_node m live (bytes_of "/");
  root ← expect root "the live tree has no root";
  model ← property_str m live root (bytes_of "compatible");
  memory ← find_node m live (bytes_of "/memory");
  memory ← expect memory "the live tree has no memory";
  r ← reg m live memory 0;
  r ← expect r "no reg on /memory";
  _ ← assert_eq r.1 ram_base;
  _ ← assert_eq r.2 ram_size;
  Done (default (bytes_of "?") model, r.1, r.2).

(** [blob] is the tree [init] recorded, if it did; what is reported of it, its
    model and its memory, is returned. *)
Definition tree_self_test (blob : option Blob) : res (option (list Z * Z * Z)) :=
  _ ← built_tree_test;
  match blob with Some live => r ← live_tree_test live; some r | None => none end.

End tests.

(** They pass, with the buffers at one page. *)
Lemma self_tests_run :
  self_test (λ _, 0) 4096 0x40000000 0x10000000 0xffff000000000000 = Done tt ∧
  tree_self_test (λ _, 0) 4096 0x40000000 0x10000000 None = Done None.
Proof. split; vm_compute; reflexivity. Qed.
