(* ===== verification/FdtProps.v ===== *)
(** * FdtProps: what the device tree code promises

    The header check, the confinement of every read to the blob, the round
    trips through the trees [fdt.rs] builds, and the alignment it forgets. *)

From S2P Require Import Prelude Memory Frames Syscall Fdt FdtSpec FdtTree FdtBuild FdtWalk FdtFind.

(** ** The header *)

Lemma be32_agree m m' a o : mem_agree m m' a HEADER_SIZE → 0 ≤ o → o + 4 ≤ HEADER_SIZE → be32 m a o = be32 m' a o.
Proof.
  intros Hag Ho Hhi. unfold be32, add64. destruct (a + o <=? _); [|done]. cbn [mbind res_bind].
  destruct (is_multiple_of _ 4); [|done]. do 2 f_equal. unfold load. apply list_fmap_ext. intros i x Hx.
  apply list_elem_of_lookup_2, elem_of_range in Hx. apply Hag. lia.
Qed.

(** C39: probe accepts exactly the headers whose magic, size, version and block
    ranges are in order, returns what their words say, names the reason for
    every refusal, never panics, and looks at nothing past the header. *)
Theorem probe_exact m a :
  bytes_ok m → 0 ≤ a → a + HEADER_SIZE ≤ u64_max →
  (∀ h, probe m a = Done (Ok h) ↔
     h = header_at m a ∧ header_ok h ∧ a ≠ 0 ∧ a mod 8 = 0 ∧ word m a 0 = MAGIC) ∧
  (∀ e, probe m a = Done (Err e) → refusal m a e) ∧
  (∀ w, probe m a ≠ Panic w) ∧
  (∀ m', mem_agree m m' a HEADER_SIZE → probe m' a = probe m a).
Proof.
  intros Hm Ha Hb. pose proof (probe_cases m a Hm Ha Hb) as Hc. split; [|split; [|split]].
  - intros h. split; [intros He; by rewrite He in Hc|].
    intros (-> & Hh & H0 & Hal & Hw). by apply probe_accepts; [|lia|..].
  - intros e He. by rewrite He in Hc.
  - intros w He. by rewrite He in Hc.
  - intros m' Hag. unfold probe, HEADER_SIZE in *. by rewrite !(be32_agree m m') by (done || unfold HEADER_SIZE; lia).
Qed.

(** Memory that is zero but for a buffer. *)
Definition zeros : mem := λ _, 0.
Lemma zeros_ok : bytes_ok zeros.
Proof. intros a. unfold zeros. lia. Qed.

Definition scratch_mem : mem := match scratch_good with Done l => place zeros 4096 l | Panic _ => zeros end.
Lemma scratch_mem_ok : bytes_ok scratch_mem.
Proof.
  unfold scratch_mem. destruct scratch_good as [l|] eqn:Hl; [|apply zeros_ok]. apply place_bytes_ok; [apply zeros_ok|].
  vm_compute in Hl. injection Hl as <-. apply (bool_decide_unpack _). by vm_compute.
Qed.

Lemma probe_exact_witness :
  (∃ h, probe scratch_mem 4096 = Done (Ok h) ∧ header_ok h) ∧ refusal zeros 4096 (BadMagic 0).
Proof.
  split.
  - exists (header_at scratch_mem 4096).
    destruct (proj1 (probe_exact scratch_mem 4096 scratch_mem_ok ltac:(lia) ltac:(done)) (header_at scratch_mem 4096)) as [H _].
    assert (He : probe scratch_mem 4096 = Done (Ok (header_at scratch_mem 4096))) by by vm_compute.
    split; [exact He|apply H, He].
  - apply (proj1 (proj2 (probe_exact zeros 4096 zeros_ok ltac:(lia) ltac:(done)))). by vm_compute.
Defined.

(** ** Everything stays inside the blob, and ends *)

(** A question about a blob depends on the blob alone, and if its blocks are
    aligned it is answered. *)
Definition confined {A} (m : mem) (b : Blob) (ask : mem → res A) : Prop :=
  (∀ m', mem_agree m m' (va b) (totalsize (header b)) → ask m' = ask m) ∧
  (blob_aligned b → ∃ a, ask m = Done a).

Lemma confined_sim {A} m b (ask : mem → res A) (P : A → Prop) :
  (∀ m', mem_agree m m' (va b) (totalsize (header b)) → sim (blob_aligned b) (ask m) (ask m') P) → confined m b ask.
Proof.
  intros H. split.
  - intros m' Hag. symmetry. by eapply sim_eq, H.
  - intros Hal. destruct (sim_done _ _ _ _ (H m ltac:(by intros ??)) Hal) as (a & Ha & _). eauto.
Qed.

Lemma fdt_init_ok m ram_base ram_size PHYS_OFFSET pa b :
  bytes_ok m → 0 ≤ ram_base → 0 ≤ ram_size → 0 ≤ PHYS_OFFSET → ram_base + ram_size + PHYS_OFFSET < u64_max →
  fdt_init m ram_base ram_size PHYS_OFFSET pa = Done (Ok b) →
  blob_ok b ∧ blob_pa b = pa ∧ va b = pa + PHYS_OFFSET ∧ header b = header_at m (va b) ∧
  ram_base ≤ pa ∧ pa + totalsize (header b) ≤ ram_base + ram_size.
Proof.
  intros Hm Hb0 Hs0 Ho0 Hmax. unfold fdt_init. destruct (Z.eqb_spec pa 0); [done|].
  destruct (Z.ltb_spec pa ram_base); [done|]. cbn [mbind res_bind].
  rewrite add64_ok by lia. cbn [mbind res_bind].
  destruct (Z.ltb_spec (ram_base + ram_size) (saturating_add64 pa HEADER_SIZE)) as [|Hsat]; [done|].
  unfold saturating_add64, HEADER_SIZE in Hsat.
  rewrite (add64_ok pa PHYS_OFFSET) by lia. cbn [mbind res_bind].
  pose proof (probe_cases m (pa + PHYS_OFFSET) Hm ltac:(lia) ltac:(unfold HEADER_SIZE; lia)) as Hc.
  destruct (probe m (pa + PHYS_OFFSET)) as [[h|]|]; cbn [mbind res_bind]; [|done|done].
  destruct Hc as (-> & [Hsz Hver Hst Hstr Hrs] & _ & Hal & _).
  unfold add64. destruct (Z.leb_spec (pa + totalsize (header_at m (pa + PHYS_OFFSET))) u64_max); cbn [mbind res_bind]; [|done].
  destruct (Z.ltb_spec (ram_base + ram_size) (pa + totalsize (header_at m (pa + PHYS_OFFSET)))); [done|].
  intros [= <-]. cbn [blob_pa va header].
  pose proof (λ o, word_bound m (pa + PHYS_OFFSET) o Hm) as Hw. unfold is_u32 in Hw.
  unfold header_at in *. cbn [totalsize off_dt_struct size_dt_struct off_dt_strings size_dt_strings off_mem_rsvmap] in *.
  split; [|done]. split; cbn [va header totalsize off_dt_struct size_dt_struct off_dt_strings size_dt_strings off_mem_rsvmap].
  - done.
  - lia.
  - done.
  - pose proof (Hw 8). pose proof (Hw 36). lia.
  - pose proof (Hw 12). pose proof (Hw 32). lia.
  - pose proof (Hw 16). lia.
Qed.

(** A node some search of the blob returned. *)
Definition found_node_of (m : mem) (b : Blob) (n : Node) : Prop :=
  (∃ path, find_node m b path = Done (Some n)) ∨ (∃ wanted after, find_compatible_after m b wanted after = Done (Some n)).

(** C38: a blob that init accepts lies in RAM, and every question the kernel asks
    of it, its memory map, a path, a compatible string, and then the properties
    and windows of the node found, is answered from the bytes of the blob alone;
    with its two blocks aligned every one of them ends without a panic. *)
Theorem blob_confined m ram_base ram_size PHYS_OFFSET pa b :
  bytes_ok m → 0 ≤ ram_base → 0 ≤ ram_size → 0 ≤ PHYS_OFFSET → ram_base + ram_size + PHYS_OFFSET < u64_max →
  fdt_init m ram_base ram_size PHYS_OFFSET pa = Done (Ok b) →
  (ram_base ≤ pa ∧ pa + totalsize (header b) ≤ ram_base + ram_size) ∧
  confined m b (λ m, memory_map m b) ∧
  (∀ path, confined m b (λ m, find_node m b path)) ∧
  (∀ wanted after, confined m b (λ m, find_compatible_after m b wanted after)) ∧
  (∀ n, found_node_of m b n →
     (∀ name, confined m b (λ m, property m b n name)) ∧ (∀ room, confined m b (λ m, regions m b n room))).
Proof.
  intros Hm Hb0 Hs0 Ho0 Hmax Hi.
  destruct (fdt_init_ok _ _ _ _ _ _ Hm Hb0 Hs0 Ho0 Hmax Hi) as (Hb & _ & _ & _ & Hin).
  split; [done|]. split; [|split; [|split]].
  - eapply confined_sim. intros m' Hag. by apply memory_map_sim.
  - intros path. eapply confined_sim. intros m' Hag. by apply find_node_sim.
  - intros wanted after. eapply confined_sim. intros m' Hag. by apply find_compatible_after_sim.
  - intros n Hn. assert (Hok : node_ok b n).
    { destruct Hn as [[path Hf]|(wanted & after & Hf)].
      - pose proof (find_node_sim m m b Hm Hb ltac:(by intros ??) path) as Hs. by rewrite Hf in Hs; destruct Hs.
      - pose proof (find_compatible_after_sim m m b Hm Hb ltac:(by intros ??) wanted after) as Hs.
        rewrite Hf in Hs. by destruct Hs as [_ [? _]]. }
    split.
    + intros name. eapply confined_sim. intros m' Hag. by apply property_sim.
    + intros room. eapply confined_sim. intros m' Hag. by apply regions_from_sim.
Qed.

(** ** The trees the tests build *)

Definition example_tree : dtree :=
  DNode []
    [(STR_ADDRESS_CELLS, to_be_bytes 2); (STR_SIZE_CELLS, to_be_bytes 2); (STR_COMPATIBLE, bytes_of "test,root" ++ [0])]
    [DNode (bytes_of "memory@1000")
       [(STR_COMPATIBLE, bytes_of "test,memory" ++ [0] ++ bytes_of "test,thing" ++ [0]);
        (STR_REG, [0; 0; 0; 0; 0; 0; 0x10; 0; 0; 0; 0; 0; 0; 0; 0x20; 0])] []].

(** The example, written and finished at [a]. *)
Definition example_at (a : Z) : mem * Blob :=
  match (t ← write_tree example_tree tree_new; finish zeros a t) with
  | Done r => r
  | Panic _ => (zeros, mkBlob 0 0 (mkHeader 0 0 0 0 0 0 0 0 0))
  end.

Lemma tree_bytes_ok t n : tree_ok n t → Forall (λ c, 0 ≤ c < 256) (tree_bytes t).
Proof.
  revert n. induction t as [name props children IH] using dtree_ind'. intros n Hok.
  destruct n as [|n]; [by destruct Hok|]. apply tree_ok_node in Hok as (Hn & Hp & Hc). cbn [tree_bytes].
  assert (Hpad : ∀ l, Forall (λ c, 0 ≤ c < 256) l → Forall (λ c, 0 ≤ c < 256) (pad4 l)).
  { intros l Hl. apply Forall_app_2; [done|]. by apply Forall_replicate. }
  apply Forall_app_2; [|apply Forall_app_2; [|apply Forall_app_2; [|apply to_be_bytes_ok]]].
  - apply Forall_app_2; [apply to_be_bytes_ok|]. apply Hpad, Forall_app_2; [|by repeat constructor].
    eapply Forall_impl; [apply Hn|]. intros c Hcc. simpl in Hcc. lia.
  - induction Hp as [|p l [_ Hp] _ IHp]; [constructor|]. apply Forall_app_2; [|done].
    repeat (apply Forall_app_2; [apply to_be_bytes_ok|]). by apply Hpad.
  - induction IH as [|c l Hch _ IHl]; [constructor|]. apply Forall_cons in Hc as [Hc1 Hc2].
    apply Forall_app_2; [by eapply Hch|by apply IHl].
Qed.

(** Written and finished, it lies where a walk expects it. *)
Lemma write_finish m a t n :
  bytes_ok m → 0 < a → a mod 8 = 0 → a + TREE_BYTES ≤ u64_max →
  tree_ok n t → 40 + Z.of_nat (length (tree_bytes t)) + 46 ≤ TREE_BYTES →
  let b := mkBlob 0 a (header_of (tree_bytes t)) in
  ∃ m', (tr ← write_tree t tree_new; finish m a tr) = Done (m', b) ∧
    bytes_ok m' ∧ blob_ok b ∧ blob_aligned b ∧ lies m' b n 40 t ∧
    holds m' (a + 40) (tree_bytes t ++ to_be_bytes FDT_END) ∧
    holds m' (a + off_dt_strings (header b)) TEST_STRINGS.
Proof.
  intros Hm Ha Hal Hhi Hok Hfit b. pose proof (padded_tree t) as Hpad.
  assert (Hw : write_tree t tree_new = Done (buf (replicate 40 0 ++ tree_bytes t))).
  { apply (write_tree_buf t (replicate 40 0)); [done|]. unfold fits, TREE_BYTES in *.
    rewrite length_app, length_replicate. lia. }
  rewrite Hw. cbn [mbind res_bind].
  destruct (finish_buf m a (tree_bytes t)) as (m' & -> & Hm' & Hh); [done|by eapply tree_bytes_ok|done|done|done|done|done|].
  destruct (blob_of_ok a (tree_bytes t)) as [Hb Hba]; [done|done|done|done|done|].
  exists m'. unfold blob_bytes in Hh. apply holds_app in Hh as [_ Hh].
  change (Z.of_nat (length (fields_of (tree_bytes t) ≫= to_be_bytes))) with 40 in Hh.
  rewrite app_assoc in Hh. apply holds_app in Hh as [Hh Hs].
  split; [done|]. split; [done|]. split; [done|]. split; [done|]. split; [|split; [done|]].
  - split; [done| |done|by apply holds_app in Hh as [Hh _]]. split; [lia|]. simpl. lia.
  - apply (holds_at _ _ _ _ Hs). rewrite length_app, length_to_be_bytes. simpl. lia.
Qed.

(** C37: a tree that fits the buffer survives the round trip: written a token at
    a time and walked, it comes back as the same nodes and properties in order,
    each node with the cell counts its parent declares or the defaults; and
    find_node and property answer exactly as the tree does. *)
Theorem tree_roundtrip m a t n :
  bytes_ok m → 0 < a → a mod 8 = 0 → a + TREE_BYTES ≤ u64_max →
  tree_ok n t → Z.of_nat n < MAX_DEPTH → 40 + Z.of_nat (length (tree_bytes t)) + 46 ≤ TREE_BYTES →
  ∃ m' b, (tr ← write_tree t tree_new; finish m a tr) = Done (m', b) ∧
    collect_all m' b = Done (steps (DEFAULT_ADDRESS_CELLS, DEFAULT_SIZE_CELLS) 1 40 t) ∧
    (∀ path, find_node m' b path = Done (fst <$> resolve_path path 40 t)) ∧
    (∀ path node sub name, resolve_path path 40 t = Some (node, sub) →
       property m' b node name = Done (prop_named name (dprops sub))).
Proof.
  intros Hm Ha Hal Hhi Hok Hn Hfit.
  destruct (write_finish m a t n Hm Ha Hal Hhi Hok Hfit) as (m' & He & Hm' & Hb & Hba & Hl & Hh & Hstr).
  set (b := mkBlob 0 a (header_of (tree_bytes t))) in *. exists m', b. split; [done|].
  assert (Hs : walks m' b (walk b) (steps (DEFAULT_ADDRESS_CELLS, DEFAULT_SIZE_CELLS) 1 40 t))
    by (apply (collect_tree m' b Hm' Hb Hba eq_refl Hstr t n); [done|done|simpl; lia|done]).
  pose proof (walk_walk_ok b Hb) as Hwok. pose proof (walk_fuel_rounds b Hb _ Hwok) as Hf. split; [|split].
  - by apply walks_collect.
  - intros path. unfold find_node. erewrite find_node_loop_steps by done. destruct t as [name props children].
    erewrite find_root by done. unfold resolve_path. cbn [dname]. by case_bool_decide.
  - intros path node sub name. unfold resolve_path. case_bool_decide; [|done]. intros Hr.
    destruct (resolve_lies m' b t n _ _ 1 40 _ Hl Hr) as [k Hk]. cbn [fst snd] in Hk. destruct sub as [sn sp sc].
    by eapply (property_tree m' b Hb eq_refl Hstr).
Qed.

Lemma example_tree_ok : tree_ok 2 example_tree.
Proof.
  unfold example_tree. apply tree_ok_node.
  split; [by split; [constructor|]|]. split.
  - repeat constructor; try (by apply (bool_decide_unpack _); vm_compute); simpl; lia.
  - constructor; [|constructor]. apply tree_ok_node. split; [split; [apply (bool_decide_unpack _); by vm_compute|done]|].
    split; [|done]. repeat constructor; try (by apply (bool_decide_unpack _); vm_compute); simpl; lia.
Qed.

Lemma example_written a :
  0 < a → a mod 8 = 0 → a + TREE_BYTES ≤ u64_max → bytes_ok (example_at a).1.
Proof.
  intros Ha Hal Hhi.
  destruct (write_finish zeros a example_tree 2 zeros_ok Ha Hal Hhi example_tree_ok ltac:(by vm_compute))
    as (m' & He & Hm' & _).
  unfold example_at. by rewrite He.
Qed.

Lemma tree_roundtrip_witness :
  ∃ m b, (tr ← write_tree example_tree tree_new; finish zeros 4096 tr) = Done (m, b) ∧
    find_node m b (bytes_of "/memory") = Done (Some (mkNode 104 2 2 2)).
Proof.
  destruct (tree_roundtrip zeros 4096 example_tree 2 zeros_ok ltac:(done) ltac:(done) ltac:(done)
    example_tree_ok ltac:(done) ltac:(by vm_compute)) as (m & b & He & _ & Hf & _).
  exists m, b. split; [exact He|]. rewrite Hf. by vm_compute.
Defined.

(** A machine with the example at the end of its first 128 MiB. *)
Definition example_pa : Z := 0x48000000.
Definition example_high : mem * Blob := example_at (example_pa + 0xffff000000000000).

Definition done_or {A} (d : A) (r : res A) : A := match r with Done a => a | Panic _ => d end.
Definition ok_or {A E} (d : A) (r : Result A E) : A := match r with Ok a => a | Err _ => d end.
Definition found_blob : Blob :=
  ok_or example_high.2 (done_or (Err Null)
    (fdt_init example_high.1 0x40000000 0x10000000 0xffff000000000000 example_pa)).

Lemma blob_confined_witness :
  fdt_init example_high.1 0x40000000 0x10000000 0xffff000000000000 example_pa = Done (Ok found_blob) ∧
  ∃ p, memory_map example_high.1 found_blob = Done p.
Proof.
  assert (Hi : fdt_init example_high.1 0x40000000 0x10000000 0xffff000000000000 example_pa = Done (Ok found_blob))
    by by vm_compute.
  split; [exact Hi|].
  destruct (blob_confined example_high.1 0x40000000 0x10000000 0xffff000000000000 example_pa found_blob
    ltac:(apply example_written; by vm_compute) ltac:(done) ltac:(done) ltac:(done) ltac:(done) Hi) as (_ & [_ Hc] & _).
  apply Hc. clear. split; vm_compute; reflexivity.
Defined.

(** ** The entries of a [reg] *)

(** An address and a length in the cell counts of a bus. *)
Definition cells_bytes (count v : Z) : list Z :=
  if count =? 2 then to_be_bytes (v / 2 ^ 32) ++ to_be_bytes (v mod 2 ^ 32)
  else if count =? 1 then to_be_bytes v else [].
Definition entry_bytes (n : Node) (e : Z * Z) : list Z :=
  cells_bytes (address_cells n) e.1 ++ cells_bytes (size_cells n) e.2.

(** It fits: [count] cells hold the number. *)
Definition cells_hold (count v : Z) : Prop := 0 ≤ v < 2 ^ (32 * count).

Lemma cells_bytes_length count v : 0 ≤ count ≤ 2 → Z.of_nat (length (cells_bytes count v)) = 4 * count.
Proof.
  intros Hc. unfold cells_bytes. destruct (Z.eqb_spec count 2) as [->|]; [done|].
  destruct (Z.eqb_spec count 1) as [->|]; [done|]. simpl. lia.
Qed.

Lemma get_range_app l1 l2 l3 a b :
  a = Z.of_nat (length l1) → b = a + Z.of_nat (length l2) → get_range (l1 ++ l2 ++ l3) a b = Some l2.
Proof.
  intros -> ->. unfold get_range. rewrite (proj2 (Z.leb_le _ _)) by lia.
  rewrite (proj2 (Z.leb_le _ _)) by (rewrite !length_app; lia). cbn [andb].
  rewrite Nat2Z.id, drop_app_length. replace (Z.to_nat _) with (length l2) by lia. by rewrite take_app_length.
Qed.

Lemma take_cells_bytes count v rest :
  0 ≤ count ≤ 2 → cells_hold count v → take_cells (cells_bytes count v ++ rest) count = Some (v, rest).
Proof.
  intros Hc Hv. unfold cells_hold in Hv. unfold take_cells, cells_bytes.
  assert (Hone : ∀ k x acc l, is_u32 x → take_cells_from (S k) acc (to_be_bytes x ++ l) =
    take_cells_from k (Z.lor (as_u64 (Z.shiftl acc 32)) x) l).
  { intros k x acc l Hx. cbn [take_cells_from].
    rewrite (get_range_app [] (to_be_bytes x) l 0 4 eq_refl eq_refl : get_range (to_be_bytes x ++ l) 0 4 = _).
    by rewrite be_to_be_bytes. }
  destruct (Z.eqb_spec count 2) as [->|].
  - change (Z.to_nat 2) with 2%nat. rewrite <-app_assoc.
    rewrite Hone by (unfold is_u32; zdiv). rewrite Hone by (unfold is_u32; zdiv). cbn [take_cells_from].
    rewrite Z.shiftl_0_l. change (as_u64 0) with 0. rewrite Z.lor_0_l.
    unfold as_u64. rewrite Z.mod_small by (rewrite Z.shiftl_mul_pow2 by lia; zdiv). do 2 f_equal.
    rewrite <-(Z.shiftr_div_pow2 v 32), <-(Z.land_ones v 32), <-(Z.ldiff_ones_r v 32) by lia.
    apply Z.lor_ldiff_and.
  - destruct (Z.eqb_spec count 1) as [->|].
    + change (Z.to_nat 1) with 1%nat. rewrite Hone by (unfold is_u32; lia). done.
    + replace count with 0 in * by lia. simpl. do 2 f_equal. lia.
Qed.

(** A window written with the cell counts of its bus reads back: entry
    [i] of a [reg] that holds entries is entry [i] of the list, and there is no
    entry after the last. *)
Theorem reg_roundtrip n entries i :
  1 ≤ address_cells n ≤ 2 → 0 ≤ size_cells n ≤ 2 → Z.of_nat (length entries) < 2 ^ 32 → 0 ≤ i ≤ u64_max →
  Forall (λ e, cells_hold (address_cells n) e.1 ∧ cells_hold (size_cells n) e.2) entries →
  reg_entry n (entries ≫= entry_bytes n) i = entries !! Z.to_nat i.
Proof.
  intros Ha Hs Hlen Hi He. set (entry := (address_cells n + size_cells n) * 4).
  assert (Hone : ∀ e, Z.of_nat (length (entry_bytes n e)) = entry).
  { intros e. unfold entry_bytes, entry. rewrite length_app, Nat2Z.inj_add, !cells_bytes_length by lia. lia. }
  assert (Hall : ∀ l, Z.of_nat (length (l ≫= entry_bytes n)) = Z.of_nat (length l) * entry).
  { induction l as [|e l IH]; [done|]. change ((e :: l) ≫= entry_bytes n) with (entry_bytes n e ++ (l ≫= entry_bytes n)).
    rewrite length_app, Nat2Z.inj_add, Hone, IH. simpl. lia. }
  unfold reg_entry. fold entry. destruct (entries !! Z.to_nat i) as [e|] eqn:Hl.
  - pose proof (lookup_lt_Some _ _ _ Hl) as Hlt. pose proof (Forall_lookup_1 _ _ _ _ He Hl) as [He1 He2].
    rewrite <-(take_drop_middle _ _ _ Hl), bind_app.
    change ((e :: drop (S (Z.to_nat i)) entries) ≫= entry_bytes n)
      with (entry_bytes n e ++ (drop (S (Z.to_nat i)) entries ≫= entry_bytes n)).
    rewrite (proj2 (Z.ltb_ge _ _)) by nia.
    rewrite (proj2 (checked_add64_Some _ _ _)) by (split; [reflexivity|nia]).
    rewrite get_range_app; [|rewrite Hall, length_take; nia|by rewrite Hone].
    unfold entry_bytes. rewrite take_cells_bytes by (done || lia).
    rewrite <-(app_nil_r (cells_bytes (size_cells n) e.2)), take_cells_bytes by (done || lia). by destruct e.
  - apply lookup_ge_None in Hl. destruct (Z.ltb_spec u64_max (i * entry)); [done|].
    destruct (checked_add64 (i * entry) entry) as [k|] eqn:Hk; [|done].
    apply checked_add64_Some in Hk as [-> _]. unfold get_range. rewrite Hall.
    rewrite (proj2 (Z.leb_gt (i * entry + entry) _)) by nia. by rewrite andb_false_r.
Qed.

Lemma reg_roundtrip_witness :
  reg_entry (mkNode 0 2 2 1) [0; 0; 0; 1; 0; 0; 0; 2; 0; 0; 0x10; 0] 0 = Some (0x100000002, 0x1000).
Proof.
  apply (reg_roundtrip (mkNode 0 2 2 1) [(0x100000002, 0x1000)] 0); simpl; [lia|lia|lia|lia|].
  apply Forall_singleton. simpl. unfold cells_hold. lia.
Defined.

(** ** What the header check forgets *)

(** A good header but for a structure block that starts at an odd word. *)
Definition crooked : mem :=
  match (s ← scratch_good; s ← put s 8 42; put s 36 14) with
  | Done l => place zeros (example_pa + 0xffff000000000000) l
  | Panic _ => zeros
  end.

(** [init] accepts a blob whose structure block is not four byte aligned, and
    reading its memory map then panics on the first token, where the kernel
    would rather carry on without a device tree. *)
Theorem crooked_tree_panics :
  ∃ b, bytes_ok crooked ∧
    fdt_init crooked 0x40000000 0x10000000 0xffff000000000000 example_pa = Done (Ok b) ∧
    memory_map crooked b = Panic "ptr::read requires that the pointer argument is aligned".
Proof.
  exists (mkBlob example_pa (example_pa + 0xffff000000000000) (mkHeader 64 42 56 40 17 16 0 8 14)).
  split; [|split; vm_compute; reflexivity].
  unfold crooked. destruct (s ← scratch_good; s ← put s 8 42; put s 36 14) as [l|] eqn:Hl; [|apply zeros_ok].
  apply place_bytes_ok; [apply zeros_ok|]. vm_compute in Hl. injection Hl as <-.
  apply (bool_decide_unpack _). by vm_compute.
Qed.
