(* ===== verification/Virtio.v ===== *)
(** * Virtio: one virtio-mmio transport ([virtio.rs])

    A transport is a window of 32 bit registers on the bus of [Devices]; what a
    device answers is the bus's parameter.  [reset] polls the status register,
    so it takes the number of polls it is given the patience for.  Discovery,
    which also maps windows, is in [Boot]. *)

From S2P Require Import Prelude Memory Devices.

Definition MAGIC : Z := 0x74726976.
Definition VERSION : Z := 2.
Definition MAX_TRANSPORTS : Z := 32.

Definition MAGIC_VALUE : Z := 0x000.
Definition VERSION_REG : Z := 0x004.
Definition DEVICE_ID : Z := 0x008.
Definition DEVICE_FEATURES : Z := 0x010.
Definition DEVICE_FEATURES_SEL : Z := 0x014.
Definition DRIVER_FEATURES : Z := 0x020.
Definition DRIVER_FEATURES_SEL : Z := 0x024.
Definition INTERRUPT_STATUS : Z := 0x060.
Definition INTERRUPT_ACK : Z := 0x064.
Definition STATUS : Z := 0x070.

Definition STATUS_ACKNOWLEDGE : Z := 1.
Definition STATUS_DRIVER : Z := 2.
Definition STATUS_FEATURES_OK : Z := 8.
Definition STATUS_DRIVER_OK : Z := 4.
Definition STATUS_FAILED : Z := 128.

Definition VIRTIO_F_VERSION_1 : Z := Z.shiftl 1 32.
Definition DEVICE_ENTROPY : Z := 4.
Definition DEVICE_BLOCK : Z := 2.

Definition device_name (id : Z) : string :=
  if id =? 0 then "empty" else if id =? 1 then "network" else if id =? 2 then "block" else
  if id =? 3 then "console" else if id =? 4 then "entropy" else if id =? 16 then "gpu" else
  if id =? 18 then "input" else "unknown".

Inductive Error : Type :=
  | NotVirtio (magic : Z)
  | WrongVersion (version : Z)
  | Legacy
  | FeaturesRefused.

Record Transport : Type := mkTransport { base : Z; intid : Z; device_id : Z; features : Z }.

Global Instance Error_eq_dec : EqDecision Error.
Proof. solve_decision. Defined.
Global Instance Transport_eq_dec : EqDecision Transport.
Proof. solve_decision. Defined.

(** [value as u32]. *)
Definition as_u32 (v : Z) : Z := v mod 2 ^ 32.

Section transport.
Context (respond : list access → Z → Z → Z).

(** [Transport::read] and [Transport::write]. *)
Definition t_read (t : Transport) (offset : Z) : M devices Z :=
  a ← lift (add64 (base t) offset); bus_read respond 4 a.
Definition t_write (t : Transport) (offset value : Z) : M devices unit :=
  a ← lift (add64 (base t) offset); bus_write 4 a value.

Definition device_features (t : Transport) : M devices Z :=
  _ ← t_write t DEVICE_FEATURES_SEL 1;
  high ← t_read t DEVICE_FEATURES;
  _ ← t_write t DEVICE_FEATURES_SEL 0;
  low ← t_read t DEVICE_FEATURES;
  mret (Z.lor (Z.shiftl high 32) low).

Definition set_driver_features (t : Transport) (features : Z) : M devices unit :=
  _ ← t_write t DRIVER_FEATURES_SEL 1;
  _ ← t_write t DRIVER_FEATURES (as_u32 (Z.shiftr features 32));
  _ ← t_write t DRIVER_FEATURES_SEL 0;
  t_write t DRIVER_FEATURES (as_u32 features).

(** The loop of [reset]. *)
Fixpoint wait_reset (polls : nat) (t : Transport) : M devices unit :=
  match polls with
  | O => panic "out of fuel"
  | S polls' => s ← t_read t STATUS; if s =? 0 then mret tt else wait_reset polls' t
  end.

Definition reset (polls : nat) (t : Transport) : M devices unit :=
  _ ← t_write t STATUS 0; wait_reset polls t.

Definition negotiate (polls : nat) (t : Transport) (wanted : Z) : M devices (Result Z Error) :=
  _ ← reset polls t;
  _ ← t_write t STATUS STATUS_ACKNOWLEDGE;
  _ ← t_write t STATUS (Z.lor STATUS_ACKNOWLEDGE STATUS_DRIVER);
  offered ← device_features t;
  if Z.land offered VIRTIO_F_VERSION_1 =? 0 then
    _ ← t_write t STATUS STATUS_FAILED; mret (Err Legacy)
  else
    let agreed := Z.land offered (Z.lor wanted VIRTIO_F_VERSION_1) in
    _ ← set_driver_features t agreed;
    _ ← t_write t STATUS (Z.lor (Z.lor STATUS_ACKNOWLEDGE STATUS_DRIVER) STATUS_FEATURES_OK);
    s ← t_read t STATUS;
    if Z.land s STATUS_FEATURES_OK =? 0 then
      _ ← t_write t STATUS STATUS_FAILED; mret (Err FeaturesRefused)
    else mret (Ok agreed).

Definition set_driver_ok (t : Transport) : M devices unit :=
  status ← t_read t STATUS; t_write t STATUS (Z.lor status STATUS_DRIVER_OK).

Definition ack_interrupt (t : Transport) : M devices Z :=
  status ← t_read t INTERRUPT_STATUS;
  _ ← (if negb (status =? 0) then t_write t INTERRUPT_ACK status else mret tt);
  mret status.

Definition status (t : Transport) : M devices Z := t_read t STATUS.

(** ** What the handshake leaves on the bus *)

(** The answer to a read of register [o] after the history [h]. *)
Definition answer (t : Transport) (h : list access) (o : Z) : Z := respond h 4 (base t + o) mod 2 ^ 32.

Definition W (t : Transport) (o v : Z) : access := Write 4 (base t + o) v.
Definition R (t : Transport) (h : list access) (o : Z) : access := Read 4 (base t + o) (answer t h o).

Definition window_ok (t : Transport) : Prop := 0 ≤ base t ∧ base t + 0x200 ≤ u64_max.

Lemma wp_t_write t o v d Q :
  window_ok t → 0 ≤ o < 0x200 → Q tt (set_trace (trace d ++ [W t o v]) d) → wp (t_write t o v) d Q.
Proof.
  intros [? ?] Ho HQ. unfold t_write. apply wp_bind. eapply wp_lift; [apply add64_ok; lia|]. by apply wp_modify.
Qed.

Lemma wp_t_read t o d Q :
  window_ok t → 0 ≤ o < 0x200 →
  Q (answer t (trace d) o) (set_trace (trace d ++ [R t (trace d) o]) d) → wp (t_read t o) d Q.
Proof.
  intros [? ?] Ho HQ. unfold t_read. apply wp_bind. by eapply wp_lift; [apply add64_ok; lia|].
Qed.

(** The device needs [n] polls after [h] before its status reads zero. *)
Fixpoint resets_in (n : nat) (t : Transport) (h : list access) : Prop :=
  match n with
  | O => answer t h STATUS = 0
  | S n' => answer t h STATUS ≠ 0 ∧ resets_in n' t (h ++ [R t h STATUS])
  end.

(** The accesses of that wait. *)
Fixpoint waited (n : nat) (t : Transport) (h : list access) : list access :=
  match n with
  | O => h ++ [R t h STATUS]
  | S n' => waited n' t (h ++ [R t h STATUS])
  end.

Lemma wp_wait_reset polls n t d Q :
  window_ok t → (n < polls)%nat → resets_in n t (trace d) → Q tt (set_trace (waited n t (trace d)) d) →
  wp (wait_reset polls t) d Q.
Proof.
  intros Ht. revert n d. induction polls as [|polls IH]; intros n d Hn Hr HQ; [lia|]. cbn [wait_reset].
  apply wp_bind, wp_t_read; [done|done|]. destruct n as [|n]; cbn [resets_in waited] in *.
  - by rewrite Hr.
  - destruct Hr as [Hne Hr]. rewrite (proj2 (Z.eqb_neq _ _) Hne). apply (IH n); [lia|done|]. by destruct d.
Qed.

(** A history followed by what the handshake does in order: [h0] after the
    reset, [h1] after the features were read, [h2] after the driver's were
    written and the confirmation was asked for. *)
Definition noticed (t : Transport) (h : list access) : list access :=
  h ++ [W t STATUS STATUS_ACKNOWLEDGE; W t STATUS (Z.lor STATUS_ACKNOWLEDGE STATUS_DRIVER)].

Definition high_asked (t : Transport) (h : list access) : list access := h ++ [W t DEVICE_FEATURES_SEL 1].
Definition low_asked (t : Transport) (h : list access) : list access :=
  let h := high_asked t h in h ++ [R t h DEVICE_FEATURES; W t DEVICE_FEATURES_SEL 0].
Definition features_read (t : Transport) (h : list access) : list access :=
  let h := low_asked t h in h ++ [R t h DEVICE_FEATURES].

(** The 64 bits a device offers after [h]. *)
Definition offers (t : Transport) (h : list access) : Z :=
  Z.lor (Z.shiftl (answer t (high_asked t h) DEVICE_FEATURES) 32) (answer t (low_asked t h) DEVICE_FEATURES).

Definition confirmed (t : Transport) (agreed : Z) (h : list access) : list access :=
  h ++ [W t DRIVER_FEATURES_SEL 1; W t DRIVER_FEATURES (as_u32 (Z.shiftr agreed 32));
        W t DRIVER_FEATURES_SEL 0; W t DRIVER_FEATURES (as_u32 agreed);
        W t STATUS (Z.lor (Z.lor STATUS_ACKNOWLEDGE STATUS_DRIVER) STATUS_FEATURES_OK)].

Lemma set_trace_twice l l' d : set_trace l (set_trace l' d) = set_trace l d.
Proof. by destruct d. Qed.

Lemma wp_device_features t d Q :
  window_ok t → Q (offers t (trace d)) (set_trace (features_read t (trace d)) d) → wp (device_features t) d Q.
Proof.
  intros Ht HQ. unfold device_features.
  apply wp_bind, wp_t_write; [done|done|]. apply wp_bind, wp_t_read; [done|done|].
  apply wp_bind, wp_t_write; [done|done|]. apply wp_bind, wp_t_read; [done|done|].
  apply wp_ret. rewrite !set_trace_twice. cbn [set_trace trace].
  unfold features_read, offers, low_asked, high_asked in HQ. cbv zeta in HQ. rewrite <-!app_assoc in HQ |- *. exact HQ.
Qed.
End transport.
