(* ===== verification/Virtqueue.v ===== *)
(** * Virtqueue: the split virtqueue ([virtqueue.rs])

    One frame holds the descriptor table, the available ring and the used ring;
    [Queue] is the driver's own half.  [vq] is the queue with the memory it
    shares with the device; the transport is [Virtio]'s.  Fences order what the
    device sees and change no state, and the notification is a register write. *)

From S2P Require Import Prelude Memory FrameAlloc Devices Virtio.

Definition QUEUE_SIZE : Z := 16.
Definition DESCRIPTOR_BYTES : Z := 16.
Definition DESC_OFFSET : Z := 0.
Definition AVAIL_OFFSET : Z := 256.
Definition USED_OFFSET : Z := 512.
Definition DESC_NEXT : Z := 1.
Definition DESC_WRITE : Z := 2.

Definition QUEUE_SEL : Z := 0x030.
Definition QUEUE_NUM_MAX : Z := 0x034.
Definition QUEUE_NUM : Z := 0x038.
Definition QUEUE_READY : Z := 0x044.
Definition QUEUE_NOTIFY : Z := 0x050.
Definition QUEUE_DESC_LOW : Z := 0x080.
Definition QUEUE_DESC_HIGH : Z := 0x084.
Definition QUEUE_DRIVER_LOW : Z := 0x090.
Definition QUEUE_DRIVER_HIGH : Z := 0x094.
Definition QUEUE_DEVICE_LOW : Z := 0x0a0.
Definition QUEUE_DEVICE_HIGH : Z := 0x0a4.

Record Buffer : Type := mkBuffer { pa : Z; len : Z; device_writes : bool }.

Inductive Error : Type :=
  | TooSmall (max : Z)
  | NoMemory
  | Full
  | Empty.

Record Queue : Type := mkQueue { frame : Z; size : Z; free_head : Z; free_count : Z; last_used : Z }.

Global Instance Error_eq_dec : EqDecision Error.
Proof. solve_decision. Defined.

(** The driver's half and the memory. *)
Record vq : Type := mkVq { queue : Queue; ram : mem }.

Definition set_ram (m : mem) (s : vq) : vq := mkVq (queue s) m.
Definition set_free (head count : Z) (s : vq) : vq :=
  mkVq (mkQueue (frame (queue s)) (size (queue s)) head count (last_used (queue s))) (ram s).
Definition set_last_used (u : Z) (s : vq) : vq :=
  mkVq (mkQueue (frame (queue s)) (size (queue s)) (free_head (queue s)) (free_count (queue s)) u) (ram s).

(** [u16] arithmetic. *)
Definition u16_max : Z := 0xffff.
Definition add16 (a b : Z) : res Z :=
  if a + b <=? u16_max then Done (a + b) else Panic "attempt to add with overflow".
Definition as_u16 (v : Z) : Z := v mod 2 ^ 16.
Definition wrapping_add16 (a b : Z) : Z := as_u16 (a + b).

(** ** Rings *)

(** The physical address behind [ring_ptr]. *)
Definition ring (s : vq) (offset : Z) : Z := frame (queue s) + offset.
Definition ring_read (n : nat) (offset : Z) : M vq Z := λ s, Done (read_le n (ram s) (ring s offset), s).
Definition ring_write (n : nat) (offset v : Z) : M vq unit := λ s,
  Done (tt, set_ram (write_le n (ram s) (ring s offset) v) s).

Definition desc (index : Z) : Z := DESC_OFFSET + index * DESCRIPTOR_BYTES.
Definition desc_flags (chained writes : bool) : Z :=
  Z.lor (if chained then DESC_NEXT else 0) (if writes then DESC_WRITE else 0).

Definition write_descriptor (index : Z) (b : Buffer) (next : Z) (chained : bool) : M vq unit :=
  let base := desc index in
  _ ← ring_write 8 base (pa b);
  _ ← ring_write 4 (base + 8) (len b);
  _ ← ring_write 2 (base + 12) (desc_flags chained (device_writes b));
  ring_write 2 (base + 14) next.
Definition write_descriptor_next (index next : Z) : M vq unit := ring_write 2 (desc index + 14) next.
Definition descriptor_next (index : Z) : M vq Z := ring_read 2 (desc index + 14).
Definition descriptor_flags (index : Z) : M vq Z := ring_read 2 (desc index + 12).
Definition available_index : M vq Z := ring_read 2 (AVAIL_OFFSET + 2).
Definition used_index : M vq Z := ring_read 2 (USED_OFFSET + 2).

(** ** Requests *)

(** The loop of [add]: the descriptors of the free list take the buffers. *)
Fixpoint add_loop (index : Z) (buffers : list Buffer) : M vq unit :=
  match buffers with
  | [] => mret tt
  | b :: rest =>
    next ← descriptor_next index;
    let chained := match rest with [] => false | _ => true end in
    _ ← write_descriptor index b next chained;
    if chained then add_loop next rest
    else modify (λ s, set_free next (free_count (queue s)) s)
  end.

(** Publishing a head: its place in the ring, then the index. *)
Definition publish (head : Z) : M vq unit :=
  a ← available_index;
  s ← getS;
  let position := a mod size (queue s) in
  _ ← ring_write 2 (AVAIL_OFFSET + 4 + position * 2) head;
  a ← available_index;
  ring_write 2 (AVAIL_OFFSET + 2) (wrapping_add16 a 1).

Definition add (buffers : list Buffer) : M vq (Result Z Error) :=
  s ← getS;
  if bool_decide (buffers = []) then mret (Err Empty) else
  if free_count (queue s) <? Z.of_nat (length buffers) then mret (Err Full) else
  let head := free_head (queue s) in
  _ ← add_loop head buffers;
  s ← getS;
  _ ← modify (set_free (free_head (queue s)) (free_count (queue s) - as_u16 (Z.of_nat (length buffers))));
  _ ← publish head;
  mret (Ok head).

(** The loop of [recycle]: the last descriptor of the chain and its length. *)
Fixpoint chain_end (fuel : nat) (index length : Z) : M vq (Z * Z) :=
  match fuel with
  | O => panic "out of fuel"
  | S fuel' =>
    f ← descriptor_flags index;
    if Z.land f DESC_NEXT =? 0 then mret (index, length) else
    next ← descriptor_next index;
    length ← lift (add16 length 1);
    chain_end fuel' next length
  end.

(** A chain longer than the table is one the device has tied into a loop. *)
Definition CHAIN_FUEL : nat := Z.to_nat QUEUE_SIZE.

Definition recycle (head : Z) : M vq unit :=
  '(index, length) ← chain_end CHAIN_FUEL head 1;
  s ← getS;
  _ ← write_descriptor_next index (free_head (queue s));
  s ← getS;
  count ← lift (add16 (free_count (queue s)) length);
  modify (set_free head count).

Definition take_used : M vq (option (Z * Z)) :=
  s ← getS;
  u ← used_index;
  if last_used (queue s) =? u then mret None else
  let position := last_used (queue s) mod size (queue s) in
  let entry := USED_OFFSET + 4 + position * 8 in
  head ← ring_read 4 entry;
  let head := as_u16 head in
  written ← ring_read 4 (entry + 4);
  _ ← modify (set_last_used (wrapping_add16 (last_used (queue s)) 1));
  _ ← recycle head;
  mret (Some (head, written)).

Definition free (s : vq) : Z := free_count (queue s).

(** ** Setting a queue up and giving it back *)

Section setup.
Context {S : Type} `{FrameAlloc S}.
Context (respond : list access → Z → Z → Z).

(** [Queue::new] and [release] over the machine and the bus. *)
Definition on_bus {A} (op : M devices A) : M (S * devices) A := zoom snd (λ d s, (s.1, d)) op.
Definition on_frames {A} (op : M S A) : M (S * devices) A := zoom fst (λ m s, (m, s.2)) op.
(** ... and the ring operations on the memory behind it. *)
Definition on_ring {A} (q : Queue) (op : M vq A) : M (S * devices) A := λ s,
  match op (mkVq q (fa_mem s.1)) with
  | Done (a, v) => Done (a, (fa_set_mem (ram v) s.1, s.2))
  | Panic w => Panic w
  end.

Definition queue_new (t : Transport) (index : Z) : M (S * devices) (Result Queue Error) :=
  _ ← on_bus (t_write t QUEUE_SEL index);
  max ← on_bus (t_read respond t QUEUE_NUM_MAX);
  if max <? QUEUE_SIZE then mret (Err (TooSmall max)) else
  f ← on_frames fa_alloc;
  match f with
  | None => mret (Err NoMemory)
  | Some pa =>
    let queue := mkQueue pa QUEUE_SIZE 0 QUEUE_SIZE 0 in
    _ ← on_ring queue (forM (range 0 QUEUE_SIZE) (λ index, write_descriptor_next index (index + 1)));
    _ ← on_bus (t_write t QUEUE_NUM QUEUE_SIZE);
    _ ← on_bus (t_write t QUEUE_DESC_LOW (as_u32 (pa + DESC_OFFSET)));
    _ ← on_bus (t_write t QUEUE_DESC_HIGH (as_u32 (Z.shiftr (pa + DESC_OFFSET) 32)));
    _ ← on_bus (t_write t QUEUE_DRIVER_LOW (as_u32 (pa + AVAIL_OFFSET)));
    _ ← on_bus (t_write t QUEUE_DRIVER_HIGH (as_u32 (Z.shiftr (pa + AVAIL_OFFSET) 32)));
    _ ← on_bus (t_write t QUEUE_DEVICE_LOW (as_u32 (pa + USED_OFFSET)));
    _ ← on_bus (t_write t QUEUE_DEVICE_HIGH (as_u32 (Z.shiftr (pa + USED_OFFSET) 32)));
    _ ← on_bus (t_write t QUEUE_READY 1);
    mret (Ok queue)
  end.

Definition notify (t : Transport) (index : Z) : M devices unit := t_write t QUEUE_NOTIFY index.

Definition release (q : Queue) (t : Transport) (index : Z) : M (S * devices) unit :=
  _ ← on_bus (t_write t QUEUE_SEL index);
  _ ← on_bus (t_write t QUEUE_READY 0);
  on_frames (fa_free (frame q)).
End setup.
