(* ===== verification/VirtqueueSpec.v ===== *)
(** * VirtqueueSpec: a virtqueue as a ledger of descriptors

    The ledger says which descriptors are free, in the order they will be
    taken, which chains are outstanding and what they carry, and which heads
    were published.  [represents] relates it to the rings in memory; the
    operations keep the relation. *)

From S2P Require Import Prelude Memory FrameAlloc Devices Virtio Virtqueue.

Record ledger : Type := mkLedger {
  free_list : list Z;
  chains : list (list Z * list Buffer);
  published : list Z;
  consumed : Z
}.

(** ** The rings in memory *)

Definition next_of (s : vq) (i : Z) : Z := read_u16 (ram s) (ring s (desc i + 14)).

(** Descriptor [i] carries buffer [b]. *)
Definition carries (s : vq) (i : Z) (b : Buffer) (chained : bool) : Prop :=
  read_u64 (ram s) (ring s (desc i)) = pa b ∧ read_u32 (ram s) (ring s (desc i + 8)) = len b ∧
  read_u16 (ram s) (ring s (desc i + 12)) = desc_flags chained (device_writes b).

Fixpoint linked (s : vq) (l : list Z) : Prop :=
  match l with
  | x :: ((y :: _) as l') => next_of s x = y ∧ linked s l'
  | _ => True
  end.

(** Every buffer in its descriptor, all but the last with the NEXT flag. *)
Fixpoint chain_holds (s : vq) (c : list Z) (bs : list Buffer) : Prop :=
  match c, bs with
  | [x], [b] => carries s x b false
  | x :: ((_ :: _) as c'), b :: ((_ :: _) as bs') => carries s x b true ∧ chain_holds s c' bs'
  | _, _ => False
  end.

Definition is_u16 (v : Z) : Prop := 0 ≤ v ≤ u16_max.
Definition buffer_ok (b : Buffer) : Prop := is_u64 (pa b) ∧ is_u32 (len b).

Record represents (s : vq) (L : ledger) : Prop := mkRepresents {
  rp_frame : 0 ≤ frame (queue s);
  rp_bytes : bytes_ok (ram s);
  rp_size : size (queue s) = QUEUE_SIZE;
  (** No descriptor is lost or in two places. *)
  rp_conserved : Permutation (free_list L ++ (chains L ≫= fst)) (range 0 QUEUE_SIZE);
  rp_count : free_count (queue s) = Z.of_nat (length (free_list L));
  rp_head : is_u16 (free_head (queue s)) ∧ ∀ h, head (free_list L) = Some h → free_head (queue s) = h;
  rp_free : linked s (free_list L);
  rp_chains : Forall (λ c, linked s c.1 ∧ chain_holds s c.1 c.2) (chains L);
  rp_avail : read_u16 (ram s) (ring s (AVAIL_OFFSET + 2)) = as_u16 (Z.of_nat (length (published L)));
  rp_published : ∀ k h, published L !! k = Some h → (length (published L) ≤ k + Z.to_nat QUEUE_SIZE)%nat →
    read_u16 (ram s) (ring s (AVAIL_OFFSET + 4 + Z.of_nat k mod QUEUE_SIZE * 2)) = h;
  rp_used : last_used (queue s) = as_u16 (consumed L)
}.

(** ** The specification of the operations *)

Definition spec_add (bs : list Buffer) (L : ledger) : Error + (Z * ledger) :=
  if bool_decide (bs = []) then inl Empty else
  if (length (free_list L) <? length bs)%nat then inl Full else
  let c := take (length bs) (free_list L) in
  let h := default 0 (head c) in
  inr (h, mkLedger (drop (length bs) (free_list L)) ((c, bs) :: chains L) (published L ++ [h]) (consumed L)).

(** The device finished [c], the chain between [l1] and [l2]. *)
Definition spec_take (l1 : list (list Z * list Buffer)) (c : list Z) (l2 : list (list Z * list Buffer)) (L : ledger)
    : ledger :=
  mkLedger (c ++ free_list L) (l1 ++ l2) (published L) (consumed L + 1).

(** ** Reading and writing descriptors *)

(** Byte [a] is outside the descriptors listed. *)
Definition outside (s : vq) (l : list Z) (a : Z) : Prop :=
  ∀ x, x ∈ l → ¬ ring s (desc x) ≤ a < ring s (desc x) + DESCRIPTOR_BYTES.

Definition same_outside (l : list Z) (s s' : vq) : Prop :=
  frame (queue s') = frame (queue s) ∧ ∀ a, outside s l a → ram s' a = ram s a.

Lemma same_outside_refl l s : same_outside l s s.
Proof. by split. Qed.

Lemma same_outside_trans l1 l2 s1 s2 s3 :
  same_outside l1 s1 s2 → same_outside l2 s2 s3 → same_outside (l1 ++ l2) s1 s3.
Proof.
  intros [Hf1 H1] [Hf2 H2]. split; [congruence|]. intros a Ha. rewrite H2, H1; [done| |].
  - intros x Hx. apply Ha, elem_of_app. by left.
  - intros x Hx. unfold ring. rewrite Hf1. apply Ha, elem_of_app. by right.
Qed.

Lemma read_same k l s s' a :
  same_outside l s s' → (∀ x, x ∈ l → ring s (desc x) + DESCRIPTOR_BYTES ≤ a ∨ a + Z.of_nat k ≤ ring s (desc x)) →
  read_le k (ram s') a = read_le k (ram s) a.
Proof. intros [_ Hs] Ha. apply read_le_ext. intros b Hb. apply Hs. intros x Hx. destruct (Ha x Hx); lia. Qed.

(** Fields of a descriptor that is not listed. *)
Lemma desc_read_same k l s s' y o :
  same_outside l s s' → y ∉ l → 0 ≤ o → o + Z.of_nat k ≤ DESCRIPTOR_BYTES →
  read_le k (ram s') (ring s' (desc y + o)) = read_le k (ram s) (ring s (desc y + o)).
Proof.
  intros Hs Hy Ho Hk. unfold ring at 1. rewrite (proj1 Hs). apply (read_same k l s s'); [done|].
  intros x Hx. assert (x ≠ y) by (by intros ->). unfold ring, desc, DESC_OFFSET, DESCRIPTOR_BYTES in *. lia.
Qed.

Lemma next_same l s s' y : same_outside l s s' → y ∉ l → next_of s' y = next_of s y.
Proof. intros Hs Hy. unfold next_of. by apply (desc_read_same 2 l). Qed.

Lemma carries_same l s s' y b ch : same_outside l s s' → y ∉ l → carries s y b ch → carries s' y b ch.
Proof.
  intros Hs Hy (H1 & H2 & H3). unfold carries.
  rewrite <-(Z.add_0_r (desc y)) at 1. rewrite (desc_read_same 8 l s s' y 0) by first [done | lia].
  rewrite (desc_read_same 4 l s s' y 8), (desc_read_same 2 l s s' y 12) by done. by rewrite Z.add_0_r.
Qed.

Lemma linked_same l s s' c : same_outside l s s' → (∀ x, x ∈ c → x ∉ l) → linked s c → linked s' c.
Proof.
  intros Hs. induction c as [|x c IH]; intros Hc Hl; [done|]. destruct c as [|y c]; [done|]. destruct Hl as [Hn Hl].
  split; [rewrite (next_same l s s') by (try done; apply Hc; by left); done|]. apply IH; [|done]. intros z Hz. apply Hc. by right.
Qed.

Lemma chain_same l s s' c bs : same_outside l s s' → (∀ x, x ∈ c → x ∉ l) → chain_holds s c bs → chain_holds s' c bs.
Proof.
  intros Hs. revert bs. induction c as [|x c IH]; intros bs Hc Hh; [by destruct bs|].
  destruct c as [|y c], bs as [|b [|b' bs]]; try done.
  - apply (carries_same l s); [done|apply Hc; by left|done].
  - destruct Hh as [Hx Hh]. split; [apply (carries_same l s); [done|apply Hc; by left|done]|].
    apply IH; [|done]. intros z Hz. apply Hc. by right.
Qed.

Lemma u16_bound m a : bytes_ok m → is_u16 (read_u16 m a).
Proof. intros Hm. pose proof (read_le_bound 2 m a Hm) as H. change (256 ^ Z.of_nat 2) with (u16_max + 1) in H. unfold is_u16. lia. Qed.

Lemma desc_flags_u16 c w : 0 ≤ desc_flags c w < 256 ^ Z.of_nat 2.
Proof. by destruct c, w. Qed.

Lemma wp_write_descriptor i b next chained s Q :
  bytes_ok (ram s) → buffer_ok b → is_u16 next →
  (∀ s', queue s' = queue s → bytes_ok (ram s') → same_outside [i] s s' → carries s' i b chained →
     next_of s' i = next → Q tt s') →
  wp (write_descriptor i b next chained) s Q.
Proof.
  intros Hm [Hpa Hlen] Hn HQ. unfold is_u64, is_u32, is_u16, u16_max in *.
  unfold write_descriptor, ring_write, wp. cbn [mbind M_bind]. unfold set_ram, ring. cbn [queue ram].
  set (m1 := write_le 8 (ram s) (frame (queue s) + desc i) (pa b)).
  set (m2 := write_le 4 m1 (frame (queue s) + (desc i + 8)) (len b)).
  set (m3 := write_le 2 m2 (frame (queue s) + (desc i + 12)) (desc_flags chained (device_writes b))).
  set (m4 := write_le 2 m3 (frame (queue s) + (desc i + 14)) next).
  apply HQ; cbn [queue ram]; [done|by do 4 apply write_le_bytes| | |].
  - split; [done|]. intros a Ha. specialize (Ha i ltac:(by left)). unfold ring, DESCRIPTOR_BYTES in Ha. cbn [ram].
    unfold m4, m3, m2, m1. by rewrite !write_le_other by lia.
  - unfold carries, ring. cbn [queue ram]. unfold m4, m3, m2, m1. split; [|split].
    + rewrite !read_write_disjoint by lia. apply read_write_same. change (256 ^ Z.of_nat 8) with (u64_max + 1). lia.
    + rewrite !(read_write_disjoint 2) by lia. apply read_write_same. change (256 ^ Z.of_nat 4) with (u32_max + 1). lia.
    + rewrite !(read_write_disjoint 2 2) by lia. apply read_write_same, desc_flags_u16.
  - unfold next_of, ring. cbn [queue ram]. apply read_write_same. change (256 ^ Z.of_nat 2) with 65536. lia.
Qed.

(** ** [add] *)

Lemma wp_add_loop bs : ∀ c s Q,
  length c = length bs → bs ≠ [] → NoDup c → linked s c → bytes_ok (ram s) → Forall buffer_ok bs →
  (∀ s', queue s' = queue (set_free (next_of s (default 0 (last c))) (free_count (queue s)) s) →
     bytes_ok (ram s') → same_outside c s s' → chain_holds s' c bs → linked s' c → Q tt s') →
  wp (add_loop (default 0 (head c)) bs) s Q.
Proof.
  induction bs as [|b bs IH]; intros c s Q Hlen Hne Hnd Hl Hm Hok HQ; [done|]. destruct c as [|x c]; [done|].
  apply Forall_cons in Hok as [Hb Hok]. apply NoDup_cons in Hnd as [Hx Hnd]. cbn [add_loop].
  change (default 0 (head (x :: c))) with x.
  apply wp_bind. unfold descriptor_next, ring_read, wp at 1. fold (next_of s x).
  set (chained := match bs with [] => false | _ => true end). apply wp_bind.
  apply wp_write_descriptor; [done|done|by apply u16_bound|]. intros s1 Hq Hm1 Hs1 Hc1 Hn1.
  destruct bs as [|b' bs].
  - destruct c; [|done]. unfold chained. apply wp_modify. apply HQ.
    + unfold set_free. cbn [queue]. by rewrite Hq.
    + done.
    + split; [cbn; by rewrite Hq|]. apply Hs1.
    + done.
    + done.
  - destruct c as [|y c]; [done|]. unfold chained. destruct Hl as [Hnx Hl]. rewrite Hnx. assert (Hdis : ∀ z, z ∈ y :: c → z ∉ [x]).
    { intros z Hz [= ->]%list_elem_of_singleton. done. }
    apply (IH (y :: c)); [simpl in *; lia|done|done|by apply (linked_same [x] s)|done|done|].
    intros s2 Hq2 Hm2 Hs2 Hc2 Hl2. apply HQ; [| |exact (same_outside_trans [x] (y :: c) _ _ _ Hs1 Hs2)| |].
    + rewrite Hq2. unfold set_free. cbn [queue]. rewrite Hq. f_equal.
      change (last (x :: y :: c)) with (last (y :: c)).
      destruct (last (y :: c)) as [z|] eqn:Hz; [|by apply last_None in Hz]. cbn [default].
      apply (next_same [x] s); [done|]. apply Hdis. apply last_Some_elem_of in Hz. done.
    + done.
    + split; [|done]. by apply (carries_same (y :: c) s1).
    + split; [|done]. by rewrite (next_same (y :: c) s1), Hn1.
Qed.

(** The ring of published heads, after the write at [pos]. *)
Lemma chain_nonempty s c bs : chain_holds s c bs → c ≠ [].
Proof. by destruct c. Qed.

Lemma elem_of_free L x s : represents s L → x ∈ free_list L → 0 ≤ x < QUEUE_SIZE.
Proof.
  intros HR Hx. apply elem_of_range. rewrite <-(rp_conserved _ _ HR). apply elem_of_app. by left.
Qed.
Lemma elem_of_chain L c x s : represents s L → c ∈ chains L → x ∈ c.1 → 0 ≤ x < QUEUE_SIZE.
Proof.
  intros HR Hc Hx. apply elem_of_range. rewrite <-(rp_conserved _ _ HR). apply elem_of_app. right.
  apply list_elem_of_bind. by exists c.
Qed.

Lemma length_free L s : represents s L → (length (free_list L) ≤ Z.to_nat QUEUE_SIZE)%nat.
Proof.
  intros HR. pose proof (Permutation_length (rp_conserved _ _ HR)) as Hl.
  rewrite length_app, length_range in Hl. unfold QUEUE_SIZE in *. lia.
Qed.

(** ** What depends on the descriptor table alone *)

Definition same_table (s s' : vq) : Prop :=
  frame (queue s') = frame (queue s) ∧ mem_agree (ram s) (ram s') (frame (queue s)) AVAIL_OFFSET.

Lemma table_read k s s' o :
  same_table s s' → 0 ≤ o → o + Z.of_nat k ≤ AVAIL_OFFSET →
  read_le k (ram s') (ring s' o) = read_le k (ram s) (ring s o).
Proof.
  intros [Hf Hag] Ho Hk. unfold ring. rewrite Hf. symmetry. apply read_le_ext. intros x Hx. apply Hag. lia.
Qed.

Definition in_table (c : list Z) : Prop := ∀ x, x ∈ c → 0 ≤ x < QUEUE_SIZE.

Lemma in_table_cons x c : in_table (x :: c) → 0 ≤ x < QUEUE_SIZE ∧ in_table c.
Proof. intros H. split; [apply H; by left|]. intros y Hy. apply H. by right. Qed.

Lemma next_table s s' x : same_table s s' → 0 ≤ x < QUEUE_SIZE → next_of s' x = next_of s x.
Proof.
  intros Ht Hx. unfold next_of. apply table_read; [done|..];
    unfold desc, DESC_OFFSET, DESCRIPTOR_BYTES, QUEUE_SIZE, AVAIL_OFFSET in *; lia.
Qed.

Lemma linked_table s s' c : same_table s s' → in_table c → linked s c → linked s' c.
Proof.
  intros Ht. induction c as [|x c IH]; intros Hin Hl; [done|]. apply in_table_cons in Hin as [Hx Hin].
  destruct c as [|y c]; [done|]. destruct Hl as [Hn Hl]. split; [by rewrite (next_table s)|by apply IH].
Qed.

Lemma carries_table s s' x b ch : same_table s s' → 0 ≤ x < QUEUE_SIZE → carries s x b ch → carries s' x b ch.
Proof.
  intros Ht Hx (E1 & E2 & E3). unfold carries.
  rewrite !(table_read _ s s') by (try done; unfold desc, DESC_OFFSET, DESCRIPTOR_BYTES, QUEUE_SIZE, AVAIL_OFFSET in *; lia).
  done.
Qed.

Lemma chain_table s s' c bs : same_table s s' → in_table c → chain_holds s c bs → chain_holds s' c bs.
Proof.
  intros Ht. revert bs. induction c as [|x c IH]; intros bs Hin Hh; [by destruct bs|].
  apply in_table_cons in Hin as [Hx Hin].
  destruct c as [|y c], bs as [|b [|b' bs]]; try done; [by apply (carries_table s)|].
  destruct Hh as [Hc Hh]. split; [by apply (carries_table s)|by apply IH].
Qed.

Lemma chains_table s s' L :
  same_table s s' → represents s L → Forall (λ c, linked s' c.1 ∧ chain_holds s' c.1 c.2) (chains L).
Proof.
  intros Ht HR. pose proof (rp_chains _ _ HR) as Hc. rewrite Forall_forall in Hc |- *. intros c Hin.
  assert (in_table c.1) by (intros x Hx; by eapply elem_of_chain).
  destruct (Hc _ Hin). split; [by apply (linked_table s)|by apply (chain_table s)].
Qed.

(** Memory the device may write: beyond the table and the available ring. *)
Lemma represents_device s L m :
  represents s L → bytes_ok m → mem_agree (ram s) m (frame (queue s)) USED_OFFSET → represents (set_ram m s) L.
Proof.
  intros HR Hm Hag. assert (Ht : same_table s (set_ram m s)).
  { split; [done|]. intros x Hx. apply Hag. unfold AVAIL_OFFSET, USED_OFFSET in *. lia. }
  assert (Hrd : ∀ o, AVAIL_OFFSET ≤ o → o + 2 ≤ USED_OFFSET → read_u16 m (frame (queue s) + o) = read_u16 (ram s) (frame (queue s) + o)).
  { intros o Ho Hk. symmetry. apply read_le_ext. intros x Hx. apply Hag. unfold AVAIL_OFFSET in *. lia. }
  split; [apply HR|done|apply HR|apply HR|apply HR|apply HR| |by eapply chains_table| | |apply HR].
  - apply (linked_table s); [done| |apply HR]. intros x Hx. by eapply elem_of_free.
  - rewrite <-(rp_avail _ _ HR). apply Hrd; unfold AVAIL_OFFSET, USED_OFFSET; lia.
  - intros k h Hk Hrec. rewrite <-(rp_published _ _ HR k h Hk Hrec).
    pose proof (Z.mod_pos_bound (Z.of_nat k) QUEUE_SIZE ltac:(done)).
    apply Hrd; unfold AVAIL_OFFSET, USED_OFFSET, QUEUE_SIZE in *; lia.
Qed.

(** ** Lists of descriptors *)

Lemma linked_app s l1 l2 :
  linked s (l1 ++ l2) ↔ linked s l1 ∧ linked s l2 ∧
    ∀ z y, last l1 = Some z → head l2 = Some y → next_of s z = y.
Proof.
  induction l1 as [|x l1 IH]; [split; [by intros H; split|by intros (_ & H & _)]|].
  destruct l1 as [|y l1].
  - destruct l2 as [|y l2]; [split; [by intros|done]|]. cbn [app linked]. split.
    + intros [Hn Hl]. split; [done|]. split; [done|]. by intros z y' [= ->] [= ->].
    + intros (_ & Hl & Hn). split; [by apply Hn|done].
  - cbn [app linked] in *. rewrite IH. change (last (x :: y :: l1)) with (last (y :: l1)). tauto.
Qed.

Lemma free_nodup s L : represents s L → NoDup (free_list L ++ (chains L ≫= fst)).
Proof. intros HR. rewrite (rp_conserved _ _ HR). apply NoDup_range. Qed.

Lemma head_take (n : nat) (l : list Z) : (0 < n)%nat → head (take n l) = head l.
Proof. by destruct n, l; [lia..| |]. Qed.

(** The first [n] free descriptors and the rest. *)
Record split_free (s : vq) (L : ledger) (n : nat) (c rest : list Z) : Prop := mkSplitFree {
  sf_eq : free_list L = c ++ rest;
  sf_len : length c = n;
  sf_nodup : NoDup (c ++ rest);
  sf_table : in_table (c ++ rest);
  sf_linked : linked s c ∧ linked s rest ∧ ∀ z y, last c = Some z → head rest = Some y → next_of s z = y;
  sf_apart : ∀ d x, d ∈ chains L → x ∈ d.1 → x ∉ c
}.

Lemma split_free_ok s L n :
  represents s L → (n ≤ length (free_list L))%nat → split_free s L n (take n (free_list L)) (drop n (free_list L)).
Proof.
  intros HR Hn. pose proof (free_nodup _ _ HR) as Hnd.
  assert (He : free_list L = take n (free_list L) ++ drop n (free_list L)) by by rewrite take_drop.
  split; [done|rewrite length_take; lia|by rewrite <-He; apply NoDup_app in Hnd as [? _]| | |].
  - rewrite <-He. intros x Hx. by eapply elem_of_free.
  - apply linked_app. rewrite <-He. apply HR.
  - intros d x Hd Hx Hc. apply NoDup_app in Hnd as (_ & Hnd & _). apply (Hnd x).
    + rewrite He. apply elem_of_app. by left.
    + apply list_elem_of_bind. by exists d.
Qed.

(** The ledger after the descriptors are written, before the head is published. *)
Definition taken (bs : list Buffer) (c rest : list Z) (L : ledger) : ledger :=
  mkLedger rest ((c, bs) :: chains L) (published L) (consumed L).

Lemma conserved_taken L c rest (bs : list Buffer) :
  free_list L = c ++ rest →
  Permutation (rest ++ (((c, bs) :: chains L) ≫= fst)) (free_list L ++ (chains L ≫= fst)).
Proof.
  intros ->. change (((c, bs) :: chains L) ≫= fst) with (c ++ (chains L ≫= fst)).
  by rewrite app_assoc, (Permutation_app_comm rest c).
Qed.

Lemma outside_ring s l a : in_table l → ring s AVAIL_OFFSET ≤ a ∨ a < ring s 0 → outside s l a.
Proof.
  intros Hl Ha x Hx. specialize (Hl x Hx). unfold ring, desc, DESC_OFFSET, DESCRIPTOR_BYTES, AVAIL_OFFSET, QUEUE_SIZE in *. lia.
Qed.

(** Writing the descriptors takes them off the free list. *)
Lemma represents_taken s L bs c rest s' :
  represents s L → split_free s L (length bs) c rest → bs ≠ [] →
  queue s' = queue (set_free (next_of s (default 0 (last c))) (free_count (queue s) - Z.of_nat (length bs)) s) →
  bytes_ok (ram s') → same_outside c s s' → chain_holds s' c bs → linked s' c →
  represents s' (taken bs c rest L).
Proof.
  intros HR [Heq Hlen Hnd Htab (Hlc & Hlr & Hlast) Hap] Hne Hq Hm Hs Hch Hl.
  assert (Hc : in_table c) by (intros x Hx; apply Htab, elem_of_app; by left).
  assert (Hrd : ∀ o, AVAIL_OFFSET ≤ o → read_u16 (ram s') (ring s' o) = read_u16 (ram s) (ring s o)).
  { intros o Ho. unfold ring at 1. rewrite (proj1 Hs). apply (read_same 2 c); [done|].
    intros x Hx. specialize (Hc x Hx). unfold ring, desc, DESC_OFFSET, DESCRIPTOR_BYTES, AVAIL_OFFSET, QUEUE_SIZE in *. lia. }
  split; cbn [taken free_list chains published consumed]; rewrite ?Hq; cbn [set_free queue frame size free_head free_count last_used].
  - apply HR.
  - done.
  - apply HR.
  - rewrite conserved_taken by done. apply HR.
  - rewrite (rp_count _ _ HR), Heq, length_app. lia.
  - split; [by apply u16_bound, HR|]. intros h Hh. destruct (last c) as [z|] eqn:Hz; [by apply Hlast|].
    apply last_None in Hz. subst c. destruct bs; [done|simpl in Hlen; lia].
  - apply (linked_same c s); [done| |done]. intros x Hx Hxc. apply NoDup_app in Hnd as (_ & Hnd & _). by apply (Hnd x).
  - constructor; [done|]. pose proof (rp_chains _ _ HR) as Hcs. rewrite Forall_forall in Hcs |- *. intros d Hd.
    destruct (Hcs _ Hd) as [H1 H2].
    split; [apply (linked_same c s)|apply (chain_same c s)]; try done; intros x Hx; by apply (Hap d).
  - rewrite Hrd by done. apply HR.
  - intros k h Hk Hrec. rewrite Hrd; [by apply (rp_published _ _ HR)|].
    pose proof (Z.mod_pos_bound (Z.of_nat k) QUEUE_SIZE ltac:(done)). lia.
  - apply HR.
Qed.

Lemma wp_ring_read n o s Q : Q (read_le n (ram s) (ring s o)) s → wp (ring_read n o) s Q.
Proof. done. Qed.
Lemma wp_ring_write n o v s Q : Q tt (set_ram (write_le n (ram s) (ring s o) v) s) → wp (ring_write n o v) s Q.
Proof. done. Qed.

Lemma wp_publish s L h :
  represents s L → is_u16 h →
  wp (publish h) s (λ _ s', represents s' (mkLedger (free_list L) (chains L) (published L ++ [h]) (consumed L)) ∧
    queue s' = queue s ∧ ∀ a, ¬ ring s AVAIL_OFFSET ≤ a < ring s USED_OFFSET → ram s' a = ram s a).
Proof.
  intros HR Hh. unfold publish, available_index. apply wp_bind, wp_ring_read. apply wp_bind, wp_gets.
  cbv zeta. apply wp_bind, wp_ring_write. apply wp_bind, wp_ring_read, wp_ring_write.
  rewrite (rp_avail _ _ HR), (rp_size _ _ HR). unfold set_ram. cbn [queue ram].
  set (n := Z.of_nat (length (published L))). set (p := as_u16 n mod QUEUE_SIZE).
  assert (Hp : p = n mod QUEUE_SIZE) by (unfold p, as_u16, QUEUE_SIZE; zdiv).
  pose proof (Z.mod_pos_bound n QUEUE_SIZE ltac:(done)) as Hpb. rewrite <-Hp in Hpb.
  set (F := frame (queue s)). unfold ring. cbn [queue]. fold F.
  set (m1 := write_u16 (ram s) (F + (AVAIL_OFFSET + 4 + p * 2)) h).
  assert (Ha1 : read_u16 m1 (F + (AVAIL_OFFSET + 2)) = as_u16 n).
  { unfold m1. rewrite read_write_disjoint by lia. apply (rp_avail _ _ HR). }
  rewrite Ha1. set (m2 := write_u16 m1 _ _).
  assert (Hout : ∀ a, ¬ F + AVAIL_OFFSET ≤ a < F + USED_OFFSET → m2 a = ram s a).
  { intros a Ha. unfold m2, m1. unfold AVAIL_OFFSET, USED_OFFSET, QUEUE_SIZE in *. by rewrite !write_le_other by lia. }
  assert (Ht : same_table s (mkVq (queue s) m2)).
  { split; [done|]. intros a Ha. symmetry. apply Hout. fold F in Ha. unfold USED_OFFSET, AVAIL_OFFSET in *. lia. }
  assert (Hu : 0 ≤ wrapping_add16 (as_u16 n) 1 < 256 ^ Z.of_nat 2).
  { unfold wrapping_add16, as_u16. change (256 ^ Z.of_nat 2) with (2 ^ 16). by apply Z.mod_pos_bound. }
  split; [|by split]. split; cbn [free_list chains published consumed queue ram]; try apply HR.
  - unfold m2, m1. do 2 apply write_le_bytes. apply HR.
  - apply (linked_table s); [done| |apply HR]. intros x Hx. by eapply elem_of_free.
  - by eapply chains_table.
  - unfold ring. cbn [queue]. fold F. unfold m2. rewrite read_write_same by done.
    unfold wrapping_add16, as_u16. rewrite length_app, Nat2Z.inj_add. fold n. change (Z.of_nat (length [h])) with 1. zdiv.
  - intros k h' Hk Hrec. unfold ring. cbn [queue]. fold F. rewrite length_app in Hrec. simpl in Hrec.
    pose proof (Z.mod_pos_bound (Z.of_nat k) QUEUE_SIZE ltac:(done)) as Hkb.
    unfold m2. rewrite read_write_disjoint by lia. unfold m1.
    apply lookup_app_Some in Hk as [Hk|[Hge Hk]].
    + pose proof (lookup_lt_Some _ _ _ Hk) as Hlt. assert (Hne : Z.of_nat k mod QUEUE_SIZE ≠ p).
      { rewrite Hp. unfold QUEUE_SIZE, n in *. zdiv. }
      rewrite read_write_disjoint by lia. apply (rp_published _ _ HR); [done|lia].
    + destruct (k - length (published L))%nat as [|j] eqn:Hj; [|done]. injection Hk as <-.
      replace (Z.of_nat k mod QUEUE_SIZE) with p by (rewrite Hp; unfold n; f_equal; lia).
      apply read_write_same. unfold is_u16, u16_max in Hh. change (256 ^ Z.of_nat 2) with 65536. lia.
Qed.

Lemma wp_add_chain s L bs :
  represents s L → Forall buffer_ok bs →
  wp (add bs) s (λ r s',
    match spec_add bs L with
    | inl e => r = Err e ∧ s' = s
    | inr (h, L') => r = Ok h ∧ represents s' L' ∧
        ∀ a, ¬ ring s 0 ≤ a < ring s USED_OFFSET → ram s' a = ram s a
    end).
Proof.
  intros HR Hok. unfold add, spec_add. apply wp_bind, wp_gets. case_bool_decide as Hne; [by apply wp_ret|].
  rewrite (rp_count _ _ HR). pose proof (length_free _ _ HR) as Hlf. unfold QUEUE_SIZE in Hlf.
  destruct (Nat.ltb_spec (length (free_list L)) (length bs)) as [Hlt|Hge].
  { rewrite (proj2 (Z.ltb_lt _ _)) by lia. by apply wp_ret. }
  rewrite (proj2 (Z.ltb_ge _ _)) by lia.
  assert (Hbs : (0 < length bs)%nat) by (destruct bs; [done|simpl; lia]).
  pose proof (split_free_ok s L (length bs) HR Hge) as Hsf.
  set (c := take (length bs) (free_list L)) in *. set (rest := drop (length bs) (free_list L)) in *.
  assert (Hh : default 0 (head c) = free_head (queue s)).
  { unfold c. rewrite head_take by done. destruct (head (free_list L)) as [h|] eqn:Hhd.
    - symmetry. by apply (rp_head _ _ HR).
    - destruct (free_list L); [simpl in Hge; lia|done]. }
  destruct Hsf as [Heq Hlen Hnd Htab Hlk Hap]. pose proof (mkSplitFree _ _ _ _ _ Heq Hlen Hnd Htab Hlk Hap) as Hsf.
  rewrite <-Hh. apply wp_bind. apply wp_add_loop; [done|done|by apply NoDup_app in Hnd as [? _]|apply Hlk|apply HR|done|].
  intros s1 Hq1 Hm1 Hs1 Hc1 Hl1. apply wp_bind, wp_gets. apply wp_bind, wp_modify.
  assert (Hw : as_u16 (Z.of_nat (length bs)) = Z.of_nat (length bs)) by (unfold as_u16; apply Z.mod_small; lia).
  rewrite Hw. set (s2 := set_free _ _ s1).
  assert (Hc : in_table c) by (intros x Hx; apply Htab, elem_of_app; by left).
  assert (Ht : same_table s1 s2) by by split.
  assert (HR2 : represents s2 (taken bs c rest L)).
  { apply (represents_taken s); [done|done|done| |exact Hm1|exact Hs1| |].
    - unfold s2, set_free. by rewrite Hq1.
    - by apply (chain_table s1).
    - by apply (linked_table s1). }
  assert (Hhu : is_u16 (default 0 (head c))) by (rewrite Hh; apply (rp_head _ _ HR)).
  apply wp_bind. eapply wp_mono; [apply (wp_publish s2 _ _ HR2 Hhu)|]. intros [] s3 (HR3 & _ & Hout).
  apply wp_ret. split; [done|]. split; [exact HR3|]. intros a Ha.
  assert (Hfr : frame (queue s2) = frame (queue s)) by (unfold s2; cbn; by rewrite Hq1).
  unfold ring in Ha, Hout. rewrite Hfr in Hout. rewrite Hout by (unfold AVAIL_OFFSET in *; lia).
  change (ram s2) with (ram s1). apply Hs1, outside_ring; [done|unfold ring, AVAIL_OFFSET, USED_OFFSET in *; lia].
Qed.

(** ** [take_used] *)

Lemma flags_next c w : (Z.land (desc_flags c w) DESC_NEXT =? 0) = negb c.
Proof. by destruct c, w. Qed.

Lemma wp_chain_end fuel s c bs z k Q :
  chain_holds s c bs → linked s c → last c = Some z → (length c ≤ fuel)%nat →
  k + Z.of_nat (length c) ≤ u16_max →
  Q (z, k + Z.of_nat (length c) - 1) s → wp (chain_end fuel (default 0 (head c)) k) s Q.
Proof.
  revert c bs k. induction fuel as [|fuel IH]; intros c bs k Hc Hl Hz Hf Hk HQ.
  - destruct c; [done|simpl in Hf; lia].
  - destruct c as [|x c]; [by destruct bs|]. cbn [chain_end]. change (default 0 (head (x :: c))) with x.
    apply wp_bind, wp_ring_read. destruct c as [|y c].
    + destruct bs as [|b []]; try done. destruct Hc as (_ & _ & ->). rewrite flags_next. cbn [negb].
      injection Hz as ->. apply wp_ret.
      by replace (k + Z.of_nat (length [z]) - 1) with k in HQ by (simpl; lia).
    + destruct bs as [|b [|b' bs]]; try done. destruct Hc as [(_ & _ & ->) Hc]. rewrite flags_next. cbn [negb].
      destruct Hl as [Hn Hl]. apply wp_bind, wp_ring_read. fold (next_of s x). rewrite Hn.
      apply wp_bind. eapply wp_lift; [unfold add16; rewrite (proj2 (Z.leb_le _ _)) by (simpl in Hk; lia); reflexivity|].
      apply (IH (y :: c) (b' :: bs)); [done|done|done|simpl in *; lia|simpl length in *; lia|].
      replace (k + 1 + Z.of_nat (length (y :: c)) - 1) with (k + Z.of_nat (length (x :: y :: c)) - 1) by (simpl; lia). done.
Qed.

Lemma linked_last s s' c z :
  same_outside [z] s s' → NoDup c → last c = Some z → linked s c → linked s' c.
Proof.
  intros Hs. induction c as [|x c IH]; intros Hnd Hz Hl; [done|]. destruct c as [|y c]; [done|].
  apply NoDup_cons in Hnd as [Hx Hnd]. destruct Hl as [Hn Hl].
  change (last (x :: y :: c)) with (last (y :: c)) in Hz. split; [|by apply IH].
  rewrite (next_same [z] s); [done|done|]. intros ->%list_elem_of_singleton. by apply Hx, last_Some_elem_of.
Qed.

(** Putting a finished chain back in front of the free list. *)
Lemma represents_freed s L l1 c bs l2 z s' :
  represents s L → chains L = l1 ++ (c, bs) :: l2 → last c = Some z →
  queue s' = mkQueue (frame (queue s)) (size (queue s)) (default 0 (head c))
    (free_count (queue s) + Z.of_nat (length c)) (wrapping_add16 (last_used (queue s)) 1) →
  bytes_ok (ram s') → same_outside [z] s s' → next_of s' z = free_head (queue s) →
  represents s' (spec_take l1 c l2 L).
Proof.
  intros HR Hcs Hz Hq Hm Hs Hnext. pose proof (free_nodup _ _ HR) as Hnd. rewrite Hcs, bind_app in Hnd.
  change (((c, bs) :: l2) ≫= fst) with (c ++ (l2 ≫= fst)) in Hnd.
  assert (Hin : in_table c) by (intros x Hx; eapply elem_of_chain; [done|by rewrite Hcs; apply elem_of_app; right; left|done]).
  assert (Hzc : z ∈ c) by by apply last_Some_elem_of.
  assert (Hperm : Permutation ((c ++ free_list L) ++ ((l1 ++ l2) ≫= fst)) (free_list L ++ (l1 ≫= fst) ++ c ++ (l2 ≫= fst))).
  { rewrite bind_app. solve_Permutation. }
  assert (Hnd' : NoDup ((c ++ free_list L) ++ ((l1 ++ l2) ≫= fst))) by by rewrite Hperm.
  apply NoDup_app in Hnd' as (Hndcf & Hdis & _). apply NoDup_app in Hndcf as (Hndc & Hcf & _).
  assert (Hzf : ∀ x, x ∈ free_list L → x ∉ [z]).
  { intros x Hx ->%list_elem_of_singleton. by apply (Hcf z). }
  assert (Hzo : ∀ d x, d ∈ l1 ++ l2 → x ∈ d.1 → x ∉ [z]).
  { intros d x Hd Hx ->%list_elem_of_singleton. apply (Hdis z); [apply elem_of_app; by left|].
    apply list_elem_of_bind. by exists d. }
  assert (Hrd : ∀ o, AVAIL_OFFSET ≤ o → read_u16 (ram s') (ring s' o) = read_u16 (ram s) (ring s o)).
  { intros o Ho. unfold ring at 1. rewrite (proj1 Hs). apply (read_same 2 [z]); [done|].
    intros x ->%list_elem_of_singleton. specialize (Hin z Hzc).
    unfold ring, desc, DESC_OFFSET, DESCRIPTOR_BYTES, AVAIL_OFFSET, QUEUE_SIZE in *. lia. }
  assert (Hhc : ∃ h, head c = Some h ∧ 0 ≤ h < QUEUE_SIZE).
  { destruct c as [|h c]; [done|]. exists h. split; [done|]. apply Hin. by left. }
  destruct Hhc as (h & Hh & Hhb).
  split; cbn [spec_take free_list chains published consumed]; rewrite ?Hq; cbn [frame size free_head free_count last_used].
  - apply HR.
  - done.
  - apply HR.
  - rewrite Hperm, app_assoc. pose proof (rp_conserved _ _ HR) as Hc. rewrite Hcs, bind_app in Hc.
    change (((c, bs) :: l2) ≫= fst) with (c ++ (l2 ≫= fst)) in Hc. by rewrite <-app_assoc.
  - rewrite (rp_count _ _ HR), length_app. lia.
  - rewrite Hh. split; [unfold is_u16, u16_max, QUEUE_SIZE in *; simpl; lia|]. intros h' Hh'.
    destruct c; [done|]. injection Hh as ->. by injection Hh' as ->.
  - apply linked_app. split; [|split].
    + apply (linked_last s s' c z); try done. pose proof (rp_chains _ _ HR) as Hch. rewrite Hcs in Hch.
      apply Forall_app in Hch as [_ Hch]. by apply Forall_cons in Hch as [[Hl _] _].
    + apply (linked_same [z] s); [done|done|apply HR].
    + intros z' y [= <-]%(λ H, eq_trans (eq_sym Hz) H) Hy. rewrite Hnext. by apply (rp_head _ _ HR).
  - pose proof (rp_chains _ _ HR) as Hch. rewrite Forall_forall in Hch |- *. intros d Hd.
    destruct (Hch d) as [H1 H2].
    { rewrite Hcs. apply elem_of_app in Hd as [Hd|Hd]; apply elem_of_app; [by left|right; by right]. }
    split; [apply (linked_same [z] s)|apply (chain_same [z] s)]; try done; intros x Hx; by apply (Hzo d).
  - rewrite Hrd by done. apply HR.
  - intros k h' Hk Hrec. rewrite Hrd; [by apply (rp_published _ _ HR)|].
    pose proof (Z.mod_pos_bound (Z.of_nat k) QUEUE_SIZE ltac:(done)). lia.
  - rewrite (rp_used _ _ HR). unfold wrapping_add16, as_u16. zdiv.
Qed.

(** The entry of the used ring the driver reads next. *)
Definition used_entry (s : vq) : Z := USED_OFFSET + 4 + last_used (queue s) mod QUEUE_SIZE * 8.

Lemma wp_take_used s L l1 c bs l2 :
  represents s L → chains L = l1 ++ (c, bs) :: l2 →
  read_u16 (ram s) (ring s (USED_OFFSET + 2)) ≠ last_used (queue s) →
  as_u16 (read_u32 (ram s) (ring s (used_entry s))) = default 0 (head c) →
  wp take_used s (λ r s',
    r = Some (default 0 (head c), read_u32 (ram s) (ring s (used_entry s + 4))) ∧
    represents s' (spec_take l1 c l2 L) ∧ same_outside (option_list (last c)) s s').
Proof.
  intros HR Hcs Hne Hhead. pose proof (rp_chains _ _ HR) as Hch. rewrite Hcs in Hch.
  apply Forall_app in Hch as [_ Hch]. apply Forall_cons in Hch as [[Hl Hc] _]. cbn [fst snd] in *.
  pose proof (Permutation_length (rp_conserved _ _ HR)) as Hlen. rewrite Hcs, bind_app in Hlen.
  change (((c, bs) :: l2) ≫= fst) with (c ++ (l2 ≫= fst)) in Hlen.
  rewrite !length_app, length_range in Hlen. unfold QUEUE_SIZE in Hlen.
  destruct (last c) as [z|] eqn:Hz; [|apply last_None in Hz; subst c; by destruct bs].
  assert (Hcb : (length c ≤ CHAIN_FUEL)%nat) by (unfold CHAIN_FUEL, QUEUE_SIZE; lia).
  unfold take_used. apply wp_bind, wp_gets. apply wp_bind, wp_ring_read.
  rewrite (proj2 (Z.eqb_neq _ _)) by congruence. cbv zeta. rewrite (rp_size _ _ HR). fold (used_entry s).
  apply wp_bind, wp_ring_read. apply wp_bind, wp_ring_read. apply wp_bind, wp_modify. rewrite Hhead.
  set (s1 := set_last_used _ s). assert (Ht : same_table s s1) by by split.
  assert (Hin : in_table c) by (intros x Hx; eapply elem_of_chain; [done|by rewrite Hcs; apply elem_of_app; right; left|done]).
  apply wp_bind. unfold recycle. apply wp_bind.
  eapply (wp_chain_end _ s1 c bs z); [by apply (chain_table s)|by apply (linked_table s)|done|done|unfold u16_max; lia|].
  apply wp_bind, wp_gets. apply wp_bind, wp_ring_write. apply wp_bind, wp_gets.
  apply wp_bind. eapply wp_lift.
  { unfold add16. rewrite (proj2 (Z.leb_le _ _)); [reflexivity|]. cbn [s1 set_last_used set_ram queue free_count].
    rewrite (rp_count _ _ HR). unfold u16_max. lia. }
  apply wp_modify, wp_ret. split; [done|].
  assert (Hs : same_outside [z] s (set_ram (write_u16 (ram s) (ring s (desc z + 14)) (free_head (queue s))) s)).
  { split; [done|]. intros a Ha. specialize (Ha z ltac:(by left)). cbn [set_ram ram]. apply write_le_other.
    unfold ring, desc, DESC_OFFSET, DESCRIPTOR_BYTES in *. lia. }
  split; [|exact Hs].
  apply (represents_freed s L l1 c bs l2 z); [done|done|done| | |exact Hs|].
  - cbn [set_free set_ram s1 set_last_used queue frame size free_head free_count last_used]. f_equal. lia.
  - cbn. apply write_le_bytes, HR.
  - unfold next_of. cbn [set_free set_ram s1 set_last_used queue ram]. unfold ring. cbn [queue frame].
    apply read_write_same. pose proof (proj1 (rp_head _ _ HR)) as Hh. unfold is_u16, u16_max in Hh.
    change (256 ^ Z.of_nat 2) with 65536. lia.
Qed.

Lemma wp_take_used_none s :
  read_u16 (ram s) (ring s (USED_OFFSET + 2)) = last_used (queue s) →
  wp take_used s (λ r s', r = None ∧ s' = s).
Proof.
  intros He. unfold take_used. apply wp_bind, wp_gets. apply wp_bind, wp_ring_read.
  rewrite (proj2 (Z.eqb_eq _ _)) by done. by apply wp_ret.
Qed.

(** ** A new queue *)

Definition empty_ledger : ledger := mkLedger (range 0 QUEUE_SIZE) [] [] 0.

Lemma wp_thread s Q :
  bytes_ok (ram s) →
  (∀ s', queue s' = queue s → bytes_ok (ram s') → same_outside (range 0 QUEUE_SIZE) s s' →
     (∀ x, 0 ≤ x < QUEUE_SIZE → next_of s' x = x + 1) → Q tt s') →
  wp (forM (range 0 QUEUE_SIZE) (λ index, write_descriptor_next index (index + 1))) s Q.
Proof.
  intros Hm HQ.
  apply (wp_forM _ _ (λ done s', queue s' = queue s ∧ bytes_ok (ram s') ∧ same_outside done s s' ∧
    ∀ x, x ∈ done → next_of s' x = x + 1)).
  - split; [done|]. split; [done|]. split; [apply same_outside_refl|]. by intros x Hx%elem_of_nil.
  - intros done x s' (Hq & Hm' & Hs & Hn) [rest Hr]. unfold write_descriptor_next. apply wp_ring_write.
    destruct (range_split_done _ _ _ _ _ Hr) as (_ & Hx & Hdone).
    assert (Hs1 : same_outside [x] s' (set_ram (write_u16 (ram s') (ring s' (desc x + 14)) (x + 1)) s')).
    { split; [reflexivity|]. intros a Ha. specialize (Ha x ltac:(by left)). cbn [set_ram ram]. apply write_le_other.
      unfold ring, desc, DESC_OFFSET, DESCRIPTOR_BYTES in *. lia. }
    split; [exact Hq|]. split; [by apply write_le_bytes|]. split; [by eapply same_outside_trans|].
    intros y [Hy| ->%list_elem_of_singleton]%elem_of_app.
    + rewrite (next_same [x] s'); [by apply Hn|exact Hs1|]. intros ->%list_elem_of_singleton. apply Hdone in Hy. lia.
    + unfold next_of. cbn [set_ram ram queue]. unfold ring. cbn [queue]. apply read_write_same.
      unfold QUEUE_SIZE in Hx. change (256 ^ Z.of_nat 2) with 65536. lia.
  - intros s' (Hq & Hm' & Hs & Hn). apply HQ; [done|done|done|]. intros x Hx. by apply Hn, elem_of_range.
Qed.

Lemma linked_range s lo n :
  (∀ x, lo ≤ x < lo + Z.of_nat n → next_of s x = x + 1) → linked s (range_from lo n).
Proof.
  revert lo. induction n as [|n IH]; intros lo H; [done|]. destruct n as [|n]; [done|].
  cbn [range_from] in *. split; [apply H; lia|]. apply (IH (lo + 1)). intros x Hx. apply H. lia.
Qed.

Lemma represents_new f m s' :
  0 ≤ f → read_u16 m (f + (AVAIL_OFFSET + 2)) = 0 →
  queue s' = mkQueue f QUEUE_SIZE 0 QUEUE_SIZE 0 → bytes_ok (ram s') →
  same_outside (range 0 QUEUE_SIZE) (mkVq (mkQueue f QUEUE_SIZE 0 QUEUE_SIZE 0) m) s' →
  (∀ x, 0 ≤ x < QUEUE_SIZE → next_of s' x = x + 1) → represents s' empty_ledger.
Proof.
  intros Hf Hz Hq Hm Hs Hn. split; cbn [empty_ledger free_list chains published consumed]; rewrite ?Hq;
    cbn [frame size free_head free_count last_used]; try done.
  - split; [done|]. by intros h [= <-].
  - apply linked_range. intros x Hx. apply Hn. unfold QUEUE_SIZE in *. lia.
  - change (as_u16 (Z.of_nat (length []))) with 0. rewrite <-Hz. unfold ring at 1. rewrite Hq. cbn [frame]. apply (read_same 2 _ _ _ _ Hs).
    intros x Hx%elem_of_range. unfold ring, desc, DESC_OFFSET, DESCRIPTOR_BYTES, AVAIL_OFFSET, QUEUE_SIZE in *. cbn [queue frame]. lia.
Qed.

Section new.
Context {S : Type} `{FrameAllocLaws S}.
Context (respond : list access → Z → Z → Z).

Lemma wp_on_bus {A} (op : M devices A) (s : S * devices) Q :
  wp op s.2 (λ a d, Q a (s.1, d)) → wp (on_bus op) s Q.
Proof. intros HQ. unfold on_bus. by apply wp_zoom. Qed.

Lemma wp_bus_write t o v (s : S * devices) Q :
  window_ok t → 0 ≤ o < 0x200 → (∀ d, Q tt (s.1, d)) → wp (on_bus (t_write t o v)) s Q.
Proof. intros Ht Ho HQ. apply wp_on_bus, wp_t_write; [done|done|apply HQ]. Qed.

Lemma wp_on_ring {A} q (op : M vq A) (s : S * devices) Q :
  wp op (mkVq q (fa_mem s.1)) (λ a v, Q a (fa_set_mem (ram v) s.1, s.2)) → wp (on_ring q op) s Q.
Proof. unfold wp, on_ring. by destruct (op _) as [[]|]. Qed.

(** A queue that comes up has every descriptor free, in a frame of its own. *)
Lemma wp_queue_new t index (s : S * devices) :
  window_ok t → fa_ok s.1 →
  wp (queue_new respond t index) s (λ r s',
    match r with
    | Ok q => represents (mkVq q (fa_mem s'.1)) empty_ledger ∧ fa_ok s'.1 ∧
        fa_avail s.1 (frame q) ∧ (∀ f, fa_avail s'.1 f ↔ fa_avail s.1 f ∧ f ≠ frame q)
    | Err NoMemory => ∀ f, ¬ fa_avail s.1 f
    | Err (TooSmall max) => max < QUEUE_SIZE ∧ ∃ h, max = answer respond t h QUEUE_NUM_MAX
    | Err _ => False
    end).
Proof.
  intros Ht Hok. unfold queue_new. apply wp_bind, wp_bus_write; [done|done|]. intros d1. cbn [fst].
  apply wp_bind, wp_on_bus, wp_t_read; [done|done|]. cbn [fst snd].
  destruct (Z.ltb_spec (answer respond t (trace d1) QUEUE_NUM_MAX) QUEUE_SIZE); [by apply wp_ret; eauto|].
  apply wp_bind, wp_zoom. cbn [fst snd]. eapply wp_mono; [by apply fa_alloc_spec|].
  intros [f|] s1 (Hok1 & Hfr & Hres); [|by apply wp_ret; destruct Hres].
  destruct Hres as (Hav & Hav' & Hmem & _). destruct (fa_avail_aligned _ _ Hok Hav) as (_ & Hf & _).
  assert (Hz : read_u16 (fa_mem s1) (f + (AVAIL_OFFSET + 2)) = 0).
  { rewrite Hmem. apply read_zeroed; unfold AVAIL_OFFSET; lia. }
  apply wp_bind, wp_on_ring. cbn [fst snd]. apply wp_thread; [by apply fa_bytes|].
  intros s2 Hq Hm Hs Hn. cbn [queue] in Hq.
  pose proof (represents_new f (fa_mem s1) s2 Hf Hz Hq Hm Hs Hn) as HR.
  do 8 (apply wp_bind, wp_bus_write; [done|done|]; intros ?; cbn [fst]). apply wp_ret. cbn [fst].
  rewrite fa_get_set. cbn [frame].
  split; [destruct s2 as [q2 m2]; simpl in Hq; by subst|].
  split; [by apply fa_set_ok|]. split; [done|]. intros g. rewrite fa_set_avail. apply Hav'.
Qed.
End new.
