(* ===== verification/VirtioProps.v ===== *)
(** * VirtioProps: what the transport and the queue promise *)

From S2P Require Import Prelude Memory FrameAlloc Frames FramesSpec FramesBoot Devices Virtio Virtqueue VirtqueueSpec.

Section handshake.
Context (respond : list access → Z → Z → Z).

Lemma land_bit_zero v k : 0 ≤ k → (Z.land v (2 ^ k) =? 0) = negb (Z.testbit v k).
Proof.
  intros Hk. destruct (Z.testbit v k) eqn:Hb.
  - apply Z.eqb_neq. intros H0. assert (Ht : Z.testbit (Z.land v (2 ^ k)) k = false) by (rewrite H0; apply Z.bits_0).
    rewrite Z.land_spec, Hb, Z.pow2_bits_true in Ht by done. done.
  - apply Z.eqb_eq. apply Z.bits_inj'. intros i Hi. rewrite Z.land_spec, Z.bits_0, Z.pow2_bits_eqb by done.
    destruct (Z.eqb_spec k i) as [<-|]; [by rewrite Hb|by rewrite andb_false_r].
Qed.

(** C17: negotiate performs exactly the handshake: reset and wait, acknowledge,
    driver, read what is offered; without the version 1 bit it fails the device
    and says Legacy; otherwise it writes back the offered features it wants and
    nothing more, asks for confirmation and reads it, and gives up with
    FeaturesRefused when the device dropped the bit. *)
Theorem negotiate_handshake t wanted polls n d :
  window_ok t → (n < polls)%nat → resets_in respond n t (trace d ++ [W t STATUS 0]) →
  let h0 := noticed t (waited respond n t (trace d ++ [W t STATUS 0])) in
  let offered := offers respond t h0 in
  let agreed := Z.land offered (Z.lor wanted VIRTIO_F_VERSION_1) in
  let h1 := features_read respond t h0 in
  let h2 := confirmed t agreed h1 in
  wp (negotiate respond polls t wanted) d (λ r d',
    if Z.testbit offered 32 then
      if Z.testbit (answer respond t h2 STATUS) 3 then
        r = Ok agreed ∧ trace d' = h2 ++ [R respond t h2 STATUS] ∧
        ∀ i, 0 ≤ i → Z.testbit agreed i = Z.testbit offered i && (Z.testbit wanted i || (i =? 32))
      else r = Err FeaturesRefused ∧ trace d' = h2 ++ [R respond t h2 STATUS; W t STATUS STATUS_FAILED]
    else r = Err Legacy ∧ trace d' = h1 ++ [W t STATUS STATUS_FAILED]).
Proof.
  intros Ht Hn Hr h0 offered agreed h1 h2. unfold negotiate, reset.
  apply wp_bind, wp_bind, wp_t_write; [done|done|]. eapply wp_wait_reset; [done|exact Hn|by destruct d|].
  apply wp_bind, wp_t_write; [done|done|]. apply wp_bind, wp_t_write; [done|done|].
  apply wp_bind, wp_device_features; [done|]. rewrite !set_trace_twice. cbn [set_trace trace].
  rewrite <-!app_assoc. cbn [app]. fold (noticed t (waited respond n t (trace d ++ [W t STATUS 0]))). fold h0. fold offered. fold h1.
  change VIRTIO_F_VERSION_1 with (2 ^ 32) at 1. rewrite land_bit_zero by lia.
  destruct (Z.testbit offered 32); cbn [negb].
  2: { apply wp_bind, wp_t_write; [done|done|]. by apply wp_ret. }
  unfold set_driver_features. apply wp_bind.
  do 3 (apply wp_bind, wp_t_write; [done|done|]). apply wp_t_write; [done|done|].
  apply wp_bind, wp_t_write; [done|done|]. apply wp_bind, wp_t_read; [done|done|].
  rewrite !set_trace_twice. cbn [set_trace trace]. rewrite <-!app_assoc. cbn [app]. fold agreed.
  fold (confirmed t agreed h1). fold h2. change STATUS_FEATURES_OK with (2 ^ 3) at 1. rewrite land_bit_zero by lia.
  destruct (Z.testbit (answer respond t h2 STATUS) 3); cbn [negb].
  - apply wp_ret. split; [done|]. split.
    + cbn [trace]. unfold h2, confirmed. by rewrite <-app_assoc.
    + intros i Hi. unfold agreed. rewrite Z.land_spec, Z.lor_spec. change VIRTIO_F_VERSION_1 with (2 ^ 32).
      rewrite Z.pow2_bits_eqb by lia. by rewrite (Z.eqb_sym 32).
  - apply wp_bind, wp_t_write; [done|done|]. apply wp_ret. split; [done|]. cbn [set_trace trace].
    unfold h2, confirmed. by rewrite <-!app_assoc.
Qed.
End handshake.

(** A device that keeps the status it is given and offers a few features. *)
Fixpoint last_write (a : Z) (h : list access) (v : Z) : Z :=
  match h with
  | [] => v
  | Write _ a' v' :: h' => last_write a h' (if a' =? a then v' else v)
  | Read _ _ _ :: h' => last_write a h' v
  end.
Definition agreeable (base : Z) (h : list access) (width a : Z) : Z :=
  if a =? base + STATUS then last_write a h 0
  else if a =? base + DEVICE_FEATURES then
    (if last_write (base + DEVICE_FEATURES_SEL) h 0 =? 1 then 1 else 0x30)
  else 0.

Definition slot0 : Transport := mkTransport 0x0a000000 48 4 0.
Definition quiet : devices := mkDevices GICD_BOOTSTRAP GICC_BOOTSTRAP [] 0 0.

Lemma negotiate_handshake_witness :
  ∃ d, negotiate (agreeable (base slot0)) 1 slot0 0x10 quiet = Done (Ok 0x100000010, d) ∧ length (trace d) = 14%nat.
Proof.
  pose proof (negotiate_handshake (agreeable (base slot0)) slot0 0x10 1 0 quiet
    ltac:(split; vm_compute; discriminate) ltac:(lia) ltac:(by vm_compute)) as H. cbv zeta in H.
  destruct (wp_elim _ _ _ H) as (r & d & He & Hr). clear H. exists d. rewrite He.
  assert (Hb1 : Z.testbit (offers (agreeable (base slot0)) slot0 (noticed slot0
    (waited (agreeable (base slot0)) 0 slot0 (trace quiet ++ [W slot0 STATUS 0])))) 32 = true) by by vm_compute.
  rewrite Hb1 in Hr. destruct (Z.testbit (answer _ _ _ _) 3) eqn:Hb2.
  - destruct Hr as (-> & -> & _). split; [do 3 f_equal; by vm_compute|by vm_compute].
  - exfalso. clear -Hb2. vm_compute in Hb2. discriminate.
Defined.

(** ** The virtqueue refines its ledger *)

(** C16: the queue is the ledger it represents: a queue that comes up has all
    sixteen descriptors free in a frame taken from the allocator; add takes the
    first free descriptors in order, puts each buffer in one, publishes the head
    and fails without effect when empty or full; whatever the device writes
    beyond the available ring changes nothing; and take_used hands back the
    chain the device finished and frees its descriptors, none lost or doubled. *)
Theorem virtqueue_refines :
  (∀ respond t index (s : machine * devices), window_ok t → fa_ok s.1 →
     wp (queue_new respond t index) s (λ r s', ∀ q, r = Ok q →
       represents (mkVq q (fa_mem s'.1)) empty_ledger ∧ fa_avail s.1 (frame q) ∧ ¬ fa_avail s'.1 (frame q))) ∧
  (∀ s L bs, represents s L → Forall buffer_ok bs →
     wp (add bs) s (λ r s',
       match spec_add bs L with
       | inl e => r = Err e ∧ s' = s
       | inr (h, L') => r = Ok h ∧ represents s' L' ∧ ∀ a, ¬ ring s 0 ≤ a < ring s USED_OFFSET → ram s' a = ram s a
       end)) ∧
  (∀ s L m, represents s L → bytes_ok m → mem_agree (ram s) m (frame (queue s)) USED_OFFSET →
     represents (set_ram m s) L) ∧
  (∀ s L l1 c bs l2, represents s L → chains L = l1 ++ (c, bs) :: l2 →
     read_u16 (ram s) (ring s (USED_OFFSET + 2)) ≠ last_used (queue s) →
     as_u16 (read_u32 (ram s) (ring s (used_entry s))) = default 0 (head c) →
     wp take_used s (λ r s', r = Some (default 0 (head c), read_u32 (ram s) (ring s (used_entry s + 4))) ∧
       represents s' (spec_take l1 c l2 L))) ∧
  (∀ s, read_u16 (ram s) (ring s (USED_OFFSET + 2)) = last_used (queue s) →
     wp take_used s (λ r s', r = None ∧ s' = s)).
Proof.
  split; [|split; [|split; [|split]]].
  - intros respond t index s Ht Hok. eapply wp_mono; [by apply wp_queue_new|].
    intros r s' Hr q ->. destruct Hr as (HR & _ & Hav & Hav'). split; [done|]. split; [done|]. rewrite Hav'. naive_solver.
  - intros s L bs HR Hok. by apply wp_add_chain.
  - intros s L m. apply represents_device.
  - intros s L l1 c bs l2 HR Hc Hne Hh. eapply wp_mono; [by eapply wp_take_used|]. naive_solver.
  - intros s. apply wp_take_used_none.
Qed.

Definition roomy (h : list access) (width a : Z) : Z := 64.

Lemma virtqueue_refines_witness :
  ∃ q s s', queue_new roomy slot0 0 (virt, quiet) = Done (Ok q, s) ∧
    add [mkBuffer 0x40300000 16 true] (mkVq q (fa_mem s.1)) = Done (Ok 0, s') ∧
    represents s' (mkLedger (range 1 16) [([0], [mkBuffer 0x40300000 16 true])] [0] 0).
Proof.
  destruct virtqueue_refines as (Hnew & Hadd & _).
  destruct (wp_elim _ _ _ (Hnew roomy slot0 0 (virt, quiet) ltac:(split; vm_compute; discriminate) (proj1 virt_contract)))
    as (r & s & He & Hr).
  destruct r as [q|e].
  - destruct (Hr q eq_refl) as [HR _]. exists q, s.
    destruct (wp_elim _ _ _ (Hadd _ _ [mkBuffer 0x40300000 16 true] HR
      ltac:(repeat constructor; vm_compute; discriminate))) as (r' & s' & Ha & Hs).
    exists s'. change (spec_add [mkBuffer 0x40300000 16 true] empty_ledger) with
      (inr (0, mkLedger (range 1 16) [([0], [mkBuffer 0x40300000 16 true])] [0] 0) : Error + (Z * ledger)) in Hs.
    cbv beta iota in Hs. destruct Hs as (-> & HR' & _). split; [exact He|]. split; [exact Ha|exact HR'].
  - exfalso. pose proof (wp_queue_new roomy slot0 0 (virt, quiet) ltac:(split; vm_compute; discriminate) (proj1 virt_contract)) as Hw.
    unfold wp in Hw. rewrite He in Hw. clear Hr He. destruct e as [mx| | |]; [| |exact Hw|exact Hw].
    + destruct Hw as [Hlt [h ->]]. vm_compute in Hlt. discriminate Hlt.
    + apply (Hw (from_index virt 512)). apply (proj2 virt_contract). lia.
Defined.
