(* ===== verification/DeviceProps.v ===== *)
(** * DeviceProps: what the timer promises *)

From S2P Require Import Prelude Memory Kernel Devices.

Section timer.
Context (frequency : Z).
Local Abbreviation step := (interval frequency).

Lemma arm_next_exact count d :
  cntp_cval d + step ≤ u64_max → count + step ≤ u64_max →
  arm_next frequency count d =
    Done (tt, set_cval (if cntp_cval d + step <=? count then count + step else cntp_cval d + step) d).
Proof.
  intros H1 H2. unfold arm_next, mbind, M_bind, getS, gets, lift, modify, mret, M_ret.
  rewrite add64_ok by done. destruct (_ <=? count); [by rewrite add64_ok|done].
Qed.

(** Ticks handled at the counts listed. *)
Definition ticks (counts : list Z) : M devices unit := forM counts (arm_next frequency).

(** Every tick but the last handled before the next one is due, counting from
    the deadline [c]. *)
Fixpoint in_time (c : Z) (counts : list Z) : Prop :=
  match counts with
  | [] => True
  | count :: counts' => count < c + step ∧ in_time (c + step) counts'
  end.

Lemma ticks_in_time counts d :
  0 ≤ step → 0 ≤ cntp_cval d → cntp_cval d + (1 + Z.of_nat (length counts)) * step ≤ u64_max →
  in_time (cntp_cval d) counts →
  ticks counts d = Done (tt, set_cval (cntp_cval d + Z.of_nat (length counts) * step) d).
Proof.
  intros Hs. revert d. induction counts as [|c counts IH]; intros d H0 Hmax Ht.
  - change (Z.of_nat (length [])) with 0. rewrite Z.mul_0_l, Z.add_0_r. by destruct d.
  - destruct Ht as [Hc Ht]. unfold ticks. cbn [forM]. unfold mbind, M_bind.
    assert (Hl : Z.of_nat (length (c :: counts)) = 1 + Z.of_nat (length counts)) by (simpl; lia).
    rewrite Hl in Hmax |- *. assert (0 ≤ Z.of_nat (length counts) * step) by (apply Z.mul_nonneg_nonneg; lia).
    rewrite arm_next_exact by lia. rewrite (proj2 (Z.leb_gt _ _)) by lia.
    fold (ticks counts). rewrite IH; [|cbn [cntp_cval set_cval]; lia..|exact Ht].
    cbn [cntp_cval set_cval]. destruct d as [gd gc tr cv ct]. unfold set_cval. cbn [cntp_cval GICD GICC trace cntp_ctl].
    replace (cv + step + Z.of_nat (length counts) * step) with (cv + (1 + Z.of_nat (length counts)) * step) by lia.
    reflexivity.
Qed.

(** C28: re-arming puts the deadline past the count read, at most one interval past
    the later of the old deadline and the count, and exactly one interval past
    the old deadline unless that one was missed whole; so any number of ticks,
    each handled before the next is due, leaves the deadline exactly that many
    intervals on, without drift; and past the end of the counter's 64 bits it
    panics rather than wrap. *)
Theorem deadline_bounds count counts d :
  0 < step → 0 ≤ cntp_cval d → 0 ≤ count → count + step ≤ u64_max →
  (cntp_cval d + step ≤ u64_max →
     wp (arm_next frequency count) d (λ _ d', d' = set_cval (cntp_cval d') d ∧
       count < cntp_cval d' ≤ Z.max (cntp_cval d) count + step ∧
       (count < cntp_cval d + step → cntp_cval d' = cntp_cval d + step))) ∧
  (cntp_cval d + (1 + Z.of_nat (length counts)) * step ≤ u64_max → in_time (cntp_cval d) counts →
     ticks counts d = Done (tt, set_cval (cntp_cval d + Z.of_nat (length counts) * step) d)) ∧
  (u64_max < cntp_cval d + step → ∃ w, arm_next frequency count d = Panic w).
Proof.
  intros Hs Hc H0 Hmax. split; [|split].
  - intros Hd. unfold wp. rewrite arm_next_exact by done. destruct (Z.leb_spec (cntp_cval d + step) count); cbn; intuition lia.
  - intros. apply ticks_in_time; lia || done.
  - intros Hd. unfold arm_next, mbind, M_bind, getS, gets, lift, add64.
    rewrite (proj2 (Z.leb_gt _ _)) by done. eauto.
Qed.
End timer.

(** QEMU's counter runs at 62.5 MHz: three ticks in time. *)
Lemma deadline_bounds_witness :
  ticks 62500000 [700000; 1300000; 1875001] (mkDevices 0 0 [] 625000 1) =
    Done (tt, mkDevices 0 0 [] 2500000 1).
Proof.
  refine (proj1 (proj2 (deadline_bounds 62500000 0 [700000; 1300000; 1875001] (mkDevices 0 0 [] 625000 1) _ _ _ _)) _ _).
  all: by vm_compute.
Defined.
