(* ===== verification/IrqProps.v ===== *)
(** * IrqProps: an interrupt from the controller to the task it wakes

    [dispatch_irq] joins the interrupt controller, the routing table, the timer
    and the scheduler. *)

From S2P Require Import Prelude Memory Frames FramesBoot Paging Kernel Sched Notify Ipc Tasks Syscall.
From S2P Require Import KernelInv SchedSpec CallInv SyscallInv IpcProps KernelProps Devices Exceptions DeviceProps.

(** The interrupt the controller would name after the history [h]. *)
Definition pending_irq (respond : list access → Z → Z → Z) (d : devices) : Z :=
  respond (trace d) 4 (GICC d + GICC_IAR) mod 2 ^ 32.

(** The bus once [intid] was acknowledged, and once it was also ended. *)
Definition acknowledged (intid : Z) (d : devices) : devices :=
  set_trace (trace d ++ [Read 4 (GICC d + GICC_IAR) intid]) d.
Definition ended (intid : Z) (d : devices) : devices :=
  set_trace (trace d ++ [Write 4 (GICC d + GICC_EOIR) intid]) d.

(** Who an interrupt is for, and with which bits. *)
Definition routed (k : kernel) (intid : Z) : option Route :=
  snd <$> list_find (λ r, route_intid r = intid) (omap id (ROUTES k)).

(** Every route leads to a slot. *)
Definition routes_ok (k : kernel) : Prop := ∀ r, r ∈ omap id (ROUTES k) → slot_id (route_task r).

(** What the interrupt does to the kernel before anything is switched: the bits
    of its route are posted to the task of its route, which wakes if it is blocked
    on one of them; a timer tick is counted; and a reschedule is asked for by
    either. *)
Record noted_route (k k' : kernel) (intid : Z) : Prop := {
  nr_lengths : lengths_ok k';
  nr_me : me k' = me k;
  nr_posted : POSTED k' = match routed k intid with
    | Some r => alter (λ p, Z.lor p (route_bits r)) (Z.to_nat (route_task r)) (POSTED k)
    | None => POSTED k
    end;
  nr_ticks : TICKS k' = TICKS k;
  nr_console : console k' = console k;
  nr_resched : NEED_RESCHED k' = NEED_RESCHED k || match routed k intid with
    | Some r => negb (Z.land (default 0 (WANTED k !! Z.to_nat (route_task r))) (route_bits r) =? 0)
    | None => false
    end;
  nr_tasks : ∀ t, slot_id t → task_at k' t = match routed k intid with
    | Some r => if bool_decide (t = route_task r) && negb (Z.land (default 0 (WANTED k !! Z.to_nat t)) (route_bits r) =? 0)
                then woken <$> task_at k t else task_at k t
    | None => task_at k t
    end
}.

Definition is_route (k : kernel) (intid : Z) : bool := if routed k intid is Some _ then true else false.
Definition noted (k k' : kernel) (intid : Z) : Prop := ∃ k1, noted_route k k1 intid ∧
  k' = if intid =? TIMER_INTID then set_NEED_RESCHED true (set_TICKS (TICKS k + 1) k1)
       else if is_route k intid then k1 else set_console (console k ++ unhandled intid) k1.

Definition rearmed (frequency count intid : Z) (d : devices) : devices :=
  if intid =? TIMER_INTID then
    set_cval (if cntp_cval d + interval frequency <=? count then count + interval frequency
              else cntp_cval d + interval frequency) d
  else d.

Lemma wp_unblock_exact k t Q :
  lengths_ok k → slot_id t →
  (∀ b k', lengths_ok k' → me k' = me k → POSTED k' = POSTED k → WANTED k' = WANTED k → TICKS k' = TICKS k →
     console k' = console k → NEED_RESCHED k' = NEED_RESCHED k →
     (∀ i, slot_id i → task_at k' i = if bool_decide (i = t) then woken <$> task_at k i else task_at k i) → Q b k') →
  wp (unblock_deferred t) k Q.
Proof.
  intros Hl Ht HQ. unfold unblock_deferred. apply wp_bind, wp_gets, wp_bind.
  eapply wp_index; [exact (task_at_lookup k (me k) Hl (len_current _ Hl))|].
  assert (Hnone : woken <$> task_at k t = task_at k t → wp (mret false) k Q).
  { intros Hw. apply wp_ret, HQ; [done..|]. intros i _. case_bool_decide; [by subst; rewrite Hw|done]. }
  destruct (task_at k t) as [u|] eqn:Hu; [|by apply Hnone].
  case_bool_decide as Hb.
  - apply wp_bind, wp_store; [apply Hl|done|]. apply wp_ret, HQ; [|done..|].
    + destruct Hl. split; cbn; rewrite ?length_insert; assumption.
    + intros i Hi. assert (H8 := len_tasks _ Hl). unfold task_at, task_list in *. cbn.
      case_bool_decide as Hit.
      * subst i. rewrite list_lookup_insert_eq by (rewrite H8; unfold slot_id, MAX_TASKS in *; lia).
        rewrite Hu. cbn. unfold woken. by rewrite bool_decide_true.
      * rewrite list_lookup_insert_ne; [done|]. unfold slot_id in *. lia.
  - apply Hnone. cbn. unfold woken. by rewrite bool_decide_false.
Qed.

(** [post], to a slot. *)
Lemma wp_post_exact k t bits Q :
  lengths_ok k → slot_id t →
  (∀ k', lengths_ok k' → me k' = me k → POSTED k' = alter (λ p, Z.lor p bits) (Z.to_nat t) (POSTED k) →
     TICKS k' = TICKS k → console k' = console k →
     NEED_RESCHED k' = NEED_RESCHED k || negb (Z.land (default 0 (WANTED k !! Z.to_nat t)) bits =? 0) →
     (∀ i, slot_id i → task_at k' i =
        if bool_decide (i = t) && negb (Z.land (default 0 (WANTED k !! Z.to_nat i)) bits =? 0)
        then woken <$> task_at k i else task_at k i) → Q tt k') →
  wp (post t bits) k Q.
Proof.
  intros Hl Ht HQ. unfold post. destruct (Z.leb_spec MAX_TASKS t); [unfold slot_id in Ht; lia|].
  assert (Hlt : (Z.to_nat t < 8)%nat) by (unfold slot_id, MAX_TASKS in Ht; lia).
  destruct (lookup_lt_is_Some_2 (POSTED k) (Z.to_nat t)) as [p Hp]; [by rewrite (len_posted _ Hl)|].
  destruct (lookup_lt_is_Some_2 (WANTED k) (Z.to_nat t)) as [w Hw]; [by rewrite (len_wanted _ Hl)|].
  unfold posted_at, wanted_at. apply wp_bind, wp_bind, wp_gets. eapply wp_index; [exact Hp|].
  apply wp_bind, wp_store; [apply Hl|done|]. apply wp_bind, wp_bind, wp_gets. eapply wp_index; [exact Hw|].
  set (k1 := set_POSTED _ k). rewrite Hw in HQ. change (default 0 (Some w)) with w in HQ.
  assert (Hl1 : lengths_ok k1) by (destruct Hl; split; unfold k1; cbn; rewrite ?length_insert; assumption).
  assert (Hp1 : POSTED k1 = alter (λ p, Z.lor p bits) (Z.to_nat t) (POSTED k)).
  { unfold k1. cbn. rewrite list_insert_alter. apply list_alter_ext; [|done]. intros x Hx. congruence. }
  destruct (Z.land w bits =? 0) eqn:Hz; cbn [negb].
  - apply wp_ret, HQ; [done|done|done|done|done|by cbn [negb]; rewrite orb_false_r|].
    intros i _. case_bool_decide; [|done]. subst i. rewrite Hw. change (default 0 (Some w)) with w. by rewrite Hz.
  - apply wp_bind, wp_unblock_exact; [done|done|]. intros b k2 H2 Hm2 HP2 HW2 HT2 HC2 HN2 Hts.
    unfold request_reschedule. apply wp_modify, HQ.
    + destruct H2. split; cbn; assumption.
    + exact Hm2.
    + cbn. by rewrite HP2.
    + exact HT2.
    + exact HC2.
    + cbn [negb]. by rewrite orb_true_r.
    + intros i Hi. change (task_at (set_NEED_RESCHED true k2) i) with (task_at k2 i). rewrite (Hts i Hi).
      change (task_at k1 i) with (task_at k i). case_bool_decide; [|done]. subst i. rewrite Hw.
      change (default 0 (Some w)) with w. by rewrite Hz.
Qed.

Lemma bind_done {S A B} (m : M S A) (f : A → M S B) s a s' : m s = Done (a, s') → (m ≫= f) s = f a s'.
Proof. unfold mbind, M_bind. by intros ->. Qed.

(** The routing table sends the interrupt to its task. *)
Lemma wp_on_irq k intid Q :
  lengths_ok k → routes_ok k → (∀ k', noted_route k k' intid → Q (is_route k intid) k') →
  wp (on_irq intid) k Q.
Proof.
  intros Hl Hr HQ. unfold on_irq. apply wp_bind, wp_gets.
  destruct (list_find _ _) as [[i r]|] eqn:Hf.
  - assert (Hro : routed k intid = Some r) by (unfold routed; by rewrite Hf).
    apply list_find_Some in Hf as (Hi & _). apply wp_bind, wp_post_exact; [done|by eapply Hr, list_elem_of_lookup_2|].
    intros. apply wp_ret. unfold is_route in HQ. rewrite Hro in HQ. apply HQ. split; rewrite ?Hro; assumption.
  - assert (Hro : routed k intid = None) by (unfold routed; by rewrite Hf).
    apply wp_ret. unfold is_route in HQ. rewrite Hro in HQ. apply HQ. split; rewrite ?Hro; try done. by rewrite orb_false_r.
Qed.

Section irq.
Context (respond : list access → Z → Z → Z) (frequency : Z).

(** The timer's own half of its interrupt. *)
Lemma ticked_done count intid b :
  (intid = TIMER_INTID → TICKS (kern b) + 1 ≤ u64_max ∧
     cntp_cval (devs b) + interval frequency ≤ u64_max ∧ count + interval frequency ≤ u64_max) →
  (if intid =? TIMER_INTID then on_tick frequency count else mret tt) b =
    Done (tt, set_kern (if intid =? TIMER_INTID then set_NEED_RESCHED true (set_TICKS (TICKS (kern b) + 1) (kern b)) else kern b)
                (set_devs (rearmed frequency count intid (devs b)) b)).
Proof.
  intros Ht. unfold rearmed. destruct (Z.eqb_spec intid TIMER_INTID) as [He|]; [|by destruct b].
  destruct (Ht He) as (H1 & H2 & H3). unfold on_tick.
  rewrite (bind_done _ _ _ tt (set_devs (rearmed frequency count TIMER_INTID (devs b)) b)).
  2: { unfold in_devices, zoom. by rewrite arm_next_exact. }
  unfold in_kernel, zoom, count_tick, request_reschedule, mbind, M_bind, gets, lift, modify. cbn [kern set_devs].
  by rewrite add64_ok.
Qed.

(** C27: an interrupt is acknowledged once and ended once, with the number the
    controller named, and nothing is switched before that; in between, exactly
    the routed task is notified and woken, and the timer, if it is the timer, is
    re-armed and counted; of one that is neither routed nor the timer's a line is
    printed; what remains is [preempt_if_needed].  When the
    controller has nothing to say, nothing happens at all. *)
Theorem interrupt_handled count b :
  lengths_ok (kern b) → routes_ok (kern b) →
  0 ≤ GICC (devs b) → GICC (devs b) + 0x1000 ≤ u64_max →
  let intid := pending_irq respond (devs b) in
  (intid = TIMER_INTID → TICKS (kern b) + 1 ≤ u64_max ∧
     cntp_cval (devs b) + interval frequency ≤ u64_max ∧ count + interval frequency ≤ u64_max) →
  if intid =? SPURIOUS_INTID then
    dispatch_irq respond frequency count b = Done (false, set_devs (acknowledged intid (devs b)) b)
  else ∃ k',
    noted (kern b) k' intid ∧
    dispatch_irq respond frequency count b =
      in_kernel preempt_if_needed
        (set_kern k' (set_devs (ended intid (rearmed frequency count intid (acknowledged intid (devs b)))) b)).
Proof.
  intros Hl Hr Hg Hg' intid Ht.
  assert (Hack : acknowledge respond (devs b) = Done (intid, acknowledged intid (devs b))).
  { unfold acknowledge, gicc_read, mbind, M_bind, getS, gets, lift, GICC_IAR. by rewrite add64_ok by lia. }
  assert (Heoi : ∀ d, GICC d = GICC (devs b) → end_of_interrupt intid d = Done (tt, ended intid d)).
  { intros d Hd. unfold end_of_interrupt, gicc_write, mbind, M_bind, getS, gets, lift, ended. rewrite Hd.
    by rewrite add64_ok by (unfold GICC_EOIR; lia). }
  unfold dispatch_irq. rewrite (bind_done _ _ b intid (set_devs (acknowledged intid (devs b)) b)).
  2: { unfold in_devices, zoom. by rewrite Hack. }
  destruct (Z.eqb_spec intid SPURIOUS_INTID) as [|Hns]; [done|].
  destruct (wp_elim _ _ _ (wp_on_irq (kern b) intid (λ r k1, r = is_route (kern b) intid ∧ noted_route (kern b) k1 intid) Hl Hr
    (λ k1 H, conj eq_refl H))) as (r & k1 & He & -> & Hn).
  rewrite (bind_done _ _ _ (is_route (kern b) intid) (set_kern k1 (set_devs (acknowledged intid (devs b)) b))).
  2: { unfold in_kernel, zoom. cbn [kern set_devs]. by rewrite He. }
  set (b1 := set_kern k1 _).
  assert (Htick := ticked_done count intid b1). cbn [b1 kern devs set_kern set_devs] in Htick.
  rewrite (nr_ticks _ _ _ Hn) in Htick. cbn [acknowledged set_trace cntp_cval] in Htick.
  exists (if intid =? TIMER_INTID then set_NEED_RESCHED true (set_TICKS (TICKS (kern b) + 1) k1)
          else if is_route (kern b) intid then k1 else set_console (console (kern b) ++ unhandled intid) k1).
  split; [by exists k1|]. rewrite (bind_done _ _ _ _ _ (Htick Ht)).
  rewrite (bind_done _ _ _ tt (set_kern (if intid =? TIMER_INTID then set_NEED_RESCHED true (set_TICKS (TICKS (kern b) + 1) k1)
          else if is_route (kern b) intid then k1 else set_console (console (kern b) ++ unhandled intid) k1)
     (set_devs (rearmed frequency count intid (acknowledged intid (devs b))) b))).
  2: { destruct (intid =? TIMER_INTID), (is_route (kern b) intid); cbn [negb andb]; try reflexivity.
       unfold in_kernel, zoom, modify. cbn [kern set_kern set_devs]. by rewrite (nr_console _ _ _ Hn). }
  apply (bind_done (in_devices (end_of_interrupt intid)) (λ _, in_kernel preempt_if_needed) _ tt).
  unfold in_devices, zoom. cbn [devs set_kern set_devs]. rewrite Heoi; [done|].
  unfold rearmed. by destruct (_ =? _).
Qed.
End irq.

(** The controller names the timer, which is routed to task 2, asleep on bit 1. *)
Definition ticking : list access → Z → Z → Z := λ _ _ _, TIMER_INTID.
Definition ticking_kernel : kernel := set_ROUTES (Some (mkRoute TIMER_INTID 2 2) :: replicate 7 None) waiting_kernel.

Lemma interrupt_handled_witness :
  ∃ k', noted ticking_kernel k' TIMER_INTID ∧ task_at k' 2 = Some (user_task 0 Runnable) ∧ TICKS k' = 1.
Proof.
  destruct (interrupt_handled ticking 62500000 0 (mkBoard ticking_kernel (mkDevices GICD_BOOTSTRAP GICC_BOOTSTRAP [] 625000 1) 0 false 0))
    as (k' & Hn & _).
  - destruct waiting_lengths. split; assumption.
  - intros r Hr. assert (r = mkRoute TIMER_INTID 2 2) as -> by (vm_compute in Hr; inversion Hr as [|? ? ? H]; subst; [done|inversion H]).
    split; vm_compute; congruence.
  - vm_compute. congruence.
  - vm_compute. congruence.
  - intros _. split; [|split]; vm_compute; congruence.
  - exists k'. split; [exact Hn|]. destruct Hn as (k1 & H1 & ->). split.
    + change (task_at k1 2 = Some (user_task 0 Runnable)).
      rewrite (nr_tasks _ _ _ H1 2 ltac:(split; vm_compute; congruence)). reflexivity.
    + reflexivity.
Defined.
