(* ===== verification/Sync.v ===== *)
(** * Sync: masking interrupts as mutual exclusion ([sync.rs])

    The only state is [PSTATE]'s four mask bits, read and written as [DAIF],
    bits 6 to 9.  A guard is the state to put back; a locked value is a part of
    a larger state, reached through a getter and a setter. *)

From S2P Require Import Prelude.

(** What [mrs daif] can read, and the bits [daifset #0b0011] sets: I and F. *)
Definition DAIF_BITS : Z := 0x3c0.
Definition IRQ_FIQ : Z := 0xc0.

Section cpu.
Context {K : Type} (DAIF : K → Z) (set_DAIF : Z → K → K).

Definition disable_interrupts : M K Z :=
  daif ← gets DAIF; _ ← modify (set_DAIF (Z.lor daif IRQ_FIQ)); mret daif.
Definition restore_interrupts (state : Z) : M K unit := modify (set_DAIF (Z.land state DAIF_BITS)).
Definition enable_interrupts : M K unit := modify (λ k, set_DAIF (Z.ldiff (DAIF k) IRQ_FIQ) k).
Definition interrupts_masked : M K bool := gets (λ k, Z.testbit (DAIF k) 7).

Definition without_interrupts {R} (f : M K R) : M K R :=
  state ← disable_interrupts; result ← f; _ ← restore_interrupts state; mret result.

(** [lock], and the drop of the guard it returns. *)
Definition lock : M K Z := disable_interrupts.
Definition drop_guard (guard : Z) : M K unit := restore_interrupts guard.

(** A locked value used through its guard and the guard dropped. *)
Definition locked {T R} (get : K → T) (put : T → K → K) (f : M T R) : M K R :=
  guard ← lock; result ← zoom get put f; _ ← drop_guard guard; mret result.

(** [self_test], over the counters of its two statics.  What it reports is
    returned: the four looks at the mask, and the count read through the guard. *)
Context (PROBE OTHER : K → Z) (set_PROBE set_OTHER : Z → K → K).

Definition bump (get : K → Z) (set : Z → K → K) : M K unit :=
  v ← gets get; v ← lift (add32 v 1); modify (set v).

Definition self_test : M K (bool * bool * bool * bool * Z) :=
  entry_state ← disable_interrupts;
  _ ← enable_interrupts;
  unlocked ← interrupts_masked;
  guard ← lock;
  locked ← interrupts_masked;
  _ ← bump PROBE set_PROBE;
  inner ← lock;
  _ ← bump OTHER set_OTHER;
  _ ← drop_guard inner;
  nested_after_inner_drop ← interrupts_masked;
  counted ← gets PROBE;
  _ ← drop_guard guard;
  released ← interrupts_masked;
  _ ← restore_interrupts entry_state;
  _ ← assertM (negb unlocked) "interrupts should be unmasked outside a lock";
  _ ← assertM locked "lock must mask interrupts";
  _ ← assertM nested_after_inner_drop
        "dropping an inner guard must not unmask inside an outer critical section";
  _ ← assertM (negb released) "dropping the last guard must restore the previous state";
  mret (unlocked, locked, nested_after_inner_drop, released, counted).
End cpu.

(** ** Critical sections that nest *)

(** Guards live in scopes: a program takes one for a while, or looks whether
    interrupts are masked. *)
Inductive block : Type :=
  | Look
  | Guarded (body : list block).

Fixpoint run_block (b : block) : M Z (list bool) :=
  match b with
  | Look => m ← interrupts_masked id; mret [m]
  | Guarded body =>
    guard ← lock id (λ d _, d);
    seen ← (fix go (l : list block) : M Z (list bool) :=
              match l with
              | [] => mret []
              | b' :: l' => s ← run_block b'; s' ← go l'; mret (s ++ s')
              end) body;
    _ ← drop_guard (λ d _, d) guard;
    mret seen
  end.

(** What such a program should see: masked inside a guard, as before outside. *)
Fixpoint observe (masked : bool) (b : block) : list bool :=
  match b with
  | Look => [masked]
  | Guarded body => (fix go (l : list block) : list bool := match l with [] => [] | b' :: l' => observe true b' ++ go l' end) body
  end.

(** A value [mrs daif] can return. *)
Definition daif_ok (d : Z) : Prop := Z.land d DAIF_BITS = d.

Lemma daif_lor d : daif_ok d → daif_ok (Z.lor d IRQ_FIQ) ∧ Z.testbit (Z.lor d IRQ_FIQ) 7 = true.
Proof.
  intros Hd. split.
  - unfold daif_ok in *. rewrite Z.land_lor_distr_l, Hd. done.
  - rewrite Z.lor_spec. change (Z.testbit IRQ_FIQ 7) with true. apply orb_true_r.
Qed.

Lemma block_ind' (P : block → Prop) :
  P Look → (∀ body, Forall P body → P (Guarded body)) → ∀ b, P b.
Proof.
  intros HL HG. fix IH 1. intros [|body]; [done|]. apply HG.
  induction body as [|b l IHl]; constructor; [apply IH|apply IHl].
Qed.

Lemma run_block_nests b d :
  daif_ok d → run_block b d = Done (observe (Z.testbit d 7) b, d).
Proof.
  revert d. induction b as [|body IH] using block_ind'; intros d Hd; [done|].
  cbn [run_block observe]. unfold lock, disable_interrupts, drop_guard, restore_interrupts.
  unfold mbind, M_bind, gets, modify, mret, M_ret. cbn [id].
  destruct (daif_lor d Hd) as [Hd' Ht]. generalize dependent (Z.lor d IRQ_FIQ). intros d' Hd' Ht.
  assert (Hgo : (fix go (l : list block) : M Z (list bool) :=
      match l with [] => λ s, Done ([], s)
      | b' :: l' => λ s, match run_block b' s with
          | Done (s1, d1) => match go l' d1 with Done (s2, d2) => Done (s1 ++ s2, d2) | Panic w => Panic w end
          | Panic w => Panic w end
      end) body d' =
    Done ((fix go (l : list block) : list bool := match l with [] => [] | b' :: l' => observe true b' ++ go l' end) body, d')).
  { induction IH as [|b l Hb _ IHl]; [done|]. rewrite Hb, Ht by done. by rewrite IHl. }
  rewrite Hgo. by rewrite Hd.
Qed.

(** A guard ends with its scope whatever the scope did to the mask. *)
Lemma without_interrupts_exact {R} (f : M Z R) d :
  daif_ok d →
  without_interrupts id (λ d _, d) f d =
    match f (Z.lor d IRQ_FIQ) with Done (r, _) => Done (r, d) | Panic w => Panic w end.
Proof.
  intros Hd. unfold without_interrupts, disable_interrupts, restore_interrupts.
  unfold mbind, M_bind, gets, modify, mret, M_ret. cbn [id].
  destruct (f _) as [[r d']|]; [|done]. by rewrite Hd.
Qed.

(** The three fields the self test touches: the mask and its two counters. *)
Definition probe_self_test : M (Z * Z * Z) (bool * bool * bool * bool * Z) :=
  self_test (λ k, k.1.1) (λ d k, (d, k.1.2, k.2)) (λ k, k.1.2) (λ k, k.2)
    (λ p k, (k.1.1, p, k.2)) (λ o k, (k.1, o)).

Lemma probe_self_test_passes d p o :
  daif_ok d → p + 1 ≤ u32_max → o + 1 ≤ u32_max →
  probe_self_test (d, p, o) = Done ((false, true, true, false, p + 1), (d, p + 1, o + 1)).
Proof.
  intros Hd Hp Ho.
  set (e := Z.ldiff (Z.lor d IRQ_FIQ) IRQ_FIQ).
  assert (He : daif_ok e).
  { unfold daif_ok, e. apply Z.bits_inj'. intros i Hi.
    rewrite Z.land_spec, Z.ldiff_spec, Z.lor_spec.
    assert (Hb := f_equal (λ z, Z.testbit z i) Hd). cbn beta in Hb. rewrite Z.land_spec in Hb.
    destruct (Z.testbit d i), (Z.testbit DAIF_BITS i), (Z.testbit IRQ_FIQ i); done. }
  assert (He7 : Z.testbit e 7 = false).
  { unfold e. rewrite Z.ldiff_spec. change (Z.testbit IRQ_FIQ 7) with true. apply andb_false_r. }
  destruct (daif_lor e He) as [Hl Hl7].
  unfold probe_self_test, self_test, bump, lock, drop_guard, enable_interrupts, interrupts_masked,
    disable_interrupts, restore_interrupts, assertM, lift.
  unfold mbind, M_bind, gets, modify, mret, M_ret. cbn -[Z.lor Z.land Z.ldiff Z.testbit add32].
  fold e. rewrite (add32_ok p 1) by done. cbn -[Z.lor Z.land Z.ldiff Z.testbit add32].
  rewrite (add32_ok o 1) by done.
  cbn -[Z.lor Z.land Z.ldiff Z.testbit add32].
  rewrite !Hl, !He, Hl7, He7, Hd. reflexivity.
Qed.

(** C30: Critical sections nest: whatever mixture of guards a program takes, each
    look at the mask inside a guard finds interrupts masked, each look outside
    finds them as they were on entry, and the end finds the very state of the
    start; [without_interrupts] runs its body masked and puts the state back;
    the boot self test passes from every state, leaves the mask as it was, counts
    one on each of its counters and reports what it saw. *)
Theorem guards_nest d :
  daif_ok d →
  (∀ b, run_block b d = Done (observe (Z.testbit d 7) b, d)) ∧
  (∀ R (f : M Z R), without_interrupts id (λ d _, d) f d =
     match f (Z.lor d IRQ_FIQ) with Done (r, _) => Done (r, d) | Panic w => Panic w end) ∧
  (∀ p o, p + 1 ≤ u32_max → o + 1 ≤ u32_max →
     probe_self_test (d, p, o) = Done ((false, true, true, false, p + 1), (d, p + 1, o + 1))).
Proof.
  intros Hd. split_and!; [intros; by apply run_block_nests| |by intros; apply probe_self_test_passes].
  intros R f. by apply without_interrupts_exact.
Qed.

Lemma guards_nest_witness :
  run_block (Guarded [Look; Guarded [Look]; Look]) 0x300 = Done ([true; true; true], 0x300) ∧
  probe_self_test (0x300, 0, 0) = Done ((false, true, true, false, 1), (0x300, 1, 1)).
Proof.
  destruct (guards_nest 0x300 eq_refl) as (Hb & _ & Hs).
  split; [apply (Hb (Guarded [Look; Guarded [Look]; Look]))|apply Hs; by vm_compute].
Defined.
