(* ===== verification/Uart.v ===== *)
(** * Uart: the console ([uart.rs])

    The driver of the PL011 over the bus of [Devices], and the two ways to print:
    through the console lock of [Sync], and [emergency_print] before there is
    one.  Waiting for the device polls a flag, so it takes the number of polls it
    has the patience for.  Text arrives here as the bytes [core::fmt] hands to
    [write_str]; [Fmt] has the forms the kernel's messages use.

    An access is recorded with the address it has on the bus, so [phys_to_virt],
    which the driver applies to a register's address and [emergency_print] does
    not, is the identity here; [emergency_print] is called only while the low half
    is there ([Boot.say]). *)

From S2P Require Import Prelude Memory Devices Sync.

Definition PL011_BOOTSTRAP : Z := 0x09000000.

Definition DR : Z := 0x00.
Definition FR : Z := 0x18.
Definition IBRD : Z := 0x24.
Definition FBRD : Z := 0x28.
Definition LCR_H : Z := 0x2c.
Definition CR : Z := 0x30.
Definition IMSC : Z := 0x38.
Definition ICR : Z := 0x44.

Definition FR_BUSY : Z := Z.shiftl 1 3.
Definition FR_TXFF : Z := Z.shiftl 1 5.
Definition LCR_H_FEN : Z := Z.shiftl 1 4.
Definition LCR_H_WLEN_8 : Z := Z.shiftl 3 5.
Definition CR_UARTEN : Z := Z.shiftl 1 0.
Definition CR_TXE : Z := Z.shiftl 1 8.
Definition CR_RXE : Z := Z.shiftl 1 9.

(** The two statics, [BASE] and the base inside the locked [CONSOLE], with the
    bus they drive and the interrupt mask of the lock. *)
Record console : Type := mkConsole { BASE : Z; CONSOLE : Z; BUS : devices; DAIF : Z }.

Definition boot_console (d : devices) (daif : Z) : console := mkConsole PL011_BOOTSTRAP PL011_BOOTSTRAP d daif.

Definition set_BASE (b : Z) (k : console) : console := mkConsole b (CONSOLE k) (BUS k) (DAIF k).
Definition set_CONSOLE (u : Z) (k : console) : console := mkConsole (BASE k) u (BUS k) (DAIF k).
Definition set_BUS (d : devices) (k : console) : console := mkConsole (BASE k) (CONSOLE k) d (DAIF k).
Definition set_DAIF (v : Z) (k : console) : console := mkConsole (BASE k) (CONSOLE k) (BUS k) v.

Section uart.
Context (respond : list access → Z → Z → Z).

(** [Uart::read] and [Uart::write], at the address [reg] gives. *)
Definition uart_read (self offset : Z) : M devices Z :=
  a ← lift (add64 self offset); bus_read respond 4 a.
Definition uart_write (self offset value : Z) : M devices unit :=
  a ← lift (add64 self offset); bus_write 4 a value.

(** [while self.read(FR) & flag != 0]. *)
Fixpoint wait_flag (polls : nat) (self flag : Z) : M devices unit :=
  match polls with
  | O => panic "out of fuel"
  | S polls' => v ← uart_read self FR; if Z.land v flag =? 0 then mret tt else wait_flag polls' self flag
  end.

Definition uart_init (polls : nat) (self : Z) : M devices unit :=
  _ ← uart_write self CR 0;
  _ ← wait_flag polls self FR_BUSY;
  _ ← uart_write self IBRD 13;
  _ ← uart_write self FBRD 1;
  _ ← uart_write self LCR_H (Z.lor LCR_H_FEN LCR_H_WLEN_8);
  _ ← uart_write self IMSC 0;
  _ ← uart_write self ICR 0x7ff;
  uart_write self CR (Z.lor (Z.lor CR_UARTEN CR_TXE) CR_RXE).

Definition put_byte (polls : nat) (self byte : Z) : M devices unit :=
  _ ← wait_flag polls self FR_TXFF; uart_write self DR byte.

(** [<Uart as fmt::Write>::write_str]. *)
Definition uart_write_str (polls : nat) (self : Z) (s : list Z) : M devices unit :=
  forM s (λ byte,
    _ ← (if byte =? 10 then put_byte polls self 13 else mret tt);
    put_byte polls self byte).

(** ** The statics *)

Definition base : M console Z := gets BASE.
Definition bootstrap_base : Z := PL011_BOOTSTRAP.

Definition on_console {A} (op : Z → M devices A) : M console A :=
  u ← gets CONSOLE; zoom BUS set_BUS (op u).

Definition adopt (polls : nat) (base : Z) : M console unit :=
  _ ← modify (set_BASE base);
  guard ← lock DAIF set_DAIF;
  _ ← modify (set_CONSOLE base);
  _ ← on_console (uart_init polls);
  drop_guard set_DAIF guard.

Definition init (polls : nat) : M console unit :=
  guard ← lock DAIF set_DAIF; _ ← on_console (uart_init polls); drop_guard set_DAIF guard.

Definition write_str (polls : nat) (text : list Z) : M console unit :=
  guard ← lock DAIF set_DAIF;
  _ ← on_console (λ u, uart_write_str polls u text);
  drop_guard set_DAIF guard.

(** [raw_put] and [emergency_print], which asks for [base()] at every byte. *)
Definition raw_put (polls : nat) (base byte : Z) : M devices unit :=
  _ ← wait_flag polls base FR_TXFF; uart_write base DR byte.

Definition emergency_print (polls : nat) (message : list Z) : M console unit :=
  forM message (λ byte,
    _ ← (if byte =? 10 then b ← base; zoom BUS set_BUS (raw_put polls b 13) else mret tt);
    b ← base; zoom BUS set_BUS (raw_put polls b byte)).

(** ** What goes over the line *)

Definition W (self o v : Z) : access := Write 4 (self + o) v.
Definition flags (self : Z) (h : list access) : Z := respond h 4 (self + FR) mod 2 ^ 32.
Definition look (self : Z) (h : list access) : access := Read 4 (self + FR) (flags self h).

(** The text as a terminal wants it. *)
Definition crlf (s : list Z) : list Z := s ≫= λ byte, if byte =? 10 then [13; 10] else [byte].

(** From the history [h] the bytes go out in order and the history becomes [h']:
    every byte right after a look that found the FIFO with room, and nothing but
    looks in between. *)
Inductive sends (self : Z) : list access → list Z → list access → Prop :=
  | sends_nothing h : sends self h [] h
  | sends_wait h b bs h' :
      Z.land (flags self h) FR_TXFF ≠ 0 → sends self (h ++ [look self h]) (b :: bs) h' → sends self h (b :: bs) h'
  | sends_byte h b bs h' :
      Z.land (flags self h) FR_TXFF = 0 → sends self (h ++ [look self h; W self DR b]) bs h' →
      sends self h (b :: bs) h'.

(** The device clears a flag within [polls] looks, whatever happened before. *)
Fixpoint clears_in (n : nat) (self flag : Z) (h : list access) : Prop :=
  Z.land (flags self h) flag = 0 ∨
  match n with O => False | S n' => clears_in n' self flag (h ++ [look self h]) end.
Definition patient (polls : nat) (self flag : Z) : Prop :=
  match polls with O => False | S n => ∀ h, clears_in n self flag h end.

Definition uart_ok (self : Z) : Prop := 0 ≤ self ∧ self + 0x1000 ≤ u64_max.

Lemma wp_uart_write self o v d Q :
  uart_ok self → 0 ≤ o < 0x1000 → Q tt (set_trace (trace d ++ [W self o v]) d) → wp (uart_write self o v) d Q.
Proof.
  intros [? ?] Ho HQ. unfold uart_write. apply wp_bind. eapply wp_lift; [apply add64_ok; lia|]. by apply wp_modify.
Qed.

Lemma wp_uart_look self d Q :
  uart_ok self → Q (flags self (trace d)) (set_trace (trace d ++ [look self (trace d)]) d) →
  wp (uart_read self FR) d Q.
Proof.
  intros [? ?] HQ. unfold uart_read. apply wp_bind.
  by eapply wp_lift; [apply add64_ok; unfold FR; lia|].
Qed.

(** Only looks that found the flag up, and a last one that found it down. *)
Inductive waits (self flag : Z) : list access → list access → Prop :=
  | waits_done h : Z.land (flags self h) flag = 0 → waits self flag h (h ++ [look self h])
  | waits_more h h' : Z.land (flags self h) flag ≠ 0 → waits self flag (h ++ [look self h]) h' → waits self flag h h'.

Lemma wp_wait_flag n self flag d Q :
  uart_ok self → clears_in n self flag (trace d) →
  (∀ h', waits self flag (trace d) h' → Q tt (set_trace h' d)) →
  wp (wait_flag (S n) self flag) d Q.
Proof.
  intros Hu. revert d. induction n as [|n IH]; intros d Hc HQ; cbn [wait_flag].
  - apply wp_bind, wp_uart_look; [done|]. destruct Hc as [Hc|[]]. rewrite Hc. by apply HQ, waits_done.
  - apply wp_bind, wp_uart_look; [done|]. destruct (Z.eqb_spec (Z.land (flags self (trace d)) flag) 0) as [Hc0|Hc0].
    + by apply HQ, waits_done.
    + destruct Hc as [Hc|Hc]; [done|]. apply IH; [by destruct d|]. intros h' Hw.
      change (trace (set_trace (trace d ++ [look self (trace d)]) d)) with (trace d ++ [look self (trace d)]) in Hw.
      replace (set_trace h' (set_trace (trace d ++ [look self (trace d)]) d)) with (set_trace h' d) by by destruct d.
      by apply HQ, waits_more.
Qed.

Lemma sends_waited self h h1 b bs h' :
  waits self FR_TXFF h h1 → sends self (h1 ++ [W self DR b]) bs h' → sends self h (b :: bs) h'.
Proof.
  induction 1 as [h Hf|h h1 Hf _ IH]; intros Hs.
  - apply sends_byte; [done|]. by rewrite <-app_assoc in Hs.
  - apply sends_wait; [done|]. by apply IH.
Qed.

Lemma sends_app self h bs h1 cs h2 : sends self h bs h1 → sends self h1 cs h2 → sends self h (bs ++ cs) h2.
Proof. induction 1; intros Hs; cbn [app]; eauto using sends_wait, sends_byte. Qed.

Lemma sends_det self h bs h1 h2 : sends self h bs h1 → sends self h bs h2 → h1 = h2.
Proof.
  intros H1. revert h2. induction H1 as [h|h b bs h1 Hf _ IH|h b bs h1 Hf _ IH]; intros h2 H2;
    inversion H2; subst; try done; by apply IH.
Qed.

Context (polls : nat).

Lemma wp_patient_wait self flag d Q :
  uart_ok self → patient polls self flag →
  (∀ h', waits self flag (trace d) h' → Q tt (set_trace h' d)) → wp (wait_flag polls self flag) d Q.
Proof.
  intros Hu Hp HQ. unfold patient in Hp. destruct polls as [|n]; [done|]. by apply wp_wait_flag.
Qed.

Lemma wp_put_byte self b d Q :
  uart_ok self → patient polls self FR_TXFF →
  (∀ h', sends self (trace d) [b] h' → Q tt (set_trace h' d)) → wp (put_byte polls self b) d Q.
Proof.
  intros Hu Hp HQ. unfold put_byte. apply wp_bind, wp_patient_wait; [done|done|]. intros h' Hw.
  apply wp_uart_write; [done|unfold DR; lia|].
  replace (set_trace (trace (set_trace h' d) ++ [W self DR b]) (set_trace h' d))
    with (set_trace (h' ++ [W self DR b]) d) by by destruct d.
  apply HQ. eapply sends_waited; [done|]. apply sends_nothing.
Qed.

(** One character of a text, as both ways of printing send it. *)
Lemma wp_put_char self b d Q :
  uart_ok self → patient polls self FR_TXFF →
  (∀ h', sends self (trace d) (crlf [b]) h' → Q tt (set_trace h' d)) →
  wp (_ ← (if b =? 10 then put_byte polls self 13 else mret tt); put_byte polls self b) d Q.
Proof.
  intros Hu Hp HQ. unfold crlf in HQ. cbn [mbind list_bind app] in HQ.
  destruct (Z.eqb_spec b 10) as [->|].
  - apply wp_bind, wp_put_byte; [done|done|]. intros h1 H1. apply wp_put_byte; [done|done|]. intros h2 H2.
    replace (set_trace h2 (set_trace h1 d)) with (set_trace h2 d) by by destruct d.
    apply HQ. by apply (sends_app _ _ [13] h1 [10]).
  - apply wp_bind, wp_ret, wp_put_byte; [done|done|]. exact HQ.
Qed.

Lemma crlf_app s t : crlf (s ++ t) = crlf s ++ crlf t.
Proof. unfold crlf. apply bind_app. Qed.

Lemma wp_uart_write_str self s d Q :
  uart_ok self → patient polls self FR_TXFF →
  (∀ h', sends self (trace d) (crlf s) h' → Q tt (set_trace h' d)) → wp (uart_write_str polls self s) d Q.
Proof.
  intros Hu Hp. revert d. induction s as [|b s IH]; intros d HQ.
  - apply wp_ret. replace d with (set_trace (trace d) d) by by destruct d. apply HQ, sends_nothing.
  - unfold uart_write_str. cbn [forM]. apply wp_bind, wp_put_char; [done|done|]. intros h1 H1.
    apply IH. intros h2 H2. replace (set_trace h2 (set_trace h1 d)) with (set_trace h2 d) by by destruct d.
    apply HQ. change (b :: s) with ([b] ++ s). rewrite crlf_app. eapply sends_app; [done|]. by destruct d.
Qed.

Lemma wp_on_console {A} (op : Z → M devices A) k Q :
  wp (op (CONSOLE k)) (BUS k) (λ a d, Q a (set_BUS d k)) → wp (on_console op) k Q.
Proof. intros Hw. unfold on_console. by apply wp_bind, wp_gets, wp_zoom. Qed.

(** A critical section of the console: its body runs masked, and its end puts
    the mask back. *)
Lemma wp_console_section (op : M console unit) k Q :
  daif_ok (DAIF k) →
  wp op (set_DAIF (Z.lor (DAIF k) IRQ_FIQ) k) (λ _ k', Q tt (set_DAIF (DAIF k) k')) →
  wp (guard ← lock DAIF set_DAIF; _ ← op; drop_guard set_DAIF guard) k Q.
Proof.
  intros Hd Hw. unfold lock, disable_interrupts, drop_guard, restore_interrupts.
  apply wp_bind, wp_bind, wp_gets, wp_bind, wp_modify, wp_ret, wp_bind.
  eapply wp_mono; [exact Hw|]. intros [] k' HQ. apply wp_modify. by rewrite Hd.
Qed.

Lemma wp_emergency_print s k Q :
  uart_ok (BASE k) → patient polls (BASE k) FR_TXFF →
  (∀ h', sends (BASE k) (trace (BUS k)) (crlf s) h' → Q tt (set_BUS (set_trace h' (BUS k)) k)) →
  wp (emergency_print polls s) k Q.
Proof.
  revert k. induction s as [|b s IH]; intros k Hu Hp HQ.
  - apply wp_ret. replace k with (set_BUS (set_trace (trace (BUS k)) (BUS k)) k) by by destruct k as [? ? []].
    apply HQ, sends_nothing.
  - unfold emergency_print. cbn [forM].
    assert (Hone : ∀ P, (∀ h', sends (BASE k) (trace (BUS k)) (crlf [b]) h' → P tt (set_BUS (set_trace h' (BUS k)) k)) →
      wp (_ ← (if b =? 10 then b ← base; zoom BUS set_BUS (raw_put polls b 13) else mret tt);
          u ← base; zoom BUS set_BUS (raw_put polls u b)) k P).
    { intros P HP. unfold crlf in HP. cbn [mbind list_bind app] in HP.
      change raw_put with put_byte. destruct (Z.eqb_spec b 10) as [->|].
      - apply wp_bind, wp_bind, wp_gets, wp_zoom, wp_put_byte; [done|done|]. intros h1 H1.
        apply wp_bind, wp_gets, wp_zoom, wp_put_byte; [done|done|]. intros h2 H2.
        replace (set_BUS _ _) with (set_BUS (set_trace h2 (BUS k)) k) by by destruct k as [? ? []].
        apply HP. apply (sends_app _ _ [13] h1 [10]); [exact H1|]. by destruct k as [? ? []].
      - apply wp_bind, wp_ret, wp_bind, wp_gets, wp_zoom, wp_put_byte; [done|done|]. exact HP. }
    apply wp_bind, Hone. intros h1 H1. apply IH; [done|done|]. intros h2 H2. cbn [set_BUS BUS] in *.
    replace (set_BUS (set_trace h2 (set_trace h1 (BUS k))) (set_BUS (set_trace h1 (BUS k)) k))
      with (set_BUS (set_trace h2 (BUS k)) k) by by destruct k as [? ? []].
    apply HQ. change (b :: s) with ([b] ++ s). rewrite crlf_app. eapply sends_app; [exact H1|].
    by destruct k as [? ? []].
Qed.

Lemma wp_uart_init self d Q :
  uart_ok self → patient polls self FR_BUSY →
  (∀ h', waits self FR_BUSY (trace d ++ [W self CR 0]) h' →
     Q tt (set_trace (h' ++ [W self IBRD 13; W self FBRD 1; W self LCR_H 0x70; W self IMSC 0;
                             W self ICR 0x7ff; W self CR 0x301]) d)) →
  wp (uart_init polls self) d Q.
Proof.
  intros Hu Hp HQ. unfold uart_init. apply wp_bind, wp_uart_write; [done|unfold CR; lia|].
  apply wp_bind, wp_patient_wait; [done|done|]. intros h' Hw.
  do 5 (apply wp_bind, wp_uart_write; [done|done|]). apply wp_uart_write; [done|done|].
  assert (Hw' : waits self FR_BUSY (trace d ++ [W self CR 0]) h') by by destruct d.
  specialize (HQ h' Hw'). clear -HQ. destruct d as [gd gc tr cv ct]. cbn [set_trace trace] in *.
  rewrite <-!app_assoc. exact HQ.
Qed.
End uart.

(** C29: Printing through the console lock ends, with a device that makes room
    within the polls allowed, having sent exactly the bytes of the text with a
    carriage return before every line feed, in order, each written right after a
    look that found room, and with the interrupt mask and the statics as they
    were; [emergency_print] sends the very same when it drives the same device;
    adopting an address moves both statics, turns the device off before waiting
    for it to fall silent and on again only after it is configured. *)
Theorem console_output respond polls k text :
  daif_ok (DAIF k) → uart_ok (CONSOLE k) → patient respond polls (CONSOLE k) FR_TXFF →
  wp (write_str respond polls text) k (λ _ k', ∃ h,
    sends respond (CONSOLE k) (trace (BUS k)) (crlf text) h ∧ k' = set_BUS (set_trace h (BUS k)) k) ∧
  (BASE k = CONSOLE k → emergency_print respond polls text k = write_str respond polls text k) ∧
  (∀ b, uart_ok b → patient respond polls b FR_BUSY →
     wp (adopt respond polls b) k (λ _ k', ∃ h,
       waits respond b FR_BUSY (trace (BUS k) ++ [W b CR 0]) h ∧
       k' = mkConsole b b (set_trace (h ++ [W b IBRD 13; W b FBRD 1; W b LCR_H 0x70; W b IMSC 0;
                                            W b ICR 0x7ff; W b CR 0x301]) (BUS k)) (DAIF k))).
Proof.
  intros Hd Hu Hp.
  assert (Hw : wp (write_str respond polls text) k (λ _ k', ∃ h,
    sends respond (CONSOLE k) (trace (BUS k)) (crlf text) h ∧ k' = set_BUS (set_trace h (BUS k)) k)).
  { apply wp_console_section; [done|]. apply wp_on_console, wp_uart_write_str; [done|done|].
    intros h Hh. exists h. split; [exact Hh|by destruct k]. }
  split; [done|]. split.
  - intros He. apply wp_elim in Hw as ([] & k1 & -> & h & Hh & ->).
    assert (Hx : wp (emergency_print respond polls text) k (λ _ k', k' = set_BUS (set_trace h (BUS k)) k)).
    { apply wp_emergency_print; [congruence..|]. intros h2 H2. rewrite He in H2.
      by rewrite (sends_det _ _ _ _ _ _ Hh H2). }
    by apply wp_elim in Hx as ([] & k2 & -> & ->).
  - intros b Hb Hpb. unfold adopt, lock, disable_interrupts, drop_guard, restore_interrupts.
    apply wp_bind, wp_modify, wp_bind, wp_bind, wp_gets, wp_bind, wp_modify, wp_ret.
    apply wp_bind, wp_modify, wp_bind, wp_on_console, wp_uart_init; [done|done|]. intros h Hh.
    apply wp_modify. exists h. split; [exact Hh|]. destruct k as [ba co bu da].
    unfold daif_ok in Hd. cbn in *. by rewrite Hd.
Qed.

(** A device that always has room and is never busy. *)
Lemma idle_device_patient self flag : Z.land 0x10 flag = 0 → patient (λ _ _ _, 0x10) 1 self flag.
Proof. intros H h. left. unfold flags. by rewrite Z.mod_small by lia. Qed.

Definition quiet_console : console := boot_console (mkDevices 0 0 [] 0 0) 0.

Lemma console_output_witness :
  crlf [104; 105; 10] = [104; 105; 13; 10] ∧
  wp (write_str (λ _ _ _, 0x10) 1 [104; 105; 10]) quiet_console (λ _ k', ∃ h,
    sends (λ _ _ _, 0x10) (CONSOLE quiet_console) (trace (BUS quiet_console)) (crlf [104; 105; 10]) h ∧
    k' = set_BUS (set_trace h (BUS quiet_console)) quiet_console).
Proof.
  split; [reflexivity|].
  refine (proj1 (console_output (λ _ _ _, 0x10) 1 quiet_console [104; 105; 10] _ _ _)).
  - reflexivity.
  - split; vm_compute; discriminate.
  - apply idle_device_patient. reflexivity.
Defined.
