(* ===== verification/Boot.v ===== *)
(** * Boot: bringing the machine up ([main.rs], discovery in [virtio.rs])

    Boot is where the components meet: the allocator, the translation tables and
    memory are the [machine] of [Frames]; the console, the interrupt controller
    and every other device are on the bus of [Uart]; the device tree is read
    through the physical map.  The self tests of [virtio.rs] and [virtqueue.rs],
    which need all of them, are here too, and what all of this prints.
    [KernelMain] puts the pieces in order. *)

From S2P Require Import Prelude Memory FrameAlloc Frames FramesSpec FramesBoot Paging Devices Sync Uart Fmt Virtio Virtqueue Fdt.

Record system : Type := mkSystem {
  mach : machine;
  con : console;
  BLOB : option Blob;
  TRANSPORTS : list (option Transport);
  SLOTS_SEEN : Z
}.

Definition set_mach (m : machine) (s : system) : system := mkSystem m (con s) (BLOB s) (TRANSPORTS s) (SLOTS_SEEN s).
Definition set_con (c : console) (s : system) : system := mkSystem (mach s) c (BLOB s) (TRANSPORTS s) (SLOTS_SEEN s).
Definition set_BLOB (b : option Blob) (s : system) : system :=
  mkSystem (mach s) (con s) b (TRANSPORTS s) (SLOTS_SEEN s).
Definition set_transports (t : list (option Transport)) (slots : Z) (s : system) : system :=
  mkSystem (mach s) (con s) (BLOB s) t slots.

Definition no_transports : list (option Transport) := replicate (Z.to_nat MAX_TRANSPORTS) None.

(** The machine at reset, its memory as the firmware left it. *)
Definition reset_system (mm : mem) (d : devices) (daif : Z) : system :=
  mkSystem (Frames.reset mm) (boot_console d daif) None no_transports 0.

Definition on_machine {A} (op : M machine A) : M system A := zoom mach set_mach op.
Definition on_con {A} (op : M console A) : M system A := zoom con set_con op.
Definition on_devices {A} (op : M devices A) : M system A := on_con (zoom BUS set_BUS op).

(** Memory as the kernel sees it once it runs in the high half. *)
Definition high_view (m : machine) : mem := λ va, memory m (va - KERNEL_BASE).
Definition ask {A} (q : mem → res A) : M system A := s ← getS; lift (q (high_view (mach s))).

(** ** The memory map *)

(** [{:?}] of a [ReserveError]. *)
Definition debug (e : ReserveError) : list Z :=
  match e with
  | Frames.OutsideRam a => bytes_of "OutsideRam(" ++ dec a ++ bytes_of ")"
  | Frames.AlreadyTaken a => bytes_of "AlreadyTaken(" ++ dec a ++ bytes_of ")"
  end.

(** The loop over [map.reserved()]; [log] is what has been printed. *)
Fixpoint reserve_all (l : list (Z * Z)) (reserved : Z) (log : list Z) : M machine (Z * list Z) :=
  match l with
  | [] => mret (reserved, log)
  | (base, size) :: l' =>
    r ← reserve_range base size;
    match r with
    | Ok frames => reserved ← lift (add64 reserved frames); reserve_all l' reserved log
    | Err error => reserve_all l' reserved (log ++
        ln (bytes_of "  WARNING       : " ++ hex base ++ bytes_of " not reserved (" ++ debug error ++ bytes_of ")"))
    end
  end.

Definition adopted (outcome : Result Z ReserveError) : list Z :=
  match outcome with
  | Ok change =>
    if change =? 0 then line "  frames        : the guess was right"
    else if 0 <? change then ln (bytes_of "  frames        : " ++ dec change ++ bytes_of " more than guessed")
    else ln (bytes_of "  frames        : " ++ dec (- change) ++ bytes_of " fewer than guessed")
  | Err error => ln (bytes_of "  WARNING       : cannot use this map (" ++ debug error ++ bytes_of ")")
  end.

(** [adopt_memory_map], with the kernel's root table.  What it prints is returned
    for the caller to print, all at once. *)
Definition adopt_memory_map (root : Z) (blob : Blob) : M machine (list Z) :=
  m ← getS;
  map ← lift (memory_map (high_view m) blob);
  if map_size map =? 0 then mret (line "  memory        : no /memory node, keeping the guess") else
  let log := if 1 <? banks map
    then ln (bytes_of "  WARNING       : " ++ dec (banks map) ++ bytes_of " memory banks, using the first") else [] in
  m ← getS;
  old_end ← lift (add64 (Frames.ram_base m) (Frames.ram_size m));
  new_end ← lift (add64 (map_base map) (Z.min (map_size map) MAX_RAM));
  _ ← extend_physical_map root old_end new_end;
  outcome ← Frames.adopt (map_base map) (map_size map);
  m ← getS;
  let log := log ++ ln (bytes_of "  memory        : " ++ dec (Frames.ram_size m / 1024 / 1024) ++
    bytes_of " MiB at " ++ hex (Frames.ram_base m) ++ bytes_of ", from the tree") ++ adopted outcome in
  '(reserved, log) ← reserve_all (reserved map) 0 log;
  let log := log ++ if 0 <? dropped map
    then ln (bytes_of "  WARNING       : " ++ dec (dropped map) ++ bytes_of " reserved regions did not fit") else [] in
  first ← is_taken (blob_pa blob);
  _ ← assertM first "the device tree was not reserved";
  last ← lift (add64 (blob_pa blob) (totalsize (Fdt.header blob)));
  last ← lift (sub64 last 1);
  last ← is_taken last;
  _ ← assertM last "the end of the device tree was not reserved";
  mret (log ++ ln (bytes_of "  reserved      : " ++ dec reserved ++ bytes_of " frames, blob included")).

(** ** Devices from the tree *)

Section devices.
Context (respond : list access → Z → Z → Z) (polls : nat) (root : Z).

(** [windows[i]]. *)
Definition window (l : list Region) (i : nat) : M system Region :=
  expectM (l !! i) "index out of bounds".

(** [print!]: the whole text under one lock. *)
Definition print (text : list Z) : M system unit := on_con (write_str respond polls text).

Definition discover_devices (blob : Blob) : M system unit :=
  node ← ask (λ m, find_compatible m blob (bytes_of "arm,pl011"));
  _ ← (match node with
       | Some node =>
         windows ← ask (λ m, regions m blob node 4);
         _ ← assertM (1 <=? Z.of_nat (length windows)) "the pl011 node has no reg";
         uart ← window windows 0;
         _ ← on_machine (map_device root (Fdt.base uart) (Fdt.size uart));
         _ ← on_con (Uart.adopt respond polls (Fdt.base uart));
         now ← on_con Uart.base;
         print (ln (bytes_of "  console       : " ++ hex0 12 now ++ bytes_of " + " ++ hex (Fdt.size uart) ++
           bytes_of (if Fdt.base uart =? bootstrap_base then ", where we were already talking" else ", moved")))
       | None => print (line "  WARNING       : no pl011 in the tree, staying on the constant")
       end);
  node ← ask (λ m, find_compatible m blob (bytes_of "arm,cortex-a15-gic"));
  match node with
  | Some node =>
    windows ← ask (λ m, regions m blob node 4);
    _ ← assertM (2 <=? Z.of_nat (length windows))
          "the gic node needs two reg entries: distributor and cpu interface";
    distributor ← window windows 0;
    cpu ← window windows 1;
    _ ← assertM (negb (Fdt.base distributor =? Fdt.base cpu))
          "distributor and cpu interface cannot be the same window";
    _ ← on_machine (map_device root (Fdt.base distributor) (Fdt.size distributor));
    _ ← on_machine (map_device root (Fdt.base cpu) (Fdt.size cpu));
    _ ← on_devices (gic_adopt (Fdt.base distributor) (Fdt.base cpu));
    let '(boot_distributor, boot_cpu) := bootstrap_bases in
    let agreed := (Fdt.base distributor =? boot_distributor) && (Fdt.base cpu =? boot_cpu) in
    s ← getS;
    let '(live_distributor, live_cpu) := bases (BUS (con s)) in
    print (ln (bytes_of "  interrupts    : dist " ++ hex0 12 live_distributor ++ bytes_of " cpu " ++ hex0 12 live_cpu ++
      bytes_of (if agreed : bool then ", as assumed" else ", moved")))
  | None => print (line "  WARNING       : no gic in the tree, staying on the constants")
  end.

(** ** Finding virtio transports ([virtio.rs]) *)

(** The interrupt of a node, from the cells of its [interrupts] property. *)
Definition transport_intid (interrupts : list Z) : res (option Z) :=
  match be_bytes <$> get_range interrupts 0 4, be_bytes <$> get_range interrupts 4 8 with
  | Some kind, Some number =>
    if kind =? 0 then intid ← add32 number 32; some intid
    else if kind =? 1 then intid ← add32 number 16; some intid
    else none
  | _, _ => none
  end.

(** [probe] once the window is mapped and the interrupt is known. *)
Definition probe_window (base intid : Z) : M devices (Result Transport Virtio.Error) :=
  let transport := mkTransport base intid 0 0 in
  magic ← t_read respond transport MAGIC_VALUE;
  if negb (magic =? Virtio.MAGIC) then mret (Err (NotVirtio magic)) else
  version ← t_read respond transport VERSION_REG;
  if negb (version =? VERSION) then mret (Err (WrongVersion version)) else
  device_id ← t_read respond transport DEVICE_ID;
  features ← device_features respond transport;
  mret (Ok (mkTransport base intid device_id features)).

Definition probe (blob : Blob) (node : Node) : M system (option (Result Transport Virtio.Error)) :=
  windows ← ask (λ m, regions m blob node 1);
  match windows with
  | [] => mret None
  | window :: _ =>
    _ ← on_machine (map_device root (Fdt.base window) (Fdt.size window));
    interrupts ← ask (λ m, property m blob node (bytes_of "interrupts"));
    match interrupts with
    | None => mret None
    | Some interrupts =>
      intid ← lift (transport_intid interrupts);
      match intid with
      | None => mret None
      | Some intid => r ← on_devices (probe_window (Fdt.base window) intid); mret (Some r)
      end
    end
  end.

(** What [discover] does with the answer of [probe]. *)
Definition record (r : option (Result Transport Virtio.Error)) (table : list (option Transport)) (occupied : Z)
    : list (option Transport) * Z :=
  match r with
  | Some (Ok transport) =>
    if device_id transport =? 0 then (table, occupied) else
    if occupied <? MAX_TRANSPORTS then (<[Z.to_nat occupied := Some transport]> table, occupied + 1)
    else (table, occupied)
  | _ => (table, occupied)
  end.

(** [{:?}] of an [Error], and the line [discover] prints for one. *)
Definition debug_error (e : Virtio.Error) : list Z :=
  match e with
  | NotVirtio n => bytes_of "NotVirtio(" ++ dec n ++ bytes_of ")"
  | WrongVersion n => bytes_of "WrongVersion(" ++ dec n ++ bytes_of ")"
  | Legacy => bytes_of "Legacy"
  | FeaturesRefused => bytes_of "FeaturesRefused"
  end.
Definition refusal (node : Node) (error : Virtio.Error) : list Z :=
  ln (bytes_of "virtio: " ++ hex (Fdt.offset node) ++ bytes_of " refused (" ++ debug_error error ++ bytes_of ")").
Definition tell (node : Node) (r : option (Result Transport Virtio.Error)) : M system unit :=
  match r with Some (Err error) => print (refusal node error) | _ => mret tt end.

(** The [while let]: it ends by itself after [MAX_TRANSPORTS] slots. *)
Fixpoint discover_loop (fuel : nat) (blob : Blob) (offset slots occupied : Z) (table : list (option Transport))
    : M system (list (option Transport) * Z * Z) :=
  match fuel with
  | O => panic "out of fuel"
  | S fuel' =>
    node ← ask (λ m, find_compatible_after m blob (bytes_of "virtio,mmio") offset);
    match node with
    | None => mret (table, slots, occupied)
    | Some node =>
      slots ← lift (add64 slots 1);
      r ← probe blob node;
      _ ← tell node r;
      let '(table, occupied) := record r table occupied in
      if slots =? MAX_TRANSPORTS then mret (table, slots, occupied)
      else discover_loop fuel' blob (Fdt.offset node) slots occupied table
    end
  end.

Definition discover (blob : Blob) : M system (Z * Z) :=
  '(table, slots, occupied) ← discover_loop (Z.to_nat MAX_TRANSPORTS) blob 0 0 0 no_transports;
  _ ← modify (set_transports table slots);
  mret (slots, occupied).

Definition transports : M system (list (option Transport)) := gets TRANSPORTS.

(** [into_iter().flatten()]. *)
Definition present (l : list (option Transport)) : list Transport := omap id l.

Definition find (id : Z) : M system (option Transport) :=
  l ← transports; mret (List.find (λ t, device_id t =? id) (present l)).

(** [virtio::self_test]: the handshake of every transport found. *)
Definition test_transport (previous_intid : Z) (transport : Transport) : M system Z :=
  magic ← on_devices (t_read respond transport MAGIC_VALUE);
  _ ← assertM (magic =? Virtio.MAGIC) "transport lost its magic";
  version ← on_devices (t_read respond transport VERSION_REG);
  _ ← assertM (version =? VERSION) "assertion failed";
  _ ← assertM (negb (device_id transport =? 0)) "an empty slot was recorded";
  _ ← assertM (32 <=? intid transport) "intid is not an SPI";
  lines ← on_devices (num_interrupts respond);
  _ ← assertM (intid transport <? lines) "assertion failed";
  _ ← assertM (negb (intid transport =? previous_intid)) "assertion failed";
  agreed ← on_devices (negotiate respond polls transport 0);
  agreed ← (match agreed with
            | Ok a => mret a
            | Err _ => panic "device would not agree to the bare specification"
            end);
  _ ← assertM (Z.land agreed VIRTIO_F_VERSION_1 =? VIRTIO_F_VERSION_1)
        "a version 2 transport must speak the non-legacy specification";
  s ← on_devices (status respond transport);
  _ ← assertM (Z.land s STATUS_FEATURES_OK =? STATUS_FEATURES_OK) "the device dropped FEATURES_OK";
  _ ← on_devices (Virtio.reset respond polls transport);
  s ← on_devices (status respond transport);
  _ ← assertM (s =? 0) "reset did not take";
  mret (intid transport).

Fixpoint test_transports (previous_intid : Z) (l : list Transport) : M system unit :=
  match l with
  | [] => mret tt
  | t :: l' => previous_intid ← test_transport previous_intid t; test_transports previous_intid l'
  end.

Definition virtio_self_test : M system unit :=
  _ ← print (bytes_of "virtio self test: ");
  l ← transports;
  _ ← assertM (0 <? Z.of_nat (length (present l)))
        "no virtio devices; the runner is supposed to attach one";
  _ ← test_transports 0 (present l);
  let negotiated := Z.of_nat (length (present l)) in
  print (ln (bytes_of "passed, " ++ dec negotiated ++
    bytes_of (if negotiated =? 1 then " device agreed on features and was reset"
              else " devices agreed on features and were reset"))).

(** ** [virtqueue::self_test] *)

(** Memory and the bus, for what a queue does to both. *)
Definition on_dma {A} (op : M (machine * devices) A) : M system A :=
  zoom (λ s, (mach s, BUS (con s))) (λ p s, set_mach p.1 (set_con (set_BUS p.2 (con s)) s)) op.

(** A method of a queue, which the test owns. *)
Definition on_queue {A} (q : Queue) (op : M vq A) : M system (A * Queue) := λ s,
  match op (mkVq q (memory (mach s))) with
  | Done (a, v) => Done ((a, queue v), set_mach (set_memory (ram v) (mach s)) s)
  | Panic w => Panic w
  end.

(** The device works while the test polls: what it does to memory is given by
    the history of the bus. *)
Context (dma : list access → mem → mem).

Definition device_works : M system unit :=
  modify (λ s, set_mach (set_memory (dma (trace (BUS (con s))) (memory (mach s))) (mach s)) s).

(** The polling [loop]: the assertion fails at the ten millionth spin. *)
Fixpoint await_used (spins : nat) (q : Queue) : M system (Z * Z * Queue) :=
  match spins with
  | O => panic "the device never answered"
  | S spins' =>
    _ ← device_works;
    '(r, q) ← on_queue q take_used;
    match r with
    | Some (head, written) => mret (head, written, q)
    | None => await_used spins' q
    end
  end.

Definition virtqueue_self_test (spins : nat) : M system unit :=
  _ ← print (bytes_of "virtqueue self test: ");
  transport ← find DEVICE_ENTROPY;
  transport ← expectM transport "no entropy device attached";
  agreed ← on_devices (negotiate respond polls transport 0);
  _ ← (match agreed with
       | Ok _ => mret tt
       | Err _ => panic "entropy device would not agree on features"
       end);
  r ← on_dma (queue_new respond transport 0);
  q ← (match r with Ok q => mret q | Err _ => panic "could not build queue 0" end);
  _ ← assertM (free_count q =? QUEUE_SIZE) "assertion failed";
  _ ← on_devices (set_driver_ok respond transport);
  buffer ← on_machine Frames.alloc;
  buffer ← expectM buffer "no memory for a buffer";
  let sample := 16 in
  '(r, q) ← on_queue q (Virtqueue.add [mkBuffer buffer sample true]);
  head ← (match r with Ok h => mret h | Err _ => panic "could not queue the request" end);
  _ ← assertM (head =? 0) "the first request should take the first descriptor";
  _ ← assertM (free_count q =? QUEUE_SIZE - 1) "assertion failed";
  _ ← on_devices (notify transport 0);
  '(used_head, written, q) ← await_used spins q;
  _ ← assertM (used_head =? head) "a different request came back";
  _ ← assertM ((0 <? written) && (written <=? sample)) "assertion failed";
  _ ← assertM (free_count q =? QUEUE_SIZE) "assertion failed";
  s ← getS;
  let nonzero := filter (λ offset, memory (mach s) (buffer + offset) ≠ 0) (range 0 written) in
  _ ← assertM (0 <? Z.of_nat (length nonzero)) "the device reported bytes and wrote none";
  _ ← on_devices (ack_interrupt respond transport);
  _ ← on_dma (release q transport 0);
  _ ← on_devices (Virtio.reset respond polls transport);
  _ ← on_machine (Frames.free buffer);
  print (ln (bytes_of "passed, " ++ dec written ++ bytes_of " bytes arrived by DMA, " ++
    dec (Z.of_nat (length nonzero)) ++ bytes_of " of them not zero")).

(** ** The banner *)

(** [fdt::print_info]. *)
Definition print_info (blob : Blob) : M system unit :=
  let h := Fdt.header blob in
  forM [
    line "device tree:";
    ln (bytes_of "  address       : " ++ hex0 18 (blob_pa blob) ++ bytes_of " physical");
    ln (bytes_of "  total size    : " ++ dec (totalsize h) ++ bytes_of " bytes (" ++ hex (totalsize h) ++ bytes_of ")");
    ln (bytes_of "  version       : " ++ dec (version h) ++ bytes_of " (readable back to " ++
        dec (last_comp_version h) ++ bytes_of ")");
    ln (bytes_of "  struct block  : " ++ hex (off_dt_struct h) ++ bytes_of " + " ++ hex (size_dt_struct h));
    ln (bytes_of "  strings block : " ++ hex (off_dt_strings h) ++ bytes_of " + " ++ hex (size_dt_strings h));
    ln (bytes_of "  boot cpu      : " ++ dec (boot_cpuid_phys h))] print.

(** [frames::print_map]. *)
Definition print_map : M system unit :=
  s ← getS;
  let m := mach s in
  let reserved := reserved_frames m in
  let free := free_frames m in
  let image_end := IMAGE_END (statics_of m) in
  _ ← print (ln (bytes_of "memory: " ++ dec (Frames.ram_size m / 1024 / 1024) ++ bytes_of " MiB at " ++
        hex (Frames.ram_base m) ++ bytes_of ", " ++ dec (frame_count m) ++ bytes_of " frames of " ++
        dec (FRAME_SIZE / 1024) ++ bytes_of " KiB"));
  image ← lift (sub64 image_end (Frames.ram_base m));
  _ ← print (ln (bytes_of "  kernel   : " ++ hex0 12 (Frames.ram_base m) ++ bytes_of ".." ++ hex0 12 image_end ++
        bytes_of "  " ++ right 4 (dec (image / 1024)) ++ bytes_of " KiB"));
  bytes ← lift (mul64 reserved FRAME_SIZE);
  _ ← print (ln (bytes_of "  reserved : " ++ right 6 (dec reserved) ++ bytes_of " frames  " ++
        right 4 (dec (bytes / 1024)) ++ bytes_of " KiB  image and anything the machine claimed"));
  bytes ← lift (mul64 free FRAME_SIZE);
  print (ln (bytes_of "  free     : " ++ right 6 (dec free) ++ bytes_of " frames  " ++
    right 4 (dec (bytes / 1024 / 1024)) ++ bytes_of " MiB")).

(** [virtio::print_table]. *)
Definition print_transport (t : Transport) : M system unit :=
  print (ln (bytes_of "  " ++ hex0 12 (Virtio.base t) ++ bytes_of " : " ++ bytes_of (device_name (device_id t)) ++
    bytes_of " device, intid " ++ dec (intid t) ++ bytes_of ", offers " ++ hex (features t))).
Definition print_table (slots occupied : Z) : M system unit :=
  _ ← print (ln (bytes_of "virtio: " ++ dec slots ++ bytes_of " mmio slots, " ++ dec occupied ++ bytes_of " occupied"));
  l ← transports;
  forM (present l) print_transport.

(** The part of [kernel_main_high] that reads the tree. *)
Definition read_tree (dtb : Z) : M system unit :=
  s ← getS;
  '(r, b) ← ask (λ m, init_blob m (Frames.ram_base (mach s)) (Frames.ram_size (mach s)) KERNEL_BASE dtb (BLOB s));
  _ ← modify (set_BLOB b);
  match r with
  | Ok blob =>
    _ ← print_info blob;
    log ← on_machine (adopt_memory_map root blob);
    _ ← print log;
    _ ← discover_devices blob;
    '(slots, occupied) ← discover blob;
    _ ← print (line "");
    print_table slots occupied
  | Err error =>
    print (ln (bytes_of "device tree: none (" ++ bytes_of (describe error) ++ bytes_of "), memory map stays a guess"))
  end.
End devices.

(** ** [kernel_main], up to the MMU *)

Section physical.
Context (respond : list access → Z → Z → Z) (polls : nat).

(** The linker's symbols with the RAM the allocator was told of. *)
Definition with_ram (ly : layout) (m : machine) : layout :=
  mkLayout (text_start ly) (text_end ly) (rodata_start ly) (rodata_end ly) (data_start ly) (kernel_end ly)
    (Frames.ram_base m) (Frames.ram_size m).

Definition say (text : list Z) : M system unit := on_con (emergency_print respond polls text).

(** The two roots it enables next. *)
Definition make_tables (ly : layout) (dtb : Z) : M system (Z * Z) :=
  _ ← say ([10] ++ line "the_rack: booting, mmu off");
  s ← getS;
  blob ← lift (early_probe (memory (mach s)) dtb);
  _ ← on_machine (Frames.init (kernel_end ly) DEFAULT_RAM_BASE DEFAULT_RAM_SIZE);
  _ ← say (line "the_rack: frame allocator up, building page tables");
  s ← getS;
  '(ttbr0, ttbr1) ← on_machine (build_tables (with_ram ly (mach s)));
  _ ← (match blob with
       | Some (pa, size) =>
         s ← getS;
         guessed_end ← lift (add64 (Frames.ram_base (mach s)) (Frames.ram_size (mach s)));
         outside ← (if pa <? Frames.ram_base (mach s) then mret true else
                    blob_end ← lift (add64 pa size); mret (guessed_end <? blob_end));
         if outside : bool then on_machine (map_physical ttbr1 pa size) else mret tt
       | None => mret tt
       end);
  _ ← say (line "the_rack: tables built, enabling mmu");
  mret (ttbr0, ttbr1).
End physical.
