(* ===== verification/BootSpec.v ===== *)
(** * BootSpec: adopting the machine's memory map

    What mapping more of memory leaves alone, which frames a list of
    reservations takes, and the two together for [adopt_memory_map]. *)

From S2P Require Import Prelude Memory FrameAlloc Paging Frames FramesSpec FramesBoot.
From S2P Require Import PagingWalk PagingTables PagingMap PagingRange Fdt FdtSpec FdtProps Boot.

(** ** What no memory operation changes *)

Section paging.
Context {S X : Type} `{FA : FrameAlloc S} (f : S → X).
Context (f_mem : ∀ mm s, f (fa_set_mem mm s) = f s) (f_alloc : steady f fa_alloc).

Lemma steady_write_entry t i v : steady f (write_entry t i v).
Proof. apply steady_modify. intros s. apply f_mem. Qed.

Lemma steady_next_table t i : steady f (next_table t i).
Proof.
  unfold next_table, read_entry, Paging.from_addr. apply steady_bind; [apply steady_gets|]. intros e.
  destruct (valid e).
  - apply steady_bind; [apply steady_assertM|]. intros _. apply steady_bind; [apply steady_assertM|].
    intros _. apply steady_ret.
  - apply steady_bind; [apply f_alloc|]. intros o. apply steady_bind; [apply steady_expectM|]. intros c.
    apply steady_bind; [apply steady_write_entry|]. intros _. apply steady_ret.
Qed.

Lemma steady_descend l t va : steady f (descend l t va).
Proof.
  revert t. induction l as [|x l IH]; intros t; cbn [descend]; [apply steady_ret|].
  apply steady_bind; [apply steady_next_table|]. intros c. apply IH.
Qed.

Lemma steady_map_range root va pa size attrs : steady f (map_range root va pa size attrs).
Proof.
  unfold map_range. generalize 0. induction (Z.to_nat _) as [|n IH]; intros off; cbn [map_range_loop];
    destruct (off <? size); try apply steady_ret; [apply steady_panic|].
  apply steady_bind; [apply steady_lift|]. intros va'. apply steady_bind; [apply steady_lift|]. intros pa'.
  unfold map_block, map_page. destruct (_ && _).
  all: apply steady_bind; [apply steady_bind; [apply steady_descend|intros t; apply steady_write_entry]|].
  all: intros _; apply steady_bind; [apply steady_lift|]; intros o; apply IH.
Qed.

Lemma steady_build ly root off : steady f (build ly root off).
Proof.
  unfold build. repeat (apply steady_bind; [|intros ?]); first [apply steady_lift|apply steady_map_range].
Qed.

Lemma steady_build_tables ly : steady f (build_tables ly).
Proof.
  unfold build_tables. repeat (apply steady_bind; [first [apply f_alloc|apply steady_expectM|apply steady_build]|intros ?]).
  apply steady_ret.
Qed.
End paging.

(** Where RAM is, and how many frames were reserved. *)
Definition ram_of (m : machine) : Z * Z * Z := (ram_base m, ram_size m, reserved_frames m).

Lemma steady_set i : steady Bitmap.reserved (Bitmap.set i).
Proof.
  apply steady_bind.
  - intros s a s'. unfold Bitmap.load. destruct (Bitmap.bits s !! _); [by intros [= _ <-]|done].
  - intros w s a s'. unfold Bitmap.store. destruct (Bitmap.bits s !! _); [by intros [= _ <-]|done].
Qed.

Lemma steady_with_allocator {A} (op : M Bitmap.t A) : steady Bitmap.reserved op → steady ram_of (with_allocator op).
Proof.
  intros Hs m a m'. unfold with_allocator, zoom. destruct (op (bitmap m)) as [[x b]|] eqn:He; [|done].
  intros [= _ <-]. unfold ram_of, reserved_frames. change (bitmap (set_bitmap b m)) with b.
  by rewrite (Hs _ _ _ He).
Qed.

Lemma steady_alloc : steady ram_of alloc.
Proof.
  unfold alloc. apply steady_bind; [apply steady_with_allocator, steady_gets|]. intros [i|]; [|apply steady_ret].
  apply steady_bind.
  { apply steady_with_allocator, steady_bind; [apply steady_set|]. intros _ s a s'. unfold sub_free.
    unfold mbind, M_bind, getS, gets, lift, putS. destruct (sub64 _ _); [by intros [= _ <-]|done]. }
  intros _. apply steady_bind; [apply steady_gets|]. intros m. apply steady_bind; [by apply steady_modify|].
  intros _. apply steady_ret.
Qed.

(** ** Mapping more of memory *)

Section extend.
Context (m : machine) (T : tables) (root : Z).

(** What is left of a machine whose kernel map was extended: RAM is where it was,
    the free frames above [lim] are free still and hold what they held. *)
Record extended (lim : Z) (m' : machine) : Prop := {
  e_ok : fa_ok m';
  e_ram : ram_of m' = ram_of m;
  e_free : ∀ i, i ∈ free_of m' → i ∈ free_of m;
  e_kept : ∀ i, i ∈ free_of m → lim ≤ from_index m i → i ∈ free_of m';
  e_mem : ∀ i x, i ∈ free_of m → lim ≤ from_index m i →
    from_index m i ≤ x < from_index m i + FRAME_SIZE → memory m' x = memory m x
}.

Lemma extended_refl lim : fa_ok m → extended lim m.
Proof. by split. Qed.
End extend.

Lemma ram_of_same m m' : ram_of m' = ram_of m → same_ram m m' ∧ reserved_frames m' = reserved_frames m.
Proof. intros [= H1 H2 H3]. by repeat split. Qed.

Lemma from_index_ram m m' i : ram_of m' = ram_of m → from_index m' i = from_index m i.
Proof. intros [H _]%ram_of_same. by apply same_ram_index. Qed.

Lemma wp_map_more m T root va pa size attrs lim Q :
  attrs_ok attrs → mappable m T root va pa size → room_below lim (tables_for va pa size) m →
  (∀ m' T', extended m lim m' → range_mapped (tables_for va pa size) m T root va pa size attrs m' T' → Q tt m') →
  wp (map_range root va pa size attrs) m Q.
Proof.
  intros Hat Hm Hlow HQ. apply (wp_mono _ _ (λ u m', (∃ T',
    range_mapped (tables_for va pa size) m T root va pa size attrs m' T') ∧ ram_of m' = ram_of m)).
  - apply steady_wp; [by apply steady_map_range, steady_alloc|]. apply wp_map_range with T; [done|done|eauto].
  - intros [] m' [[T' Hr] Hram]. pose proof (r_extends _ _ _ _ _ _ _ _ _ _ Hr) as Hx. eapply HQ; [|exact Hr].
    assert (Hok : fa_ok m) by apply Hm. assert (Hav : ∀ i, i ∈ free_of m' ↔ is_avail m' (from_index m i)).
    { intros i. rewrite <-(from_index_ram m m') by done. by rewrite is_avail_index. }
    assert (Hk : ∀ i, i ∈ free_of m → lim ≤ from_index m i → i ∈ free_of m').
    { intros i Hi Hl. apply Hav. apply (x_low _ _ _ _ _ Hx _ 0); [|by apply is_avail_index].
      rewrite Nat.add_0_r. destruct Hlow as (l & ? & ? & Hl'). exists l. split_and!; [done|done|].
      intros g Hg. destruct (Hl' g Hg). split; [done|lia]. }
    split; [apply Hx|done| |done|].
    + intros i Hi%Hav. apply (x_avail _ _ _ _ _ Hx) in Hi as [Hi _]. by apply is_avail_index.
    + intros i x Hi Hl Hxx. apply (x_mem _ _ _ _ _ Hx). intros f k Hf Hfx.
      destruct (t_frame _ _ (x_ok _ _ _ _ _ Hx) _ _ Hf) as [Hfr Hna]. apply Hna.
      apply (x_frame _ _ _ _ _ Hx) in Hfr as (j & -> & _). assert (j = i) as ->.
      { unfold from_index, FRAME_SIZE in *. lia. }
      apply Hav. by apply Hk.
Qed.

(** ** The reservations *)

(** A region the allocator can be asked to reserve. *)
Definition region_ok (e : Z * Z) : Prop :=
  0 ≤ e.1 ∧ 0 < e.2 ∧ (e.1 + e.2 ≤ u64_max + 1 - FRAME_SIZE ∨ u64_max < e.1 + e.2).

(** Reserving [e] when [X] is free leaves [X']: all of its frames go, or none. *)
Inductive takes (m : machine) (e : Z * Z) (X : gset Z) : gset Z → Prop :=
  | takes_all X' : inside_ram m e.1 e.2 → (∀ i, touches m e.1 e.2 i → i ∈ X) →
      (∀ i, i ∈ X' ↔ i ∈ X ∧ ¬ touches m e.1 e.2 i) → takes m e X X'
  | takes_none : ¬ inside_ram m e.1 e.2 ∨ (∃ i, touches m e.1 e.2 i ∧ i ∉ X) → takes m e X X.

Inductive takes_each (m : machine) : list (Z * Z) → gset Z → gset Z → Prop :=
  | takes_nil X : takes_each m [] X X
  | takes_cons e l X X1 X' : takes m e X X1 → takes_each m l X1 X' → takes_each m (e :: l) X X'.

Lemma takes_sub m e X X' : takes m e X X' → X' ⊆ X.
Proof. intros [X1 _ _ Hx|_]; [intros i Hi; by apply Hx|done]. Qed.
Lemma takes_each_sub m l X X' : takes_each m l X X' → X' ⊆ X.
Proof. induction 1 as [|e l X X1 X' He _ IH]; [done|]. apply takes_sub in He. set_solver. Qed.

Lemma takes_ram m m' e X X' : same_ram m m' → takes m' e X X' → takes m e X X'.
Proof.
  intros [Hb Hs]. assert (Hi : inside_ram m' e.1 e.2 ↔ inside_ram m e.1 e.2) by (unfold inside_ram; by rewrite Hb, Hs).
  assert (Ht : ∀ i, touches m' e.1 e.2 i ↔ touches m e.1 e.2 i) by (intros; unfold touches, from_index; by rewrite Hb).
  intros [X1 ? ? Hx|Hn].
  - apply takes_all; [by apply Hi|intros i Hti; by apply H0, Ht|]. intros i. by rewrite Hx, Ht.
  - apply takes_none. rewrite <-Hi. setoid_rewrite <-Ht. done.
Qed.

Lemma takes_each_ram m m' l X X' : same_ram m m' → takes_each m' l X X' → takes_each m l X X'.
Proof. intros Hr. induction 1; [constructor|]. econstructor; [by eapply takes_ram|done]. Qed.

Lemma wp_reserve_all l n log m :
  alloc_inv m → Forall region_ok l → 0 ≤ reserved_frames m →
  reserved_frames m + (1 + Z.of_nat (length l)) * MAX_FRAMES ≤ u64_max →
  0 ≤ n → n + Z.of_nat (length l) * MAX_FRAMES ≤ u64_max →
  wp (reserve_all l n log) m (λ _ m', alloc_inv m' ∧ same_ram m m' ∧ memory m' = memory m ∧
    takes_each m l (free_of m) (free_of m')).
Proof.
  revert n log m. induction l as [|[base len] l IH]; intros n log m Hm Hl Hr0 Hr Hn0 Hn; cbn [reserve_all].
  { apply wp_ret. split_and!; [done|done|done|constructor]. }
  apply Forall_cons in Hl as [(Hb & Hlen & Hov) Hl]. cbn [fst snd] in *.
  assert (HF : 0 < MAX_FRAMES) by by rewrite MAX_FRAMES_val.
  assert (Hlen' : Z.of_nat (length ((base, len) :: l)) = 1 + Z.of_nat (length l)) by (simpl; lia).
  rewrite Hlen' in *. assert (0 ≤ Z.of_nat (length l) * MAX_FRAMES) by (apply Z.mul_nonneg_nonneg; lia).
  apply wp_bind. eapply wp_mono; [apply wp_reserve_range; [done|lia|lia|done|done|lia]|].
  intros r m1 (Hm1 & Hram & Hp).
  assert (Hthen : ∀ n' log', 0 ≤ n' → n' + Z.of_nat (length l) * MAX_FRAMES ≤ u64_max →
    0 ≤ reserved_frames m1 ≤ reserved_frames m + MAX_FRAMES → memory m1 = memory m →
    takes m (base, len) (free_of m) (free_of m1) →
    wp (reserve_all l n' log') m1 (λ _ m', alloc_inv m' ∧ same_ram m m' ∧ memory m' = memory m ∧
      takes_each m ((base, len) :: l) (free_of m) (free_of m'))).
  { intros n' log' Hn0' Hn' Hr1 Hmem Ht. eapply wp_mono; [apply IH; [done|done|lia|lia|done|done]|].
    intros _ m2 (Hm2 & Hram2 & Hmem2 & Hts). split_and!; [done| |congruence|].
    - destruct Hram, Hram2. split; congruence.
    - econstructor; [done|]. by eapply takes_each_ram. }
  pose proof (free_frames_bound m Hm). pose proof (inv_count m Hm) as Hc.
  destruct r as [k|[a|a]]; simpl in Hp.
  - destruct Hp as (Hin & Hall & Hfs & Hk & Hres & Hmem).
    assert (Hsz : (base.size (free_of m1) ≤ base.size (free_of m))%nat).
    { apply subseteq_size. intros i Hi. by apply Hfs. }
    apply wp_bind. eapply wp_lift; [apply add64_ok; lia|]. apply Hthen; [lia|lia|lia|done|].
    apply takes_all; done.
  - destruct Hp as (-> & _ & Hout). apply Hthen; [lia|lia|lia|done|]. apply takes_none. by left.
  - destruct Hp as (-> & _ & i & _ & Hi & Hni & _). apply Hthen; [lia|lia|lia|done|].
    apply takes_none. right. by exists i.
Qed.

Lemma wp_is_taken_true m a i Q :
  alloc_inv m → 0 ≤ i < frame_count m → i ∉ free_of m → from_index m i ≤ a < from_index m i + FRAME_SIZE →
  Q true m → wp (is_taken a) m Q.
Proof.
  intros Hm Hi Hni Ha HQ. eapply wp_mono; [by apply wp_is_taken|]. intros r m' [-> Hr].
  assert (r = true) as -> by (apply Hr; by exists i). done.
Qed.
