(* ===== verification/BootProps.v ===== *)
(** * BootProps: what reading the device tree leaves behind *)

From S2P Require Import Prelude Memory FrameAlloc Paging Frames FramesSpec FramesBoot.
From S2P Require Import PagingWalk PagingTables PagingMap PagingRange PagingProps Devices Sync Uart.
From S2P Require Import Fdt FdtSpec FdtTree FdtBuild FdtWalk FdtProps Boot BootSpec.

(** ** The memory map *)

Section adopt.
Context (root : Z) (T : tables) (m : machine) (b : Blob) (map : MemoryMap).

(** Where the guess ended, and where the tree says RAM ends. *)
Definition old_end : Z := Frames.ram_base m + Frames.ram_size m.
Definition new_end : Z := Frames.ram_base m + Z.min (map_size map) MAX_RAM.

(** A blob that was accepted, lies in memory that is free on both sides of the
    change, and describes RAM that starts where the guess starts; with frames
    for the translation tables below it, when there is more RAM than guessed. *)
Record adoptable : Prop := {
  ad_tables : tables_ok m T;
  ad_blob : fdt_init (high_view m) (Frames.ram_base m) (Frames.ram_size m) KERNEL_BASE (blob_pa b) = Done (Ok b);
  ad_aligned : blob_aligned b;
  ad_top : old_end < 2 ^ 48 ∧ Frames.ram_base m + rounded (map_size map) ≤ 2 ^ 48;
  ad_map : memory_map (high_view m) b = Done map;
  ad_node : map_base map = Frames.ram_base m ∧ 0 < map_size map;
  ad_inside : inside_ram m (blob_pa b) (totalsize (header b)) ∧
    blob_pa b + totalsize (header b) ≤ Frames.ram_base m + rounded (map_size map);
  ad_free : ∀ i, touches m (blob_pa b) (totalsize (header b)) i → i ∈ free_of m;
  ad_more : old_end < new_end →
    mappable m T root (old_end + KERNEL_BASE) old_end (new_end - old_end) ∧
    room_below (blob_pa b / FRAME_SIZE * FRAME_SIZE) (tables_for (old_end + KERNEL_BASE) old_end (new_end - old_end)) m;
  ad_regions : Forall region_ok (reserved map);
  ad_counted : 0 ≤ reserved_frames m ∧ reserved_frames m + 10 * MAX_FRAMES ≤ u64_max
}.

(** The kernel's map reaches [new_end] and is otherwise what it was. *)
Definition reaches (mm : mem) : Prop :=
  (∀ o, 0 ≤ o < new_end - old_end → translation mm root (old_end + KERNEL_BASE + o) = Some (old_end + o)) ∧
  (∀ r x, T !! r = Some 3%nat →
     r ≠ root ∨ (∀ o, 0 ≤ o < new_end - old_end → page_of x ≠ page_of (old_end + KERNEL_BASE + o)) →
     translation mm r x = translation (memory m) r x).

Context (Had : adoptable).

Lemma lim_above i :
  touches m (blob_pa b) (totalsize (header b)) i → blob_pa b / FRAME_SIZE * FRAME_SIZE ≤ from_index m i.
Proof.
  intros [_ Hi]. destruct (inv_base m) as [? Hal]; [apply (t_ok _ _ (ad_tables Had))|].
  unfold from_index, FRAME_SIZE in *. zdiv.
Qed.

(** The first thing done: the physical map grows. *)
Lemma wp_extend Q :
  (∀ m1 T1, extended m (blob_pa b / FRAME_SIZE * FRAME_SIZE) m1 → tables_ok m1 T1 → T ⊆ T1 →
     reaches (memory m1) → Q tt m1) →
  wp (extend_physical_map root old_end new_end) m Q.
Proof.
  intros HQ. unfold extend_physical_map. destruct (Z.leb_spec new_end old_end) as [Hle|Hlt].
  - apply wp_ret. apply (HQ m T); [by apply extended_refl, Had|apply Had|done|]. split; [lia|done].
  - destruct (ad_more Had Hlt) as [Hm Hlow]. destruct (mp_va _ _ _ _ _ _ Hm) as (? & Hv & _).
    apply wp_bind. eapply wp_lift; [apply add64_ok; lia|].
    apply wp_bind. eapply wp_lift; [apply sub64_ok; lia|].
    apply (wp_map_more _ T _ _ _ _ _ (blob_pa b / FRAME_SIZE * FRAME_SIZE));
      [by eapply Forall_forall; [apply attributes_ok|apply (bool_decide_unpack _); vm_compute]|done|done|].
    intros m1 T1 He [Hx Hmaps Hother _]. apply (HQ m1 T1); [done|apply Hx|apply Hx|]. split.
    + intros o Ho. eapply maps_translation. by apply Hmaps.
    + intros r x Hr Hne. unfold translation. by rewrite Hother.
Qed.
End adopt.

(** Tables stay tables when RAM grows, or shrinks by free frames. *)
Lemma tables_adopted m m' T :
  tables_ok m T → fa_ok m' → memory m' = memory m → Frames.ram_base m' = Frames.ram_base m →
  (∀ i, i ∉ free_of m → 0 ≤ i < frame_count m → i < frame_count m' ∧ i ∉ free_of m') →
  tables_ok m' T.
Proof.
  intros H Hok Hmem Hb Hk. split; [done|cbn [fa_mem frames_alloc]; rewrite Hmem; apply H|].
  assert (Hfi : ∀ i, from_index m' i = from_index m i) by (intros; unfold from_index; by rewrite Hb).
  intros f k Hf. destruct (t_frame _ _ H _ _ Hf) as [(i & -> & Hi) Hna]. cbn [fa_avail frames_alloc] in Hna.
  rewrite is_avail_index in Hna. destruct (Hk i Hna Hi). split.
  - exists i. rewrite Hfi. split; [done|lia].
  - cbn [fa_avail frames_alloc]. by rewrite <-(Hfi i), is_avail_index.
Qed.

(** What [adopt] leaves of a machine: RAM ends where the tree says, or the guess
    stands because a frame past it is in use. *)
Definition resized (m m' : machine) (size : Z) : Prop :=
  Frames.ram_base m' = Frames.ram_base m ∧
  ((Frames.ram_size m' = rounded size ∧
    ∀ i, i ∈ free_of m' ↔ i < frame_count m' ∧ (i ∈ free_of m ∨ frame_count m ≤ i)) ∨
   (Frames.ram_size m' = Frames.ram_size m ∧ free_of m' = free_of m ∧
    ∃ i, rounded size / FRAME_SIZE ≤ i < frame_count m ∧ i ∉ free_of m)).

Lemma wp_adopt_resized m size Q :
  alloc_inv m → 0 ≤ size → Frames.ram_base m + rounded size ≤ 2 ^ 48 →
  (∀ r m', alloc_inv m' → resized m m' size → memory m' = memory m → reserved_frames m' = reserved_frames m →
     (∀ i, i ∉ free_of m → 0 ≤ i < frame_count m → i < frame_count m' ∧ i ∉ free_of m') → Q r m') →
  wp (Frames.adopt (Frames.ram_base m) size) m Q.
Proof.
  intros Hm Hs Ht HQ. eapply wp_mono; [by apply wp_adopt|]. intros r m' [Hm' Hp].
  destruct r as [d|[a|a]]; simpl in Hp.
  - destruct Hp as (_ & _ & Hb & Hsz & Hall & Hfs & Hres & Hmem).
    assert (Hfc : frame_count m' = rounded size / FRAME_SIZE) by (unfold frame_count; by rewrite Hsz).
    apply HQ; [done| |done|done|].
    + split; [done|]. left. split; [done|]. intros i. by rewrite Hfc, Hfs.
    + intros i Hni Hi. rewrite Hfc, Hfs. split; [|intuition lia].
      destruct (Z.lt_ge_cases i (rounded size / FRAME_SIZE)); [done|]. destruct Hni. apply Hall. lia.
  - by destruct Hp as (_ & _ & []).
  - destruct Hp as (-> & _ & i & _ & Hi & Hni). apply HQ; [done| |done|done|].
    + split; [done|]. right. split_and!; [done|done|]. by exists i.
    + intros j Hj Hjr. split; [lia|done].
Qed.

(** A region that is there for the taking is taken whole by the first of the
    reservations. *)
Lemma takes_first m e l X X' :
  takes_each m (e :: l) X X' → inside_ram m e.1 e.2 → (∀ i, touches m e.1 e.2 i → i ∈ X) →
  ∀ i, touches m e.1 e.2 i → i ∉ X'.
Proof.
  intros Ht Hin Hall i Hi. inversion Ht as [|? ? ? X1 ? He Hl]; subst.
  apply takes_each_sub in Hl. intros Hx. apply Hl in Hx.
  inversion He as [? _ _ Hx1|Hno]; subst; [by apply Hx1 in Hx as [_ []]|].
  destruct Hno as [|(j & Hj & Hnj)]; [done|]. by apply Hnj, Hall.
Qed.

(** The frame a byte of RAM lies in. *)
Lemma byte_touches m a n x :
  alloc_inv m → a ≤ x < a + n → let i := (x - Frames.ram_base m) / FRAME_SIZE in
  touches m a n i ∧ from_index m i ≤ x < from_index m i + FRAME_SIZE.
Proof. intros Hm Hx i. destruct (inv_base _ Hm). unfold i, touches, from_index, FRAME_SIZE in *. zdiv. Qed.

(** The two assertions that close [adopt_memory_map]. *)
Lemma wp_blob_asserts {A} m m4 a n (x : A) Q :
  alloc_inv m → alloc_inv m4 → 0 < n → 0 ≤ a → a + n ≤ u64_max → Frames.ram_base m4 = Frames.ram_base m →
  (∀ i, touches m a n i → 0 ≤ i < frame_count m4 ∧ i ∉ free_of m4) → Q x m4 →
  wp (first ← is_taken a;
      _ ← assertM first "the device tree was not reserved";
      last ← lift (add64 a n);
      last ← lift (sub64 last 1);
      last ← is_taken last;
      _ ← assertM last "the end of the device tree was not reserved";
      mret x) m4 Q.
Proof.
  intros Hm Hm4 Hn Ha Hmax Hb Htaken HQ.
  assert (Hbyte : ∀ y P, a ≤ y < a + n → P true m4 → wp (is_taken y) m4 P).
  { intros y P Hx HP. destruct (byte_touches m a n y Hm Hx) as [Ht Hbx]. destruct (Htaken _ Ht).
    eapply wp_is_taken_true; [done|done|done| |done]. unfold from_index in *. by rewrite Hb. }
  apply wp_bind, Hbyte; [lia|]. apply wp_bind, wp_ret.
  apply wp_bind. eapply wp_lift; [apply add64_ok; lia|].
  apply wp_bind. eapply wp_lift; [apply sub64_ok; lia|].
  apply wp_bind, Hbyte; [lia|]. apply wp_bind, wp_ret, wp_ret. done.
Qed.

Section blob.
Context (root : Z) (T : tables) (m : machine) (b : Blob) (map : MemoryMap) (Had : adoptable root T m b map).
Local Abbreviation pa := (blob_pa b).
Local Abbreviation n := (totalsize (header b)).

Lemma ad_bounds :
  alloc_inv m ∧ Frames.ram_base m + Frames.ram_size m ≤ 2 ^ 48 - 4096 ∧ 0 < n ∧
  ∃ l, reserved map = (pa, n) :: l ∧ Z.of_nat (length l) < 8.
Proof.
  pose proof (ad_tables _ _ _ _ _ Had) as HT. destruct (t_ok _ _ HT) as [Hm Hbytes].
  destruct (inv_base _ Hm) as [Hb0 Hbal], (inv_size _ Hm) as [Hs0 Hsal], (ad_top _ _ _ _ _ Had) as [Htop _].
  assert (Hend : Frames.ram_base m + Frames.ram_size m ≤ 2 ^ 48 - 4096).
  { unfold old_end in Htop. change (2 ^ 48) with 281474976710656 in *. unfold FRAME_SIZE in *. zdiv. }
  assert (Hhv : bytes_ok (high_view m)) by (intros x; apply Hbytes).
  assert (Hhigh : Frames.ram_base m + Frames.ram_size m + KERNEL_BASE < u64_max).
  { unfold KERNEL_BASE. change (2 ^ 48) with 281474976710656 in *. lia. }
  assert (Hk0 : 0 ≤ KERNEL_BASE) by by vm_compute.
  destruct (fdt_init_ok _ _ _ _ _ _ Hhv Hb0 (proj1 Hs0) Hk0 Hhigh (ad_blob _ _ _ _ _ Had)) as (Hbok & _).
  pose proof (bo_size _ Hbok) as [Hn0 _]. unfold HEADER_SIZE in Hn0.
  pose proof (memory_map_sim _ _ _ Hhv Hbok (λ _ _, eq_refl)) as Hms. rewrite (ad_map _ _ _ _ _ Had) in Hms.
  destruct Hms as [_ (Hlen & _ & Hhead)]. unfold MAX_RESERVATIONS in Hlen.
  split; [done|]. split; [done|]. split; [lia|].
  destruct (reserved map) as [|e l]; [done|]. injection Hhead as ->. exists l. split; [done|]. simpl in Hlen. lia.
Qed.

(** The blob's frames are still there to be taken once RAM has its new end. *)
Lemma blob_still_free m2 m3 :
  extended m (pa / FRAME_SIZE * FRAME_SIZE) m2 → resized m2 m3 (map_size map) →
  ∀ i, touches m pa n i → i ∈ free_of m3 ∧ i < frame_count m3.
Proof.
  intros He Hrs i Hi. pose proof (ad_free _ _ _ _ _ Had i Hi) as Hf.
  destruct (e_ok _ _ _ He) as [Hm2 _]. destruct (inv_base _ (proj1 ad_bounds)) as [_ Hbal].
  assert (Hf2 : i ∈ free_of m2) by (apply (e_kept _ _ _ He); [done|by eapply lim_above]).
  assert (Hlt : i < rounded (map_size map) / FRAME_SIZE).
  { destruct Hi as [Hi _], (ad_inside _ _ _ _ _ Had) as [_ Hin'].
    destruct (ad_node _ _ _ _ _ Had) as [_ Hsize]. destruct (rounded_bounds (map_size map)) as (_ & Hr2 & _); [lia|].
    unfold from_index, FRAME_SIZE in *. zdiv. }
  destruct Hrs as (_ & [[Hsz Hfs]|(Hsz & Hfs & _)]).
  - assert (i < frame_count m3) by (unfold frame_count; by rewrite Hsz). split; [|done]. apply Hfs. auto.
  - rewrite Hfs. split; [done|]. unfold frame_count. rewrite Hsz. by apply (free_of_range _ _ Hm2 Hf2).
Qed.

(** ... and the first reservation takes them. *)
Lemma blob_taken m3 m4 :
  alloc_inv m3 → Frames.ram_base m3 = Frames.ram_base m → same_ram m3 m4 →
  (∀ i, touches m pa n i → i ∈ free_of m3 ∧ i < frame_count m3) →
  takes_each m3 (reserved map) (free_of m3) (free_of m4) →
  ∀ i, touches m pa n i → 0 ≤ i < frame_count m4 ∧ i ∉ free_of m4.
Proof.
  intros Hm3 Hb3 [Hb4 Hs4] Hregs Htk i Hi.
  destruct ad_bounds as (Hm & _ & Hn & l & Hl & _). rewrite Hl in Htk.
  assert (Hfi : ∀ j, from_index m3 j = from_index m j) by (intros j; unfold from_index; by rewrite Hb3).
  split.
  - destruct (Hregs i Hi) as [Hf Hlt]. unfold frame_count. rewrite Hs4. by apply (free_of_range _ _ Hm3 Hf).
  - apply (takes_first m3 (pa, n) l (free_of m3)); [done| | |]; cbn [fst snd].
    + destruct (byte_touches m pa n (pa + n - 1) Hm ltac:(lia)) as [Hlast Hlb].
      destruct (Hregs _ Hlast) as [_ Hlt]. destruct (frame_count_bounds _ Hm3) as [_ Hfs].
      destruct (ad_inside _ _ _ _ _ Had) as [[Hin _] _]. split; [by rewrite Hb3|].
      rewrite Hfs, Hb3. unfold from_index, FRAME_SIZE in *. lia.
    + intros j Hj. apply Hregs. unfold touches in *. by rewrite <-Hfi.
    + unfold touches in *. by rewrite Hfi.
Qed.
End blob.

(** C14: adopting the tree's memory map, from a blob that was accepted and that lies in
    free memory: the kernel ends with RAM where the tree says it is (or with the
    guess, when a frame past the end is in use), the physical map reaches all of
    it and is otherwise unchanged, every reservation took all of its frames or
    none as the free frames allowed, every frame the blob touches is taken and
    every byte of the blob is what it was; neither assertion fails. *)
Theorem memory_map_adopted root T m b map :
  adoptable root T m b map →
  wp (adopt_memory_map root b) m (λ _ m', alloc_inv m' ∧
    (∃ T', tables_ok m' T' ∧ T ⊆ T') ∧
    (∃ m2 m3, extended m (blob_pa b / FRAME_SIZE * FRAME_SIZE) m2 ∧ resized m2 m3 (map_size map) ∧
       same_ram m3 m' ∧ takes_each m3 (reserved map) (free_of m3) (free_of m')) ∧
    reaches root T m map (memory m') ∧
    (∀ i, touches m (blob_pa b) (totalsize (header b)) i → 0 ≤ i < frame_count m' ∧ i ∉ free_of m') ∧
    (∀ x, blob_pa b ≤ x < blob_pa b + totalsize (header b) → memory m' x = memory m x)).
Proof.
  intros Had. destruct (ad_bounds _ _ _ _ _ Had) as (Hm & Hend & Hn & l & Hl & Hlen).
  destruct (inv_base _ Hm) as [Hb0 _], (inv_size _ Hm) as [Hs0 _], (ad_top _ _ _ _ _ Had) as [_ Htop].
  destruct (ad_node _ _ _ _ _ Had) as [Hbase Hsize], (ad_inside _ _ _ _ _ Had) as [[Hin1 Hin2] _].
  destruct (ad_counted _ _ _ _ _ Had) as [Hr0 Hr1]. rewrite MAX_FRAMES_val in Hr1. pose proof MAX_RAM_val as HMR.
  change (2 ^ 48) with 281474976710656 in *.
  unfold adopt_memory_map. apply wp_bind, wp_gets, wp_bind. eapply wp_lift; [apply Had|].
  rewrite (proj2 (Z.eqb_neq _ _)) by lia. rewrite Hbase.
  apply wp_bind, wp_gets, wp_bind. eapply wp_lift; [apply add64_ok; lia|].
  apply wp_bind. eapply wp_lift; [apply add64_ok; lia|]. fold (old_end m) (new_end m map).
  apply wp_bind, (wp_extend _ T _ b map); [done|]. intros m2 T2 He HT2 Hsub Hre.
  destruct (ram_of_same _ _ (e_ram _ _ _ He)) as [[Hb2 Hs2] Hres2]. destruct (e_ok _ _ _ He) as [Hm2 Hbytes2].
  apply wp_bind. rewrite <-Hb2. apply wp_adopt_resized; [done|lia|rewrite Hb2; exact Htop|].
  intros r m3 Hm3 Hrs Hmem3 Hres3 Hkeep. apply wp_bind, wp_gets, wp_bind.
  eapply wp_mono.
  { apply wp_reserve_all; [done|apply Had|lia| |lia|]; rewrite MAX_FRAMES_val, Hl; cbn [length]; lia. }
  intros [count log] m4 (Hm4 & [Hb4 Hs4] & Hmem4 & Htk).
  assert (Hb3 : Frames.ram_base m3 = Frames.ram_base m) by (rewrite (proj1 Hrs); exact Hb2).
  pose proof (blob_taken _ _ _ _ _ Had m3 m4 Hm3 Hb3 (conj Hb4 Hs4) (blob_still_free _ _ _ _ _ Had m2 m3 He Hrs) Htk) as Htaken.
  apply (wp_blob_asserts m m4 (blob_pa b) (totalsize (header b))); [done|done|done|lia|lia|congruence|exact Htaken|].
  split; [done|]. split; [|split; [|split; [|split]]].
  - exists T2. split; [|done]. apply (tables_adopted m2); [done| |congruence|congruence|].
    + split; [done|]. cbn. by rewrite Hmem4, Hmem3.
    + intros i Hni Hi. destruct (Hkeep i Hni Hi) as [Hlt Hn3]. split; [by unfold frame_count; rewrite Hs4|].
      intros Hx. apply Hn3. by apply (takes_each_sub _ _ _ _ Htk).
  - exists m2, m3. split_and!; done.
  - by rewrite Hmem4, Hmem3.
  - done.
  - intros x Hx. rewrite Hmem4, Hmem3. destruct (byte_touches m _ _ x Hm Hx) as [Ht Hb].
    eapply (e_mem _ _ _ He); [by apply (ad_free _ _ _ _ _ Had)|by eapply lim_above|done].
Qed.

(** *** A board with twice the memory guessed *)

Definition board_tree : dtree :=
  DNode []
    [(STR_ADDRESS_CELLS, to_be_bytes 2); (STR_SIZE_CELLS, to_be_bytes 2)]
    [DNode (bytes_of "memory@40000000")
       [(STR_REG, [0; 0; 0; 0; 0x40; 0; 0; 0; 0; 0; 0; 0; 0x20; 0; 0; 0])] []].

Definition board_built : mem * Blob :=
  match (t ← write_tree board_tree tree_new; finish zeros (example_pa + KERNEL_BASE) t) with
  | Done r => r
  | Panic _ => (zeros, mkBlob 0 0 (mkHeader 0 0 0 0 0 0 0 0 0))
  end.

(** The firmware left the tree 128 MiB into RAM, and the root table is the first
    frame past the image. *)
Definition board_mem : mem := λ x, board_built.1 (x + KERNEL_BASE).
Definition board_root : Z := 0x40200000.
Definition board_blob : Blob :=
  ok_or board_built.2 (done_or (Err Null)
    (fdt_init board_built.1 0x40000000 0x10000000 KERNEL_BASE example_pa)).

(** The builder writes no reservation block, so the words of the structure block
    are read as one; none of those regions is inside RAM. *)
Definition board_map : MemoryMap := done_or empty_map (memory_map board_built.1 board_blob).

Lemma board_tree_ok : tree_ok 2 board_tree.
Proof.
  unfold board_tree. apply tree_ok_node.
  split; [by split; [constructor|]|]. split.
  - repeat constructor; try (by apply (bool_decide_unpack _); vm_compute); simpl; lia.
  - constructor; [|constructor]. apply tree_ok_node. split; [split; [apply (bool_decide_unpack _); by vm_compute|done]|].
    split; [|done]. repeat constructor; try (by apply (bool_decide_unpack _); vm_compute); simpl; lia.
Qed.

Lemma board_mem_ok : bytes_ok board_mem.
Proof.
  intros x. unfold board_mem, board_built.
  destruct (write_finish zeros (example_pa + KERNEL_BASE) board_tree 2 zeros_ok ltac:(by vm_compute) ltac:(by vm_compute)
    ltac:(by vm_compute) board_tree_ok ltac:(by vm_compute)) as (m' & He & Hm' & _).
  rewrite He. apply Hm'.
Qed.

Definition board_frames : gset Z := free_of virt ∖ {[512]}.

(** The state it starts in, over the memory [mm0] the firmware left. *)
Record board_up (mm0 : mem) (s : machine) : Prop := {
  bu_tables : tables_ok s {[board_root := 3%nat]};
  bu_walk : ∀ x, PagingWalk.walk 3 (memory s) board_root x = None;
  bu_ram : Frames.ram_base s = DEFAULT_RAM_BASE ∧ Frames.ram_size s = DEFAULT_RAM_SIZE ∧ reserved_frames s = 512;
  bu_free : ∀ i, i ∈ free_of s ↔ 513 ≤ i < 65536;
  bu_mem : memory s = zero_range mm0 board_root 4096
}.

Lemma board_starts mm0 :
  bytes_ok mm0 → ∃ s, AddressSpace_new (set_memory mm0 virt) = Done (board_root, s) ∧ board_up mm0 s.
Proof.
  intros Hmm0.  destruct virt_ok as (Hinv & Hb & Hsz & _ & Hres & _).
  set (s0 := set_memory mm0 virt).
  pose proof (inv_set_memory virt mm0 Hinv) as Hinv0. fold s0 in Hinv0.
  assert (H0 : tables_ok s0 ∅).
  { split; [split; [done|apply Hmm0]| |intros f k Hf; by rewrite lookup_empty in Hf].
    split; [intros f k Hf|intros f k i g Hf|intros f f' k k' i i' g Hf]; by rewrite lookup_empty in Hf. }
  assert (Hroom : room 1 s0).
  { exists [from_index virt 512]. split_and!; [apply NoDup_singleton|done|]. intros f ->%list_elem_of_singleton.
    change (is_avail virt (from_index virt 512)). apply is_avail_index, virt_free. lia. }
  assert (Hat : at_free virt s0 (free_of virt)).
  { apply at_free_memory. split; [exact Hinv|split; reflexivity|reflexivity|reflexivity]. }
  assert (H1 : wp AddressSpace_new s0 (λ root s, root = board_root ∧ at_free virt s board_frames ∧
    memory s = zero_range mm0 board_root 4096)).
  { unfold AddressSpace_new. apply wp_bind. apply (wp_alloc_at virt s0 (free_of virt) 512); [done|apply virt_free; lia| |].
    - intros j Hj%virt_free. lia.
    - intros s Hs Hmem. apply wp_expectM with board_root; [by rewrite virt_index|]. rewrite virt_index in Hmem.
      split; [reflexivity|]. split; [exact Hs|exact Hmem]. }
  apply wp_elim in H1 as (root & s & He & -> & [Hs [Hb' Hs'] Hr' Hf] & Hmem).
  exists s. split; [exact He|].
  assert (H2 : wp AddressSpace_new s0 (λ root s, tables_ok s {[root := 3%nat]} ∧ ∀ x, PagingWalk.walk 3 (memory s) root x = None)).
  { apply (wp_new s0 ∅); [exact H0|exact Hroom|]. intros root s1 _ Hok Hw _ _ _ _.
    rewrite insert_empty in Hok. split; [exact Hok|exact Hw]. }
  unfold wp in H2. rewrite He in H2. destruct H2 as [Hok Hw]. clear He.
  split; [exact Hok|exact Hw|split_and!; congruence| |exact Hmem].
  intros i. rewrite Hf. unfold board_frames. rewrite elem_of_difference, virt_free, elem_of_singleton. lia.
Qed.

Section board.
Context (mm0 : mem) (s : machine) (Hs : board_up mm0 s).

Lemma board_index i : from_index s i = 0x40000000 + i * 4096.
Proof. unfold from_index. by rewrite (proj1 (bu_ram _ _ Hs)). Qed.

Lemma board_avail i : 513 ≤ i < 65536 → fa_avail s (0x40000000 + i * 4096).
Proof. intros Hi. rewrite <-board_index. apply is_avail_index. by apply (bu_free _ _ Hs). Qed.

Lemma board_room_below n : (n ≤ 1000)%nat → room_below example_pa n s.
Proof.
  intros Hn. exists (List.map (λ i, 0x40000000 + i * 4096) (range 513 (513 + Z.of_nat n))). split_and!.
  - apply NoDup_fmap_2_strong; [|apply NoDup_range]. intros x y _ _ Hxy. lia.
  - rewrite length_map, length_range. lia.
  - intros f (i & -> & Hi%elem_of_range)%list_elem_of_fmap. split; [apply board_avail; lia|].
    unfold example_pa. lia.
Qed.

Lemma board_high : high_view s = λ va, zero_range mm0 board_root 4096 (va - KERNEL_BASE).
Proof. unfold high_view. by rewrite (bu_mem _ _ Hs). Qed.

End board.

Section board_map.
Context (s : machine) (Hs : board_up board_mem s).

Lemma board_reads :
  fdt_init (high_view s) 0x40000000 0x10000000 KERNEL_BASE example_pa = Done (Ok board_blob) ∧
  memory_map (high_view s) board_blob = Done board_map.
Proof. rewrite (board_high _ _ Hs). clear. split; vm_compute; reflexivity. Qed.

Lemma board_mappable : mappable s {[board_root := 3%nat]} board_root (0x50000000 + KERNEL_BASE) 0x50000000 0x10000000.
Proof.
  split; [apply Hs|by rewrite lookup_singleton_eq|by vm_compute|by vm_compute|by vm_compute| |].
  - intros o _ l d. cbn [fa_mem frames_alloc]. by rewrite (bu_walk _ _ Hs).
  - destruct (board_room_below _ _ Hs 256 ltac:(lia)) as (l & Hl & Hn & Hav).
    exists l. split; [exact Hl|]. split; [rewrite Hn; by vm_compute|]. intros f Hf. by apply Hav.
Qed.

Lemma board_regions : Forall region_ok (reserved board_map).
Proof.
  assert (Hl : ∃ l, reserved board_map = l) by eauto. destruct Hl as [l Hl]. rewrite Hl.
  vm_compute in Hl. rewrite <-Hl. repeat constructor; cbn [fst snd]; unfold FRAME_SIZE; lia.
Qed.

Lemma board_adoptable : adoptable board_root {[board_root := 3%nat]} s board_blob board_map.
Proof.
  destruct (bu_ram _ _ Hs) as (Hb & Hsz & Hres). destruct board_reads as [Hi Hm].
  assert (Hpa : blob_pa board_blob = example_pa) by by vm_compute.
  assert (Hn : totalsize (header board_blob) = 182) by by vm_compute.
  assert (Hold : old_end s = 0x50000000) by (unfold old_end; by rewrite Hb, Hsz).
  assert (Hnew : new_end s board_map = 0x60000000) by (unfold new_end; by rewrite Hb).
  split.
  - apply Hs.
  - rewrite Hb, Hsz, Hpa. exact Hi.
  - clear. split; vm_compute; reflexivity.
  - rewrite Hold, Hb. split; by vm_compute.
  - exact Hm.
  - rewrite Hb. split; by vm_compute.
  - unfold inside_ram. rewrite Hb, Hsz, Hpa, Hn. split; [split|]; by vm_compute.
  - intros i. unfold touches. rewrite (board_index _ _ Hs), Hpa, Hn, (bu_free _ _ Hs). unfold example_pa, FRAME_SIZE. lia.
  - intros _. rewrite Hold, Hnew, Hpa. split; [exact board_mappable|].
    apply (room_below_weaken _ 256); [by vm_compute|]. apply (board_room_below _ _ Hs). lia.
  - exact board_regions.
  - rewrite Hres, MAX_FRAMES_val. lia.
Qed.
End board_map.

Lemma memory_map_adopted_witness :
  ∃ s, board_up board_mem s ∧ wp (adopt_memory_map board_root board_blob) s (λ _ m',
    translation (memory m') board_root (0x5fffffff + KERNEL_BASE) = Some 0x5fffffff).
Proof.
  destruct (board_starts board_mem board_mem_ok) as (s & _ & Hs). exists s. split; [exact Hs|].
  destruct (bu_ram _ s Hs) as (Hb & Hsz & _).
  assert (Hold : old_end s = 0x50000000) by (unfold old_end; rewrite Hb, Hsz; reflexivity).
  assert (Hnew : new_end s board_map = 0x60000000) by (unfold new_end; rewrite Hb; reflexivity).
  eapply wp_mono; [exact (memory_map_adopted _ _ s _ _ (board_adoptable s Hs))|].
  intros u m' (_ & _ & _ & [Hr _] & _). rewrite Hold, Hnew in Hr.
  exact (Hr 0x0fffffff ltac:(lia)).
Defined.

(** ** What stays in the pool *)

(** C40: two ways memory that is not the kernel's stays with the allocator.  A tree
    whose memory map is empty is given up before anything is reserved, so every
    frame of the blob is free afterwards and one of them is handed out in the end;
    and a region that shares a frame with the blob is refused whole, so every
    other frame of it that was free is free afterwards. *)
Theorem reservations_lost root m b :
  let blob := (blob_pa b, totalsize (header b)) in
  alloc_inv m → 0 ≤ reserved_frames m → reserved_frames m + 3 * MAX_FRAMES ≤ u64_max →
  region_ok blob → inside_ram m blob.1 blob.2 → (∀ i, touches m blob.1 blob.2 i → i ∈ free_of m) →
  (∀ map, memory_map (high_view m) b = Done map → map_size map = 0 →
     wp (adopt_memory_map root b) m (λ _ m', m' = m ∧ ∀ i, touches m' blob.1 blob.2 i → i ∈ free_of m')) ∧
  (∀ e i, region_ok e → touches m blob.1 blob.2 i → touches m e.1 e.2 i →
     wp (reserve_all [blob; e] 0 []) m (λ _ m', ∀ j, touches m e.1 e.2 j → ¬ touches m blob.1 blob.2 j →
       j ∈ free_of m → j ∈ free_of m')).
Proof.
  intros blob Hm Hr0 Hr H1 Hin Hall. split.
  { intros map Hmap Hsz. unfold adopt_memory_map. apply wp_bind, wp_gets, wp_bind.
    eapply wp_lift; [exact Hmap|]. rewrite Hsz. by apply wp_ret. }
  intros e i He Hi1 Hi2. assert (HF : 0 < MAX_FRAMES) by by rewrite MAX_FRAMES_val.
  eapply wp_mono.
  { apply wp_reserve_all; [done|constructor; [done|by constructor]|done|simpl; lia|lia|simpl; lia]. }
  intros n m' (_ & _ & _ & Htk) j Hj Hnj Hf.
  inversion Htk as [|? ? ? X1 ? He1 Htk2]; subst. inversion Htk2 as [|? ? ? X2 ? He2 Htk3]; subst.
  inversion Htk3; subst.
  inversion He1 as [? _ _ Hx1|Hno]; subst.
  2: { exfalso. destruct Hno as [|(k & Hk & Hnk)]; [done|]. by apply Hnk, Hall. }
  inversion He2 as [? _ Hall2 _|_]; subst; [|by apply Hx1].
  exfalso. by apply Hall2 in Hi2 as [_ []]%Hx1.
Qed.

Lemma reservations_lost_witness :
  ∃ s, board_up board_mem s ∧ wp (reserve_all [(example_pa, 182); (example_pa, 0x2000)] 0 []) s (λ _ m', 0x8001 ∈ free_of m').
Proof.
  destruct (board_starts board_mem board_mem_ok) as (s & _ & Hs). exists s. split; [exact Hs|].
  destruct (bu_ram _ s Hs) as (Hb & Hsz & Hres).
  assert (Ht : ∀ n i, touches s example_pa n i ↔ 0x40000000 + i * 4096 < 0x48000000 + n ∧ 0x48000000 < 0x40000000 + i * 4096 + 4096).
  { intros n i. unfold touches. rewrite (board_index _ s Hs). reflexivity. }
  destruct (reservations_lost 0 s (mkBlob example_pa 0 (mkHeader 182 0 0 0 0 0 0 0 0))) as [_ Ho].
  - apply Hs.
  - lia.
  - rewrite Hres, MAX_FRAMES_val. lia.
  - unfold region_ok, FRAME_SIZE, example_pa. cbn. lia.
  - unfold inside_ram. rewrite Hb, Hsz. unfold DEFAULT_RAM_BASE, DEFAULT_RAM_SIZE, example_pa. cbn. lia.
  - cbn [fst snd blob_pa totalsize header]. intros i. rewrite Ht, (bu_free _ s Hs). lia.
  - eapply wp_mono; [apply (Ho (example_pa, 0x2000) 0x8000)|].
    + unfold region_ok, FRAME_SIZE, example_pa. cbn. lia.
    + cbn [fst snd blob_pa totalsize header]. apply Ht. lia.
    + cbn [fst snd]. apply Ht. lia.
    + intros n m' Hj. apply Hj; cbn [fst snd blob_pa totalsize header]; [apply Ht; lia| |apply (bu_free _ s Hs); lia].
      intros Hx. apply Ht in Hx. lia.
Defined.
