(* ===== verification/DeviceMap.v ===== *)
(** * DeviceMap: mapping one device window after another

    What [map_device] does with a window it can map, and what stays true of the
    machine while the windows of a list are mapped one by one: there are frames
    for the rest, the windows mapped before stay mapped, and memory that holds
    neither a table nor a free frame keeps its contents. *)

From S2P Require Import Prelude Memory FrameAlloc Paging Frames FramesSpec FramesBoot.
From S2P Require Import PagingWalk PagingTables PagingMap PagingRange Fdt Boot.

(** The pages a window lies in. *)
Definition first_page (w : Region) : Z := Fdt.base w / PAGE_SIZE * PAGE_SIZE.
Definition past_page (w : Region) : Z := div_ceil (Fdt.base w + Fdt.size w) PAGE_SIZE * PAGE_SIZE.
Definition span (w : Region) : Z := past_page w - first_page w.

(** It is among the devices that are mapped from the start. *)
Definition known (w : Region) : bool := in_window (first_page w) && (past_page w <=? DEVICE_BASE + DEVICE_SIZE).

(** A window of less than 2 MiB that does not straddle those. *)
Record fits (w : Region) : Prop := {
  ft_base : 0 ≤ Fdt.base w;
  ft_size : 0 < Fdt.size w < BLOCK_2MIB - 2 * PAGE_SIZE;
  ft_top : Fdt.base w + Fdt.size w ≤ 2 ^ 48 - 2 * PAGE_SIZE;
  ft_apart : known w = false → in_window (first_page w) = false ∧ in_window (past_page w - 1) = false
}.

Lemma fits_bounds w :
  fits w → 0 ≤ first_page w ∧ first_page w mod 4096 = 0 ∧ past_page w ≤ 281474976710656 - 4096 ∧
  0 < span w < BLOCK_2MIB ∧ span w mod 4096 = 0 ∧ Fdt.base w + Fdt.size w ≤ past_page w.
Proof.
  intros [Hb Hs Ht _]. unfold span, past_page, first_page. rewrite div_ceil_spec by (unfold PAGE_SIZE; lia).
  change (2 ^ 48) with 281474976710656 in *. unfold BLOCK_2MIB, PAGE_SIZE in *. zdiv.
Qed.

(** The root reaches every byte of the window's pages, as a device. *)
Definition reached (m : machine) (root : Z) (w : Region) : Prop :=
  ∀ o, 0 ≤ o < span w →
    maps (memory m) root (first_page w + KERNEL_BASE + o) (first_page w + o) Attributes.device.

Definition window_tables (w : Region) : nat := tables_for (first_page w + KERNEL_BASE) (first_page w) (span w).

(** Frames the windows of a list may need for tables. *)
Definition needs (ws : list Region) : nat := sum_list_with window_tables ws.

Section windows.
Context (root : Z) (kept : Z → Prop).

(** Ready to map the windows [ws], which fit, while the bytes [kept] stay. *)
Record prepared (m : machine) (T : tables) (ws : list Region) : Prop := {
  pr_tables : tables_ok m T;
  pr_root : T !! root = Some 3%nat;
  pr_kept : ∀ f x, T !! f ≠ None ∨ fa_avail m f → kept x → ¬ (f ≤ x < f + 4096);
  pr_free : ∀ w, w ∈ ws → ∀ o, 0 ≤ o < span w → no_block (memory m) root (first_page w + KERNEL_BASE + o);
  pr_room : room (needs ws) m
}.

Lemma prepared_mappable m T w ws :
  fits w → prepared m T (w :: ws) →
  mappable m T root (first_page w + KERNEL_BASE) (first_page w) (span w).
Proof.
  intros Hw [Ht Hr _ Hf Hn]. destruct (fits_bounds w Hw) as (H0 & Hal & Htop & Hs & Hsal & _).
  unfold BLOCK_2MIB in *. unfold span in *. split; [done|done| | | | |].
  - change (2 ^ 48) with 281474976710656. lia.
  - unfold KERNEL_BASE. split; [lia|]. split; [lia|zdiv].
  - change (2 ^ 48) with 281474976710656. lia.
  - intros o Ho. apply (Hf w); [left|done].
  - eapply room_weaken; [|exact Hn]. unfold needs. simpl. unfold window_tables, span. lia.
Qed.

(** Two addresses of mapped pages are the same page only with the same frame. *)
Lemma same_page w w' o o' :
  fits w → fits w' → 0 ≤ o < span w → 0 ≤ o' < span w' →
  page_of (first_page w + KERNEL_BASE + o) = page_of (first_page w' + KERNEL_BASE + o') →
  0 ≤ first_page w + o - first_page w' < span w'.
Proof.
  intros Hw Hw' Ho Ho'. destruct (fits_bounds w Hw) as (H0 & Hal & Htop & Hs & Hsal & _).
  destruct (fits_bounds w' Hw') as (H0' & Hal' & Htop' & Hs' & Hsal' & _).
  unfold page_of, KERNEL_BASE, span in *. change (2 ^ 36) with 68719476736. zdiv.
Qed.

(** An address of [w'] is one of the pages of [w], or none of them. *)
Lemma page_cases w w' o' (P : Prop) :
  fits w → fits w' → 0 ≤ o' < span w' →
  (∀ o, 0 ≤ o < span w → first_page w' + o' = first_page w + o → P) →
  ((∀ o, 0 ≤ o < span w → page_of (first_page w' + KERNEL_BASE + o') ≠ page_of (first_page w + KERNEL_BASE + o)) → P) →
  P.
Proof.
  intros Hw Hw' Ho' Hin Hout.
  destruct (decide (0 ≤ first_page w' + o' - first_page w < span w)) as [Hi|Hn].
  - by apply (Hin _ Hi); lia.
  - apply Hout. intros o Ho He. apply Hn. by apply (same_page w' w o' o).
Qed.

(** What mapping the windows [ws] does to the machine. *)
Record mapped (m : machine) (T : tables) (ws : list Region) (m' : machine) (T' : tables) : Prop := {
  mo_sub : T ⊆ T';
  mo_reached : ∀ w, w ∈ ws → reached m' root w;
  mo_still : ∀ w, fits w → reached m root w → reached m' root w;
  mo_kept : ∀ x, kept x → memory m' x = memory m x
}.

Lemma mapped_nil m T : mapped m T [] m T.
Proof. split; [done|by intros w ?%elem_of_nil|done|done]. Qed.

Lemma mapped_app m T ws m1 T1 ws' m2 T2 :
  Forall fits ws → mapped m T ws m1 T1 → mapped m1 T1 ws' m2 T2 → mapped m T (ws ++ ws') m2 T2.
Proof.
  intros Hws [H1 H2 H3 H4] [G1 G2 G3 G4]. rewrite Forall_forall in Hws. split.
  - by trans T1.
  - intros w [Hw|Hw]%elem_of_app; [apply G3; [by apply Hws|by apply H2]|by apply G2].
  - intros w Hw Hr. by apply G3, H3.
  - intros x Hx. by rewrite G4, H4.
Qed.

Lemma prepared_step m T w ws m' T' :
  Forall fits (w :: ws) → prepared m T (w :: ws) →
  range_mapped (window_tables w) m T root (first_page w + KERNEL_BASE) (first_page w) (span w) Attributes.device m' T' →
  prepared m' T' ws ∧ mapped m T [w] m' T'.
Proof.
  intros [Hw Hws]%Forall_cons [Ht Hr Hk Hf Hn] [Hx Hmaps Hother Hpages].
  assert (Hfree : ∀ f, T' !! f ≠ None ∨ fa_avail m' f → T !! f ≠ None ∨ fa_avail m f).
  { intros f [Hf'|Hf']; [|right; by apply (x_avail _ _ _ _ _ Hx) in Hf' as [? _]].
    destruct (T' !! f) as [k|] eqn:HT'; [|done]. destruct (T !! f) eqn:HT; [by left|right].
    by apply (x_new _ _ _ _ _ Hx f k). }
  destruct (fits_bounds w Hw) as (_ & _ & _ & Hspan & _). split; [split|split].
  - apply Hx.
  - by eapply lookup_weaken; [|apply Hx].
  - intros f x Hf'. apply Hk. by apply Hfree.
  - intros w' Hin o Ho. rewrite Forall_forall in Hws.
    apply (page_cases w w' o); [done|by apply Hws|done| |].
    + intros o1 Ho1 He. replace (first_page w' + KERNEL_BASE + o) with (first_page w + KERNEL_BASE + o1) by lia.
      exact (Hpages (proj2 Hspan) o1 Ho1).
    + intros Hne l d.
      replace (PagingWalk.walk 3 (memory m') root (first_page w' + KERNEL_BASE + o))
        with (PagingWalk.walk 3 (memory m) root (first_page w' + KERNEL_BASE + o))
        by (symmetry; exact (Hother root _ Hr (or_intror Hne))).
      exact (Hf w' ltac:(by right) o Ho l d).
  - apply (x_room _ _ _ _ _ Hx). exact Hn.
  - apply Hx.
  - intros ? ->%list_elem_of_singleton o Ho. by apply Hmaps.
  - intros w' Hw' Hre o Ho. apply (page_cases w w' o); [done|done|done| |].
    + intros o1 Ho1 He. replace (first_page w' + KERNEL_BASE + o) with (first_page w + KERNEL_BASE + o1) by lia.
      rewrite He. by apply Hmaps.
    + intros Hne. destruct (Hre o Ho) as (l & d & Hwalk & Hl). exists l, d. split; [|done].
      rewrite <-Hwalk. exact (Hother root _ Hr (or_intror Hne)).
  - intros x Hkx. apply (x_mem _ _ _ _ _ Hx). intros f k Hf'. apply Hk; [|done]. apply Hfree. left. by rewrite Hf'.
Qed.

(** [map_device] does nothing for a window of the first devices; any other one
    is mapped. *)
Lemma wp_map_window m T w Q :
  fits w → (known w = false → mappable m T root (first_page w + KERNEL_BASE) (first_page w) (span w)) →
  (known w = true → ∀ r, Q r m) →
  (known w = false → ∀ r m' T',
     range_mapped (window_tables w) m T root (first_page w + KERNEL_BASE) (first_page w) (span w) Attributes.device m' T' →
     Q r m') →
  wp (map_device root (Fdt.base w) (Fdt.size w)) m Q.
Proof.
  intros Hw Hm Hno Hyes.
  destruct (fits_bounds w Hw) as (H0 & Hal & Htop & Hs & Hsal & Hend). pose proof (ft_size _ Hw) as [? _].
  unfold map_device. change (2 ^ 48) with 281474976710656 in *.
  apply wp_bind. eapply wp_lift; [apply add64_ok; lia|]. cbv zeta. fold (first_page w).
  apply wp_bind. eapply wp_lift; [apply mul64_ok; fold (past_page w); lia|]. fold (past_page w). fold (known w).
  destruct (known w) eqn:Hk; [by apply wp_ret, Hno|].
  destruct (ft_apart _ Hw Hk) as [Ha1 Ha2]. rewrite Ha1. apply wp_bind.
  unfold span in Hs. apply wp_bind. eapply wp_lift; [apply sub64_ok; lia|]. apply wp_assertM; [by rewrite Ha2|].
  apply wp_bind. eapply wp_lift; [apply add64_ok; unfold KERNEL_BASE; lia|].
  apply wp_bind. eapply wp_lift; [apply sub64_ok; lia|]. fold (span w). apply wp_bind.
  apply (wp_map_range m T).
  - by eapply Forall_forall; [apply attributes_ok|apply (bool_decide_unpack _); vm_compute].
  - by apply Hm.
  - intros m' T' Hr. apply wp_ret. by apply (Hyes eq_refl _ m' T').
Qed.

Lemma wp_map_device m T w ws Q :
  Forall fits (w :: ws) → prepared m T ((if known w then [] else [w]) ++ ws) →
  (∀ r m' T', prepared m' T' ws → mapped m T (if known w then [] else [w]) m' T' → Q r m') →
  wp (map_device root (Fdt.base w) (Fdt.size w)) m Q.
Proof.
  intros Hall Hp HQ. pose proof Hall as [Hw _]%Forall_cons. apply (wp_map_window m T w); [done| | |]; intros Hk; rewrite Hk in Hp, HQ.
  - by apply (prepared_mappable m T w ws).
  - intros r. apply (HQ r m T); [done|apply mapped_nil].
  - intros r m' T' Hr. destruct (prepared_step m T w ws m' T' Hall Hp Hr) as [Hp' Hone]. by apply (HQ _ m' T').
Qed.
End windows.
