(* ===== verification/Startup.v ===== *)
(** * Startup: what the device tree adds to the kernel's map

    Between the tables of [build_tables] and the first task the kernel reads the
    device tree: the physical map is extended to the RAM it describes, what it
    says is taken is reserved, and the window of every device found is mapped.
    [adopt_tree] is what that does to memory, for whatever the tree says, and
    [wp_adopt_tree] is the map it leaves: the regions of the layout, the rest of
    RAM, and the windows, page by page, and nothing else. *)

From S2P Require Import Prelude Memory FrameAlloc Paging Frames FramesSpec FramesBoot.
From S2P Require Import PagingWalk PagingTables PagingMap PagingRange PagingProps Fdt Boot BootSpec BootProps DeviceMap KernelMap.

(** ** What the tree says *)

(** The bank of RAM it describes, the regions that are taken, and the windows of
    the devices, in the order they are looked for. *)
Record tree_says : Type := mkSays {
  says_ram : option (Z * Z);
  says_taken : list (Z * Z);
  says_windows : list Region
}.

(** [adopt_memory_map], less the reading, the lines it prints and the assertions
    at its end. *)
Definition adopt_ram (root : Z) (t : tree_says) : M machine unit :=
  match says_ram t with
  | None => mret tt
  | Some (base, size) =>
    m ← getS;
    old_end ← lift (add64 (Frames.ram_base m) (Frames.ram_size m));
    new_end ← lift (add64 base (Z.min size MAX_RAM));
    _ ← extend_physical_map root old_end new_end;
    _ ← Frames.adopt base size;
    _ ← reserve_all (says_taken t) 0 [];
    mret tt
  end.

(** The calls of [map_device] in [discover_devices] and [virtio::probe]. *)
Fixpoint map_windows (root : Z) (ws : list Region) : M machine unit :=
  match ws with
  | [] => mret tt
  | w :: ws' => _ ← map_device root (Fdt.base w) (Fdt.size w); map_windows root ws'
  end.

Definition adopt_tree (root : Z) (t : tree_says) : M machine unit :=
  _ ← adopt_ram root t; map_windows root (says_windows t).

(** *** It is what [adopt_memory_map] does *)

Lemma run_bind {S A B} (op : M S A) (k : A → M S B) s a s' : op s = Done (a, s') → (op ≫= k) s = k a s'.
Proof. unfold mbind, M_bind. by intros ->. Qed.
Lemma pc_run {S A} (op : M S A) s (Q : A → S → Prop) : (∀ a s', op s = Done (a, s') → Q a s') → pc op s Q.
Proof. unfold pc. destruct (op s) as [[a s']|]; auto. Qed.

Lemma reserve_all_log l n log log' m :
  match reserve_all l n log m, reserve_all l n log' m with
  | Done (_, m1), Done (_, m2) => m1 = m2
  | Panic _, Panic _ => True
  | _, _ => False
  end.
Proof.
  revert n log log' m. induction l as [|[base size] l IH]; intros n log log' m; cbn [reserve_all]; [done|].
  unfold mbind, M_bind, lift. destruct (reserve_range base size m) as [[[k|e] m1]|]; [|apply IH|done].
  destruct (add64 n k); [apply IH|done].
Qed.

Lemma reads_is_taken a : reads (is_taken a).
Proof.
  unfold is_taken. apply steady_bind; [apply steady_gets|intros m]. apply steady_bind; [apply steady_lift|intros e].
  destruct (negb _); [apply steady_ret|]. intros s x s'. unfold with_allocator, zoom.
  assert (Hr : reads (Bitmap.is_set ((a - ram_base m) / FRAME_SIZE))).
  { unfold Bitmap.is_set, Bitmap.load. apply steady_bind; [|intros; apply steady_ret].
    intros b y b'. by destruct (Bitmap.bits b !! _); [intros [= _ <-]|]. }
  destruct (Bitmap.is_set _ (bitmap s)) as [[y b']|] eqn:He; [|done]. intros [= _ <-].
  rewrite (Hr _ _ _ He). by destruct s as [[] ?].
Qed.

(** The two assertions about the blob look, and are all that [adopt_ram] leaves
    out that could change the outcome. *)
Lemma adopt_ram_read root b map m ws :
  memory_map (high_view m) b = Done map → map_size map ≠ 0 →
  pc (adopt_memory_map root b) m (λ _ m',
    adopt_ram root (mkSays (Some (map_base map, map_size map)) (reserved map) ws) m = Done (tt, m')).
Proof.
  intros Hmap Hsize. unfold adopt_memory_map. pc_step. pc_step. pc_step. apply pc_lift. intros map' Hm.
  assert (map' = map) as -> by (rewrite Hmap in Hm; by injection Hm). rewrite (proj2 (Z.eqb_neq _ _) Hsize).
  pc_step. pc_step. pc_step. apply pc_lift. intros old Hold. pc_step. apply pc_lift. intros new Hnew.
  pc_step. apply pc_run. intros [] m1 H1. pc_step. apply pc_run. intros o m2 H2. pc_step. pc_step. pc_step.
  apply pc_run. intros [n log] m3 H3.
  assert (H3' : ∃ p, reserve_all (reserved map) 0 [] m2 = Done (p, m3)).
  { match type of H3 with reserve_all _ _ ?l _ = _ => pose proof (reserve_all_log (reserved map) 0 l [] m2) as Hl end.
    rewrite H3 in Hl. destruct (reserve_all _ 0 [] m2) as [[p m3']|]; [|done]. subst. by exists p. }
  destruct H3' as [p H3']. apply (steady_pc (λ s, s)).
  { repeat (apply steady_bind; [first [apply reads_is_taken|apply steady_assertM|apply steady_lift]|intros ?]). apply steady_ret. }
  intros _ m' ->. unfold adopt_ram. cbn [says_ram says_taken].
  rewrite (run_bind _ _ _ _ _ (eq_refl : getS m = Done (m, m))).
  rewrite (run_bind (lift _) _ m old m) by (by unfold lift; rewrite Hold).
  rewrite (run_bind (lift _) _ m new m) by (by unfold lift; rewrite Hnew).
  by rewrite (run_bind _ _ _ _ _ H1), (run_bind _ _ _ _ _ H2), (run_bind _ _ _ _ _ H3').
Qed.

(** ** Frames enough *)

(** Frames that hold a byte of a region to be reserved, at most. *)
Definition claimed (e : Z * Z) : nat := Z.to_nat (e.2 / FRAME_SIZE + 2).

Lemma room_size n m : alloc_inv m → (room n m ↔ (n ≤ base.size (free_of m))%nat).
Proof.
  intros Hm. split.
  - intros (l & Hl & <- & Hav). change (base.size (free_of m)) with (length (elements (free_of m))).
    rewrite <-(length_fmap (from_index m) (elements (free_of m))). apply submseteq_length, NoDup_submseteq; [done|].
    intros f (i & -> & Hi)%Hav. apply list_elem_of_fmap. exists i. split; [done|]. by apply elem_of_elements.
  - intros Hn. eapply room_weaken; [exact Hn|]. exists (from_index m <$> elements (free_of m)). split_and!.
    + apply NoDup_fmap_2_strong; [|apply NoDup_elements]. intros i j _ _. apply from_index_inj.
    + by rewrite length_fmap.
    + intros f (i & -> & Hi)%list_elem_of_fmap. apply is_avail_index. by apply elem_of_elements.
Qed.

(** A run of indices taken out leaves the rest. *)
Lemma size_without (X X' : gset Z) lo hi :
  (∀ i, i ∈ X → i ∈ X' ∨ lo ≤ i < hi) → (base.size X ≤ base.size X' + Z.to_nat (hi - lo))%nat.
Proof.
  intros H. rewrite <-Bitmap.size_span. etrans; [apply (subseteq_size _ (X' ∪ Bitmap.span lo hi))|].
  - intros i Hi. apply elem_of_union. rewrite Bitmap.elem_of_span. by apply H.
  - rewrite size_union_alt. apply Nat.add_le_mono_l, subseteq_size. set_solver.
Qed.

Lemma takes_size m e X X' : alloc_inv m → 0 < e.2 → takes m e X X' → (base.size X ≤ base.size X' + claimed e)%nat.
Proof.
  intros Hm He [X1 Hin _ Hx|_]; [|lia]. pose proof (λ i, touches_span m e.1 e.2 i Hm Hin He) as Ht. cbv zeta in Ht.
  destruct (inv_base _ Hm) as [Hb0 _]. pose proof (proj1 Hin).
  rewrite div_ceil_spec in Ht by (unfold FRAME_SIZE; lia).
  set (lo := (e.1 / FRAME_SIZE * FRAME_SIZE - ram_base m) / FRAME_SIZE) in Ht.
  set (n := ((e.1 + e.2 + FRAME_SIZE - 1) / FRAME_SIZE * FRAME_SIZE - e.1 / FRAME_SIZE * FRAME_SIZE) / FRAME_SIZE) in Ht.
  etrans; [apply (size_without X X1 lo (lo + n))|].
  - intros i Hi. destruct (decide (lo ≤ i < lo + n)) as [|Hn]; [by right|left]. apply Hx. by rewrite Ht.
  - unfold claimed. assert (n ≤ e.2 / FRAME_SIZE + 2); [|lia].
    unfold n. rewrite <-Z.mul_sub_distr_r, Z.div_mul by done. unfold FRAME_SIZE. zdiv.
Qed.

Lemma takes_each_size m l X X' :
  alloc_inv m → Forall (λ e, 0 < e.2) l → takes_each m l X X' → (base.size X ≤ base.size X' + sum_list_with claimed l)%nat.
Proof.
  intros Hm Hl H. induction H as [|e l X X1 X' He _ IH]; [lia|]. apply Forall_cons in Hl as [Hp Hl].
  apply takes_size in He; [|done..]. specialize (IH Hl). simpl. lia.
Qed.

(** Frames past the end of a smaller RAM are gone. *)
Lemma resized_size m m' n : alloc_inv m → 0 ≤ n → resized m m' n →
  (base.size (free_of m) ≤ base.size (free_of m') + Z.to_nat (frame_count m - rounded n / FRAME_SIZE))%nat.
Proof.
  intros Hm Hn (_ & [[Hs Hf]|(_ & -> & _)]); [|lia]. apply size_without. intros i Hi. rewrite Hf.
  pose proof (free_of_range _ _ Hm Hi). unfold frame_count at 1. rewrite Hs.
  destruct (Z.lt_ge_cases i (rounded n / FRAME_SIZE)); [left; tauto|right; lia].
Qed.

(** ** The map it leaves *)

(** The rest of RAM, where the tree describes more than was guessed. *)
Definition ram_added (ly : layout) (t : tree_says) : list region :=
  match says_ram t with
  | Some (base, size) =>
    let old_end := Paging.ram_base ly + Paging.ram_size ly in
    let new_end := base + Z.min size MAX_RAM in
    if new_end <=? old_end then [] else [mkRegion old_end (new_end - old_end) Attributes.kernel_data]
  | None => []
  end.

(** The windows that are not mapped from the start, in whole pages. *)
Definition unknown (ws : list Region) : list Region := filter (λ w, known w = false) ws.
Definition window_region (w : Region) : region := mkRegion (first_page w) (span w) Attributes.device.

Definition started (ly : layout) (t : tree_says) : list region :=
  (regions ly ++ ram_added ly t) ++ map window_region (unknown (says_windows t)).

(** [fits], to be computed. *)
Definition fitsb (w : Region) : bool :=
  (0 <=? Fdt.base w) && (0 <? Fdt.size w) && (Fdt.size w <? BLOCK_2MIB - 2 * PAGE_SIZE) &&
  (Fdt.base w + Fdt.size w <=? 2 ^ 48 - 2 * PAGE_SIZE) &&
  (known w || negb (in_window (first_page w)) && negb (in_window (past_page w - 1))).

Lemma fitsb_all ws : forallb fitsb ws = true → Forall fits ws.
Proof.
  intros H. rewrite Forall_forall. intros w Hw. rewrite forallb_forall in H. specialize (H w (proj1 (list_elem_of_In _ _) Hw)).
  unfold fitsb in H. rewrite !andb_true_iff, orb_true_iff, andb_true_iff, !negb_true_iff in H.
  destruct H as [[[[H1 H2] H3] H4] H5]. split; [lia|lia|lia|]. intros Hk. rewrite Hk in H5. by destruct H5.
Qed.

(** Frames for the tables of all this, those that are reserved, and those past
    the end of a RAM smaller than guessed. *)
Definition ram_needs (ly : layout) (t : tree_says) : nat :=
  match says_ram t with
  | Some (_, size) =>
    tables_needed KERNEL_BASE (ram_added ly t) +
    (Z.to_nat (Paging.ram_size ly / FRAME_SIZE - rounded size / FRAME_SIZE) + sum_list_with claimed (says_taken t))
  | None => 0
  end.
Definition tree_needs (ly : layout) (t : tree_says) : nat := ram_needs ly t + needs (unknown (says_windows t)).

(** RAM that starts where it was guessed, ten reservations as [MemoryMap] can
    hold, and windows that [map_device] takes and that lie outside everything
    else that is mapped. *)
Record tree_fits (ly : layout) (t : tree_says) : Prop := {
  tf_ram : match says_ram t with
           | Some (base, size) => base = Paging.ram_base ly ∧ 0 ≤ size ∧ Z.min size MAX_RAM mod 4096 = 0 ∧
               base + Z.min size MAX_RAM ≤ 2 ^ 48 - 4096
           | None => True
           end;
  tf_taken : Forall BootSpec.region_ok (says_taken t) ∧ (length (says_taken t) ≤ 10)%nat;
  tf_windows : Forall fits (says_windows t);
  tf_apart : ∀ w p, w ∈ unknown (says_windows t) → inside p (window_region w) = true →
    region_at (regions ly ++ ram_added ly t) p = None
}.

Lemma region_at_both l l' p :
  region_at (l ++ l') p = match region_at l p with Some a => Some a | None => region_at l' p end.
Proof. induction l as [|x l IH]; simpl; [done|]. by destruct (inside p x). Qed.

Lemma windows_device ws p a : region_at (map window_region ws) p = Some a → a = Attributes.device.
Proof. induction ws as [|w ws IH]; simpl; [done|]. destruct (inside p _); [by intros [= <-]|done]. Qed.

Lemma added_attrs ly t p a : region_at (ram_added ly t ++ map window_region (unknown (says_windows t))) p = Some a →
  a = Attributes.kernel_data ∨ a = Attributes.device.
Proof.
  rewrite region_at_both. destruct (region_at (ram_added ly t) p) as [a'|] eqn:Hr; [|by intros ?%windows_device; right].
  intros [= <-]. unfold ram_added in Hr. destruct (says_ram t) as [[b s]|]; [|done]. destruct (_ <=? _); [done|].
  cbn [region_at] in Hr. destruct (inside p _); [|done]. injection Hr as <-. by left.
Qed.

Lemma past_ram ly p : layout_ok ly → Paging.ram_base ly + Paging.ram_size ly ≤ p → region_at (regions ly) p = None.
Proof.
  intros [_ Hd Ht Hr Hda Hram] Hp. unfold regions. cbn [region_at].
  rewrite !(proj2 (inside_false _ _)) by (cbn [r_base r_size]; unfold DEVICE_BASE, DEVICE_SIZE in *; lia). done.
Qed.

(** *** One more region, and the rest of RAM *)

Section adopt.
Context (root : Z) (ly : layout) (t : tree_says).

(** [root] is a table of its own and maps the regions [rs] in the high half. *)
Record maps_regions (m : machine) (T : tables) (rs : list region) : Prop := {
  mr_tables : tables_ok m T;
  mr_root : T !! root = Some 3%nat;
  mr_map : kmap (memory m) root KERNEL_BASE rs
}.

Lemma wp_lay_more m T rs r j Q :
  maps_regions m T rs → KernelMap.region_ok r → (∀ p, inside p r = true → region_at rs p = None) →
  room (tables_for (r_base r + KERNEL_BASE) (r_base r) (r_size r) + j) m →
  (∀ m' T', maps_regions m' T' (rs ++ [r]) → ram_of m' = ram_of m → room j m' → Q tt m') →
  wp (map_range root (r_base r + KERNEL_BASE) (r_base r) (r_size r) (r_attrs r)) m Q.
Proof.
  intros [Ht Hr Hk] Hreg Hap Hroom HQ.
  apply (wp_mono _ _ (λ u m', (∃ T', maps_regions m' T' (rs ++ [r]) ∧ room j m') ∧ ram_of m' = ram_of m)).
  - apply steady_wp; [by apply steady_map_range, steady_alloc|].
    apply (wp_lay 0 m T m T root KERNEL_BASE rs r); [|done|done|by right|done|by eapply room_weaken; [|exact Hroom]; lia|].
    { split; [by apply extends_refl|exact Hk|done]. }
    intros m' T' [Hx Hm _]. exists T'. split; [split; [apply Hx|by eapply lookup_weaken; [|apply Hx]|exact Hm]|].
    apply (x_room _ _ _ _ _ Hx). exact Hroom.
  - intros [] m' [(T' & Hm & Hj) Hram]. by apply (HQ m' T').
Qed.

Context (Hly : layout_ok ly) (Hfits : tree_fits ly t).

(** The allocator's RAM is the layout's; the count of reserved frames is small. *)
Definition guessed (m : machine) : Prop :=
  Frames.ram_base m = Paging.ram_base ly ∧ Frames.ram_size m = Paging.ram_size ly ∧
  0 ≤ reserved_frames m ≤ u64_max - 20 * MAX_FRAMES.

Lemma guessed_ram m m' : ram_of m' = ram_of m → guessed m → guessed m'.
Proof. intros [[Hb Hs] Hr]%ram_of_same (? & ? & ?). unfold guessed. rewrite Hb, Hs, Hr. done. Qed.

Lemma wp_extend_ram m T base size j Q :
  says_ram t = Some (base, size) → maps_regions m T (regions ly) → guessed m →
  room (tables_needed KERNEL_BASE (ram_added ly t) + j) m →
  (∀ m' T', maps_regions m' T' (regions ly ++ ram_added ly t) → guessed m' → room j m' → Q tt m') →
  wp (extend_physical_map root (Paging.ram_base ly + Paging.ram_size ly) (base + Z.min size MAX_RAM)) m Q.
Proof.
  intros Hsays Hm Hg Hroom HQ. pose proof (tf_ram _ _ Hfits) as Hf. unfold ram_added, tables_needed in *.
  rewrite Hsays in *. cbv zeta in *. destruct Hf as (-> & Hs & Hal & Htop). unfold extend_physical_map.
  destruct (Z.leb_spec (Paging.ram_base ly + Z.min size MAX_RAM) (Paging.ram_base ly + Paging.ram_size ly)) as [|Hlt].
  { apply wp_ret, (HQ m T); [by rewrite app_nil_r|done|done]. }
  pose proof Hly as [Hpg Hd Htx Hro Hda Hram].
  repeat match goal with H : Forall _ (_ :: _) |- _ => apply Forall_cons in H as [? H] end.
  unfold DEVICE_BASE, DEVICE_SIZE in *. change (2 ^ 48) with 281474976710656 in *.
  apply wp_bind. eapply wp_lift; [apply add64_ok; unfold KERNEL_BASE; lia|].
  apply wp_bind. eapply wp_lift; [apply sub64_ok; lia|].
  cbn [foldr r_base r_size] in Hroom. rewrite Nat.add_0_r in Hroom.
  match goal with |- wp (map_range _ _ ?b ?n ?a) _ _ => apply (wp_lay_more m T (regions ly) (mkRegion b n a) j) end;
    [done| | |exact Hroom|].
  - split_and!; cbn [r_attrs r_base r_size]; [by eapply Forall_forall; [apply attributes_ok|apply (bool_decide_unpack _); vm_compute]|..];
      change (2 ^ 48) with 281474976710656; [zdiv|zdiv|lia|lia|lia].
  - intros p Hp%inside_true. cbn [r_base r_size] in Hp. apply past_ram; [done|lia].
  - intros m' T' Hm' Hr' Hj. apply (HQ m' T'); [done|by eapply guessed_ram|done].
Qed.

Lemma guessed_frames m : guessed m → frame_count m = Paging.ram_size ly / FRAME_SIZE.
Proof. intros (_ & Hs & _). unfold frame_count. by rewrite Hs. Qed.

(** RAM is what the tree says, or the guess stands; what is reserved is gone. *)
Lemma wp_take_ram m T base size rs j Q :
  says_ram t = Some (base, size) → maps_regions m T rs → guessed m →
  room (Z.to_nat (Paging.ram_size ly / FRAME_SIZE - rounded size / FRAME_SIZE) + sum_list_with claimed (says_taken t) + j) m →
  (∀ m' T', maps_regions m' T' rs → room j m' → Q tt m') →
  wp (_ ← Frames.adopt base size; _ ← reserve_all (says_taken t) 0 []; mret tt) m Q.
Proof.
  intros Hsays [Ht Hr Hk] Hg Hroom HQ. pose proof (tf_ram _ _ Hfits) as Hf. rewrite Hsays in Hf.
  destruct Hf as (-> & Hs & Hal & Htop), (tf_taken _ _ Hfits) as [Htk Hlen]. destruct (t_ok _ _ Ht) as [Hm Hbytes].
  pose proof (guessed_frames m Hg) as Hfc. destruct Hg as (Hb & Hsz & Hres). rewrite MAX_FRAMES_val in Hres.
  change (2 ^ 48) with 281474976710656 in *. destruct (rounded_bounds size Hs) as (Hr1 & _).
  assert (Hround : Paging.ram_base ly + rounded size ≤ 281474976710656) by (unfold rounded, FRAME_SIZE in *; zdiv).
  rewrite <-Hb. apply wp_bind, wp_adopt_resized; [done|done|rewrite Hb; exact Hround|].
  intros o m3 Hm3 Hrs Hmem3 Hres3 Hkeep. apply wp_bind. eapply wp_mono.
  { apply wp_reserve_all; [done|done|lia| |lia|]; rewrite MAX_FRAMES_val; lia. }
  intros p m4 (Hm4 & [Hb4 Hs4] & Hmem4 & Hte). apply wp_ret, (HQ m4 T).
  - split; [|done|by rewrite Hmem4, Hmem3].
    apply (tables_adopted m); [done| |congruence|by rewrite Hb4, (proj1 Hrs)|].
    + split; [done|]. cbn. by rewrite Hmem4, Hmem3.
    + intros i Hni Hi. destruct (Hkeep i Hni Hi) as [Hlt Hn3]. split; [by unfold frame_count; rewrite Hs4|].
      intros Hx. apply Hn3. by apply (takes_each_sub _ _ _ _ Hte).
  - apply (room_size _ _ Hm) in Hroom. apply room_size; [done|]. pose proof (resized_size _ _ _ Hm Hs Hrs) as H1.
    assert (H2 : (base.size (free_of m3) ≤ base.size (free_of m4) + sum_list_with claimed (says_taken t))%nat).
    { apply (takes_each_size m3); [done| |done]. eapply Forall_impl; [exact Htk|]. by intros e (_ & ? & _). }
    rewrite Hfc in H1. lia.
Qed.

Lemma wp_adopt_ram m T j Q :
  maps_regions m T (regions ly) → guessed m → room (ram_needs ly t + j) m →
  (∀ m' T', maps_regions m' T' (regions ly ++ ram_added ly t) → room j m' → Q tt m') →
  wp (adopt_ram root t) m Q.
Proof.
  intros Hm Hg Hroom HQ. unfold adopt_ram, ram_needs in *. destruct (says_ram t) as [[base size]|] eqn:Hsays.
  2: { apply wp_ret, (HQ m T); [|done]. unfold ram_added. by rewrite Hsays, app_nil_r. }
  pose proof (tf_ram _ _ Hfits) as Hf. rewrite Hsays in Hf. destruct Hf as (Hbase & Hs & _ & Htop).
  destruct (ly_ram _ Hly). pose proof (ly_devices _ Hly). pose proof (ly_text _ Hly). pose proof (ly_rodata _ Hly).
  pose proof (ly_data _ Hly). unfold DEVICE_BASE, DEVICE_SIZE in *. change (2 ^ 48) with 281474976710656 in *.
  apply wp_bind, wp_gets, wp_bind. rewrite (proj1 Hg), (proj1 (proj2 Hg)). eapply wp_lift; [apply add64_ok; lia|].
  apply wp_bind. eapply wp_lift; [apply add64_ok; rewrite ?MAX_RAM_val in *; lia|].
  apply wp_bind. rewrite <-Nat.add_assoc in Hroom. eapply (wp_extend_ram m T base size); [done|exact Hm|exact Hg|exact Hroom|].
  intros m1 T1 Hm1 Hg1 Hj. apply (wp_take_ram m1 T1 base size (regions ly ++ ram_added ly t) j); done.
Qed.
End adopt.

(** *** The windows *)

Section windows.
Context (root : Z) (rs : list region).

(** The windows [ws] are yet to be mapped, those of [ds] are. *)
Record mapping (m : machine) (T : tables) (ds ws : list Region) (j : nat) : Prop := {
  mp_prepared : prepared root (λ _, False) m T (unknown ws);
  mp_fits : Forall fits ws;
  mp_map : kmap (memory m) root KERNEL_BASE (rs ++ map window_region ds);
  mp_apart : ∀ w p, w ∈ unknown ws → inside p (window_region w) = true → region_at rs p = None;
  mp_left : room (needs (unknown ws) + j) m
}.

Lemma unknown_cons w ws : unknown (w :: ws) = (if known w then [] else [w]) ++ unknown ws.
Proof. unfold unknown. rewrite filter_cons. by destruct (known w). Qed.

(** The map once one more window is there. *)
Lemma window_laid m T m' T' ds w :
  fits w → T !! root = Some 3%nat → kmap (memory m) root KERNEL_BASE (rs ++ map window_region ds) →
  (∀ p, inside p (window_region w) = true → region_at rs p = None) →
  range_mapped (window_tables w) m T root (first_page w + KERNEL_BASE) (first_page w) (span w) Attributes.device m' T' →
  kmap (memory m') root KERNEL_BASE (rs ++ map window_region (ds ++ [w])).
Proof.
  intros Hw Hr Hk Hap [_ Hmaps Hother _] p Hp. rewrite map_app, app_assoc. cbn [map]. rewrite region_at_app.
  destruct (fits_bounds w Hw) as (H0 & Hal & Htop & Hs & Hsal & _). specialize (Hk p Hp).
  destruct (inside p (window_region w)) eqn:Hin.
  - assert (Hd : (match region_at (rs ++ map window_region ds) p with Some a => Some a | None => Some Attributes.device end)
      = Some Attributes.device).
    { rewrite region_at_both, (Hap p Hin). destruct (region_at (map window_region ds) p) eqn:He; [|done].
      by apply windows_device in He as ->. }
    cbn [window_region r_attrs]. rewrite Hd. apply inside_true in Hin. cbn [window_region r_base r_size] in Hin.
    specialize (Hmaps (p - first_page w) ltac:(lia)). cbn [fa_mem frames_alloc] in Hmaps.
    replace (first_page w + KERNEL_BASE + (p - first_page w)) with (p + KERNEL_BASE) in Hmaps by lia.
    by replace (first_page w + (p - first_page w)) with p in Hmaps by lia.
  - assert (Hsame : PagingWalk.walk 3 (memory m') root (p + KERNEL_BASE) = PagingWalk.walk 3 (memory m) root (p + KERNEL_BASE)).
    { apply (Hother root); [done|]. right. intros o Ho. replace (first_page w + KERNEL_BASE + o) with (first_page w + o + KERNEL_BASE) by lia.
      intros Heq%offset_page; [|by right|done|change (2 ^ 48) with 281474976710656; unfold span in *; lia].
      apply inside_false in Hin. cbn [window_region r_base r_size] in Hin. zdiv. }
    destruct (region_at _ p) as [a|]; [|by rewrite Hsame]. destruct Hk as (l & d & Hwk & Hrest).
    exists l, d. by rewrite Hsame.
Qed.

Lemma wp_map_windows m T ds ws j Q :
  mapping m T ds ws j →
  (∀ m' T', maps_regions root m' T' (rs ++ map window_region (ds ++ unknown ws)) → room j m' → Q tt m') →
  wp (map_windows root ws) m Q.
Proof.
  revert m T ds. induction ws as [|w ws IH]; intros m T ds [Hp Hf Hk Ha Hl] HQ; cbn [map_windows].
  { apply wp_ret, (HQ m T); [|exact Hl]. change (unknown []) with (@nil Region). rewrite app_nil_r.
    split; [apply (pr_tables _ _ _ _ _ Hp)|apply (pr_root _ _ _ _ _ Hp)|exact Hk]. }
  pose proof Hf as [Hw Hws]%Forall_cons. rewrite unknown_cons in *. apply wp_bind, (wp_map_window root m T w); [done| | |].
  - intros Hn. rewrite Hn in Hp. by apply (prepared_mappable root (λ _, False) m T w (unknown ws)).
  - intros Hy r. rewrite Hy in *. apply (IH m T ds); [|done]. split; [done|done|done| |done].
    intros w' p Hin. apply Ha. exact Hin.
  - intros Hn r m' T' Hr. rewrite Hn in *. cbn [app] in *. pose proof (r_extends _ _ _ _ _ _ _ _ _ _ Hr) as Hx.
    assert (Hfu : Forall fits (w :: unknown ws)).
    { constructor; [done|]. rewrite Forall_forall in Hws |- *. intros w' [_ Hin]%list_elem_of_filter. by apply Hws. }
    destruct (prepared_step root (λ _, False) m T w (unknown ws) m' T' Hfu Hp Hr) as [Hp' _].
    apply (IH m' T' (ds ++ [w])); [|by rewrite <-app_assoc]. split; [done|done| | |].
    + apply (window_laid m T m' T'); [done|apply (pr_root _ _ _ _ _ Hp)|done| |done]. intros p. apply Ha. left.
    + intros w' p Hin. apply Ha. by right.
    + apply (x_room _ _ _ _ _ Hx). unfold needs in *. simpl in Hl. by rewrite Nat.add_assoc.
Qed.
End windows.

(** ** All of it *)

Lemma wp_adopt_tree root ly t m T j Q :
  layout_ok ly → tree_fits ly t → maps_regions root m T (regions ly) → guessed ly m → room (tree_needs ly t + j) m →
  (∀ m' T', maps_regions root m' T' (started ly t) → room j m' → Q tt m') →
  wp (adopt_tree root t) m Q.
Proof.
  intros Hly Hf Hm Hg Hroom HQ. unfold adopt_tree, tree_needs in *. apply wp_bind. rewrite <-Nat.add_assoc in Hroom.
  eapply (wp_adopt_ram root ly t Hly Hf m T); [exact Hm|exact Hg|exact Hroom|]. intros m1 T1 [Ht Hr Hk] Hj.
  apply (wp_map_windows root (regions ly ++ ram_added ly t) m1 T1 [] (says_windows t) j); [|exact HQ]. split.
  - split; [done|done|by intros ????| |by eapply room_weaken; [|exact Hj]; lia]. intros w Hw o Ho l d.
    pose proof (tf_windows _ _ Hf) as Hfit. rewrite Forall_forall in Hfit.
    destruct (fits_bounds w) as (H0 & _ & Htop & Hs & _); [apply Hfit; by apply list_elem_of_filter in Hw as [_ ?]|].
    assert (Hp : 0 ≤ first_page w + o < 2 ^ 48) by (change (2 ^ 48) with 281474976710656; unfold span in *; lia).
    specialize (Hk _ Hp). rewrite (tf_apart _ _ Hf w) in Hk; [|done|apply inside_true; cbn [window_region r_base r_size]; lia].
    replace (first_page w + KERNEL_BASE + o) with (first_page w + o + KERNEL_BASE) by lia. by rewrite Hk.
  - apply Hf.
  - cbn [map]. by rewrite app_nil_r.
  - intros w p. apply (tf_apart _ _ Hf).
  - exact Hj.
Qed.
