(* ===== verification/Protection.v ===== *)
(** * Protection: what programs and the kernel reach while the system runs

    The tables [build_tables] made are in memory no step of the running system
    writes, and the tables of the tasks have the shape of user images; so in
    every state the kernel reaches, an access goes where the layout, the device
    tree and the running task's image say, at EL0 and at EL1. *)

From S2P Require Import Fdt Boot BootSpec BootProps DeviceMap.
From S2P Require Import Prelude Memory FrameAlloc Frames FramesSpec FramesBoot Paging PagingWalk PagingTables PagingMap PagingRange PagingSpace PagingProps PagingOwn PagingKeep.
From S2P Require Import KernelMap Kernel Sched KernelInv ImageMem KernelMem Devices Exceptions Mmu MmuProps System SystemMem SystemProps MemProps Startup.

(** [kernel_main] and [kernel_main_high] from the tables to the first task, on a
    machine whose device tree says [t], less the tests in between and what is
    said to devices.  (The blob itself is mapped when it is outside the RAM that
    was guessed; but then [fdt::init] refuses it, and without a tree no task
    starts: [KernelMainProps.no_tree_no_tasks].) *)
Definition start_kernel (mmfr0 : Z) (ly : layout) (t : tree_says) : M core unit :=
  _ ← bring_up_mmu mmfr0 ly;
  root ← kernel_root;
  _ ← on_pool (adopt_tree root t);
  _ ← init_address_spaces_mmu;
  on_board (in_kernel Sched.init).

(** The registers while tasks run: as [live_regs], but the low half is looked up
    in the table of the running task. *)
Definition running_regs (mmfr0 high : Z) (r : mmu) : Prop :=
  TCR_EL1 r = Z.land (Z.lor (tcr_value mmfr0) (Z.shiftl 1 7)) (not64 (Z.shiftl 1 7)) ∧
  TTBR1_EL1 r = high ∧ Z.testbit (SCTLR_EL1 r) 0 = true.

Lemma running_tcr mmfr0 : let t := Z.land (Z.lor (tcr_value mmfr0) (Z.shiftl 1 7)) (not64 (Z.shiftl 1 7)) in
  Z.land t 0x3f = 16 ∧ Z.land (Z.shiftr t 16) 0x3f = 16 ∧ Z.testbit t 7 = false ∧ Z.testbit t 23 = false.
Proof.
  destruct (tcr_in mmfr0) as (p & -> & Hin). each Hin ltac:(by vm_compute).
Qed.

Lemma running_root mmfr0 high r low va :
  running_regs mmfr0 high r → page_addr high → page_addr low → is_u64 va →
  el1_root r low va = if KERNEL_BASE <=? va then Some high else if va <? 2 ^ 48 then Some low else None.
Proof.
  intros (Ht & Hr & _) Hh Hl Hva. destruct (running_tcr mmfr0) as (H1 & H2 & H3 & H4). unfold el1_root.
  rewrite Ht, Hr, H1, H2, H3, H4. change (2 ^ (64 - 16)) with 281474976710656. change (2 ^ 48) with 281474976710656.
  change (2 ^ 64) with 18446744073709551616. unfold is_u64 in Hva. unfold KERNEL_BASE.
  change (18446744073709551616 - 281474976710656) with 0xffff000000000000.
  rewrite (proj2 (Z.leb_le 0 va)) by lia. cbn [andb].
  destruct (Z.leb_spec 0xffff000000000000 va) as [Hle|Hlt].
  - rewrite (proj2 (Z.ltb_ge va 281474976710656)) by lia. rewrite (proj2 (Z.ltb_lt va 18446744073709551616)) by lia.
    f_equal. by apply addr_page.
  - destruct (va <? 281474976710656); [f_equal; by apply addr_page|done].
Qed.

(** ** The kernel's map stays *)

(** What a machine must be like for the kernel to run on it for good: its map is
    laid in tables that are not free to be handed out. *)
Record fortified (m : machine) (rs : list region) (high : Z) : Prop := {
  ft_ok : fa_ok m;
  ft_tables : ∃ T, tables_ok m T ∧ T !! high = Some 3%nat;
  ft_map : kmap (memory m) high KERNEL_BASE rs;
  ft_regions : ∀ p attrs, region_at rs p = Some attrs → attrs ∈ Attributes.all ∧ ∀ a, permitted_el0 a attrs = false
}.

Section reachable.
Context (respond : list Devices.access → Z → Z → Z) (frequency : Z).
Context (user_task_entry task_trampoline : Z).
Abbreviation reaches := (reachable respond frequency user_task_entry task_trampoline).
Context (m : machine) (b0 : board) (mmfr0 : Z) (rs : list region) (high : Z) (r : mmu).
Context (Hm : fortified m rs high) (Hboot : booted m (kern b0)) (Hregs : running_regs mmfr0 high r).

Lemma fortified_page : page_addr high.
Proof. destruct Hm as [_ (T & HT & Hh) _ _]. by eapply tables_page. Qed.

Lemma map_kept b : reaches b0 b → kmap (memory (mach (kern b))) high KERNEL_BASE rs.
Proof.
  intros Hr. destruct Hm as [Hok (T & HT & Hhigh) Hmap _].
  destruct (reachable_account _ _ _ _ m b0 Hok Hboot b Hr) as (T' & Ha & _).
  eapply kmap_walks; [|exact Hmap]. intros x. apply (walk_same _ T (t_forest _ _ HT)); [|done].
  intros f k i Hf Hi _. destruct (t_frame _ _ HT f k Hf) as [Hfr Hna]. unfold entry. apply read_le_ext.
  intros y Hy. apply (ac_outside _ _ _ _ _ Ha). intros g Hg Hin.
  assert (Hgf : fa_frame m g) by (by apply (fa_avail_frame (FrameAllocLaws := frames_laws))).
  destruct (decide (g = f)) as [->|Hne]; [done|].
  pose proof (frames_apart (FA := frames_alloc) m g f Hok Hgf Hfr Hne) as Hap.
  unfold frame_apart, in_frame in *. lia.
Qed.

(** ** The low half *)

(** What a user image maps, page by page. *)
Definition user_page (va : Z) : option Z :=
  if (USER_TEXT_VA <=? va) && (va <? USER_TEXT_VA + FRAME_SIZE) then Some Attributes.user_text
  else if (USER_STACK_VA <=? va) && (va <? USER_STACK_TOP) then Some Attributes.user_data
  else None.

Lemma user_page_of va : 0 ≤ va < 2 ^ 48 →
  match user_page va with
  | Some attrs => page_of va = page_of USER_TEXT_VA ∧ attrs = Attributes.user_text ∨
                  page_of va = page_of USER_STACK_VA ∧ attrs = Attributes.user_data
  | None => page_of va ≠ page_of USER_TEXT_VA ∧ page_of va ≠ page_of USER_STACK_VA
  end.
Proof.
  intros Hva. unfold user_page, page_of. change (USER_TEXT_VA / 4096 mod 2 ^ 36) with 1024.
  change (USER_STACK_VA / 4096 mod 2 ^ 36) with 2047. change (2 ^ 36) with 68719476736.
  change (2 ^ 48) with 281474976710656 in Hva. change USER_TEXT_VA with (1024 * 4096).
  change FRAME_SIZE with 4096. change USER_STACK_VA with (2047 * 4096). change USER_STACK_TOP with (2048 * 4096).
  rewrite (Z.mod_small (va / 4096)) by zdiv.
  destruct (_ && _) eqn:Ht; [left; split; [zdiv|done]|].
  destruct (_ && _) eqn:Hs in |- *; [right; split; [zdiv|done]|split; zdiv].
Qed.

Lemma image_at mm root va : image_space mm root → 0 ≤ va < 2 ^ 48 →
  match walk 3 mm root va, user_page va with
  | Some (l, d), Some attrs => l = 3 ∧ perm d = attrs
  | None, None => True
  | _, _ => False
  end.
Proof.
  intros Himg Hva. specialize (Himg va). pose proof (user_page_of va Hva) as Hup.
  assert (Hne : page_of USER_TEXT_VA ≠ page_of USER_STACK_VA) by done.
  destruct (walk 3 mm root va) as [[l d]|], (user_page va) as [attrs|]; [|naive_solver congruence..].
  destruct Himg as [-> [[? ->]|[? ->]]], Hup as [[? ->]|[? ->]]; by (split; congruence) || congruence.
Qed.

(** The table for the low half, with the walks through it. *)
Lemma current_table b : reaches b0 b → page_addr (ttbr0 (kern b)) ∧
  match current_space_root (kern b) with
  | Some root => ttbr0 (kern b) = root ∧ image_space (memory (mach (kern b))) root
  | None => ∀ x, walk 3 (memory (mach (kern b))) (ttbr0 (kern b)) x = None
  end.
Proof.
  intros Hr. destruct (reachable_mem _ _ _ _ _ _ _ (ft_ok _ _ _ Hm) Hboot Hr) as [_ Hk].
  destruct (mo_account _ _ _ _ _ Hk) as (T & Ha & HT). destruct (mo_current _ _ _ _ _ Hk) as (t & Ht & _ & Hroot).
  assert (Hin : ttbr0 (kern b) ∈ roots (kern b) ++ [] ∧ match space t with
    | Some root => ttbr0 (kern b) = root ∧ image_space (memory (mach (kern b))) root
    | None => ∀ x, walk 3 (memory (mach (kern b))) (ttbr0 (kern b)) x = None end).
  { rewrite app_nil_r. unfold roots. rewrite elem_of_app. destruct (space t) as [root|] eqn:Hs.
    - injection Hroot as ->.
      assert (Hi : root ∈ task_roots (kern b)).
      { apply (space_root_in (kern b) (me (kern b))). unfold space_root_of. apply task_at_list in Ht. by rewrite Ht. }
      split; [by right|]. split; [done|]. apply (mo_image _ _ _ _ _ Hk). rewrite app_nil_r. done.
    - split; [left; rewrite <-Hroot; simpl; by left|]. intros x. by apply (mo_empty _ _ _ _ _ Hk). }
  destruct Hin as [Hin Hrest]. apply HT in Hin. split; [eapply tables_page; [apply (ac_tables _ _ _ _ _ Ha)|exact Hin]|].
  unfold current_space_root. apply task_at_list in Ht. rewrite Ht. exact Hrest.
Qed.

(** An access below the kernel's half, as a translation that [ok] permits sees it. *)
Lemma low_translate ok b va : reaches b0 b → (∀ d, ok (perm d) = ok d) → 0 ≤ va < 2 ^ 48 →
  let tr := translate_if ok r (ttbr0 (kern b)) (memory (mach (kern b))) va in
  match current_space_root (kern b), user_page va with
  | Some root, Some attrs => ∃ pa, translation (memory (mach (kern b))) root va = Some pa ∧
      tr = if ok attrs then inr pa else inl 15
  | _, _ => ∃ st, tr = inl st
  end.
Proof.
  intros Hr Hok Hva. set (mm := memory (mach (kern b))).
  destruct (current_table b Hr) as [Hpage Hwalk]. intros tr. subst tr. unfold translate_if.
  rewrite (proj2 (proj2 Hregs)). cbn [negb].
  assert (Hu : is_u64 va) by (unfold is_u64; change (2 ^ 48) with 281474976710656 in Hva; lia).
  rewrite (running_root mmfr0 high r _ va Hregs fortified_page Hpage Hu).
  rewrite (proj2 (Z.leb_gt KERNEL_BASE va)), (proj2 (Z.ltb_lt va (2 ^ 48))) by
    (lia || (unfold KERNEL_BASE; change (2 ^ 48) with 281474976710656 in Hva; lia)).
  fold mm in Hwalk. unfold translation.
  destruct (current_space_root (kern b)) as [root|] eqn:Hc; [|rewrite Hwalk; by eexists].
  destruct Hwalk as [-> Himg]. pose proof (image_at _ _ va Himg Hva) as Hat.
  destruct (walk 3 mm root va) as [[l d]|], (user_page va) as [attrs|] eqn:Hup; try done; [|by eexists].
  destruct Hat as [-> Hd]. cbn [mbind option_bind]. unfold leaf_pa. cbn [Z.eqb Pos.eqb].
  eexists. split; [done|]. rewrite <-Hok, Hd.
  assert (Haf : Z.land d AF ≠ 0).
  { rewrite <-(land_perm d AF), Hd by done. unfold user_page in Hup.
    repeat (destruct (_ && _) in Hup; [by injection Hup as <-|]). done. }
  by rewrite (proj2 (Z.eqb_neq _ _) Haf).
Qed.

(** ** Every access *)

(** Where [va] may lead when [ok] says which attributes permit the access: to the
    byte [KERNEL_BASE] below, in a region of the layout, or to the byte the
    running task's page holds it at. *)
Definition may_reach (ok : Z → bool) (k : kernel) (va pa : Z) : Prop :=
  (va = pa + KERNEL_BASE ∧ 0 ≤ pa ∧ ∃ attrs, region_at rs pa = Some attrs ∧ ok attrs = true) ∨
  (∃ root attrs, current_space_root k = Some root ∧ user_page va = Some attrs ∧ ok attrs = true ∧
     translation (memory (mach k)) root va = Some pa).

Lemma user_page_low va attrs : user_page va = Some attrs → 0 ≤ va < 2 ^ 48.
Proof.
  unfold user_page. change USER_TEXT_VA with 4194304. change FRAME_SIZE with 4096. change USER_STACK_VA with 8384512.
  change USER_STACK_TOP with 8388608. change (2 ^ 48) with 281474976710656.
  destruct (_ && _) eqn:Ht; [lia|]. destruct (_ && _) eqn:Hs in |- *; [lia|done].
Qed.

Lemma reach_exact ok b va : reaches b0 b → (∀ d, ok (perm d) = ok d) → is_u64 va →
  match translate_if ok r (ttbr0 (kern b)) (memory (mach (kern b))) va with
  | inr pa => may_reach ok (kern b) va pa
  | inl _ => ∀ pa, ¬ may_reach ok (kern b) va pa
  end.
Proof.
  intros Hr Hok Hva. destruct (current_table b Hr) as [Hpage _]. pose proof Hregs as (_ & _ & Hon).
  pose proof (running_root mmfr0 high r _ va Hregs fortified_page Hpage Hva) as Hroot.
  assert (HKB : KERNEL_BASE = 0xffff000000000000) by done. change (2 ^ 48) with 281474976710656 in *.
  destruct (Z.leb_spec KERNEL_BASE va) as [Hhi|Hlo]; [|destruct (Z.ltb_spec va 281474976710656) as [Hlow|Hmid]].
  - assert (Hp : 0 ≤ va - KERNEL_BASE < 2 ^ 48) by (unfold is_u64 in Hva; change (2 ^ 48) with 281474976710656; lia).
    assert (Hva' : va - KERNEL_BASE + KERNEL_BASE = va) by lia.
    pose proof (high_translate rs high ok r (ttbr0 (kern b)) (memory (mach (kern b))) (va - KERNEL_BASE)
      (λ p at_ Hat, proj1 (ft_regions _ _ _ Hm p at_ Hat)) Hok Hon
      (map_kept b Hr) Hp) as H. rewrite Hva' in H. specialize (H Hroot).
    assert (Hno : ∀ pa, may_reach ok (kern b) va pa → pa = va - KERNEL_BASE ∧ ∃ attrs,
      region_at rs pa = Some attrs ∧ ok attrs = true).
    { intros pa [(-> & _ & Hex)|(root & attrs & _ & Hup & _)]; [split; [lia|done]|].
      apply user_page_low in Hup. change (2 ^ 48) with 281474976710656 in Hup. lia. }
    destruct (region_at rs (va - KERNEL_BASE)) as [at_|] eqn:Hreg; destruct H as (l & _ & ->).
    + destruct (ok at_) eqn:Hperm; [left; split; [lia|split; [lia|by exists at_]]|].
      intros pa (-> & attrs & Hat & ?)%Hno. congruence.
    + intros pa (-> & attrs & Hat & ?)%Hno. congruence.
  - pose proof (low_translate ok b va Hr Hok) as H. change (2 ^ 48) with 281474976710656 in H.
    unfold is_u64 in Hva. specialize (H ltac:(lia)).
    destruct (current_space_root (kern b)) as [root|] eqn:Hc; [destruct (user_page va) as [attrs|] eqn:Hup|].
    + destruct H as (pa & Htr & ->). destruct (ok attrs) eqn:Ho; [right; by exists root, attrs|].
      intros pa' [(-> & ? & _)|(root' & at' & ? & ? & ? & _)]; [lia|congruence].
    + destruct H as [st ->]. intros pa' [(-> & ? & _)|(root' & at' & ? & ? & ? & _)]; [lia|congruence].
    + destruct H as [st ->]. intros pa' [(-> & ? & _)|(root' & at' & ? & ? & ? & _)]; [lia|congruence].
  - unfold translate_if. rewrite Hon, Hroot. cbn [negb]. intros pa [(-> & ? & _)|(root & attrs & _ & Hup & _)]; [lia|].
    apply user_page_low in Hup. change (2 ^ 48) with 281474976710656 in Hup. lia.
Qed.

(** The running task has a byte wherever a user image has a page. *)
Lemma user_translated b va root attrs : reaches b0 b → current_space_root (kern b) = Some root →
  user_page va = Some attrs → ∃ pa, translation (memory (mach (kern b))) root va = Some pa.
Proof.
  intros Hr Hc Hup. pose proof (low_translate (λ _, true) b va Hr (λ _, eq_refl) (user_page_low va attrs Hup)) as H.
  cbn zeta in H. rewrite Hc, Hup in H. destruct H as (pa & Htr & _). by exists pa.
Qed.

Lemma permitted_el0_perm a d : permitted_el0 a (perm d) = permitted_el0 a d.
Proof. destruct a; simpl; rewrite ?ap_perm, ?land_perm by done; done. Qed.

End reachable.

(** ** From the start *)

(** Nothing of the kernel's is EL0's. *)
Lemma regions_kept ly p attrs : region_at (regions ly) p = Some attrs →
  attrs ∈ Attributes.all ∧ ∀ a, permitted_el0 a attrs = false.
Proof.
  intros H. split; [by eapply region_attrs|]. unfold regions in H. cbn [region_at r_attrs] in H. intros a.
  repeat (destruct (inside p _) in H; [injection H as <-; by destruct a|]). done.
Qed.

(** What the tree adds is data or a device. *)
Lemma started_at ly t p attrs : region_at (started ly t) p = Some attrs →
  region_at (regions ly) p = Some attrs ∨
  region_at (regions ly) p = None ∧ (attrs = Attributes.kernel_data ∨ attrs = Attributes.device).
Proof.
  unfold started. rewrite <-app_assoc, region_at_both. destruct (region_at (regions ly) p); [by left|].
  intros ?%added_attrs. by right.
Qed.

Lemma started_kept ly t p attrs : region_at (started ly t) p = Some attrs →
  attrs ∈ Attributes.all ∧ ∀ a, permitted_el0 a attrs = false.
Proof.
  intros [H|[_ Ha]]%started_at; [by eapply regions_kept|]. split; [|by intros []; destruct Ha as [-> | ->]].
  destruct Ha as [-> | ->]; apply (bool_decide_unpack _); by vm_compute.
Qed.

Lemma steady_bring_up mmfr0 ly : steady (λ c, ram_of (mach (kern (bd c)))) (bring_up_mmu mmfr0 ly).
Proof.
  assert (Hb : steady ram_of (build_tables ly)) by (by apply steady_build_tables, steady_alloc).
  unfold bring_up_mmu, enable, finish_high_half, activate_root. apply steady_bind.
  - intros c a c'. unfold on_pool, on_board, in_kernel, with_mach, zoom.
    destruct (build_tables ly _) as [[x m]|] eqn:He; [|done]. intros [= _ <-]. exact (Hb _ _ _ He).
  - intros [low high]. repeat first
      [apply steady_ret | apply steady_gets | apply steady_lift | by apply steady_modify | by intros ? ? ? [= _ <-]
      | apply steady_bind; [|intros ?]].
Qed.

Section start.
Context (respond : list Devices.access → Z → Z → Z) (frequency : Z).
Context (user_task_entry task_trampoline : Z).
Abbreviation reaches := (reachable respond frequency user_task_entry task_trampoline).
Context (mmfr0 : Z) (ly : layout) (t : tree_says) (T : tables) (c : core).

(** The kernel has done nothing yet, its allocator knows the RAM the layout was
    made for, the tree fits the machine, and the pool holds frames for all the
    tables and for the one of tasks without an address space. *)
Record startable : Prop := {
  st_ready : ready ly T c;
  st_guess : guessed ly (mach (kern (bd c)));
  st_tree : tree_fits ly t;
  st_room : room (tables_taken ly + (tree_needs ly t + 1)) (mach (kern (bd c)));
  st_new : kern (bd c) = kernel_new (mach (kern (bd c)))
}.

Lemma boots m T' : tables_ok m T' → room 1 m → ∃ k1 k,
  init_address_spaces (kernel_new m) = Done (tt, k1) ∧ Sched.init k1 = Done (tt, k) ∧ booted m k.
Proof.
  intros HT Hroom. destruct (wp_elim _ _ _ (wp_new m T' (λ _ _, True) HT Hroom (λ _ _ _ _ _ _ _ _ _, I))) as (root & m' & He & _).
  assert (H1 : init_address_spaces (kernel_new m) =
    Done (tt, set_ttbr0 root (set_EMPTY_SPACE (Some root) (set_mach m' (kernel_new m))))).
  { unfold init_address_spaces, with_mach, zoom, mbind, M_bind. cbn [mach kernel_new]. by rewrite He. }
  eexists _, _. split; [exact H1|]. split; [done|]. unfold booted, bring_up, mbind, M_bind. by rewrite H1.
Qed.

Lemma wp_start : startable → wp (start_kernel mmfr0 ly t) c (λ _ c', ∃ m high,
  fortified m (started ly t) high ∧ booted m (kern (bd c')) ∧ running_regs mmfr0 high (cpu c')).
Proof.
  intros [Hr Hg Htree Hroom Hnew]. unfold start_kernel. wp_step.
  eapply wp_mono; [exact (steady_wp _ _ _ _ (steady_bring_up mmfr0 ly) (wp_bring_up_tables mmfr0 ly T c Hr))|].
  intros [low high] c1 [(Hl & Hk & (T1 & Hok & Hhi) & Hkern & _ & Hrm) Hram]. cbn [snd] in *.
  destruct Hl as (Ht & Hh & Hon). pose proof (tables_page _ _ _ _ Hok Hhi) as Hpage.
  wp_step. unfold kernel_root. wp_step. wp_step. apply wp_on_pool. unfold Paging.from_addr. wp_step.
  rewrite Hh. change (Z.land high ADDR_MASK) with (addr high). rewrite addr_page by done.
  apply wp_assertM; [apply Z.eqb_eq; apply Hpage|]. wp_step. wp_step. apply wp_on_pool.
  assert (Hk0 : kern (bd c1) = kernel_new (mach (kern (bd c1)))).
  { rewrite Hkern at 1. rewrite Hnew. done. }
  eapply (wp_adopt_tree high ly t _ T1 1); [apply Hr|exact Htree|by split|by eapply guessed_ram|by apply Hrm|].
  intros m T2 [Hok2 Hhi2 Hk2] Hroom2. destruct (boots m T2 Hok2 Hroom2) as (k1 & k & H1 & H2 & Hb).
  assert (Hk1 : set_mach m (set_mach (mach (kern (bd c1))) (kern (bd c1))) = kernel_new m) by (rewrite Hk0; done). rewrite <-Hk1 in H1.
  unfold init_address_spaces_mmu, enable_user_translation. repeat wp_step. apply wp_zoom, wp_zoom.
  cbn [bd set_bd kern set_kern] in *. unfold wp at 1. rewrite H1. repeat wp_step. apply wp_zoom, wp_zoom. unfold wp. cbn [bd set_cpu set_bd kern set_kern].
  rewrite H2. exists m, high. split_and!.
  - split; [apply Hok2|by exists T2|exact Hk2|apply started_kept].
  - exact Hb.
  - split_and!; [cbn; by rewrite Ht|done|done].
Qed.

(** ** What a program reaches *)

(** The page of its text, except to write, and the page of its stack, except to
    execute. *)
Definition user_may (a : access) (va : Z) : Prop :=
  USER_TEXT_VA ≤ va < USER_TEXT_VA + FRAME_SIZE ∧ a ≠ Write ∨ USER_STACK_VA ≤ va < USER_STACK_TOP ∧ a ≠ Fetch.

Lemma user_may_page a va : user_may a va ↔ ∃ attrs, user_page va = Some attrs ∧ permitted_el0 a attrs = true.
Proof.
  unfold user_may, user_page. change USER_TEXT_VA with 4194304. change FRAME_SIZE with 4096.
  change USER_STACK_VA with 8384512. change USER_STACK_TOP with 8388608.
  destruct (_ && _) eqn:Ht; [|destruct (_ && _) eqn:Hs in |- *].
  - split; [intros [[_ Ha]|[? _]]; [|lia]|intros (attrs & [= <-] & Hp); left; split; [lia|by intros ->]].
    exists Attributes.user_text. split; [done|by destruct a].
  - split; [intros [[? _]|[_ Ha]]; [lia|]|intros (attrs & [= <-] & Hp); right; split; [lia|by intros ->]].
    exists Attributes.user_data. split; [done|by destruct a].
  - split; [intros [[? _]|[? _]]; lia|by intros (attrs & [=] & _)].
Qed.

(** C2: while the system runs, a program reaches its own two pages and nothing
    else: once the kernel has started, in every state it can reach, for every
    address and every kind of access, an access at EL0 goes to the byte that the
    running task's address space holds there when it reads or executes its text
    or reads or writes its stack, and faults otherwise.  So the kernel's half and
    its devices are out of reach, no program writes its own code, and nothing a
    program can write is executed. *)
Theorem el0_reach_exact : startable →
  wp (start_kernel mmfr0 ly t) c (λ _ c', ∀ b a va, reaches (bd c') b → is_u64 va →
    match el0_translate (cpu c') (ttbr0 (kern b)) (memory (mach (kern b))) a va with
    | inr pa => user_may a va ∧ ∃ root, current_space_root (kern b) = Some root ∧
        translation (memory (mach (kern b))) root va = Some pa
    | inl _ => current_space_root (kern b) = None ∨ ¬ user_may a va
    end).
Proof.
  intros Hs. eapply wp_mono; [by apply wp_start|]. intros _ c' (m & high & Hm & Hb & Hregs) b a va Hr Hva.
  pose proof (reach_exact _ _ _ _ m (bd c') mmfr0 (started ly t) high (cpu c') Hm Hb Hregs (permitted_el0 a) b va Hr
    (permitted_el0_perm a) Hva) as H. unfold el0_translate. destruct (translate_if _ _ _ _ va) as [st|pa].
  - destruct (current_space_root (kern b)) as [root|] eqn:Hc; [right|by left]. intros (attrs & Hup & Hp)%user_may_page.
    destruct (user_translated _ _ _ _ m (bd c') mmfr0 (started ly t) high (cpu c') Hm Hb Hregs b va root attrs Hr Hc Hup) as (pa & Htr).
    apply (H pa). right. by exists root, attrs.
  - destruct H as [(_ & _ & attrs & Hat & Hp)|(root & attrs & Hc & Hup & Hp & Htr)].
    + by rewrite (proj2 (ft_regions _ _ _ Hm pa attrs Hat)) in Hp.
    + split; [apply user_may_page; by exists attrs|by exists root].
Qed.

(** ** What the kernel reaches *)

(** The kernel may what the program may, except execute. *)
Lemma permitted_user a va attrs : user_page va = Some attrs →
  permitted a attrs = match a with Fetch => false | _ => permitted_el0 a attrs end.
Proof.
  unfold user_page. intros H. repeat (destruct (_ && _) in H; [injection H as <-; by destruct a|]). done.
Qed.

(** Where the layout and the tree let the kernel go. *)
Definition mapped_at (a : access) (va pa : Z) : Prop :=
  va = pa + KERNEL_BASE ∧ 0 ≤ pa ∧ ∃ attrs, region_at (started ly t) pa = Some attrs ∧ permitted a attrs = true.

Lemma mapped_fetch va pa : layout_ok ly → mapped_at Fetch va pa → text_start ly ≤ pa < text_end ly.
Proof.
  intros Hly (Hva & H0 & attrs & Hat & Hp). apply started_at in Hat as [Hat|[_ [-> | ->]]]; [|by vm_compute in Hp..].
  apply (fetches_text ly va). split; [done|split; [done|by exists attrs]].
Qed.

Lemma mapped_write va pa : layout_ok ly → mapped_at Write va pa →
  ¬ (text_start ly ≤ pa < text_end ly) ∧ ¬ (rodata_start ly ≤ pa < rodata_end ly).
Proof.
  intros Hly (Hva & H0 & attrs & Hat & Hp). apply started_at in Hat as [Hat|[Hat _]].
  - apply (writes_spare ly Hly va). split; [done|split; [done|by exists attrs]].
  - split; intros Hin; [rewrite region_text in Hat by done|rewrite region_rodata in Hat by done]; done.
Qed.

(** C3: the kernel keeps to its map for as long as the system runs: once it
    has built its tables, extended them to the RAM the device tree describes and
    mapped the window of every device found there, in every state it can reach,
    an access at EL1 goes [KERNEL_BASE] below, where the layout, the rest of that
    RAM or one of those windows permits it, or to the page of the running task
    that holds the address, and faults otherwise.  So nothing ever makes its text
    or constants writable, and nothing but its text, no program's memory above
    all, executable at EL1. *)
Theorem el1_reach_kept : startable →
  wp (start_kernel mmfr0 ly t) c (λ _ c', ∀ b a va, reaches (bd c') b → is_u64 va →
    match el1_translate (cpu c') (ttbr0 (kern b)) (memory (mach (kern b))) a va with
    | inr pa =>
        (mapped_at a va pa ∨
         a ≠ Fetch ∧ user_may a va ∧ ∃ root, current_space_root (kern b) = Some root ∧
           translation (memory (mach (kern b))) root va = Some pa) ∧
        (a = Fetch → KERNEL_BASE ≤ va ∧ text_start ly ≤ pa < text_end ly) ∧
        (a = Write → KERNEL_BASE ≤ va →
           ¬ (text_start ly ≤ pa < text_end ly) ∧ ¬ (rodata_start ly ≤ pa < rodata_end ly))
    | inl _ => (∀ pa, ¬ mapped_at a va pa) ∧
        (a = Fetch ∨ current_space_root (kern b) = None ∨ ¬ user_may a va)
    end).
Proof.
  intros Hs. pose proof (rd_layout _ _ _ (st_ready Hs)) as Hly. eapply wp_mono; [by apply wp_start|].
  intros _ c' (m & high & Hm & Hb & Hregs) b a va Hr Hva.
  pose proof (reach_exact _ _ _ _ m (bd c') mmfr0 (started ly t) high (cpu c') Hm Hb Hregs (permitted a) b va Hr
    (permitted_perm a) Hva) as H. unfold el1_translate. destruct (translate_if _ _ _ _ va) as [st|pa].
  - split; [intros pa Hpa; apply (H pa); by left|]. destruct (decide (a = Fetch)) as [|Hne]; [by left|right].
    destruct (current_space_root (kern b)) as [root|] eqn:Hc; [right|by left]. intros (attrs & Hup & Hp)%user_may_page.
    destruct (user_translated _ _ _ _ m (bd c') mmfr0 (started ly t) high (cpu c') Hm Hb Hregs b va root attrs Hr Hc Hup) as (pa & Htr).
    apply (H pa). right. exists root, attrs. rewrite (permitted_user a va attrs Hup). by destruct a.
  - destruct H as [Hk|(root & attrs & Hc & Hup & Hp & Htr)].
    + assert (KERNEL_BASE ≤ va) by (destruct Hk as (-> & ? & _); lia).
      split_and!; [by left|intros ->; split; [done|by eapply mapped_fetch]|intros -> _; by eapply mapped_write].
    + rewrite (permitted_user a va attrs Hup) in Hp. apply user_page_low in Hup as Hva'.
      assert (va < KERNEL_BASE) by (unfold KERNEL_BASE; change (2 ^ 48) with 281474976710656 in Hva'; lia).
      split_and!; [|by intros ->|lia]. right. split; [by intros ->|]. split; [|by exists root].
      apply user_may_page. exists attrs. by destruct a.
Qed.


End start.

(** ** Witnesses *)

(** The board with 512 MiB where 256 were guessed, a blob to reserve, and the
    windows of the console, the distributor and three virtio transports, two of
    which share a page. *)
Definition virt_says : tree_says :=
  mkSays (Some (0x40000000, 0x20000000)) [(0x48000000, 0x289)]
    [Fdt.mkRegion 0x09000000 0x1000; Fdt.mkRegion 0x08000000 0x10000; Fdt.mkRegion 0x0a003c00 0x200;
     Fdt.mkRegion 0x0a003e00 0x200; Fdt.mkRegion 0x10000000 0x200].
Lemma virt_fits : tree_fits virt_layout virt_says.
Proof.
  split.
  - split_and!; by vm_compute.
  - split; [|cbn; lia]. constructor; [|constructor]. split_and!; cbn; [lia|lia|left; by vm_compute].
  - apply fitsb_all. vm_compute. reflexivity.
  - intros w p Hw Hp%inside_true. cbn [window_region r_base r_size] in Hp.
    assert (Hb : forallb (λ w, (0x0a000000 <=? first_page w) && (first_page w + span w <=? 0x40000000))
      (unknown (says_windows virt_says)) = true) by (vm_compute; reflexivity).
    rewrite forallb_forall in Hb. specialize (Hb w (proj1 (list_elem_of_In _ _) Hw)).
    apply andb_true_iff in Hb as [Hb1%Z.leb_le Hb2%Z.leb_le].
    rewrite region_at_both. assert (Hr : region_at (regions virt_layout) p = None).
    { unfold regions. cbn [region_at]. rewrite !(proj2 (inside_false _ _)); [done|..]; cbn [r_base r_size virt_layout
        Paging.ram_base text_start text_end rodata_start rodata_end data_start kernel_end Paging.ram_size];
        unfold virt_end, DEFAULT_RAM_BASE, DEFAULT_RAM_SIZE, DEVICE_BASE, DEVICE_SIZE; lia. }
    rewrite Hr. assert (Ha : ram_added virt_layout virt_says = [mkRegion 0x50000000 0x10000000 Attributes.kernel_data]) by done.
    rewrite Ha. cbn [region_at]. rewrite (proj2 (inside_false _ _)); [done|cbn [r_base r_size]; lia].
Qed.

Lemma virt_startable : startable virt_layout virt_says ∅ virt_core.
Proof.
  split; [exact virt_ready| |exact virt_fits| |done].
  - destruct virt_ok as (_ & Hb & Hs & _ & Hr & _). split; [exact Hb|]. split; [exact Hs|].
    assert (Hr' : reserved_frames (mach (kern (bd virt_core))) = 512) by exact Hr. rewrite Hr', MAX_FRAMES_val. lia.
  - assert (Hr : room (tables_taken virt_layout + (tree_needs virt_layout virt_says + 1)) virt)
      by (apply virt_room; apply (Nat.leb_le _ _); vm_compute; reflexivity).
    destruct Hr as (l & Hn & Hl & Hav). exists l. split_and!; [done|done|].
    intros f Hf. apply (fa_set_avail (FrameAllocLaws := frames_laws)). by apply Hav.
Qed.

Lemma el0_reach_exact_witness :
  wp (start_kernel 0x1125 virt_layout virt_says) virt_core (λ _ c', ∀ b a va,
    reachable quiet_bus 62500000 0 0 (bd c') b → is_u64 va →
    match el0_translate (cpu c') (ttbr0 (kern b)) (memory (mach (kern b))) a va with
    | inr pa => user_may a va ∧ ∃ root, current_space_root (kern b) = Some root ∧
        translation (memory (mach (kern b))) root va = Some pa
    | inl _ => current_space_root (kern b) = None ∨ ¬ user_may a va
    end).
Proof. exact (el0_reach_exact quiet_bus 62500000 0 0 0x1125 virt_layout virt_says ∅ virt_core virt_startable). Defined.

Lemma el1_reach_kept_witness :
  wp (start_kernel 0x1125 virt_layout virt_says) virt_core (λ _ c', ∀ b a va,
    reachable quiet_bus 62500000 0 0 (bd c') b → is_u64 va →
    match el1_translate (cpu c') (ttbr0 (kern b)) (memory (mach (kern b))) a va with
    | inr pa =>
        (mapped_at virt_layout virt_says a va pa ∨
         a ≠ Fetch ∧ user_may a va ∧ ∃ root, current_space_root (kern b) = Some root ∧
           translation (memory (mach (kern b))) root va = Some pa) ∧
        (a = Fetch → KERNEL_BASE ≤ va ∧ 0x40080000 ≤ pa < 0x400c0000) ∧
        (a = Write → KERNEL_BASE ≤ va →
           ¬ (0x40080000 ≤ pa < 0x400c0000) ∧ ¬ (0x400c0000 ≤ pa < 0x40100000))
    | inl _ => (∀ pa, ¬ mapped_at virt_layout virt_says a va pa) ∧
        (a = Fetch ∨ current_space_root (kern b) = None ∨ ¬ user_may a va)
    end).
Proof. exact (el1_reach_kept quiet_bus 62500000 0 0 0x1125 virt_layout virt_says ∅ virt_core virt_startable). Defined.
