(* ===== verification/DiscoverProps.v ===== *)
(** * DiscoverProps: finding the virtio transports

    [slots] is what discovery should look at: the nodes of the tree, in order,
    whose [compatible] names the transport.  [scan] is what it should see there:
    each window in turn is asked for its magic, version, device and features.
    [discover] is shown to do exactly that and to record what answered. *)

From Stdlib Require Import Sorted.
From S2P Require Import Prelude Memory FrameAlloc Paging Frames FramesSpec FramesBoot Devices Sync Uart.
From S2P Require Import PagingWalk PagingTables PagingMap PagingRange PagingProps Virtio Fdt FdtSpec FdtTree FdtBuild FdtWalk FdtProps Boot BootProps DeviceMap.

Definition slot_name : list Z := bytes_of "virtio,mmio".

(** ** The slots of a tree *)

Section tree.
Context (m : mem) (b : Blob) (Hm : bytes_ok m) (Hb : blob_ok b) (Hal : blob_aligned b).

Definition node_of (s : Step) : option Node := match s with SNode n _ => Some n | SProperty _ _ => None end.

Definition is_slot (n : Node) : bool :=
  match property m b n (bytes_of "compatible") with
  | Done (Some l) => string_list_contains l slot_name
  | _ => false
  end.

Definition slots_of (l : list Step) : list Node := filter is_slot (omap node_of l).

(** The slots behind the offset [after], which is what the cursor asks for. *)
Definition beyond (after : Z) (l : list Node) : list Node := filter (λ n, after < offset n) l.

Local Abbreviation earlier := (λ n n' : Node, offset n < offset n').

Lemma beyond_all after l : Forall (λ n, after < offset n) l → beyond after l = l.
Proof.
  unfold beyond. induction 1 as [|n l Hn _ IH]; [done|]. rewrite filter_cons_True by done. by rewrite IH.
Qed.

(** The cursor moves one slot at a time. *)
Lemma beyond_step after l n rest :
  StronglySorted earlier l → beyond after l = n :: rest → beyond (offset n) l = rest.
Proof.
  unfold beyond. induction 1 as [|a l Hs IH Ha]; [done|].
  destruct (decide (after < offset a)) as [Hlt|Hge].
  - rewrite (filter_cons_True (λ n, after < offset n)) by done. intros [= <- <-].
    rewrite filter_cons_False by lia. fold (beyond (offset a) l) (beyond after l).
    rewrite !beyond_all; [done| |done]. eapply Forall_impl; [exact Ha|]. simpl. lia.
  - rewrite (filter_cons_False (λ n, after < offset n)) by done. intros Heq. rewrite <-(IH Heq). apply filter_cons_False.
    assert (Hin : n ∈ filter (λ n, after < offset n) l) by (rewrite Heq; left).
    apply list_elem_of_filter in Hin as [_ Hin]. rewrite Forall_forall in Ha. specialize (Ha n Hin). simpl in Ha. lia.
Qed.

Lemma walks_nodes w l :
  walks m b w l → walk_ok b w →
  Forall (λ n, node_ok b n ∧ w_offset w ≤ offset n) (omap node_of l) ∧ StronglySorted earlier (omap node_of l).
Proof.
  induction 1 as [w Hn|w s w' l Hn Hw IH]; intros Hok; [split; constructor|].
  pose proof (next_step_sim m m b Hm Hb ltac:(by intros ??) w Hok) as Hs.
  rewrite Hn in Hs. destruct Hs as [_ [(Hok' & Hadv & Hd) _]]. cbn [fst snd] in *.
  destruct (IH Hok') as [Hall Hsorted].
  assert (Hlater : ∀ o, o ≤ w_offset w' → Forall (λ n, node_ok b n ∧ o ≤ offset n) (omap node_of l)).
  { intros o Ho. eapply Forall_impl; [exact Hall|]. simpl. intros n [? ?]. split; [done|lia]. }
  destruct s as [n name|]; cbn [omap list_omap node_of]; [|split; [apply Hlater; lia|done]].
  destruct Hd as [Hnode Hoff]. split.
  - constructor; [split; [done|lia]|]. apply Hlater. lia.
  - constructor; [done|]. eapply Forall_impl; [apply (Hlater (w_offset w')); lia|]. simpl. lia.
Qed.

Lemma walks_total fuel w : walk_ok b w → walk_fuel b fuel w → ∃ l, walks m b w l.
Proof.
  revert w. induction fuel as [|fuel IH]; intros w Hok Hf; [by destruct Hf; lia|].
  pose proof (next_step_sim m m b Hm Hb ltac:(by intros ??) w Hok) as Hs.
  destruct (sim_done _ _ _ _ Hs Hal) as ([[s w']|] & Hn & Hr); [|by exists []; apply walks_end].
  destruct Hr as [Hst Hin]. pose proof (walk_fuel_step _ _ _ _ Hok Hf Hst Hin) as Hf'.
  destruct (IH w' (proj1 Hst) Hf') as [l Hl]. exists (s :: l). by eapply walks_step.
Qed.

Lemma property_done n name : node_ok b n → ∃ v, property m b n name = Done v.
Proof.
  intros Hn. destruct (sim_done _ _ _ _ (property_sim m m b Hm Hb ltac:(by intros ??) n name Hn) Hal) as (v & Hv & _).
  eauto.
Qed.

Lemma regions_done n room : node_ok b n → ∃ l, regions m b n room = Done l ∧ (length l ≤ room)%nat.
Proof.
  intros Hn. destruct (sim_done _ _ _ _ (regions_from_sim m m b Hm Hb ltac:(by intros ??) room n 0 Hn) Hal) as (l & Hl & ?).
  by exists l.
Qed.

Lemma find_compatible_loop_walks w l fuel after :
  walks m b w l → walk_ok b w → walk_fuel b fuel w →
  find_compatible_loop m fuel b w slot_name after = Done (head (beyond after (slots_of l))).
Proof.
  intros Hw. revert fuel. induction Hw as [w Hn|w s w' l Hn Hw IH]; intros fuel Hok Hf;
    (destruct fuel as [|fuel]; [by destruct Hf; lia|]); cbn [find_compatible_loop]; rewrite Hn; [done|].
  cbn [obind mbind res_bind]. pose proof (next_step_sim m m b Hm Hb ltac:(by intros ??) w Hok) as Hs.
  rewrite Hn in Hs. destruct Hs as [_ [Hs Hin]].
  pose proof (walk_fuel_step _ _ _ _ Hok Hf Hs Hin) as Hf'. destruct Hs as (Hok' & _ & Hd). cbn [fst snd] in *.
  specialize (IH fuel Hok' Hf'). unfold slots_of, beyond in *. destruct s as [n name|]; [|exact IH].
  cbn [omap list_omap node_of]. destruct Hd as [Hnode _].
  destruct (property_done n (bytes_of "compatible") Hnode) as [v Hv].
  assert (Hslot : is_slot n = match v with Some l => string_list_contains l slot_name | None => false end).
  { unfold is_slot. by rewrite Hv. }
  rewrite filter_cons. destruct (Z.leb_spec (offset n) after) as [Hle|Hgt].
  - rewrite IH. case_decide; [|done]. by rewrite filter_cons_False by lia.
  - rewrite Hv. cbn [mbind res_bind]. destruct v as [v|].
    + destruct (string_list_contains v slot_name); rewrite Hslot.
      * rewrite decide_True by done. by rewrite filter_cons_True.
      * by rewrite decide_False by (by intros []).
    + rewrite Hslot. by rewrite decide_False by (by intros []).
Qed.
End tree.

(** ** What the slots answer *)

Section scan.
Context (respond : list access → Z → Z → Z) (m : mem) (b : Blob).

(** The interrupt of a slot: shared peripheral interrupts start at 32, private
    ones at 16, and no other kind is known. *)
Definition slot_intid (n : Node) : option Z :=
  match property m b n (bytes_of "interrupts") with
  | Done (Some l) =>
    match be_bytes <$> get_range l 0 4, be_bytes <$> get_range l 4 8 with
    | Some 0, Some number => Some (32 + number)
    | Some 1, Some number => Some (16 + number)
    | _, _ => None
    end
  | _ => None
  end.

(** What a window answers after the history [h], and the history then. *)
Definition answers (base intid : Z) (h : list access) : Result Transport Virtio.Error * list access :=
  let t := mkTransport base intid 0 0 in
  let magic := answer respond t h MAGIC_VALUE in
  let h1 := h ++ [R respond t h MAGIC_VALUE] in
  if negb (magic =? Virtio.MAGIC) then (Err (NotVirtio magic), h1) else
  let version := answer respond t h1 VERSION_REG in
  let h2 := h1 ++ [R respond t h1 VERSION_REG] in
  if negb (version =? VERSION) then (Err (WrongVersion version), h2) else
  let h3 := h2 ++ [R respond t h2 DEVICE_ID] in
  (Ok (mkTransport base intid (answer respond t h2 DEVICE_ID) (offers respond t h3)), features_read respond t h3).

Definition slot_answers (n : Node) (h : list access) : option (Result Transport Virtio.Error) * list access :=
  match regions m b n 1 with
  | Done (w :: _) =>
    match slot_intid n with
    | Some intid => let '(r, h) := answers (Fdt.base w) intid h in (Some r, h)
    | None => (None, h)
    end
  | _ => (None, h)
  end.

(** A slot with a device in it. *)
Definition occupant (r : option (Result Transport Virtio.Error)) : list Transport :=
  match r with
  | Some (Ok t) => if device_id t =? 0 then [] else [t]
  | _ => []
  end.

(** What is told of a slot over the line, and the history then. *)
Definition told (self : Z) (n : Node) (r : option (Result Transport Virtio.Error)) (h h' : list access) : Prop :=
  match r with
  | Some (Err error) => sends respond self h (crlf (refusal n error)) h'
  | _ => h' = h
  end.

Inductive scan (self : Z) : list Node → list access → list Transport → list access → Prop :=
  | scan_end h : scan self [] h [] h
  | scan_slot n ns h r h1 h2 ts h3 :
      slot_answers n h = (r, h1) → told self n r h1 h2 → scan self ns h2 ts h3 →
      scan self (n :: ns) h (occupant r ++ ts) h3.

Definition windows_of (n : Node) : list Region := match regions m b n 1 with Done l => l | Panic _ => [] end.

(** The windows discovery has to map: the others are mapped from the start. *)
Definition todo (ns : list Node) : list Region := filter (λ w, known w = false) (ns ≫= windows_of).

(** A slot discovery can ask: its window fits and its interrupt number is one. *)
Record slot_ok (n : Node) : Prop := {
  so_window : Forall fits (windows_of n);
  so_intid : ∀ i, slot_intid n = Some i → i ≤ u32_max
}.

Lemma occupant_length r : (length (occupant r) ≤ 1)%nat.
Proof. destruct r as [[t|]|]; cbn; [|lia..]. destruct (_ =? _); cbn; lia. Qed.

(** Every transport found is the device of one of the slots. *)
Definition found_at (n : Node) (t : Transport) : Prop :=
  (∃ w, regions m b n 1 = Done [w] ∧ Virtio.base t = Fdt.base w) ∧ slot_intid n = Some (intid t) ∧ device_id t ≠ 0.

Lemma occupant_in r t : t ∈ occupant r → r = Some (Ok t) ∧ device_id t ≠ 0.
Proof.
  destruct r as [[t'|]|]; [|by intros ?%elem_of_nil..]. cbn [occupant].
  destruct (Z.eqb_spec (device_id t') 0); [by intros ?%elem_of_nil|]. by intros ->%list_elem_of_singleton.
Qed.

Lemma answers_ok a i h t : (answers a i h).1 = Ok t → Virtio.base t = a ∧ intid t = i.
Proof. unfold answers. destruct (negb _); [done|]. destruct (negb _); [done|]. by intros [= <-]. Qed.

Lemma regions_length room n i l : regions_from m room b n i = Done l → (length l ≤ room)%nat.
Proof.
  revert i l. induction room as [|room IH]; intros i l; cbn [regions_from]; [by intros [= <-]|].
  destruct (reg m b n i) as [[[a z]|]|]; cbn [mbind res_bind]; [|intros [= <-]; cbn; lia|done].
  destruct (regions_from m room b n _) as [l'|] eqn:Hl; [|done]. intros [= <-]. specialize (IH _ _ Hl). cbn. lia.
Qed.

Lemma slot_answers_found n h t :
  t ∈ occupant (slot_answers n h).1 → found_at n t.
Proof.
  intros [Hr Hid]%occupant_in. unfold slot_answers in Hr. unfold found_at.
  destruct (regions m b n 1) as [[|w l]|] eqn:Hw; [done| |done].
  assert (l = []) as -> by (apply regions_length in Hw; destruct l; [done|cbn in Hw; lia]).
  destruct (slot_intid n) as [i|]; [|done]. pose proof (answers_ok (Fdt.base w) i h t) as Ha.
  destruct (answers (Fdt.base w) i h) as [r h1]. injection Hr as ->. destruct (Ha eq_refl) as [? ->]. eauto.
Qed.

Lemma scan_found self ns h ts h' t :
  scan self ns h ts h' → t ∈ ts → ∃ n, n ∈ ns ∧ found_at n t.
Proof.
  induction 1 as [h|n ns h r h1 h2 ts h3 Hr _ _ IH]; [by intros ?%elem_of_nil|].
  rewrite elem_of_app. intros [Ht|Ht].
  - exists n. split; [left|]. apply (slot_answers_found n h). by rewrite Hr.
  - destruct (IH Ht) as (n' & ? & ?). exists n'. split; [by right|done].
Qed.
End scan.

(** ** Discovery does the scan *)

(** Nothing but the history of the bus. *)
Definition traced (h : list access) (s : system) : system :=
  set_con (set_BUS (set_trace h (BUS (con s))) (con s)) s.
Definition history (s : system) : list access := trace (BUS (con s)).

Lemma traced_history s : traced (history s) s = s.
Proof. by destruct s as [m [? ? [] ?] ? ? ?]. Qed.

Section discovery.
Context (respond : list access → Z → Z → Z) (polls : nat) (root : Z) (b : Blob).

Lemma wp_on_devices {A} (op : M devices A) s Q :
  wp op (BUS (con s)) (λ a d, Q a (set_con (set_BUS d (con s)) s)) → wp (on_devices op) s Q.
Proof. intros H. unfold on_devices, on_con. by apply wp_zoom, wp_zoom. Qed.

Lemma wp_probe_window a i s Q :
  0 ≤ a → a + 0x200 ≤ u64_max →
  Q (answers respond a i (history s)).1 (traced (answers respond a i (history s)).2 s) →
  wp (on_devices (probe_window respond a i)) s Q.
Proof.
  intros Ha Hhi HQ. apply wp_on_devices. unfold probe_window.
  set (t := mkTransport a i 0 0). assert (Ht : window_ok t) by by split.
  unfold answers in HQ. fold t in HQ. change (trace (BUS (con s))) with (history s).
  apply wp_bind, wp_t_read; [done|done|]. fold (history s).
  destruct (negb (answer _ _ _ MAGIC_VALUE =? _)); [by apply wp_ret|].
  apply wp_bind, wp_t_read; [done|done|]. rewrite set_trace_twice. cbn [set_trace trace].
  destruct (negb (answer _ _ _ VERSION_REG =? _)); [by apply wp_ret|].
  apply wp_bind, wp_t_read; [done|done|]. rewrite set_trace_twice. cbn [set_trace trace].
  apply wp_bind, wp_device_features; [done|]. rewrite set_trace_twice. cbn [set_trace trace]. by apply wp_ret.
Qed.

Lemma transport_intid_exact l :
  (∀ k, be_bytes <$> get_range l 0 4 = Some 0 → be_bytes <$> get_range l 4 8 = Some k → 32 + k ≤ u32_max) →
  (∀ k, be_bytes <$> get_range l 0 4 = Some 1 → be_bytes <$> get_range l 4 8 = Some k → 16 + k ≤ u32_max) →
  transport_intid l = Done match be_bytes <$> get_range l 0 4, be_bytes <$> get_range l 4 8 with
    | Some 0, Some number => Some (32 + number)
    | Some 1, Some number => Some (16 + number)
    | _, _ => None
    end.
Proof.
  intros H0 H1. unfold transport_intid.
  destruct (be_bytes <$> get_range l 0 4) as [kind|]; [|done].
  destruct (be_bytes <$> get_range l 4 8) as [k|]; [|by destruct kind as [|[]|]].
  destruct (Z.eqb_spec kind 0) as [->|]; [rewrite add32_ok by (specialize (H0 k eq_refl eq_refl); lia); unfold some; by rewrite Z.add_comm|].
  destruct (Z.eqb_spec kind 1) as [->|]; [rewrite add32_ok by (specialize (H1 k eq_refl eq_refl); lia); unfold some; by rewrite Z.add_comm|].
  by destruct kind as [|[]|].
Qed.

(** *** The machine while the slots are asked *)

Context (s0 : system).
Local Abbreviation mm := (high_view (mach s0)).
Context (Hm : bytes_ok mm) (Hb : blob_ok b) (Hal : blob_aligned b).

(** The bytes of the blob. *)
Definition in_blob (x : Z) : Prop := va b ≤ x + KERNEL_BASE < va b + totalsize (Fdt.header b).

Definition at_machine (m : machine) (h : list access) : system := set_mach m (traced h s0).
Definition same_blob (m : machine) : Prop := ∀ x, in_blob x → memory m x = memory (mach s0) x.

Lemma same_blob_agree m : same_blob m → mem_agree mm (high_view m) (va b) (totalsize (Fdt.header b)).
Proof. intros Hs x Hx. unfold high_view. symmetry. apply Hs. unfold in_blob. lia. Qed.

(** A question the blob answers. *)
Lemma wp_ask {A} (q : mem → res A) (P : A → Prop) m h a Q :
  (∀ m', mem_agree mm m' (va b) (totalsize (Fdt.header b)) → sim (blob_aligned b) (q mm) (q m') P) →
  same_blob m → q mm = Done a → Q a (at_machine m h) → wp (ask q) (at_machine m h) Q.
Proof.
  intros Hq Hs Ha HQ. unfold ask. apply wp_bind, wp_gets. eapply wp_lift; [|exact HQ].
  cbn [mach at_machine set_mach]. rewrite <-(sim_eq _ _ _ _ (Hq _ (same_blob_agree m Hs))). exact Ha.
Qed.

Lemma todo_cons n ns : todo mm b (n :: ns) = filter (λ w, known w = false) (windows_of mm b n) ++ todo mm b ns.
Proof. unfold todo. cbn. by rewrite filter_app. Qed.

Lemma todo_fits ns : Forall (slot_ok mm b) ns → Forall fits (todo mm b ns).
Proof.
  intros H. apply Forall_forall. intros w [_ (n & Hw & Hn)%list_elem_of_bind]%list_elem_of_filter.
  rewrite Forall_forall in H. pose proof (so_window _ _ _ (H n Hn)) as Hf. rewrite Forall_forall in Hf. by apply Hf.
Qed.

(** One slot. *)
Lemma wp_probe n ns m T h Q :
  node_ok b n → Forall (slot_ok mm b) (n :: ns) → same_blob m → prepared root in_blob m T (todo mm b (n :: ns)) →
  (∀ m' T', prepared root in_blob m' T' (todo mm b ns) → same_blob m' →
     mapped root in_blob m T (filter (λ w, known w = false) (windows_of mm b n)) m' T' →
     Q (slot_answers respond mm b n h).1 (at_machine m' (slot_answers respond mm b n h).2)) →
  wp (probe respond root b n) (at_machine m h) Q.
Proof.
  intros Hn Hall Hs Hp HQ. pose proof Hall as [[Hwin Hint] Hns]%Forall_cons. rewrite todo_cons in Hp.
  destruct (regions_done mm b Hm Hb Hal n 1 Hn) as (l & Hl & Hlen).
  unfold windows_of in *. rewrite Hl in *. unfold probe, slot_answers in *. rewrite Hl in *.
  apply wp_bind. eapply (wp_ask _ (λ l, (length l ≤ 1)%nat)); [|exact Hs|exact Hl|].
  { intros m' Ha. by apply regions_from_sim. }
  destruct l as [|w l]; [by apply wp_ret, (HQ m T); [| |apply mapped_nil]|].
  assert (l = []) as -> by (destruct l; [done|cbn in Hlen; lia]).
  pose proof Hwin as [Hw _]%Forall_cons.
  assert (Hf : filter (λ w, known w = false) [w] = if known w then [] else [w]) by (unfold filter; cbn; by destruct (known w)).
  rewrite Hf in *. apply wp_bind. unfold on_machine. apply wp_zoom.
  apply (wp_map_device root in_blob m T w (todo mm b ns)); [constructor; [done|by apply todo_fits]|exact Hp|].
  intros r m1 T1 Hp1 Hmap. assert (Hs1 : same_blob m1).
  { intros x Hx. rewrite (mo_kept _ _ _ _ _ _ _ Hmap x Hx). by apply Hs. }
  specialize (HQ m1 T1 Hp1 Hs1 Hmap). change (set_mach m1 (at_machine m h)) with (at_machine m1 h).
  destruct (property_done mm b Hm Hb Hal n (bytes_of "interrupts") Hn) as [v Hv].
  apply wp_bind. eapply (wp_ask _ _ m1); [intros m' Ha; by apply property_sim|exact Hs1|exact Hv|].
  unfold slot_intid in HQ, Hint. rewrite Hv in HQ, Hint. destruct v as [v|]; [|by apply wp_ret].
  apply wp_bind. eapply wp_lift.
  { apply transport_intid_exact; intros k H1 H2; rewrite H1, H2 in Hint; by apply Hint. }
  destruct (match be_bytes <$> _ with Some _ => _ | None => _ end) as [i|]; [|by apply wp_ret].
  destruct Hw as [Hb0 [Hsz _] Htop _]. change (2 ^ 48) with 281474976710656 in Htop. unfold PAGE_SIZE in Htop.
  apply wp_bind, wp_probe_window; [done|lia|].
  change (history (at_machine m1 h)) with h. destruct (answers respond (Fdt.base w) i h) as [r' h'].
  apply wp_ret. exact HQ.
Qed.

(** The console works, and what it is told of a slot. *)
Definition console_ok (k : console) : Prop :=
  daif_ok (DAIF k) ∧ uart_ok (CONSOLE k) ∧ patient respond polls (CONSOLE k) FR_TXFF.

Lemma wp_tell n r m h Q :
  console_ok (con s0) → (∀ h', told respond (CONSOLE (con s0)) n r h h' → Q tt (at_machine m h')) →
  wp (tell respond polls n r) (at_machine m h) Q.
Proof.
  intros (Hd & Hu & Hp) HQ. unfold tell, told in *. destruct r as [[t|e]|]; [by apply wp_ret, HQ| |by apply wp_ret, HQ].
  unfold print, on_con. apply wp_zoom, wp_console_section; [exact Hd|].
  apply wp_on_console, wp_uart_write_str; [exact Hu|exact Hp|]. intros h' Hh. specialize (HQ h' Hh).
  unfold at_machine, traced in *. destruct s0 as [? [? ? [] ?] ? ? ?]. exact HQ.
Qed.

(** *** The table of what was found *)

Definition table_of (ts : list Transport) : list (option Transport) :=
  (Some <$> ts) ++ replicate (Z.to_nat MAX_TRANSPORTS - length ts) None.

Lemma record_table r ts :
  Z.of_nat (length ts) < MAX_TRANSPORTS →
  record r (table_of ts) (Z.of_nat (length ts)) = (table_of (ts ++ occupant r), Z.of_nat (length (ts ++ occupant r))).
Proof.
  intros Hlt. destruct r as [[t|]|]; cbn [record occupant]; [|by rewrite app_nil_r..].
  destruct (device_id t =? 0); [by rewrite app_nil_r|]. rewrite (proj2 (Z.ltb_lt _ _)) by done.
  rewrite length_app. cbn [length]. f_equal; [|lia]. unfold table_of. rewrite Nat2Z.id, fmap_app, length_app.
  rewrite insert_app_r_alt by (rewrite length_fmap; lia). rewrite length_fmap, Nat.sub_diag, <-app_assoc. f_equal.
  cbn [length fmap list_fmap]. unfold MAX_TRANSPORTS in *.
  replace (Z.to_nat 32 - length ts)%nat with (S (Z.to_nat 32 - (length ts + 1)))%nat by lia. done.
Qed.

(** *** The loop *)

Context (l : list Step) (Hwalks : walks mm b (Fdt.walk b) l) (Hcon : console_ok (con s0)).
Local Abbreviation all := (slots_of mm b l).

Lemma slots_nodes : Forall (node_ok b) all ∧ StronglySorted (λ n n', Fdt.offset n < Fdt.offset n') all.
Proof.
  destruct (walks_nodes mm b Hm Hb _ _ Hwalks (walk_walk_ok b Hb)) as [Hn Hs]. split.
  - apply Forall_forall. intros n [_ Hin]%list_elem_of_filter. rewrite Forall_forall in Hn. by apply Hn.
  - unfold slots_of. clear Hn. induction Hs as [|n l' _ IH Ha]; [constructor|]. rewrite filter_cons.
    case_decide; [|done]. constructor; [done|]. apply Forall_forall. intros n' [_ Hin]%list_elem_of_filter.
    rewrite Forall_forall in Ha. by apply Ha.
Qed.

Lemma wp_discover_loop fuel after rest slots ts m T h Q :
  beyond after all = rest → (0 < fuel)%nat → 0 ≤ slots → slots + Z.of_nat fuel = MAX_TRANSPORTS →
  Z.of_nat (length ts) ≤ slots → Forall (slot_ok mm b) (take fuel rest) →
  same_blob m → prepared root in_blob m T (todo mm b (take fuel rest)) →
  (∀ m' T', prepared root in_blob m' T' [] → same_blob m' →
     mapped root in_blob m T (todo mm b (take fuel rest)) m' T' →
     ∀ ts' h', scan respond mm b (CONSOLE (con s0)) (take fuel rest) h ts' h' →
     Q (table_of (ts ++ ts'), slots + Z.of_nat (length (take fuel rest)), Z.of_nat (length (ts ++ ts'))) (at_machine m' h')) →
  wp (discover_loop respond polls root fuel b after slots (Z.of_nat (length ts)) (table_of ts)) (at_machine m h) Q.
Proof.
  revert after rest slots ts m T h. induction fuel as [|fuel IH]; intros after rest slots ts m T h; [lia|].
  intros Hrest _ Hs0 Hsum Hlen Hall Hsame Hp HQ. cbn [discover_loop].
  pose proof (walk_walk_ok b Hb) as Hwok. destruct slots_nodes as [Hnodes Hsorted].
  apply wp_bind. eapply (wp_ask _ _ m); [intros m' Ha; by apply find_compatible_after_sim|exact Hsame| |].
  { unfold find_compatible_after. apply (find_compatible_loop_walks mm b Hm Hb Hal _ l); [done|done|].
    by apply walk_fuel_rounds. }
  rewrite Hrest. destruct rest as [|n rest]; cbn [head].
  { apply wp_ret. specialize (HQ m T Hp Hsame (mapped_nil _ _ _ _) [] h (scan_end _ _ _ _ _)). cbn in HQ.
    rewrite app_nil_r, Z.add_0_r in HQ. exact HQ. }
  assert (Hn : node_ok b n).
  { rewrite Forall_forall in Hnodes. apply Hnodes. apply (list_elem_of_filter (λ n, after < Fdt.offset n)).
    fold (beyond after all). rewrite Hrest. left. }
  unfold MAX_TRANSPORTS in *. apply wp_bind. eapply wp_lift; [apply add64_ok; lia|].
  cbn [take] in *. apply wp_bind. eapply (wp_probe n (take fuel rest)); [done|done|done|done|].
  intros m1 T1 Hp1 Hs1 Hmap1. destruct (slot_answers respond mm b n h) as [r h1] eqn:Hr. cbn [fst snd].
  apply wp_bind, wp_tell; [done|]. intros h2 Htold.
  rewrite record_table by (unfold MAX_TRANSPORTS; lia).
  pose proof (occupant_length r) as Hocc. apply Forall_cons in Hall as [Hn' Hall].
  assert (Hfits : Forall fits (filter (λ w, known w = false) (windows_of mm b n))).
  { apply Forall_forall. intros w [_ Hin]%list_elem_of_filter. pose proof (so_window _ _ _ Hn') as Hf.
    rewrite Forall_forall in Hf. by apply Hf. }
  assert (Hthen : ∀ m' T', mapped root in_blob m1 T1 (todo mm b (take fuel rest)) m' T' →
    mapped root in_blob m T (todo mm b (n :: take fuel rest)) m' T').
  { intros m' T' Hmap. rewrite todo_cons. by eapply mapped_app. }
  assert (Hscan : ∀ ns ts' h', scan respond mm b (CONSOLE (con s0)) ns h2 ts' h' →
    scan respond mm b (CONSOLE (con s0)) (n :: ns) h (occupant r ++ ts') h') by (intros; by eapply scan_slot).
  destruct (Z.eqb_spec (slots + 1) 32) as [He|Hne].
  - assert (fuel = 0%nat) as -> by lia. apply wp_ret. change (take 0 rest) with (@nil Node) in *. cbn [length] in *.
    specialize (HQ m1 T1 Hp1 Hs1 (Hthen _ _ (mapped_nil _ _ _ _)) _ _ (Hscan _ _ _ (scan_end _ _ _ _ _))).
    rewrite app_nil_r in HQ. exact HQ.
  - apply (IH (Fdt.offset n) rest (slots + 1) _ m1 T1 h2); [|lia|lia|lia| |done|done|done|].
    + by eapply beyond_step.
    + rewrite length_app. lia.
    + intros m' T' Hp' Hs' Hmap ts' h' Hsc. specialize (HQ m' T' Hp' Hs' (Hthen _ _ Hmap) _ _ (Hscan _ _ _ Hsc)).
      rewrite <-app_assoc. cbn [length] in HQ.
      replace (slots + 1 + Z.of_nat (length (take fuel rest))) with (slots + Z.of_nat (S (length (take fuel rest)))) by lia.
      exact HQ.
Qed.
End discovery.

(** The slots discovery looks at. *)
Definition seen (m : mem) (b : Blob) (l : list Step) : list Node :=
  take (Z.to_nat MAX_TRANSPORTS) (beyond 0 (slots_of m b l)).

(** C22: discovery is exact: over a blob whose slots can be asked it walks the first
    thirty-two nodes compatible with virtio,mmio in the order of the tree, maps
    each window that is not mapped yet, and asks each in turn, so that the table
    holds exactly the slots that answered as a version 2 transport with a device
    in it, each with its window's address and its own interrupt, the counts are
    those of slots and devices, and nothing else changed: the windows mapped
    before are still mapped, the blob is what it was, and the bus saw these reads
    and, for a slot that did not answer as one, a line on the console that says
    so before the next is asked, and nothing else. *)
Theorem discover_exact respond polls root s T b :
  let mm := high_view (mach s) in
  blob_ok b → blob_aligned b → tables_ok (mach s) T → T !! root = Some 3%nat → console_ok respond polls (con s) →
  ∃ l, collect_all mm b = Done l ∧
    let ns := seen mm b l in
    (Forall (slot_ok mm b) ns → prepared root (in_blob b) (mach s) T (todo mm b ns) →
     wp (discover respond polls root b) s (λ r s', ∃ ts h m' T',
       scan respond mm b (CONSOLE (con s)) ns (history s) ts h ∧
       r = (Z.of_nat (length ns), Z.of_nat (length ts)) ∧
       s' = set_transports (table_of ts) (Z.of_nat (length ns)) (at_machine s m' h) ∧
       tables_ok m' T' ∧ mapped root (in_blob b) (mach s) T (todo mm b ns) m' T' ∧
       ∀ t, t ∈ ts → ∃ n, n ∈ ns ∧ found_at mm b n t)).
Proof.
  intros mm Hb Hal Ht Hroot Hcon. subst mm. set (mm := high_view (mach s)).
  assert (Hm : bytes_ok mm) by (intros x; apply (fa_bytes _ (t_ok _ _ Ht))).
  pose proof (walk_walk_ok b Hb) as Hwok. pose proof (walk_fuel_rounds b Hb _ Hwok) as Hf.
  destruct (walks_total mm b Hm Hb Hal _ _ Hwok Hf) as [l Hl]. exists l. split; [by apply walks_collect|].
  cbv zeta. intros Hall Hp.
  assert (Hs : at_machine s (mach s) (history s) = s) by by destruct s as [? [? ? [] ?] ? ? ?].
  rewrite <-Hs at 1. unfold discover. apply wp_bind.
  apply (wp_discover_loop respond polls root b s Hm Hb Hal l Hl Hcon 32 0 (beyond 0 (slots_of mm b l)) 0 [] (mach s) T (history s));
    [done|lia|lia|done|done|exact Hall|done|exact Hp|].
  intros m' T' Hp' _ Hmap ts h Hscan. unfold seen in *. change (Z.to_nat MAX_TRANSPORTS) with 32%nat in *.
  fold mm in Hscan. apply wp_bind, wp_modify, wp_ret. exists ts, h, m', T'.
  split_and!; [exact Hscan|done|done|apply Hp'|exact Hmap|]. intros t. by apply (scan_found respond _ _ _ _ _ _ _ _ Hscan).
Qed.

(** *** A board with a device in the first of two slots *)

(** The builder's strings have no room for [interrupts]; these do. *)
Definition slot_strings : list Z := TEST_STRINGS ++ bytes_of "interrupts" ++ [0].
Definition STR_INTERRUPTS : Z := 42.

Definition slot_node (name : string) (unit number : Z) : dtree :=
  DNode (bytes_of name)
    [(STR_COMPATIBLE, bytes_of "virtio,mmio" ++ [0]);
     (STR_REG, to_be_bytes 0 ++ to_be_bytes unit ++ to_be_bytes 0 ++ to_be_bytes 0x200);
     (STR_INTERRUPTS, to_be_bytes 0 ++ to_be_bytes number ++ to_be_bytes 1)] [].

Definition slot_tree : dtree :=
  DNode [] [(STR_ADDRESS_CELLS, to_be_bytes 2); (STR_SIZE_CELLS, to_be_bytes 2)]
    [slot_node "virtio_mmio@a000000" 0x0a000000 16; slot_node "virtio_mmio@a000200" 0x0a000200 17].

Definition slot_header : Header :=
  let n := Z.of_nat (length (tree_bytes slot_tree)) + 4 in
  let k := Z.of_nat (length slot_strings) in
  mkHeader (40 + n + k) 40 (40 + n) 40 17 16 0 k n.

(** In a page of the kernel's image, which no frame is taken from. *)
Definition slot_pa : Z := 0x40100000.
Definition slot_blob : Blob := mkBlob slot_pa (slot_pa + KERNEL_BASE) slot_header.
Definition slot_mem : mem :=
  place zeros (slot_pa + 40) (tree_bytes slot_tree ++ to_be_bytes FDT_END ++ slot_strings).
Definition slot_view : mem := λ va, zero_range slot_mem board_root 4096 (va - KERNEL_BASE).
Definition slot_steps : list Step := done_or [] (collect_all slot_view slot_blob).

(** A block device at the first window, nothing at the second. *)
Definition one_device (_ : list access) (_ a : Z) : Z :=
  if a mod 0x200 =? MAGIC_VALUE then Virtio.MAGIC
  else if a mod 0x200 =? VERSION_REG then VERSION
  else if a =? 0x0a000000 + DEVICE_ID then 2 else 0.

Definition slot_board (m : machine) : system :=
  mkSystem m (boot_console (mkDevices 0 0 [] 0 0) 0) (Some slot_blob) no_transports 0.

Lemma slot_mem_ok : bytes_ok slot_mem.
Proof. apply place_bytes_ok; [apply zeros_ok|apply (bool_decide_unpack _); by vm_compute]. Qed.

Lemma slot_blob_ok : blob_ok slot_blob ∧ blob_aligned slot_blob.
Proof. split; [split|split]; vm_compute; split_and?; done || (intros ?; discriminate). Qed.

Definition slots_seen : list Node := [mkNode 80 2 2 2; mkNode 184 2 2 2].
Definition slot_windows : list Region := [mkRegion 0x0a000000 0x200; mkRegion 0x0a000200 0x200].
Definition slot_found : list Transport := [mkTransport 0x0a000000 48 2 0].

Lemma slot_board_seen :
  collect_all slot_view slot_blob = Done slot_steps ∧ seen slot_view slot_blob slot_steps = slots_seen ∧
  todo slot_view slot_blob slots_seen = slot_windows.
Proof. split_and!; by vm_compute. Qed.

Lemma slot_console : console_ok one_device 1 (con (slot_board virt)).
Proof. split; [by vm_compute|]. split; [by vm_compute; split|]. intros h. left. by vm_compute. Qed.

(** The first slot answers and the second does not, whatever happened before. *)
Lemma slot_board_found h ts h' : scan one_device slot_view slot_blob PL011_BOOTSTRAP slots_seen h ts h' → ts = slot_found.
Proof.
  intros H. inversion_clear H as [|? ? ? r1 h1 h2 ts1 ? H1 _ Hs]. inversion_clear Hs as [|? ? ? r2 h3 h4 ts2 ? H2 _ Hs'].
  inversion_clear Hs'. apply (f_equal fst) in H1, H2. vm_compute in H1, H2. cbn [fst] in *. subst r1 r2. reflexivity.
Qed.

Lemma slot_windows_fit : Forall fits slot_windows.
Proof.
  assert (Hf : ∀ a, 0x0a000000 ≤ a ≤ 0x0a000200 → known (mkRegion a 0x200) = false →
    in_window (first_page (mkRegion a 0x200)) = false → in_window (past_page (mkRegion a 0x200) - 1) = false →
    fits (mkRegion a 0x200)).
  { intros a Ha _ H1 H2. split; cbn [Fdt.base Fdt.size]; unfold BLOCK_2MIB, PAGE_SIZE; [lia|lia| |done].
    change (2 ^ 48) with 281474976710656. lia. }
  apply Forall_cons. split; [|apply Forall_singleton]; (apply Hf; [lia|by vm_compute..]).
Qed.

Lemma slot_board_slots : Forall (slot_ok slot_view slot_blob) slots_seen.
Proof.
  assert (Hw : ∀ n w, n ∈ slots_seen → windows_of slot_view slot_blob n = [w] → w ∈ slot_windows → 
    (∃ i, slot_intid slot_view slot_blob n = Some i ∧ i ≤ u32_max) → slot_ok slot_view slot_blob n).
  { intros n w _ Hn Hw (i & Hi & Hle). split; [|intros i'; rewrite Hi; by intros [= <-]].
    rewrite Hn. constructor; [|constructor]. pose proof slot_windows_fit as Hf. rewrite Forall_forall in Hf. by apply Hf. }
  apply Forall_cons. split; [|apply Forall_singleton].
  - eapply Hw; [left|by vm_compute|left|]. exists 48. split; [by vm_compute|lia].
  - eapply Hw; [right; left|by vm_compute|right; left|]. exists 49. split; [by vm_compute|lia].
Qed.

Lemma slot_board_prepared m :
  board_up slot_mem m → prepared board_root (in_blob slot_blob) m {[board_root := 3%nat]} slot_windows.
Proof.
  intros Hs. split; [apply Hs|by rewrite lookup_singleton_eq| | |].
  - intros f x Hf Hx.
    assert (Hlow : 0x40200000 ≤ f).
    { destruct Hf as [Hf|Hf].
      - destruct (decide (f = board_root)) as [->|]; [by vm_compute|]. by rewrite lookup_singleton_ne in Hf.
      - destruct Hf as (i & -> & Hi). apply (bu_free _ _ Hs) in Hi. rewrite (board_index _ _ Hs). lia. }
    unfold in_blob in Hx. change (va slot_blob) with (0x40100000 + KERNEL_BASE) in Hx.
    change (totalsize (Fdt.header slot_blob)) with 349 in Hx. lia.
  - intros w _ o _ l d. by rewrite (bu_walk _ _ Hs).
  - destruct (board_room_below _ _ Hs (needs slot_windows) ltac:(by apply (bool_decide_unpack _); vm_compute))
      as (l & Hl & Hlen & Hav). exists l. split_and!; [done|done|]. intros f Hf. by apply Hav.
Qed.

Lemma discover_exact_witness :
  ∃ s, wp (discover one_device 1 board_root slot_blob) s (λ r s', r = (2, 1) ∧
    head (TRANSPORTS s') = Some (Some (mkTransport 0x0a000000 48 2 0)) ∧
    translation (memory (mach s')) board_root (0x0a000200 + KERNEL_BASE) = Some 0x0a000200).
Proof.
  destruct (board_starts slot_mem slot_mem_ok) as (m & _ & Hs). exists (slot_board m).
  destruct slot_blob_ok as [Hb Hal]. pose proof (board_high _ _ Hs) as Hview.
  destruct slot_board_seen as (Hsteps & Hseen & Htodo).
  assert (Hroot : ({[board_root := 3%nat]} : gmap Z nat) !! board_root = Some 3%nat) by apply lookup_singleton_eq.
  destruct (discover_exact one_device 1 board_root (slot_board m) {[board_root := 3%nat]} slot_blob Hb Hal
    (bu_tables _ _ Hs) Hroot slot_console) as (l & Hl & Hd). clear Hb Hal Hroot.
  change (mach (slot_board m)) with m in *. rewrite Hview in *. fold slot_view in *.
  assert (l = slot_steps) as -> by congruence. cbv zeta in Hd. rewrite Hseen, Htodo in Hd.
  specialize (Hd slot_board_slots (slot_board_prepared m Hs)).
  eapply wp_mono; [exact Hd|]. intros r s' (ts & h & m' & T' & Hsc & -> & -> & _ & Hmap & _).
  apply slot_board_found in Hsc as ->.
  split; [done|]. split; [done|]. cbn [mach set_transports at_machine set_mach].
  pose proof (mo_reached _ _ _ _ _ _ _ Hmap (mkRegion 0x0a000200 0x200) ltac:(right; left)) as Hre.
  clear -Hre. specialize (Hre 0x200). assert (Ho : 0 ≤ 0x200 < span (mkRegion 0x0a000200 0x200)) by by vm_compute.
  specialize (Hre Ho). change (first_page (mkRegion 0x0a000200 0x200)) with 0x0a000000 in Hre.
  replace (0x0a000200 + KERNEL_BASE) with (0x0a000000 + KERNEL_BASE + 0x200) by reflexivity.
  by eapply maps_translation.
Defined.
