(* ===== verification/A64.v ===== *)
(** * A64: the instructions the user programs are made of

    Just enough of the architecture to run [user.S]: instructions with their
    32-bit encodings, and what each does at EL0 to the registers.  Memory and
    traps are left to the caller as an [effect]. *)

From S2P Require Import Prelude Exceptions.

(** Register 31 is the stack pointer or zero, as the instruction has it; offsets
    of branches and of [Adr] are from the instruction itself, in bytes. *)
Inductive instr : Type :=
  | Movz (d imm hw : Z)
  | Movn (d imm : Z)
  | OrrReg (d n m : Z)
  | OrrBit (d n bit : Z)
  | AddImm (wide : bool) (d n imm : Z)
  | SubImm (d n imm : Z)
  | SubsImm (d n imm : Z)
  | SubReg (d n m : Z)
  | SubsReg (wide : bool) (d n m : Z)
  | Adr (d off : Z)
  | Ldr (t n off : Z)
  | Str (t n off : Z)
  | LdrbPost (t n off : Z)
  | StrbPost (t n off : Z)
  | Strb (t n off : Z)
  | Branch (off : Z)
  | BranchLink (off : Z)
  | BranchIf (cond off : Z)
  | Cbz (t off : Z)
  | Cbnz (t off : Z)
  | Return
  | Udiv (d n m : Z)
  | Msub (d n m a : Z)
  | Svc (imm : Z)
  | MrsSctlr (t : Z).
Global Instance instr_eq_dec : EqDecision instr.
Proof. solve_decision. Defined.

(** ** Encoding *)

(** A field of [width] bits at [lo]; a negative offset is in two's complement. *)
Definition field (v width lo : Z) : Z := Z.shiftl (v mod 2 ^ width) lo.
Definition rrr (m n d : Z) : Z := Z.lor (Z.lor (field m 5 16) (field n 5 5)) (field d 5 0).
Definition ri (imm n d : Z) : Z := Z.lor (Z.lor (field imm 12 10) (field n 5 5)) (field d 5 0).

Definition encode (i : instr) : Z :=
  match i with
  | Movz d imm hw => Z.lor 0xd2800000 (Z.lor (Z.lor (field hw 2 21) (field imm 16 5)) (field d 5 0))
  | Movn d imm => Z.lor 0x92800000 (Z.lor (field imm 16 5) (field d 5 0))
  | OrrReg d n m => Z.lor 0xaa000000 (rrr m n d)
  | OrrBit d n bit => Z.lor 0xb2400000 (Z.lor (field (- bit) 6 16) (Z.lor (field n 5 5) (field d 5 0)))
  | AddImm wide d n imm => Z.lor (if wide then 0x91000000 else 0x11000000) (ri imm n d)
  | SubImm d n imm => Z.lor 0xd1000000 (ri imm n d)
  | SubsImm d n imm => Z.lor 0xf1000000 (ri imm n d)
  | SubReg d n m => Z.lor 0xcb000000 (rrr m n d)
  | SubsReg wide d n m => Z.lor (if wide then 0xeb000000 else 0x6b000000) (rrr m n d)
  | Adr d off => Z.lor 0x10000000 (Z.lor (Z.lor (field off 2 29) (field (Z.shiftr off 2) 19 5)) (field d 5 0))
  | Ldr t n off => Z.lor 0xf9400000 (ri (off / 8) n t)
  | Str t n off => Z.lor 0xf9000000 (ri (off / 8) n t)
  | LdrbPost t n off => Z.lor 0x38400400 (Z.lor (Z.lor (field off 9 12) (field n 5 5)) (field t 5 0))
  | StrbPost t n off => Z.lor 0x38000400 (Z.lor (Z.lor (field off 9 12) (field n 5 5)) (field t 5 0))
  | Strb t n off => Z.lor 0x39000000 (ri off n t)
  | Branch off => Z.lor 0x14000000 (field (Z.shiftr off 2) 26 0)
  | BranchLink off => Z.lor 0x94000000 (field (Z.shiftr off 2) 26 0)
  | BranchIf cond off => Z.lor 0x54000000 (Z.lor (field (Z.shiftr off 2) 19 5) (field cond 4 0))
  | Cbz t off => Z.lor 0xb4000000 (Z.lor (field (Z.shiftr off 2) 19 5) (field t 5 0))
  | Cbnz t off => Z.lor 0xb5000000 (Z.lor (field (Z.shiftr off 2) 19 5) (field t 5 0))
  | Return => 0xd65f03c0
  | Udiv d n m => Z.lor 0x9ac00800 (rrr m n d)
  | Msub d n m a => Z.lor 0x9b008000 (Z.lor (field a 5 10) (rrr m n d))
  | Svc imm => Z.lor 0xd4000001 (field imm 16 5)
  | MrsSctlr t => Z.lor 0xd5381000 (field t 5 0)
  end.

(** ** Decoding *)

Definition bits (w lo width : Z) : Z := Z.land (Z.shiftr w lo) (Z.ones width).
Definition sbits (w lo width : Z) : Z :=
  let v := bits w lo width in if Z.testbit v (width - 1) then v - 2 ^ width else v.

(** [w] has the bits [pattern] under [mask]. *)
Definition is_op (w mask pattern : Z) : bool := Z.land w mask =? pattern.

Definition decode (w : Z) : option instr :=
  let d := bits w 0 5 in let n := bits w 5 5 in let m := bits w 16 5 in let imm12 := bits w 10 12 in
  if is_op w 0xff800000 0xd2800000 then Some (Movz d (bits w 5 16) (bits w 21 2))
  else if is_op w 0xffe00000 0x92800000 then Some (Movn d (bits w 5 16))
  else if is_op w 0xffe0fc00 0xaa000000 then Some (OrrReg d n m)
  else if is_op w 0xffc0fc00 0xb2400000 then Some (OrrBit d n ((- bits w 16 6) mod 64))
  else if is_op w 0xffc00000 0x91000000 then Some (AddImm true d n imm12)
  else if is_op w 0xffc00000 0x11000000 then Some (AddImm false d n imm12)
  else if is_op w 0xffc00000 0xd1000000 then Some (SubImm d n imm12)
  else if is_op w 0xffc00000 0xf1000000 then Some (SubsImm d n imm12)
  else if is_op w 0xffe0fc00 0xcb000000 then Some (SubReg d n m)
  else if is_op w 0xffe0fc00 0xeb000000 then Some (SubsReg true d n m)
  else if is_op w 0xffe0fc00 0x6b000000 then Some (SubsReg false d n m)
  else if is_op w 0x9f000000 0x10000000 then Some (Adr d (4 * sbits w 5 19 + bits w 29 2))
  else if is_op w 0xffc00000 0xf9400000 then Some (Ldr d n (8 * imm12))
  else if is_op w 0xffc00000 0xf9000000 then Some (Str d n (8 * imm12))
  else if is_op w 0xffe00c00 0x38400400 then Some (LdrbPost d n (sbits w 12 9))
  else if is_op w 0xffe00c00 0x38000400 then Some (StrbPost d n (sbits w 12 9))
  else if is_op w 0xffc00000 0x39000000 then Some (Strb d n imm12)
  else if is_op w 0xfc000000 0x14000000 then Some (Branch (4 * sbits w 0 26))
  else if is_op w 0xfc000000 0x94000000 then Some (BranchLink (4 * sbits w 0 26))
  else if is_op w 0xff000010 0x54000000 then Some (BranchIf (bits w 0 4) (4 * sbits w 5 19))
  else if is_op w 0xff000000 0xb4000000 then Some (Cbz d (4 * sbits w 5 19))
  else if is_op w 0xff000000 0xb5000000 then Some (Cbnz d (4 * sbits w 5 19))
  else if w =? 0xd65f03c0 then Some Return
  else if is_op w 0xffe0fc00 0x9ac00800 then Some (Udiv d n m)
  else if is_op w 0xffe08000 0x9b008000 then Some (Msub d n m (bits w 10 5))
  else if is_op w 0xffe0001f 0xd4000001 then Some (Svc (bits w 5 16))
  else if is_op w 0xffffffe0 0xd5381000 then Some (MrsSctlr d)
  else None.

(** ** Execution *)

(** The registers of a program: those of its trap frame, with the program counter
    in [frame_elr] and the flags in [spsr], and [SP_EL0], which is not in it. *)
Definition xreg (f : TrapFrame) (i : Z) : Z := if i =? 31 then 0 else reg f i.
Definition xsp (f : TrapFrame) (sp i : Z) : Z := if i =? 31 then sp else reg f i.
Definition set_reg (i v : Z) (f : TrapFrame) : TrapFrame :=
  if i =? 31 then f else with_x (<[Z.to_nat i := as_u64 v]> (x f)) f.
Definition set_flags (v : Z) (f : TrapFrame) : TrapFrame := mkFrame (x f) (frame_elr f) v (frame_esr f) (frame_far f).
Definition step_pc (off : Z) (f : TrapFrame) : TrapFrame := with_elr (as_u64 (frame_elr f + off)) f.

(** N, Z, C and V of [a - b] at a width. *)
Definition flags_of_sub (width a b : Z) : Z :=
  let r := (a - b) mod 2 ^ width in
  let sign v := Z.testbit v (width - 1) in
  Z.b2z (sign r) * 2 ^ 31 + Z.b2z (r =? 0) * 2 ^ 30 + Z.b2z (b <=? a) * 2 ^ 29 +
  Z.b2z (negb (Bool.eqb (sign a) (sign b)) && negb (Bool.eqb (sign r) (sign a))) * 2 ^ 28.

(** EQ, NE and LS; the programs use no other condition. *)
Definition holds (cond flags : Z) : option bool :=
  if cond =? 0 then Some (Z.testbit flags 30)
  else if cond =? 1 then Some (negb (Z.testbit flags 30))
  else if cond =? 9 then Some (negb (Z.testbit flags 29) || Z.testbit flags 30)
  else None.

(** What is left to do about an instruction. *)
Inductive effect : Type :=
  | Moved (f : TrapFrame) (sp : Z)
  | Loads (n : nat) (va : Z) (t : Z) (f : TrapFrame) (sp : Z)   (** then register [t] is set *)
  | Stores (n : nat) (va v : Z) (f : TrapFrame) (sp : Z)
  | Calls
  | Undefined.

Definition next_instr (f : TrapFrame) : TrapFrame := step_pc 4 f.
(** A result that goes to the stack pointer when the register is 31. *)
Definition put_sp (d v : Z) (f : TrapFrame) (sp : Z) : effect :=
  if d =? 31 then Moved (next_instr f) (as_u64 v) else Moved (next_instr (set_reg d v f)) sp.
(** [Xn], with a post-index added to it. *)
Definition post_index (n off : Z) (f : TrapFrame) (sp : Z) : TrapFrame * Z :=
  if n =? 31 then (f, as_u64 (sp + off)) else (set_reg n (reg f n + off) f, sp).

Definition exec (i : instr) (f : TrapFrame) (sp : Z) : effect :=
  let put d v := Moved (next_instr (set_reg d v f)) sp in
  let jump off := Moved (step_pc off f) sp in
  let low v := v mod 2 ^ 32 in
  match i with
  | Movz d imm hw => put d (Z.shiftl imm (16 * hw))
  | Movn d imm => put d (not64 imm)
  | OrrReg d n m => put d (Z.lor (xreg f n) (xreg f m))
  | OrrBit d n bit => put_sp d (Z.lor (xreg f n) (Z.shiftl 1 bit)) f sp
  | AddImm wide d n imm => put_sp d (if wide then xsp f sp n + imm else low (xsp f sp n + imm)) f sp
  | SubImm d n imm => put_sp d (xsp f sp n - imm) f sp
  | SubsImm d n imm =>
      let a := xsp f sp n in Moved (next_instr (set_flags (flags_of_sub 64 a imm) (set_reg d (a - imm) f))) sp
  | SubReg d n m => put d (xreg f n - xreg f m)
  | SubsReg wide d n m =>
      let a := if wide then xreg f n else low (xreg f n) in
      let b := if wide then xreg f m else low (xreg f m) in
      let w := if wide then 64 else 32 in
      Moved (next_instr (set_flags (flags_of_sub w a b) (set_reg d ((a - b) mod 2 ^ w) f))) sp
  | Adr d off => put d (frame_elr f + off)
  | Ldr t n off => Loads 8 (as_u64 (xsp f sp n + off)) t (next_instr f) sp
  | Str t n off => Stores 8 (as_u64 (xsp f sp n + off)) (xreg f t) (next_instr f) sp
  | LdrbPost t n off =>
      let '(f', sp') := post_index n off f sp in Loads 1 (as_u64 (xsp f sp n)) t (next_instr f') sp'
  | StrbPost t n off =>
      let '(f', sp') := post_index n off f sp in Stores 1 (as_u64 (xsp f sp n)) (xreg f t) (next_instr f') sp'
  | Strb t n off => Stores 1 (as_u64 (xsp f sp n + off)) (xreg f t) (next_instr f) sp
  | Branch off => jump off
  | BranchLink off => Moved (step_pc off (set_reg 30 (frame_elr f + 4) f)) sp
  | BranchIf cond off =>
      match holds cond (spsr f) with
      | Some true => jump off
      | Some false => jump 4
      | None => Undefined
      end
  | Cbz t off => jump (if xreg f t =? 0 then off else 4)
  | Cbnz t off => jump (if xreg f t =? 0 then 4 else off)
  | Return => Moved (with_elr (reg f 30) f) sp
  | Udiv d n m => put d (if xreg f m =? 0 then 0 else xreg f n / xreg f m)
  | Msub d n m a => put d (xreg f a - xreg f n * xreg f m)
  | Svc _ => Calls
  | MrsSctlr _ => Undefined
  end.
