(* ===== verification/UserPrograms.v ===== *)
(** * UserPrograms: the programs of [user.S]

    The programs the self tests run at EL0, instruction by instruction, and the
    assembler that turns them into the bytes the kernel carries and copies. *)

From S2P Require Import Prelude Fdt A64.

(** ** Assembling *)

Inductive line : Type :=
  | Lab (name : string)
  | Ins (f : (string → Z) → Z → instr)   (** given the labels and its own offset *)
  | Text (s : string).

Definition line_size (l : line) : Z :=
  match l with Lab _ => 0 | Ins _ => 4 | Text s => Z.of_nat (String.length s) end.

(** Where each label is, from the start of the program. *)
Fixpoint labels (at_ : Z) (p : list line) : list (string * Z) :=
  match p with
  | [] => []
  | l :: p' => (match l with Lab s => [(s, at_)] | _ => [] end) ++ labels (at_ + line_size l) p'
  end.
Definition label (table : list (string * Z)) (s : string) : Z :=
  match list_find (λ e, e.1 = s) table with Some (_, (_, v)) => v | None => 0 end.

Definition le_bytes (w : Z) : list Z := map (λ i, Z.land (Z.shiftr w (8 * i)) 0xff) [0; 1; 2; 3].
Fixpoint emit (env : string → Z) (at_ : Z) (p : list line) : list Z :=
  match p with
  | [] => []
  | l :: p' =>
    (match l with
     | Lab _ => []
     | Ins f => le_bytes (encode (f env at_))
     | Text s => bytes_of s
     end) ++ emit env (at_ + line_size l) p'
  end.

(** The last line of every program is [.balign 4]. *)
Definition assemble (p : list line) : list Z :=
  let b := emit (label (labels 0 p)) 0 p in
  b ++ replicate (Z.to_nat ((- Z.of_nat (length b)) mod 4)) 0.

(** ** The instructions as the source writes them *)

(** Registers are numbers, 31 for [sp], [xzr] and [wzr]; labels lose their [.L]. *)
Module User.

Definition ins (i : instr) : line := Ins (λ _ _, i).
Definition mov (d imm : Z) : line := ins (Movz d imm 0).
Definition movz_48 (d imm : Z) : line := ins (Movz d imm 3).
Definition mov_neg (d v : Z) : line := ins (Movn d (- v - 1)).
Definition movr (d m : Z) : line := ins (OrrReg d 31 m).
Definition mov_sp (d : Z) : line := ins (AddImm true d 31 0).
(** [mov d, #(b - a)]. *)
Definition mov_len (d : Z) (b a : string) : line := Ins (λ env _, Movz d (env b - env a) 0).
Definition adr (d : Z) (l : string) : line := Ins (λ env here, Adr d (env l - here)).
Definition add (d n imm : Z) : line := ins (AddImm true d n imm).
Definition addw (d n imm : Z) : line := ins (AddImm false d n imm).
Definition sub (d n imm : Z) : line := ins (SubImm d n imm).
Definition sub_r (d n m : Z) : line := ins (SubReg d n m).
Definition subs (d n imm : Z) : line := ins (SubsImm d n imm).
Definition cmp_i (n imm : Z) : line := ins (SubsImm 31 n imm).
Definition cmp_len (n : Z) (b a : string) : line := Ins (λ env _, SubsImm 31 n (env b - env a)).
Definition cmp (n m : Z) : line := ins (SubsReg true 31 n m).
Definition cmpw (n m : Z) : line := ins (SubsReg false 31 n m).
(** [orr d, n, #v] of a power of two. *)
Definition orr (d n v : Z) : line := ins (OrrBit d n (Z.log2 v)).
Definition udiv (d n m : Z) : line := ins (Udiv d n m).
Definition msub (d n m a : Z) : line := ins (Msub d n m a).
Definition ldr (t n off : Z) : line := ins (Ldr t n off).
Definition str (t n off : Z) : line := ins (Str t n off).
Definition ldrb_post (t n off : Z) : line := ins (LdrbPost t n off).
Definition strb_post (t n off : Z) : line := ins (StrbPost t n off).
Definition strb (t n off : Z) : line := ins (Strb t n off).
Definition b_ (l : string) : line := Ins (λ env here, Branch (env l - here)).
Definition bl (l : string) : line := Ins (λ env here, BranchLink (env l - here)).
Definition b_eq (l : string) : line := Ins (λ env here, BranchIf 0 (env l - here)).
Definition b_ne (l : string) : line := Ins (λ env here, BranchIf 1 (env l - here)).
Definition b_ls (l : string) : line := Ins (λ env here, BranchIf 9 (env l - here)).
Definition cbz (t : Z) (l : string) : line := Ins (λ env here, Cbz t (env l - here)).
Definition cbnz (t : Z) (l : string) : line := Ins (λ env here, Cbnz t (env l - here)).
Definition ret : line := ins Return.
Definition svc : line := ins (Svc 0).
Definition mrs_sctlr (t : Z) : line := ins (MrsSctlr t).
Definition newline : line := Text (String (Ascii.ascii_of_nat 10) EmptyString).

(** The constants of its [.set] directives. *)
Definition SYS_EXIT : Z := 0.
Definition SYS_WRITE : Z := 1.
Definition SYS_YIELD : Z := 2.
Definition SYS_GETPID : Z := 3.
Definition SYS_SEND : Z := 4.
Definition SYS_RECV : Z := 5.
Definition SYS_REPLY : Z := 6.
Definition FAIL_RC : Z := 1.
Definition FAIL_LEN : Z := 2.
Definition FAIL_BODY : Z := 3.
Definition FAIL_DEAD : Z := 4.
Definition EINVAL : Z := -1.
Definition EFAULT : Z := -2.
Definition EPERM : Z := -4.
Definition SYS_BORROW_READ : Z := 7.
Definition SYS_BORROW_WRITE : Z := 8.
Definition LEASE_READ : Z := 1.
Definition LEASE_WRITE : Z := 2.
Definition BAD_READ_RC : Z := 1.
Definition BAD_READ_BODY : Z := 2.
Definition BAD_WRITE_RC : Z := 4.
Definition BAD_OVERRUN : Z := 8.
Definition BAD_DIRECTION : Z := 16.
Definition BAD_INDEX : Z := 32.
Definition BAD_STALE : Z := 64.
Definition SYS_FAULT_WAIT : Z := 9.
Definition SYS_FAULT_INFO : Z := 10.
Definition SYS_RESTART : Z := 11.
Definition EDEAD : Z := -3.
Definition MARKER_OFFSET : Z := 32.
Definition SYS_TICKS : Z := 12.
Definition TIMER_NOTE : Z := 1.

(** ** The programs *)

Definition user_program : list line :=
  [mov 8 SYS_WRITE; mov 0 1; adr 1 "message"; mov_len 2 "message_end" "message"; svc; mrs_sctlr 0;
   mov 8 SYS_YIELD; svc; mov 8 SYS_GETPID; svc; mov 8 SYS_WRITE; mov 0 1; movz_48 1 0xffff; mov 2 16; svc;
   mov 8 SYS_EXIT; svc; Lab "stuck"; b_ "stuck"; Lab "message"; Text "hello from EL0, running unprivileged";
   newline; Lab "message_end"].

Definition user_fault : list line :=
  [movr 0 31; str 0 0 0; Lab "never"; b_ "never"].

Definition user_client : list line :=
  [ldr 19 31 8; sub 31 31 64; mov_sp 20; mov 8 SYS_SEND; movr 0 19; mov 1 0x51; adr 2 "ping";
   mov_len 3 "ping_end" "ping"; movr 4 20; mov 5 32; movr 6 31; movr 7 31; svc; cmp_i 0 0; b_ne "fail_rc";
   cmp_len 1 "pong_end" "pong"; b_ne "fail_len"; adr 2 "pong"; mov_len 3 "pong_end" "pong"; movr 4 20;
   Lab "compare"; ldrb_post 5 2 1; ldrb_post 6 4 1; cmpw 5 6; b_ne "fail_body"; subs 3 3 1; b_ne "compare";
   mov 21 16; Lab "wait"; mov 8 SYS_YIELD; svc; subs 21 21 1; b_ne "wait"; mov 8 SYS_SEND; movr 0 19; mov 1 0x51;
   adr 2 "ping"; mov_len 3 "ping_end" "ping"; movr 4 20; mov 5 32; movr 6 31; movr 7 31; svc; mov_neg 9 (-3);
   cmp 0 9; b_ne "fail_dead"; mov 0 0; b_ "client_exit"; Lab "fail_rc"; mov 0 FAIL_RC; b_ "client_exit";
   Lab "fail_len"; mov 0 FAIL_LEN; b_ "client_exit"; Lab "fail_body"; mov 0 FAIL_BODY; b_ "client_exit";
   Lab "fail_dead"; mov 0 FAIL_DEAD; Lab "client_exit"; mov 8 SYS_EXIT; svc; Lab "client_stuck";
   b_ "client_stuck"; Lab "ping"; Text "ping"; Lab "ping_end"; Lab "pong"; Text "pong!"; Lab "pong_end"].

Definition user_server : list line :=
  [sub 31 31 64; mov_sp 20; mov 8 SYS_RECV; movr 0 20; mov 1 32; movr 2 31; svc; movr 19 0; movr 21 1; movr 22 2;
   mov 8 SYS_WRITE; mov 0 1; adr 1 "got"; mov_len 2 "got_end" "got"; svc; mov 8 SYS_WRITE; mov 0 1; movr 1 20;
   movr 2 22; svc; mov 8 SYS_WRITE; mov 0 1; adr 1 "newline"; mov 2 1; svc; mov 23 0; cmp_i 21 0x51; b_eq "op_ok";
   mov 23 1; b_ "answer"; Lab "op_ok"; cmp_len 22 "expect_end" "expect"; b_eq "size_ok"; mov 23 1; b_ "answer";
   Lab "size_ok"; adr 2 "expect"; movr 3 22; movr 4 20; Lab "server_compare"; ldrb_post 5 2 1; ldrb_post 6 4 1;
   cmpw 5 6; b_eq "server_same"; mov 23 1; b_ "answer"; Lab "server_same"; subs 3 3 1; b_ne "server_compare";
   Lab "answer"; mov 8 SYS_REPLY; movr 0 19; movr 1 23; adr 2 "answer_body";
   mov_len 3 "answer_body_end" "answer_body"; svc; mov 8 SYS_EXIT; movr 0 23; svc; Lab "server_stuck";
   b_ "server_stuck"; Lab "got"; Text "ipc: server received "; Lab "got_end"; Lab "newline"; newline;
   Lab "expect"; Text "ping"; Lab "expect_end"; Lab "answer_body"; Text "pong!"; Lab "answer_body_end"].

Definition user_lender : list line :=
  [ldr 19 31 8; sub 31 31 256; mov_sp 20; adr 2 "seed"; mov_len 3 "seed_end" "seed"; movr 4 20; Lab "seed_copy";
   ldrb_post 5 2 1; strb_post 5 4 1; subs 3 3 1; b_ne "seed_copy"; add 21 20 64; str 20 21 0; mov 4 32;
   str 4 21 8; mov 4 (Z.lor LEASE_READ LEASE_WRITE); str 4 21 16; add 5 20 32; str 5 21 24; mov 4 16; str 4 21 32;
   mov 4 LEASE_READ; str 4 21 40; add 22 20 128; add 23 20 192; movz_48 4 0xffff; str 4 23 0; mov 4 16;
   str 4 23 8; mov 4 LEASE_READ; str 4 23 16; mov 8 SYS_SEND; movr 0 19; mov 1 0x60; adr 2 "lend_msg";
   mov_len 3 "lend_msg_end" "lend_msg"; movr 4 22; mov 5 32; movr 6 23; mov 7 1; svc; mov_neg 9 EFAULT; cmp 0 9;
   b_ne "lend_fail_lease"; mov 8 SYS_SEND; movr 0 19; mov 1 0x60; adr 2 "lend_msg";
   mov_len 3 "lend_msg_end" "lend_msg"; movr 4 22; mov 5 32; movr 6 21; mov 7 2; svc; cmp_i 0 0;
   b_ne "lend_fail_rc"; adr 2 "patched"; mov_len 3 "patched_end" "patched"; movr 4 20; Lab "lend_compare";
   ldrb_post 5 2 1; ldrb_post 6 4 1; cmpw 5 6; b_ne "lend_fail_body"; subs 3 3 1; b_ne "lend_compare"; mov 0 0;
   b_ "lend_exit"; Lab "lend_fail_rc"; mov 0 1; b_ "lend_exit"; Lab "lend_fail_body"; mov 0 2; b_ "lend_exit";
   Lab "lend_fail_lease"; mov 0 3; Lab "lend_exit"; mov 8 SYS_EXIT; svc; Lab "lend_stuck"; b_ "lend_stuck";
   Lab "seed"; Text "seed"; Lab "seed_end"; Lab "patched"; Text "written through a lease"; Lab "patched_end";
   Lab "lend_msg"; Text "lend"; Lab "lend_msg_end"].

Definition user_borrower : list line :=
  [sub 31 31 128; mov_sp 20; add 22 20 64; mov 8 SYS_RECV; movr 0 20; mov 1 32; movr 2 31; svc; movr 19 0;
   mov 21 0; mov 8 SYS_BORROW_READ; movr 0 19; mov 1 0; mov 2 0; movr 3 22;
   mov_len 4 "expect_seed_end" "expect_seed"; svc; cmp_i 0 0; b_eq "check_body"; orr 21 21 BAD_READ_RC;
   b_ "write_step"; Lab "check_body"; adr 2 "expect_seed"; mov_len 3 "expect_seed_end" "expect_seed"; movr 4 22;
   Lab "seed_compare"; ldrb_post 5 2 1; ldrb_post 6 4 1; cmpw 5 6; b_eq "seed_same"; orr 21 21 BAD_READ_BODY;
   b_ "write_step"; Lab "seed_same"; subs 3 3 1; b_ne "seed_compare"; Lab "write_step"; mov 8 SYS_BORROW_WRITE;
   movr 0 19; mov 1 0; mov 2 0; adr 3 "new_body"; mov_len 4 "new_body_end" "new_body"; svc; cmp_i 0 0;
   b_eq "overrun_step"; orr 21 21 BAD_WRITE_RC; Lab "overrun_step"; mov 8 SYS_BORROW_WRITE; movr 0 19; mov 1 0;
   mov 2 30; adr 3 "new_body"; mov 4 8; svc; mov_neg 9 EINVAL; cmp 0 9; b_eq "direction_step";
   orr 21 21 BAD_OVERRUN; Lab "direction_step"; mov 8 SYS_BORROW_WRITE; movr 0 19; mov 1 1; mov 2 0;
   adr 3 "new_body"; mov 4 4; svc; mov_neg 9 EPERM; cmp 0 9; b_eq "index_step"; orr 21 21 BAD_DIRECTION;
   Lab "index_step"; mov 8 SYS_BORROW_READ; movr 0 19; mov 1 2; mov 2 0; movr 3 22; mov 4 4; svc;
   mov_neg 9 EINVAL; cmp 0 9; b_eq "borrow_reply"; orr 21 21 BAD_INDEX; Lab "borrow_reply"; mov 8 SYS_REPLY;
   movr 0 19; movr 1 21; adr 2 "done"; mov_len 3 "done_end" "done"; svc; mov 8 SYS_BORROW_READ; movr 0 19;
   mov 1 0; mov 2 0; movr 3 22; mov 4 4; svc; cmp_i 0 0; b_ne "borrow_exit"; orr 21 21 BAD_STALE;
   Lab "borrow_exit"; mov 8 SYS_EXIT; movr 0 21; svc; Lab "borrow_stuck"; b_ "borrow_stuck"; Lab "expect_seed";
   Text "seed"; Lab "expect_seed_end"; Lab "new_body"; Text "written through a lease"; Lab "new_body_end";
   Lab "done"; Text "ok"; Lab "done_end"].

Definition user_victim : list line :=
  [sub 31 31 64; add 19 31 MARKER_OFFSET; ldr 0 19 0; cbnz 0 "victim_dirty"; mov 0 1; str 0 19 0; movr 1 31;
   str 1 1 0; Lab "victim_dirty"; mov 1 8; str 1 1 0; Lab "victim_stuck"; b_ "victim_stuck"].

Definition user_supervisor : list line :=
  [ldr 19 31 8; mov 21 0; mov 8 SYS_FAULT_WAIT; svc; movr 20 0; cmp 20 19; b_eq "sup_info_one"; orr 21 21 1;
   Lab "sup_info_one"; mov 8 SYS_FAULT_INFO; movr 0 20; svc; cbz 1 "sup_restart"; orr 21 21 2; Lab "sup_restart";
   mov 8 SYS_RESTART; movr 0 20; svc; cbz 0 "sup_wait_two"; orr 21 21 4; Lab "sup_wait_two"; mov 8 SYS_FAULT_WAIT;
   svc; cmp 0 20; b_eq "sup_info_two"; orr 21 21 8; Lab "sup_info_two"; mov 8 SYS_FAULT_INFO; movr 0 20; svc;
   cbz 1 "sup_exit"; orr 21 21 16; Lab "sup_exit"; mov 8 SYS_EXIT; movr 0 21; svc; Lab "sup_stuck";
   b_ "sup_stuck"].

Definition user_petitioner : list line :=
  [ldr 19 31 8; sub 31 31 64; mov_sp 20; mov 21 0; mov 8 SYS_SEND; movr 0 19; mov 1 0x70; adr 2 "petition";
   mov_len 3 "petition_end" "petition"; movr 4 20; mov 5 16; movr 6 31; movr 7 31; svc; mov_neg 9 EDEAD; cmp 0 9;
   b_eq "pet_privilege"; orr 21 21 1; Lab "pet_privilege"; mov 8 SYS_RESTART; movr 0 19; svc; mov_neg 9 EPERM;
   cmp 0 9; b_eq "pet_exit"; orr 21 21 2; Lab "pet_exit"; mov 8 SYS_EXIT; movr 0 21; svc; Lab "pet_stuck";
   b_ "pet_stuck"; Lab "petition"; Text "are you there"; Lab "petition_end"].

Definition user_heartbeat : list line :=
  [sub 31 31 128; mov 24 0; Lab "beat"; mov 8 SYS_RECV; movr 0 31; movr 1 31; mov 2 TIMER_NOTE; svc;
   mov 8 SYS_TICKS; svc; movr 25 0; mov 3 100; udiv 26 25 3; cmp 26 24; b_ls "beat"; movr 24 26; mov_sp 23;
   adr 1 "uptime"; mov_len 2 "uptime_end" "uptime"; bl "put"; movr 0 26; bl "num"; adr 1 "secs";
   mov_len 2 "secs_end" "secs"; bl "put"; movr 0 25; bl "num"; adr 1 "ticks"; mov_len 2 "ticks_end" "ticks";
   bl "put"; mov 8 SYS_WRITE; mov 0 1; mov_sp 1; sub_r 2 23 1; svc; b_ "beat"; Lab "put"; cbz 2 "put_done";
   Lab "put_loop"; ldrb_post 5 1 1; strb_post 5 23 1; subs 2 2 1; b_ne "put_loop"; Lab "put_done"; ret; Lab "num";
   add 7 31 96; movr 6 7; mov 3 10; Lab "num_loop"; udiv 5 0 3; msub 4 5 3 0; addw 4 4 48; sub 6 6 1; strb 4 6 0;
   movr 0 5; cbnz 0 "num_loop"; sub_r 2 7 6; movr 1 6; b_ "put"; Lab "uptime"; Text "uptime "; Lab "uptime_end";
   Lab "secs"; Text "s ("; Lab "secs_end"; Lab "ticks"; Text " ticks)"; newline; Lab "ticks_end"].

Definition user_notified : list line :=
  [mov 21 0; mov 8 SYS_RECV; movr 0 31; movr 1 31; mov 2 1; svc; mov_neg 9 (-1); cmp 0 9; b_eq "notified_bits";
   orr 21 21 1; Lab "notified_bits"; cmp_i 1 1; b_eq "notified_second"; orr 21 21 2; Lab "notified_second";
   mov 8 SYS_RECV; movr 0 31; movr 1 31; mov 2 2; svc; cmp_i 1 2; b_eq "notified_exit"; orr 21 21 4;
   Lab "notified_exit"; mov 8 SYS_EXIT; movr 0 21; svc; Lab "notified_stuck"; b_ "notified_stuck"].

Definition user_slow_server : list line :=
  [sub 31 31 64; mov_sp 20; mov 8 SYS_RECV; movr 0 20; mov 1 32; movr 2 31; svc; movr 19 0; movr 22 2;
   mov 8 SYS_WRITE; mov 0 1; adr 1 "slow_got"; mov_len 2 "slow_got_end" "slow_got"; svc; mov 8 SYS_WRITE; mov 0 1;
   movr 1 20; movr 2 22; svc; mov 8 SYS_WRITE; mov 0 1; adr 1 "slow_newline"; mov 2 1; svc; mov 8 SYS_RECV;
   movr 0 31; movr 1 31; mov 2 1; svc; mov 8 SYS_REPLY; movr 0 19; movr 1 31; adr 2 "slow_answer";
   mov_len 3 "slow_answer_end" "slow_answer"; svc; mov 8 SYS_EXIT; movr 0 31; svc; Lab "slow_stuck";
   b_ "slow_stuck"; Lab "slow_got"; Text "ipc: slow server received "; Lab "slow_got_end"; Lab "slow_newline";
   newline; Lab "slow_answer"; Text "pong!"; Lab "slow_answer_end"].

Definition programs : list (list line) :=
  [user_program; user_fault; user_client; user_server; user_lender; user_borrower; user_victim; user_supervisor;
   user_petitioner; user_heartbeat; user_notified; user_slow_server].

End User.

(** Every instruction of every program is read back as it was written, and every
    program fits the page it is copied to. *)
Fixpoint reads_back (env : string → Z) (at_ : Z) (p : list line) : bool :=
  match p with
  | [] => true
  | l :: p' =>
    (match l with
     | Ins f => bool_decide (decode (encode (f env at_)) = Some (f env at_)) && (0 <=? encode (f env at_)) && (encode (f env at_) <? 2 ^ 32)
     | _ => true
     end) && reads_back env (at_ + line_size l) p'
  end.

Lemma programs_read_back :
  forallb (λ p, reads_back (label (labels 0 p)) 0 p && (length (assemble p) <=? 4096)%nat) User.programs = true.
Proof. vm_compute. reflexivity. Qed.
