(* ===== verification/Threads.v ===== *)
(** * Threads: programs on the kernel

    A kernel thread is an interaction tree: it computes, and now and then does
    something the rest of the machine sees.  A user task is a program in memory.
    [turn] runs whichever the scheduler has chosen for one event or instruction,
    or takes the timer interrupt when it is due; everything that happens to the
    kernel happens through the handlers of [Exceptions] and the calls of
    [System]. *)

From ITree Require Import ITree.
From S2P Require Import Prelude Memory Frames FramesBoot Paging PagingWalk Kernel Sched Notify Ipc Tasks Syscall.
From S2P Require Import Devices Exceptions System Mmu A64.

(** ** The machine *)

(** The kernel on its CPU, the stack pointer of EL0, which all tasks share, the
    counter of the timer, and the statics [T] of the threads. *)
Record world (T : Type) : Type := mkWorld { co : core; sp_el0 : Z; now : Z; statics : T }.
Arguments mkWorld {T} _ _ _ _.
Arguments co {T} _.
Arguments sp_el0 {T} _.
Arguments now {T} _.
Arguments statics {T} _.

Section threads.
Context {T : Type}.

Definition brd (w : world T) : board := bd (co w).
Definition set_co (c : core) (w : world T) : world T := mkWorld c (sp_el0 w) (now w) (statics w).
Definition set_sp (v : Z) (w : world T) : world T := mkWorld (co w) v (now w) (statics w).
Definition pass_time (n : Z) (w : world T) : world T := mkWorld (co w) (sp_el0 w) (now w + n) (statics w).
Definition set_statics (v : T) (w : world T) : world T := mkWorld (co w) (sp_el0 w) (now w) v.
Definition in_core {A} (op : M core A) : M (world T) A := zoom co set_co op.
Definition in_board {A} (op : M board A) : M (world T) A := zoom brd (λ b w, set_co (set_bd b (co w)) w) op.

(** What a thread does that is seen: it calls the kernel, looks at the machine,
    writes its statics, does something else to the machine without leaving the
    CPU, spends time, or masks interrupts. *)
Variant event : Type → Type :=
  | Do (c : call) : event Z
  | Look {A} (op : M (world T) A) : event A
  | Note (f : T → T) : event unit
  | Direct {A} (op : M (world T) A) : event A
  | Spin (rounds : Z) : event unit
  | Mask (b : bool) : event bool.

Definition thread (A : Type) : Type := itree event A.
#[export] Instance thread_ret : MRet thread := λ A a, go (RetF a).
#[export] Instance thread_bind : MBind thread := λ A B f t, ITree.bind t f.
Definition act {A} (e : event A) : thread A := ITree.trigger e.

(** What a task left on the CPU when it last lost it. *)
Inductive running : Type :=
  | Thread (t : thread unit)
  | User (f : TrapFrame).

Record run : Type := mkRun {
  wd : world T;
  slots : list running;
  masked : list bool   (** interrupts, per task *)
}.

Definition set_wd (w : world T) (r : run) : run := mkRun w (slots r) (masked r).
Definition put (my : Z) (t : running) (r : run) : run := mkRun (wd r) (<[Z.to_nat my := t]> (slots r)) (masked r).
Definition put_mask (my : Z) (b : bool) (r : run) : run := mkRun (wd r) (slots r) (<[Z.to_nat my := b]> (masked r)).
Definition pass (n : Z) (r : run) : run := set_wd (pass_time n (wd r)) r.
Definition in_world {A} (op : M (world T) A) : M run A := zoom wd set_wd op.

Definition rboard (r : run) : board := brd (wd r).
Definition rkern (r : run) : kernel := kern (rboard r).
Definition slot (r : run) (my : Z) : running := default (Thread (go (RetF tt))) (slots r !! Z.to_nat my).

(** ** One turn *)

Section turn.
Context (respond : list Devices.access → Z → Z → Z) (frequency : Z).
Context (user_task_entry task_trampoline : Z).

(** The entry functions of kernel threads, and what the registers hold when a
    task first reaches EL0. *)
Context (code : Z → Z → option (thread unit)) (entry_regs : list Z).

Definition handle (f : TrapFrame) (index count my : Z) : M board exit :=
  e ← handle_exception respond frequency user_task_entry task_trampoline f index count;
  _ ← settle e my; mret e.

(** Armed, and past its deadline. *)
Definition timer_pending (r : run) : bool :=
  let d := devs (rboard r) in (cntp_ctl d =? 1) && (cntp_cval d <=? now (wd r)).
Definition irq_masked (r : run) (my : Z) : bool := default true (masked r !! Z.to_nat my).

(** What an operation that only looks answers. *)
Definition res_fst {S A} (r : res (A * S)) : res A := '(a, _) ← r; Done a.

(** The frame of an interrupted kernel thread, whose registers stay with it. *)
Definition el1_frame : TrapFrame := mkFrame [] 0 0 0 0.

(** A trap taken at EL0: the frame is on the kernel stack until the task is back. *)
Definition trap_el0 (my : Z) (f : TrapFrame) (index : Z) : M run bool :=
  r ← getS;
  e ← in_world (in_board (handle f index (now (wd r)) my));
  _ ← modify (put my (User (match e with Eret f' => f' | Away _ => f end)));
  mret true.

Definition with_esr (elr esr far : Z) (f : TrapFrame) : TrapFrame := mkFrame (x f) elr (spsr f) esr far.
Definition esr_of (class iss : Z) : Z := Z.lor (Z.lor (Z.shiftl class 26) (Z.shiftl 1 25)) iss.
Definition el0_abort (a : access) (status : Z) : Z :=
  esr_of (match a with Fetch => 0x20 | _ => 0x24 end) (Z.lor (match a with Write => Z.shiftl 1 6 | _ => 0 end) status).

(** A load or a store of [n] bytes, each translated on its own, since they may lie
    in two pages; or the address that faults, with the status.  The bytes before
    it have been stored. *)
Fixpoint load_bytes (tr : mem → Z → Z + Z) (n : nat) (m : mem) (va : Z) : (Z * Z) + Z :=
  match n with
  | O => inr 0
  | S n' =>
    match tr m va with
    | inl st => inl (va, st)
    | inr pa => match load_bytes tr n' m (as_u64 (va + 1)) with inr v => inr (m pa + 256 * v) | e => e end
    end
  end.
Fixpoint store_bytes (tr : mem → Z → Z + Z) (n : nat) (m : mem) (va v : Z) : mem * option (Z * Z) :=
  match n with
  | O => (m, None)
  | S n' =>
    match tr m va with
    | inl st => (m, Some (va, st))
    | inr pa => store_bytes tr n' (fill_range m pa 1 (v mod 256)) (as_u64 (va + 1)) (Z.shiftr v 8)
    end
  end.

(** Fetch, decode, execute. *)
Definition user_step (my : Z) (f : TrapFrame) : M run bool :=
  r ← getS;
  let k := rkern r in let mm := memory (mach k) in
  let tr a m := el0_translate (cpu (co (wd r))) (ttbr0 k) m a in
  let pc := frame_elr f in
  let fault esr far := trap_el0 my (with_esr pc esr far f) 8 in
  let moved f' sp' := _ ← modify (put my (User f')); _ ← in_world (modify (set_sp sp')); mret true in
  match tr Fetch mm pc with
  | inl st => fault (el0_abort Fetch st) pc
  | inr pa =>
    match decode (read_le 4 mm pa) with
    | None => fault (esr_of EC_UNKNOWN 0) 0
    | Some i =>
      match exec i f (sp_el0 (wd r)) with
      | Moved f' sp' => moved f' sp'
      | Loads n va t f' sp' =>
        match load_bytes (tr Read) n mm va with
        | inl (va, st) => fault (el0_abort Read st) va
        | inr v => moved (set_reg t v f') sp'
        end
      | Stores n va v f' sp' =>
        let '(mm', e) := store_bytes (tr Write) n mm va v in
        _ ← in_world (in_board (in_kernel (with_mach (modify (set_memory mm')))));
        match e with
        | Some (va, st) => fault (el0_abort Write st) va
        | None => moved f' sp'
        end
      | Calls => trap_el0 my (with_esr (as_u64 (pc + 4)) (esr_of EC_SVC64 0) 0 f) 8
      | Undefined => fault (esr_of EC_UNKNOWN 0) 0
      end
    end
  end.

(** An event, and how the thread goes on. *)
Definition thread_event (my : Z) {A} (e : event A) : (A → thread unit) → M run bool :=
  let go_on t := _ ← modify (put my (Thread t)); _ ← modify (pass 1); mret true in
  match e in event A' return (A' → thread unit) → M run bool with
  | Do c => λ next,
    v ← in_world (in_board (in_kernel (
      ret ← perform user_task_entry task_trampoline c; _ ← settle_kernel ret my;
      mret (match ret with Kernel.Ret (v, _, _) => v | Sus _ => 0 end))));
    go_on (next v)
  | Look op => λ next, r ← getS; v ← lift (res_fst (op (wd r))); go_on (next v)
  | Note f => λ next, _ ← in_world (modify (λ w, set_statics (f (statics w)) w)); go_on (next tt)
  | Direct op => λ next, v ← in_world op; go_on (next v)
  | Spin n => λ next,
    r ← getS;
    let left := cntp_cval (devs (rboard r)) - now (wd r) in
    if (cntp_ctl (devs (rboard r)) =? 1) && negb (irq_masked r my) && (left <? n) then
      _ ← modify (put my (Thread (go (VisF (Spin (n - left)) next)))); _ ← modify (pass left); mret true
    else _ ← modify (put my (Thread (next tt))); _ ← modify (pass n); mret true
  | Mask b => λ next, old ← gets (λ r, irq_masked r my); _ ← modify (put_mask my b); go_on (next old)
  end.

Definition thread_step (my : Z) (t : thread unit) : M run bool :=
  match observe t with
  | RetF _ => mret false
  | TauF t' => _ ← modify (put my (Thread t')); mret true
  | VisF e next => thread_event my e next
  end.

(** [task_trampoline]: interrupts on, the entry function, [task_finished]. *)
Definition trampoline (t : thread unit) : thread unit :=
  _ ← t; _ ← act (Do CFinish); ITree.forever (act (Do CYield)).

Definition begin (my entry arg : Z) : M run bool :=
  _ ← in_world (in_board (in_kernel (settle_kernel (Kernel.Ret (0, 0, 0)) my)));
  _ ← modify (put_mask my false);
  if entry =? user_task_entry then
    _ ← in_world (modify (set_sp USER_SP_START));
    _ ← modify (put my (User (mkFrame entry_regs arg 0 0 0))); mret true
  else
    t ← expectM (code entry arg) "no such function";
    _ ← modify (put my (Thread (trampoline t))); mret true.

(** Back on the CPU: the continuation the switch left runs on, and its frame is
    where the trap left it. *)
Definition continue (my : Z) (c : kont) : M run bool :=
  r ← getS;
  let f := match slot r my with User f => f | Thread _ => el1_frame end in
  e ← in_world (in_board (e ← wake c f; _ ← settle e my; mret e));
  match e, slot r my with
  | Eret f', User _ => _ ← modify (put my (User f')); mret true
  | _, _ => mret true
  end.

(** [false] when the thread that runs has come to its end. *)
Definition turn : M run bool :=
  r ← getS;
  let my := me (rkern r) in
  match here (rboard r) with
  | Fresh entry arg => begin my entry arg
  | Inside c => continue my c
  | Cut => panic "a zombie is never chosen"
  | Running =>
    if timer_pending r && negb (irq_masked r my) then
      match slot r my with
      | User f => trap_el0 my f 9
      | Thread _ => _ ← in_world (in_board (handle el1_frame 5 (now (wd r)) my)); mret true
      end
    else
      match slot r my with
      | Thread t => thread_step my t
      | User f => _ ← modify (pass 1); user_step my f
      end
  end.

(** Up to [2 ^ n] turns; whether the thread that runs could go on. *)
Fixpoint doubled (one : M run bool) (n : nat) : M run bool :=
  match n with
  | O => one
  | S n' => more ← doubled one n'; if more : bool then doubled one n' else mret false
  end.
Definition turns (n : nat) : M run bool := doubled turn n.

End turn.
End threads.
