(* ===== verification/Reports.v ===== *)
(** * Reports: what the kernel prints of its state

    The texts [exceptions.rs], [paging.rs], [tasks.rs] and [main.rs] print of a
    frame, a fault, the registers and the task table, as the bytes that reach
    the console. *)

From S2P Require Import Prelude Memory Fmt Frames FramesBoot Paging Kernel Sched Tasks Devices Exceptions Mmu.

(** [{:#018x}]. *)
Definition hex18 (v : Z) : list Z := hex0 18 v.

(** ** Exceptions *)

(** [<VectorIndex as Display>::fmt]. *)
Definition fmt_vector (i : Z) : list Z := bytes_of (kind i) ++ bytes_of " (" ++ bytes_of (source i) ++ bytes_of ")".

(** The part of a report that an abort has, up to the direction. *)
Definition fault_line (s : Z) : list Z :=
  bytes_of "  fault  : " ++ bytes_of (fault_status s) ++
  match fault_level s with Some level => bytes_of " at level " ++ dec level | None => [] end ++
  ln (bytes_of (if is_write s then ", on a write" else ", on a read")).

Definition report (frame : TrapFrame) (index syndrome : Z) : list Z :=
  line "" ++
  line "--- exception ---" ++
  ln (bytes_of "  vector : " ++ fmt_vector index) ++
  ln (bytes_of "  class  : " ++ bytes_of (class_name syndrome) ++ bytes_of " (EC " ++
      hex0 4 (exception_class syndrome) ++ bytes_of ")") ++
  ln (bytes_of "  esr    : " ++ hex18 (frame_esr frame)) ++
  ln (bytes_of "  elr    : " ++ hex18 (frame_elr frame)) ++
  ln (bytes_of "  spsr   : " ++ hex18 (spsr frame)) ++
  (if is_brk syndrome then ln (bytes_of "  comment: " ++ hex (brk_comment syndrome)) else []) ++
  (if is_abort syndrome then ln (bytes_of "  far    : " ++ hex18 (frame_far frame)) ++ fault_line syndrome else []) ++
  ln (bytes_of "  x0..x3 : " ++ hex18 (reg frame 0) ++ [32] ++ hex18 (reg frame 1)) ++
  ln (bytes_of "           " ++ hex18 (reg frame 2) ++ [32] ++ hex18 (reg frame 3)) ++
  ln (bytes_of "  lr     : " ++ hex18 (reg frame 30)) ++
  line "-----------------".

(** What [fault_current] prints of the task it stops. *)
Definition fault_report (id : Z) (name : string) (f : Fault) : list Z :=
  line "" ++
  line "--- task fault ---" ++
  ln (bytes_of "  task   : " ++ dec id ++ bytes_of " (" ++ bytes_of name ++ bytes_of ")") ++
  ln (bytes_of "  class  : " ++ bytes_of (class_name (esr f))) ++
  (if is_abort (esr f) then fault_line (esr f) ++ ln (bytes_of "  address: " ++ hex18 (far f)) else []) ++
  ln (bytes_of "  pc     : " ++ hex18 (elr f)) ++
  line "  the kernel is fine. this task is not." ++
  line "------------------".

(** ** The translation registers *)

(** [print_config], with [TTBR0_EL1] in [low]. *)
Definition print_config (r : mmu) (low : Z) : list Z :=
  line "mmu: enabled, 4 KiB granule, 48 bit addresses" ++
  ln (bytes_of "  sctlr  : " ++ hex18 (SCTLR_EL1 r) ++ bytes_of "  mmu=" ++ dec (Z.land (SCTLR_EL1 r) 1) ++
      bytes_of " dcache=" ++ dec (Z.land (Z.shiftr (SCTLR_EL1 r) 2) 1) ++
      bytes_of " icache=" ++ dec (Z.land (Z.shiftr (SCTLR_EL1 r) 12) 1)) ++
  ln (bytes_of "  tcr    : " ++ hex18 (TCR_EL1 r) ++ bytes_of "  ttbr0 walks " ++
      bytes_of (if Z.land (TCR_EL1 r) (Z.shiftl 1 7) =? 0 then "enabled" else "disabled")) ++
  ln (bytes_of "  ttbr0  : " ++ hex18 low) ++
  ln (bytes_of "  ttbr1  : " ++ hex18 (TTBR1_EL1 r)) ++
  ln (bytes_of "  kernel : " ++ hex18 KERNEL_BASE ++ bytes_of " + physical").

(** ** Tasks *)

(** [{:?}] of a [State]. *)
Definition fmt_state (s : State) : list Z :=
  bytes_of match s with
           | Runnable => "Runnable" | Blocked => "Blocked" | Zombie => "Zombie" | Dead => "Dead" | Faulted => "Faulted"
           end.

Definition task_line (current slot : Z) (t : Task) : list Z :=
  ln (bytes_of "  " ++ dec slot ++ bytes_of (if slot =? current then "*" else " ") ++ [32] ++
    left 8 (bytes_of (name t)) ++ bytes_of " prio " ++ left 3 (dec (priority t)) ++
    bytes_of " stack " ++ hex0 12 (stack t + KERNEL_BASE) ++ bytes_of "  " ++ fmt_state (state t)).

Fixpoint task_lines (current slot : Z) (l : list (option Task)) : list Z :=
  match l with
  | [] => []
  | o :: l' => match o with Some t => task_line current slot t | None => [] end ++ task_lines current (slot + 1) l'
  end.

(** [tasks::print_table]. *)
Definition print_table (k : kernel) : list Z := line "tasks:" ++ task_lines (me k) 0 (task_list k).

(** [current_el], of what [CurrentEL] reads as. *)
Definition current_el (el : Z) : Z := Z.land (Z.shiftr el 2) 3.
