(* ===== verification/TaskTests.v ===== *)
(** * TaskTests: the boot task and the self tests of [tasks.rs]

    The kernel threads of [tasks.rs] and the tests that spawn them, written as
    programs on [Threads]; the programs the tests load at EL0 are those of
    [UserPrograms].  What they print is collected, as the bytes handed to the
    console, whose driver is [Uart]. *)

From ITree Require Import ITree.
From S2P Require Import Prelude Memory Frames FramesBoot Paging PagingWalk Kernel Sched Notify Ipc Tasks Syscall.
From S2P Require Import Devices Exceptions System Mmu Fmt Threads Reports.

(** ** The statics of the tests *)

Definition TRACE_LEN : Z := 8.
Record Trace : Type := mkTrace { tags : list Z; values : list Z; trace_len : Z }.
Definition ORDER_LEN : Z := 16.
Record Order : Type := mkOrder { order_tags : list Z; order_len : Z }.

Record statics : Type := mkStatics {
  TRACE : Trace;
  SPINNERS_DONE : Z;
  ISOLATION_SEEN : list Z;
  ISOLATION_DONE : Z;
  ORDER : Order;
  SLEEPER : option Z;
  SAID : list Z   (** what reached the console *)
}.
Definition set_TRACE (v : Trace) (s : statics) : statics :=
  mkStatics v (SPINNERS_DONE s) (ISOLATION_SEEN s) (ISOLATION_DONE s) (ORDER s) (SLEEPER s) (SAID s).
Definition set_SPINNERS_DONE (v : Z) (s : statics) : statics :=
  mkStatics (TRACE s) v (ISOLATION_SEEN s) (ISOLATION_DONE s) (ORDER s) (SLEEPER s) (SAID s).
Definition set_ISOLATION_SEEN (v : list Z) (s : statics) : statics :=
  mkStatics (TRACE s) (SPINNERS_DONE s) v (ISOLATION_DONE s) (ORDER s) (SLEEPER s) (SAID s).
Definition set_ISOLATION_DONE (v : Z) (s : statics) : statics :=
  mkStatics (TRACE s) (SPINNERS_DONE s) (ISOLATION_SEEN s) v (ORDER s) (SLEEPER s) (SAID s).
Definition set_ORDER (v : Order) (s : statics) : statics :=
  mkStatics (TRACE s) (SPINNERS_DONE s) (ISOLATION_SEEN s) (ISOLATION_DONE s) v (SLEEPER s) (SAID s).
Definition set_SLEEPER (v : option Z) (s : statics) : statics :=
  mkStatics (TRACE s) (SPINNERS_DONE s) (ISOLATION_SEEN s) (ISOLATION_DONE s) (ORDER s) v (SAID s).
Definition set_SAID (v : list Z) (s : statics) : statics :=
  mkStatics (TRACE s) (SPINNERS_DONE s) (ISOLATION_SEEN s) (ISOLATION_DONE s) (ORDER s) (SLEEPER s) v.

Definition statics_new : statics :=
  let zeros n := replicate (Z.to_nat n) 0 in
  mkStatics (mkTrace (zeros TRACE_LEN) (zeros TRACE_LEN) 0) 0 (zeros MAX_TASKS) 0
    (mkOrder (zeros ORDER_LEN) 0) None [].

Abbreviation thr := (thread (T := statics)).

(** ** What threads do *)

Definition look {A} (f : statics → A) : thr A := act (Look (gets (λ w, f (Threads.statics w)))).
Definition ask {A} (op : M kernel A) : thr A := act (Look (in_board (in_kernel op))).
Definition note (f : statics → statics) : thr unit := act (Note f).
(** [print!] and [println!]. *)
Definition say (text : list Z) : thr unit := note (λ s, set_SAID (SAID s ++ text) s).
Definition sayln (text : list Z) : thr unit := say (ln text).
Definition passed (name : string) : list Z := bytes_of name ++ bytes_of " self test: passed, ".
Definition check (b : bool) (why : string) : thr unit :=
  if b then mret tt else act (Direct (panic why)).
Definition unwrap {A} (o : option A) (why : string) : thr A :=
  match o with Some a => mret a | None => act (Direct (panic why)) end.

Definition yield_now : thr unit := _ ← act (Do CYield); mret tt.
Definition block_current : thr unit := _ ← act (Do CBlock); mret tt.
Definition unblock (id : Z) : thr unit := _ ← act (Do (CUnblock id)); mret tt.
Definition kill (id : Z) : thr unit := _ ← act (Do (CKill id)); mret tt.
Definition post (id bits : Z) : thr unit := _ ← act (Do (CPost id bits)); mret tt.
Definition set_supervisor (id : Z) : thr unit := _ ← act (Do (CSupervise id)); mret tt.
Definition reap_zombies : thr unit := _ ← act (Do CReap); mret tt.
Definition release_dead : thr Z := act (Do CRelease).
Definition spawn_at (nm : string) (entry arg prio : Z) : thr Z := act (Do (CSpawn nm entry arg prio)).
Definition spawn (nm : string) (entry arg : Z) : thr Z := spawn_at nm entry arg NORMAL.
Definition ticks : thr Z := ask (gets TICKS).
Definition free_frames : thr Z := ask (gets (λ k, Frames.free_frames (mach k))).

(** [while cond { body }]. *)
Definition while_ (cond : thr bool) (body : thr unit) : thr unit :=
  ITree.iter (λ _ : unit, b ← cond; if b : bool then _ ← body; mret (inl tt) else mret (inr tt)) tt.
(** [for _ in 0..n { body }]. *)
Fixpoint repeat_ (n : nat) (body : thr unit) : thr unit :=
  match n with O => mret tt | S n' => _ ← body; repeat_ n' body end.

(** [sync::without_interrupts]. *)
Definition without_interrupts {A} (body : thr A) : thr A :=
  old ← act (Mask true); a ← body; _ ← act (Mask old); mret a.

(** ** The kernel threads of the tests *)

Definition record (tag value : Z) : thr unit :=
  note (λ s, let t := TRACE s in
    if trace_len t <? TRACE_LEN then
      let i := Z.to_nat (trace_len t) in
      set_TRACE (mkTrace (<[i := tag]> (tags t)) (<[i := value]> (values t)) (trace_len t + 1)) s
    else s).

Fixpoint counting (rounds : nat) (tag local : Z) : thr unit :=
  match rounds with
  | O => mret tt
  | S rounds' => _ ← record tag (local + 1); _ ← yield_now; counting rounds' tag (local + 1)
  end.
Definition counting_worker (tag : Z) : thr unit := counting 3 tag (tag * 1000).

Definition SPIN_ROUNDS : Z := 4000000.
Definition SPINNERS : Z := 3.
Definition spinner (_tag : Z) : thr unit :=
  _ ← act (Spin SPIN_ROUNDS); note (λ s, set_SPINNERS_DONE (SPINNERS_DONE s + 1) s).

Definition note_run (tag : Z) : thr unit :=
  note (λ s, let o := ORDER s in
    if order_len o <? ORDER_LEN then
      set_ORDER (mkOrder (<[Z.to_nat (order_len o) := tag]> (order_tags o)) (order_len o + 1)) s
    else s).
Definition reset_order : thr unit := note (λ s, set_ORDER (mkOrder (order_tags (ORDER s)) 0) s).

Definition LADDER_ROUNDS : nat := 3.
Definition ladder_worker (tag : Z) : thr unit := repeat_ LADDER_ROUNDS (_ ← note_run (tag mod 256); yield_now).

Definition sleeper (_arg : Z) : thr unit := _ ← note_run 1; _ ← block_current; note_run 3.
Definition waker (_arg : Z) : thr unit :=
  _ ← note_run 2;
  s ← look SLEEPER;
  id ← unwrap s "sleeper was never registered";
  b ← ask (is_blocked id);
  _ ← check b "the sleeper is not blocked, so this test is measuring nothing";
  _ ← unblock id;
  note_run 4.
Definition napper (_arg : Z) : thr unit := block_current.

Definition ISOLATION_VA : Z := 0x10000000.
Definition ISOLATION_WORKERS : Z := 3.

(** The entry functions, by name; the linker gives each an address. *)
Inductive function : Type :=
  | Fcounting_worker | Fspinner | Fisolation_worker | Fladder_worker | Fsleeper | Fwaker | Fnapper.
Definition functions : list function :=
  [Fcounting_worker; Fspinner; Fisolation_worker; Fladder_worker; Fsleeper; Fwaker; Fnapper].
(** The programs of [user.S], by name; the linker puts each between two symbols. *)
Inductive image_name : Type :=
  | Iprogram | Ifault | Iclient | Iserver | Ilender | Iborrower | Ivictim | Isupervisor | Ipetitioner | Iheartbeat
  | Inotified | Islow_server.

Section tests.
Context (respond : list Devices.access → Z → Z → Z) (frequency : Z).
Context (user_task_entry task_trampoline : Z).
Context (address : function → Z) (image_start image_end : image_name → Z).

(** Where the volatile accesses of [isolation_worker] are, should they trap. *)
Context (regs : list Z) (pc pstate : Z).

Definition in_user_page {A} (op : (Z → mmu → M board A)) : thr A :=
  act (Direct (w ← getS; in_core (at_el1 (op (now w))))).

Definition isolation_worker (tag : Z) : thr unit :=
  _ ← in_user_page (λ count r,
        store respond frequency user_task_entry task_trampoline regs pc pstate count r 8 ISOLATION_VA tag);
  _ ← repeat_ (Z.to_nat (ISOLATION_WORKERS * 2)) yield_now;
  seen ← in_user_page (λ count r,
        load respond frequency user_task_entry task_trampoline regs pc pstate count r 8 ISOLATION_VA);
  seen ← unwrap seen "a load that traps stops the kernel";
  _ ← note (λ s, set_ISOLATION_SEEN (<[Z.to_nat tag := seen]> (ISOLATION_SEEN s)) s);
  note (λ s, set_ISOLATION_DONE (ISOLATION_DONE s + 1) s).

Definition body (f : function) : Z → thr unit :=
  match f with
  | Fcounting_worker => counting_worker
  | Fspinner => spinner
  | Fisolation_worker => isolation_worker
  | Fladder_worker => ladder_worker
  | Fsleeper => sleeper
  | Fwaker => waker
  | Fnapper => napper
  end.

(** The code at an address. *)
Definition code_at (entry arg : Z) : option (thr unit) :=
  (λ e, body (snd e) arg) <$> list_find (λ f, address f = entry) functions.

(** ** The self tests of kernel threads *)

Definition others_can_run : thr bool := n ← ask (gets runnable_others); mret (0 <? n).
Definition check_canaries : thr unit :=
  b ← ask (gets canaries_intact); check b "a kernel stack overflowed".
Definition while_not (cond : thr bool) (body : thr unit) : thr unit :=
  while_ (b ← cond; mret (negb b)) body.

Definition self_test : thr unit :=
  _ ← act (Direct (in_board (in_kernel Sched.init)));
  _ ← spawn "ping" (address Fcounting_worker) 1;
  _ ← spawn "pong" (address Fcounting_worker) 2;
  _ ← while_ others_can_run yield_now;
  trace ← look TRACE;
  _ ← check (trace_len trace =? 6) "wrong number of turns taken";
  _ ← check (bool_decide (firstn 6 (tags trace) = [1; 2; 1; 2; 1; 2])) "tasks did not alternate as expected";
  _ ← check (bool_decide (firstn 6 (values trace) = [1001; 2001; 1002; 2002; 1003; 2003]))
        "a task's local state did not survive the switch";
  _ ← check_canaries;
  _ ← release_dead;
  sayln (passed "task" ++ bytes_of "2 tasks alternated 3 turns each, locals intact, canaries intact").

Definition preemption_self_test : thr unit :=
  _ ← act (Direct (in_board (in_kernel (modify (λ k, set_SWITCH_LOG (reset_switch_log (SWITCH_LOG k)) k)))));
  _ ← note (set_SPINNERS_DONE 0);
  _ ← repeat_ (Z.to_nat SPINNERS) (_ ← spawn "spin" (address Fspinner) 0; mret tt);
  _ ← while_ (n ← look SPINNERS_DONE; mret (n <? SPINNERS)) yield_now;
  log ← ask (gets SWITCH_LOG);
  total ← act (Look (lift (add64 (log_len log) (log_overflow log))));
  let preemptions := log_preemptions log in
  let to := firstn (Z.to_nat (log_len log)) (log_to log) in
  _ ← check (forallb (λ t, t <? MAX_TASKS) to) "index out of bounds";
  let seen := foldl (λ s t, <[Z.to_nat t := true]> s) (replicate (Z.to_nat MAX_TASKS) false) to in
  let distinct := Z.of_nat (length (filter (λ b : bool, b = true) seen)) in
  _ ← check (SPINNERS <=? preemptions) "the timer is not taking the CPU away";
  _ ← check (SPINNERS <=? distinct) "not every spinner got scheduled";
  _ ← check_canaries;
  _ ← release_dead;
  sayln (passed "preemption" ++ dec total ++ bytes_of " switches, " ++ dec preemptions ++
    bytes_of " of them preemptive, " ++ dec distinct ++ bytes_of " tasks scheduled").

Definition spawn_isolated (tag : Z) : thr unit :=
  _ ← act (Direct (in_board (in_kernel (
    space ← with_mach AddressSpace_new;
    frame ← with_mach Frames.alloc;
    frame ← expectM frame "no frame for a user page";
    _ ← with_mach (AddressSpace_map space ISOLATION_VA frame FRAME_SIZE Attributes.user_data);
    spawn_in task_trampoline "iso" (address Fisolation_worker) tag (Some space) NORMAL))));
  mret tt.

Fixpoint check_seen (l : list Z) (seen : list Z) : thr unit :=
  match l with
  | [] => mret tt
  | tag :: l' =>
    _ ← check (default 0 (seen !! Z.to_nat tag) =? tag) "the address space was not private";
    check_seen l' seen
  end.

Definition isolation_self_test : thr unit :=
  _ ← note (set_ISOLATION_DONE 0);
  _ ← spawn_isolated 1; _ ← spawn_isolated 2; _ ← spawn_isolated 3;
  _ ← while_ (n ← look ISOLATION_DONE; mret (n <? ISOLATION_WORKERS)) yield_now;
  seen ← look ISOLATION_SEEN;
  _ ← check_seen (range 1 (ISOLATION_WORKERS + 1)) seen;
  _ ← check_canaries;
  _ ← release_dead;
  sayln (passed "isolation" ++ dec ISOLATION_WORKERS ++ bytes_of " tasks each read their own value back from " ++
    hex ISOLATION_VA).

(** [while ticks() == before && spins < 10_000_000]. *)
Definition spin_until_tick (before : Z) : thr unit :=
  ITree.iter (λ spins : Z,
    t ← ticks;
    if (t =? before) && (spins <? 10000000) then _ ← act (Spin 1); mret (inl (spins + 1)) else mret (inr tt)) 0.

Definition priority_self_test : thr unit :=
  _ ← reset_order;
  _ ← without_interrupts (
    _ ← spawn_at "low-a" (address Fladder_worker) 10 LOW;
    _ ← spawn_at "low-b" (address Fladder_worker) 11 LOW;
    _ ← spawn_at "high-a" (address Fladder_worker) 20 HIGH;
    spawn_at "high-b" (address Fladder_worker) 21 HIGH);
  _ ← while_ others_can_run yield_now;
  order ← look ORDER;
  let expected := [20; 21; 20; 21; 20; 21; 10; 11; 10; 11; 10; 11] in
  _ ← check (order_len order =? 12) "wrong number of turns taken";
  _ ← check (bool_decide (firstn 12 (order_tags order) = expected))
        "tasks did not run in priority order with round robin inside each level";
  _ ← reset_order;
  _ ← without_interrupts (
    sleeping ← spawn_at "sleeper" (address Fsleeper) 0 HIGH;
    _ ← note (set_SLEEPER (Some sleeping));
    spawn_at "waker" (address Fwaker) 0 NORMAL);
  _ ← while_ others_can_run yield_now;
  order ← look ORDER;
  _ ← check (bool_decide (firstn (Z.to_nat (order_len order)) (order_tags order) = [1; 2; 3; 4]))
        "a blocked task was scheduled, or waking one did not preempt the waker";
  napping ← spawn_at "napper" (address Fnapper) 0 HIGH;
  _ ← while_not (ask (is_blocked napping)) yield_now;
  ticks_before ← ticks;
  _ ← spin_until_tick ticks_before;
  ticks_after ← ticks;
  idle_ticks ← act (Look (lift (sub64 ticks_after ticks_before)));
  _ ← check (0 <? idle_ticks) "the timer stopped while the only runnable task was idle";
  _ ← unblock napping;
  _ ← while_not (ask (finished napping)) yield_now;
  _ ← check_canaries;
  _ ← release_dead;
  sayln (passed "priority" ++
    bytes_of "high ran to completion before low, blocked task skipped while highest priority, idle survived " ++
    dec idle_ticks ++ bytes_of " ticks with everything asleep").

(** ** The self tests of user programs *)

Definition spawn_user_program (nm : string) (i : image_name) (arg prio : Z) : thr Z :=
  act (Do (CSpawnUser nm (image_start i) (image_end i) arg prio)).
Definition spawn_user (nm : string) : thr Z := spawn_user_program nm Iprogram 0 NORMAL.
Definition spawn_faulting_user (nm : string) : thr Z := spawn_user_program nm Ifault 0 NORMAL.
Definition exit_code (id : Z) (why : string) : thr Z :=
  code ← ask (exit_code_of id); unwrap code why.
Definition privileged_traps : thr Z := act (Look (in_board (gets PRIVILEGED_TRAPS))).
Definition check_frames (before : Z) (why : string) : thr unit :=
  after ← free_frames; check (after =? before) why.

(** [while cond { assert!(ticks() < deadline); yield_now() }], of at most [limit]
    ticks. *)
Definition wait_until (limit : Z) (cond : thr bool) (why : string) : thr unit :=
  start ← ticks;
  deadline ← act (Look (lift (add64 start limit)));
  while_not cond (t ← ticks; _ ← check (t <? deadline) why; yield_now).
(** [finished(a) && finished(b)]. *)
Definition both_finished (a b : Z) : thr bool :=
  x ← ask (finished a); if x : bool then ask (finished b) else mret false.

Definition user_self_test : thr unit :=
  traps_before ← privileged_traps;
  id ← spawn_user "user";
  _ ← while_not (ask (finished id)) yield_now;
  code ← exit_code id "user task finished without an exit code";
  traps_after ← privileged_traps;
  traps ← act (Look (lift (sub64 traps_after traps_before)));
  _ ← check (code =? EFAULT) "syscall accepted a kernel pointer from EL0";
  _ ← check (traps =? 1) "expected exactly one privileged instruction to be refused";
  _ ← release_dead;
  sayln (passed "user" ++ bytes_of "EL0 ran, " ++ dec traps ++
    bytes_of " privileged instruction refused, kernel pointer rejected").

Definition lifecycle_self_test : thr unit :=
  _ ← reap_zombies;
  _ ← release_dead;
  before_frames ← free_frames;
  before_slots ← ask (gets free_slots);
  id ← spawn_user "shortlived";
  during ← free_frames;
  _ ← check (during <? before_frames) "spawning a user task consumed no frames, so this test proves nothing";
  consumed ← act (Look (lift (sub64 before_frames during)));
  _ ← while_not (ask (is_dead id)) yield_now;
  code ← exit_code id "reaped task lost its exit code";
  _ ← check (code =? EFAULT) "unexpected exit code from the user task";
  released ← release_dead;
  _ ← check (0 <? released) "no slot was released";
  _ ← check_frames before_frames "task did not give back its frames";
  after_slots ← ask (gets free_slots);
  _ ← check (after_slots =? before_slots) "task leaked a table slot";
  sayln (passed "lifecycle" ++ bytes_of "task took " ++ dec consumed ++ bytes_of " frames and gave back all " ++
    dec consumed).

Definition fault_self_test : thr unit :=
  _ ← reap_zombies;
  _ ← release_dead;
  before_frames ← free_frames;
  ticks_before ← ticks;
  id ← spawn_faulting_user "faulter";
  _ ← while_not (ask (is_faulted id)) yield_now;
  fault ← ask (fault_of id);
  fault ← unwrap fault "faulted task recorded no fault";
  _ ← check (is_abort (esr fault)) "expected a memory abort";
  _ ← check (far fault =? 0) "expected the faulting address to be the null that was dereferenced";
  _ ← spin_until_tick ticks_before;
  ticks_after ← ticks;
  _ ← check (ticks_before <? ticks_after) "the timer never ticked again after a task faulted";
  _ ← kill id;
  _ ← while_not (ask (is_dead id)) yield_now;
  _ ← release_dead;
  _ ← check_frames before_frames "a faulted task did not give its memory back once killed";
  meanwhile ← act (Look (lift (sub64 ticks_after ticks_before)));
  sayln (passed "fault" ++ bytes_of "task died on " ++ bytes_of (fault_status (esr fault)) ++
    bytes_of ", kernel survived, " ++ dec meanwhile ++ bytes_of " ticks elapsed meanwhile").

Definition spawn_ipc_server (nm : string) (prio : Z) : thr Z := spawn_user_program nm Iserver 0 prio.
Definition spawn_ipc_client (nm : string) (server prio : Z) : thr Z := spawn_user_program nm Iclient server prio.

Definition client_failure (code : Z) : string :=
  if code =? 1 then "the server reported the message arrived wrong"
  else if code =? 2 then "the reply was the wrong length"
  else if code =? 3 then "the reply bytes did not survive the copy"
  else if code =? 4 then "sending to a dead task did not return EDEAD"
  else "unknown failure".

Definition ipc_round (server_priority client_priority : Z) : thr unit :=
  '(server, client) ← without_interrupts (
    server ← spawn_ipc_server "server" server_priority;
    client ← spawn_ipc_client "client" server client_priority;
    mret (server, client));
  _ ← wait_until 100 (both_finished client server) "the exchange never finished";
  server_code ← exit_code server "server finished without an exit code";
  client_code ← exit_code client "client finished without an exit code";
  _ ← reap_zombies;
  _ ← release_dead;
  _ ← check (server_code =? 0) "the server did not receive what the client sent";
  check (client_code =? 0) (client_failure client_code).

Definition ipc_self_test : thr unit :=
  _ ← reap_zombies;
  _ ← release_dead;
  before_frames ← free_frames;
  _ ← ipc_round HIGH NORMAL;
  _ ← ipc_round NORMAL HIGH;
  _ ← check_canaries;
  _ ← check_frames before_frames "an exchange leaked memory";
  sayln (passed "ipc" ++ bytes_of ("message and reply survived both directions across two address spaces, " +:+
    "both rendezvous orders, dead target refused")).

Definition lease_failures (code : Z) : string :=
  if code =? 1 then "reading a lease it was given failed"
  else if code =? 2 then "reading a lease produced the wrong bytes"
  else if code =? 4 then "writing a lease it was given failed"
  else if code =? 8 then "a borrow past the end of a lease was allowed"
  else if code =? 16 then "writing a read only lease was allowed"
  else if code =? 32 then "a lease index nobody lent it was accepted"
  else if code =? 64 then "a borrow after the reply still worked"
  else "several checks failed at once".

Definition lease_self_test : thr unit :=
  _ ← reap_zombies;
  _ ← release_dead;
  before_frames ← free_frames;
  '(borrower, lender) ← without_interrupts (
    borrower ← spawn_user_program "borrower" Iborrower 0 HIGH;
    lender ← spawn_user_program "lender" Ilender borrower NORMAL;
    mret (borrower, lender));
  _ ← wait_until 100 (both_finished lender borrower) "the lease exchange never finished";
  borrower_code ← exit_code borrower "borrower finished without an exit code";
  lender_code ← exit_code lender "lender finished without an exit code";
  _ ← reap_zombies;
  _ ← release_dead;
  _ ← check (borrower_code =? 0) (lease_failures borrower_code);
  _ ← check (lender_code =? 0)
        (if lender_code =? 1 then "the borrower reported a refused borrow it should have been allowed"
         else if lender_code =? 3 then "a lease over memory the sender does not own was accepted"
         else "the lent buffer did not come back with the borrower's bytes in it");
  _ ← check_canaries;
  _ ← check_frames before_frames "a lease exchange leaked memory";
  sayln (passed "lease" ++ bytes_of ("buffer lent and written across address spaces, overrun and wrong direction " +:+
    "and unknown index and stale lease all refused")).

Definition supervisor_failures (code : Z) : string :=
  if code =? 1 then "the fault reported was not the task being watched"
  else if code =? 2 then "the first fault was not at the address the victim aimed at"
  else if code =? 4 then "restart was refused"
  else if code =? 8 then "the restarted task came back with a different identity"
  else if code =? 16 then "the restarted task found its old memory still there"
  else "several checks failed at once".

Definition supervisor_self_test : thr unit :=
  _ ← reap_zombies;
  _ ← release_dead;
  before_frames ← free_frames;
  '(victim, supervisor, petitioner) ← without_interrupts (
    victim ← spawn_user_program "victim" Ivictim 0 NORMAL;
    petitioner ← spawn_user_program "petitioner" Ipetitioner victim HIGH;
    supervisor ← spawn_user_program "supervisor" Isupervisor victim HIGH;
    _ ← set_supervisor supervisor;
    mret (victim, supervisor, petitioner));
  _ ← wait_until 200 (both_finished supervisor petitioner) "supervision never finished";
  supervisor_code ← exit_code supervisor "supervisor finished without an exit code";
  petitioner_code ← exit_code petitioner "petitioner finished without an exit code";
  _ ← check (supervisor_code =? 0) (supervisor_failures supervisor_code);
  _ ← check (petitioner_code =? 0)
        (if petitioner_code =? 1 then "a task blocked sending to the victim was not released when it died"
         else "a task that is not the supervisor was allowed to restart another task");
  stopped ← ask (is_faulted victim);
  _ ← check stopped "the victim should still be stopped after its second fault";
  _ ← kill victim;
  _ ← while_not (ask (is_dead victim)) yield_now;
  _ ← release_dead;
  _ ← check_canaries;
  _ ← check_frames before_frames "a restart leaked memory";
  sayln (passed "supervisor" ++ bytes_of ("task faulted, supervisor restarted it with clean memory and the same id, " +:+
    "blocked sender released, restart refused to everybody else")).

Definition notification_self_test : thr unit :=
  _ ← reap_zombies;
  _ ← release_dead;
  watcher ← spawn_user_program "notified" Inotified 0 HIGH;
  _ ← wait_until 100 (ask (is_blocked watcher)) "the watcher never parked waiting for a notification";
  _ ← post watcher 2;
  b ← ask (is_blocked watcher);
  _ ← check b "a notification nobody was waiting for woke a task anyway";
  _ ← post watcher 1;
  _ ← wait_until 100 (ask (finished watcher)) "the watcher was never woken";
  code ← exit_code watcher "watcher finished without an exit code";
  _ ← reap_zombies;
  _ ← release_dead;
  _ ← check (code =? 0)
        (if code =? 1 then "a notification arrived claiming to be from a task"
         else if code =? 2 then "receiving one notification collected bits nobody had asked for"
         else "a bit posted while the task was not looking was lost rather than kept");
  _ ← check_canaries;
  sayln (passed "notification" ++ bytes_of ("unwanted bit did not wake the task and was kept, wanted bit did, " +:+
    "and only the requested bits were collected")).

Definition FORGED : Z := 0xbad.

(** The reply of the boot task is refused before anything could switch away. *)
Definition forge_reply (client : Z) : thr Z :=
  act (Direct (in_board (in_kernel (r ← reply client FORGED 0 0;
    match r with Ret (v, _, _) => mret v | Sus _ => panic "the boot task was switched away" end)))).

Definition forged_reply_self_test : thr unit :=
  _ ← reap_zombies;
  _ ← release_dead;
  before_frames ← free_frames;
  '(server, client) ← without_interrupts (
    server ← spawn_user_program "slowsrv" Islow_server 0 HIGH;
    client ← spawn_ipc_client "client" server NORMAL;
    mret (server, client));
  _ ← wait_until 100
        (w ← ask (gets (λ k, is_awaiting_reply k client)); if w : bool then ask (is_blocked server) else mret false)
        "the exchange never reached the point where a reply is outstanding";
  refused ← forge_reply client;
  _ ← check (refused =? EINVAL) "a task that never received the message was allowed to answer it";
  w ← ask (gets (λ k, is_awaiting_reply k client));
  _ ← check w "the forged reply was reported as refused but released the sender anyway";
  _ ← post server 1;
  _ ← wait_until 100 (both_finished client server) "the exchange never finished after the server was released";
  client_code ← exit_code client "client finished without an exit code";
  _ ← reap_zombies;
  _ ← release_dead;
  _ ← check (client_code =? 0) (client_failure client_code);
  _ ← check_canaries;
  _ ← check_frames before_frames "the exchange leaked memory";
  sayln (passed "forged reply" ++
    bytes_of "a task that did not receive the message could not answer it, and the real reply still arrived").

Definition spawn_heartbeat : thr Z :=
  id ← spawn_user_program "heartbeat" Iheartbeat 0 NORMAL;
  _ ← act (Do (CRoute TIMER_INTID id 1));
  mret id.

(** [kernel_main_high] from the address spaces on, up to [halt]. *)
Definition kernel_main_tasks : thr unit :=
  _ ← act (Direct (in_core init_address_spaces_mmu));
  _ ← self_test;
  _ ← sayln [];
  table ← ask (gets print_table);
  _ ← say table;
  _ ← act (Direct (in_board (in_devices (gic_init respond))));
  _ ← sayln [];
  lines ← act (Direct (in_board (in_devices (num_interrupts respond))));
  _ ← sayln (bytes_of "gic: " ++ dec lines ++ bytes_of " interrupt lines");
  _ ← act (Direct (w ← getS; in_board (in_devices (timer_init frequency (now w)))));
  _ ← sayln (bytes_of "timer: " ++ dec frequency ++ bytes_of " Hz counter, tick every " ++ dec (1000 / TICK_HZ) ++
    bytes_of " ms");
  _ ← sayln [];
  _ ← say (line "tier 0 complete. we are alive on bare metal.");
  _ ← say (line "tier 1: exception vectors online.");
  _ ← say (line "tier 1: paging online, kernel in the high half.");
  _ ← act (Mask false);
  _ ← say (line "tier 1: heartbeat started, interrupts live.");
  _ ← sayln [];
  _ ← preemption_self_test;
  _ ← isolation_self_test;
  _ ← user_self_test;
  _ ← lifecycle_self_test;
  _ ← fault_self_test;
  _ ← priority_self_test;
  _ ← ipc_self_test;
  _ ← lease_self_test;
  _ ← supervisor_self_test;
  _ ← notification_self_test;
  _ ← forged_reply_self_test;
  _ ← say (line "tier 2: preemptive scheduling online.");
  _ ← say (line "tier 2: EL0 and syscalls online.");
  _ ← say (line "tier 3: task faults are contained.");
  _ ← say (line "tier 3: priority scheduling and blocking online.");
  _ ← say (line "tier 3: synchronous IPC online.");
  _ ← say (line "tier 3: leases online.");
  _ ← say (line "tier 3: supervised restart online.");
  _ ← sayln [];
  _ ← spawn_heartbeat;
  _ ← say (line "tier 3: notifications online, heartbeat now runs at EL0.");
  _ ← say (line "tier 4: the machine describes itself, device tree in hand.");
  sayln [].
End tests.
