(* ===== verification/TestRuns.v ===== *)
(** * TestRuns: the self tests run

    A board in the state [kernel_main_high] leaves it in before the first test,
    with the programs of [UserPrograms] in memory where the linker might put
    them; and self tests of [TaskTests] run on it to their end, kernel threads, timer
    interrupts and EL0 programs together. *)

From ITree Require Import ITree.
From S2P Require Import Prelude Memory Frames FramesBoot Paging PagingWalk Kernel Sched Devices Exceptions System Mmu.
From S2P Require Import Fmt Threads TaskTests UserPrograms.

(** ** The board *)

(** An interrupt controller whose only interrupt is the timer's, and a counter of
    2 MHz. *)
Definition timer_bus (_ : list Devices.access) (_ a : Z) : Z :=
  if a =? GICC_BOOTSTRAP + GICC_IAR then TIMER_INTID else if a =? GICD_BOOTSTRAP + GICD_TYPER then 2 else 0.
Definition counter_frequency : Z := 2000000.

(** Where the linker puts code. *)
Definition entry_of (f : function) : Z :=
  match f with
  | Fcounting_worker => 0x40081200 | Fspinner => 0x40081300 | Fisolation_worker => 0x40081400
  | Fladder_worker => 0x40081500 | Fsleeper => 0x40081600 | Fwaker => 0x40081700 | Fnapper => 0x40081800
  end.
Definition user_entry : Z := 0x40081000.
Definition trampoline_entry : Z := 0x40081100.

(** Each program has a kilobyte of the image. *)
Definition image_number (i : image_name) : nat :=
  match i with
  | Iprogram => 0 | Ifault => 1 | Iclient => 2 | Iserver => 3 | Ilender => 4 | Iborrower => 5 | Ivictim => 6
  | Isupervisor => 7 | Ipetitioner => 8 | Iheartbeat => 9 | Inotified => 10 | Islow_server => 11
  end.
Definition images : list (list Z) := map assemble User.programs.
Definition image_base : Z := 0x40090000.
Definition user_start (i : image_name) : Z := image_base + 1024 * Z.of_nat (image_number i).
Definition user_end (i : image_name) : Z :=
  user_start i + Z.of_nat (length (default [] (images !! image_number i))).
Definition image_memory : mem := λ a,
  if (image_base <=? a) && (a <? image_base + 1024 * 12) then
    let image := default [] (images !! Z.to_nat ((a - image_base) / 1024)) in
    default 0 (image !! Z.to_nat ((a - image_base) mod 1024))
  else 0.

(** Translation is on, the low half not consulted yet. *)
Definition boot_registers : mmu :=
  mkMmu MAIR_VALUE (Z.lor (tcr_value 0x1125) (Z.shiftl 1 7)) 0 1 0 KERNEL_BASE.
Definition boot_board : board :=
  mkBoard (kernel_new (set_memory image_memory virt)) (mkDevices GICD_BOOTSTRAP GICC_BOOTSTRAP [] 0 0) 0 false 0.

(** The boot task in slot 0, with interrupts masked. *)
Definition boot_run (boot : thread unit) : run (T := statics) :=
  mkRun (mkWorld (mkCore boot_board boot_registers) 0 0 statics_new)
    (replicate 8 (Thread boot)) (replicate 8 true).

Definition run_boot (n : nat) (boot : thread unit) : res (bool * run) :=
  turns timer_bus counter_frequency user_entry trampoline_entry
    (code_at timer_bus counter_frequency user_entry trampoline_entry entry_of [] 0 0)
    (replicate 31 0) n (boot_run boot).

(** What [kernel_main_high] does around the tests. *)
Definition set_up : thread unit :=
  _ ← act (Direct (in_core init_address_spaces_mmu));
  _ ← self_test entry_of;
  _ ← act (Direct (in_board (in_devices (gic_init timer_bus))));
  _ ← act (Direct (w ← getS; in_board (in_devices (timer_init counter_frequency (now w)))));
  _ ← act (Mask false); mret tt.

(** ** The runs *)

Definition cooperation : string :=
  "task self test: passed, 2 tasks alternated 3 turns each, locals intact, canaries intact".

Definition same (l l' : list Z) : bool := bool_decide (l = l').

(** The boot task came to the end of the test, on its own CPU, nobody else is left
    to run, and after the line of the cooperative test the console has [report]. *)
Definition passes (test : thread unit) (report : list string) : bool :=
  match run_boot 16 (_ ← set_up; test) with
  | Done (more, r) =>
    negb more && (me (rkern r) =? 0) && (runnable_others (rkern r) =? 0) && canaries_intact (rkern r) &&
    same (SAID (Threads.statics (wd r))) ((cooperation :: report) ≫= Fmt.line)
  | Panic _ => false
  end.

(** The tests before those of messages, in the order [kernel_main_high] runs them. *)
Definition first_tests : thread unit :=
  _ ← preemption_self_test entry_of;
  _ ← isolation_self_test trampoline_entry entry_of;
  _ ← user_self_test user_start user_end;
  _ ← lifecycle_self_test user_start user_end;
  _ ← fault_self_test user_start user_end;
  priority_self_test entry_of.

(** Of the numbers, those of switches and ticks depend on the speed of the board:
    the workers of the second test share the CPU tick by tick, 200 ticks each. *)
Definition first_report : list string := [
  "preemption self test: passed, 604 switches, 600 of them preemptive, 3 tasks scheduled";
  "isolation self test: passed, 3 tasks each read their own value back from 0x10000000";
  "user self test: passed, EL0 ran, 1 privileged instruction refused, kernel pointer rejected";
  "lifecycle self test: passed, task took 11 frames and gave back all 11";
  "fault self test: passed, task died on translation fault, nothing mapped, kernel survived, 1 ticks elapsed meanwhile";
  "priority self test: passed, high ran to completion before low, blocked task skipped while highest priority, idle survived 1 ticks with everything asleep"]%string.
Definition forged_report : list string := [
  "forged reply self test: passed, a task that did not receive the message could not answer it, and the real reply still arrived"]%string.
Definition notification_report : list string := [
  "notification self test: passed, unwanted bit did not wake the task and was kept, wanted bit did, and only the requested bits were collected"]%string.
Definition ipc_report : list string := [
  "ipc self test: passed, message and reply survived both directions across two address spaces, both rendezvous orders, dead target refused"]%string.

Lemma first_tests_pass : passes first_tests first_report = true.
Proof. vm_cast_no_check (eq_refl true). Qed.

Lemma forged_reply_passes : passes (forged_reply_self_test user_start user_end) forged_report = true.
Proof. vm_cast_no_check (eq_refl true). Qed.

Lemma notification_passes : passes (notification_self_test user_start user_end) notification_report = true.
Proof. vm_cast_no_check (eq_refl true). Qed.

Lemma ipc_passes : passes (ipc_self_test user_start user_end) ipc_report = true.
Proof. vm_cast_no_check (eq_refl true). Qed.

(** The self tests of [tasks.rs] pass: on a board that has just booted, from the
    cooperative test on, the boot task runs each of ten of them to its end without
    a panic, with every stack intact and nobody left to run, and the console has
    the line each prints and nothing else: preemption by the
    timer, private address spaces, a user program that is refused kernel memory
    and a privileged instruction, frames and slots given back, a fault that stops
    one task only, priorities and blocking, and, each after the cooperative test,
    messages between a client program and a server program whichever of them comes
    first, notifications, and a reply forged while a client waits for a server. *)
Theorem self_tests_pass :
  passes first_tests first_report = true ∧
  passes (ipc_self_test user_start user_end) ipc_report = true ∧
  passes (notification_self_test user_start user_end) notification_report = true ∧
  passes (forged_reply_self_test user_start user_end) forged_report = true.
Proof. exact (conj first_tests_pass (conj ipc_passes (conj notification_passes forged_reply_passes))). Qed.
