(* ===== verification/ThreadProps.v ===== *)
(** * ThreadProps: runs are runs of the system

    Threads and programs act on the kernel only through what [System.step]
    allows: [runs_are_steps] takes a run of [Threads], turn by turn, to a run of
    the transition system, so that what holds in every reachable state holds all
    along it. *)

From ITree Require Import ITree.
From S2P Require Import Prelude Memory FrameAlloc Frames FramesBoot Paging PagingWalk PagingTables PagingMap PagingRange PagingProps.
From S2P Require Import KernelMap Kernel Sched Notify Ipc Tasks Syscall KernelInv Devices Exceptions Mmu MmuProps System SystemMem SystemProps MemProps Protection.
From S2P Require Import A64 Threads TaskTests UserPrograms TestRuns.

(** ** Lawful turns *)

Section lawful.
Context {T : Type}.

(** [may_call], decided. *)
Definition may_callb (k : kernel) (c : call) : bool :=
  match c with
  | CBlock | CFinish => negb (me k =? 0)
  | CUnblock id => (0 <=? id) && match sl_ctx (slot_of k id) with Inside KReturn => true | _ => false end
  | CKill id => 0 <=? id
  | _ => true
  end.

Lemma may_callb_ok k c : may_callb k c = true → may_call k c.
Proof.
  destruct c; simpl; try done; [lia| |lia|lia].
  intros [H0 H1]%andb_true_iff. split; [lia|]. destruct (contexts k !! Z.to_nat id) as [[| |[]|]|]; done.
Qed.

(** What an event may do to the kernel. *)
Definition event_fit (k : kernel) {A} (e : event (T := T) A) : bool :=
  match e with Do c => may_callb k c | Direct _ => false | _ => true end.

(** The next turn keeps to the rules of [step]: the thread calls as it may and
    does nothing [Direct]; the program has registers that are numbers and an
    address space; the boot task does not wait for messages. *)
Definition fit (r : run (T := T)) : bool :=
  let k := rkern r in
  match here (rboard r) with
  | Fresh _ _ => true
  | Cut => false
  | Inside c => negb (me k =? 0) || match c with KYield | KReturn => true | _ => false end
  | Running =>
    (timer_pending r && negb (irq_masked r (me k))) ||
    match slot r (me k) with
    | User f => forallb (Z.leb 0) (x f) && bool_decide (is_Some (current_space_root k))
    | Thread t => match observe t with VisF e _ => event_fit k e | _ => true end
    end
  end.

Section machine.
Context (respond : list Devices.access → Z → Z → Z) (frequency : Z).
Context (user_task_entry task_trampoline : Z).
Context (code : Z → Z → option (thread (T := T) unit)) (entry_regs : list Z).

Definition turn_of_run : M (run (T := T)) bool := turn respond frequency user_task_entry task_trampoline code entry_regs.
Definition lawful_turn : M (run (T := T)) bool :=
  r ← getS; if fit r then turn_of_run else panic "against the rules".
(** Up to [2 ^ n] turns, each of them lawful. *)
Definition lawful_turns (n : nat) : M (run (T := T)) bool := doubled lawful_turn n.

Abbreviation reaches := (reachable respond frequency user_task_entry task_trampoline).
Context (m : machine) (b0 : board) (mmfr0 : Z) (rs : list region) (high : Z) (regs : mmu).
Context (Hm : fortified m rs high) (Hboot : booted m (kern b0)) (Hregs : running_regs mmfr0 high regs).

(** The kernel is in a state it can reach, on the CPU it started with. *)
Definition on_track (r : run (T := T)) : Prop := reaches b0 (rboard r) ∧ cpu (co (wd r)) = regs.

(** ** What the parts of a turn keep *)

Lemma pc_same {A} (op : M (run (T := T)) A) r Q :
  (∀ a r', op r = Done (a, r') → rboard r' = rboard r ∧ cpu (co (wd r')) = cpu (co (wd r))) →
  on_track r → (∀ a r', on_track r' → Q a r') → pc op r Q.
Proof.
  intros H [Hr Hc] HQ. unfold pc. destruct (op r) as [[a r']|] eqn:He; [|done].
  destruct (H a r' eq_refl) as [Hb Hc']. apply HQ. split; [by rewrite Hb|by rewrite Hc', Hc].
Qed.

Lemma pc_board {A} (op : M board A) (r : run (T := T)) Q :
  on_track r → (∀ a b', op (rboard r) = Done (a, b') → reaches b0 b' ∧ (∀ r', on_track r' → Q a r')) →
  pc (in_world (in_board op)) r Q.
Proof.
  intros [Hr Hc] H. unfold in_world, in_board. apply pc_zoom. intros a w Hw. unfold zoom in Hw.
  change (brd (wd r)) with (rboard r) in Hw. destruct (op (rboard r)) as [[a' b']|] eqn:He; [|done].
  injection Hw as <- <-. destruct (H a' b' eq_refl) as [Hb HQ]. apply HQ. by split.
Qed.

Lemma handle_done f index count b e b' :
  handle respond frequency user_task_entry task_trampoline f index count (me (kern b)) b = Done (e, b') →
  (e ← handle_exception respond frequency user_task_entry task_trampoline f index count;
   settle e (me (kern b))) b = Done (tt, b').
Proof.
  unfold handle, mbind, M_bind. destruct (handle_exception _ _ _ _ _ _ _ b) as [[e1 b1]|]; [|done].
  destruct (settle e1 _ b1) as [[[] b2]|]; [|done]. by intros [= _ ->].
Qed.

Lemma pc_trap my f index (r : run (T := T)) Q :
  on_track r → my = me (rkern r) → here (rboard r) = Running →
  is_irq index = true ∨ current_space_root (rkern r) ≠ None ∧ registers_ok f ∧ from_lower_el index = true →
  (∀ r', on_track r' → Q true r') →
  pc (trap_el0 respond frequency user_task_entry task_trampoline my f index) r Q.
Proof.
  intros Hr -> Hh Hi HQ. unfold trap_el0. pc_step. pc_step. pc_step. apply pc_board; [exact Hr|].
  intros e b' He. apply handle_done in He. split.
  - eapply reach_step; [apply Hr|]. destruct Hi as [Hi|(Hs & Hf & Hi)].
    + by eapply step_irq.
    + by eapply step_trap.
  - intros r' Hr'. pc_steps. by apply HQ.
Qed.

(** ** A program's stores *)

Definition with_ram (mm : mem) (b : board) : board :=
  set_kern (set_mach (set_memory mm (mach (kern b))) (kern b)) b.

Lemma with_ram_same b : with_ram (memory (mach (kern b))) b = b.
Proof. destruct b as [k]. destruct k as [mc]. by destruct mc. Qed.

(** A byte EL0 may write is one [store_user] writes. *)
Lemma el0_store b va pa v : reaches b0 b → is_u64 va →
  el0_translate regs (ttbr0 (kern b)) (memory (mach (kern b))) Write va = inr pa →
  current_space_root (kern b) ≠ None ∧
  store_user va v (kern b) = Some (kern (with_ram (fill_range (memory (mach (kern b))) pa 1 v) b)).
Proof.
  intros Hr Hva He. unfold el0_translate in He.
  pose proof (reach_exact _ _ _ _ m b0 mmfr0 rs high regs Hm Hboot Hregs (permitted_el0 Write) b va Hr
    (permitted_el0_perm Write) Hva) as H. rewrite He in H.
  destruct H as [(_ & _ & attrs & Hat & Hp)|(root & attrs & Hc & Hup & _)].
  { by rewrite (proj2 (ft_regions _ _ _ Hm pa attrs Hat)) in Hp. }
  split; [congruence|]. apply user_page_low in Hup. unfold store_user. change (2 ^ 48) with 281474976710656 in *.
  rewrite (proj2 (Z.leb_le 0 va)), (proj2 (Z.ltb_lt va 281474976710656)) by lia. cbn [andb].
  destruct (current_table _ _ _ _ m b0 rs high Hm Hboot b Hr) as [Hpage _].
  unfold translate_if in He. rewrite (proj2 (proj2 Hregs)) in He. cbn [negb] in He.
  rewrite (running_root mmfr0 high regs _ va Hregs (fortified_page _ _ _ Hm) Hpage Hva) in He.
  rewrite (proj2 (Z.leb_gt KERNEL_BASE va)) in He by (unfold KERNEL_BASE; lia).
  change (2 ^ 48) with 281474976710656 in He. rewrite (proj2 (Z.ltb_lt va 281474976710656)) in He by lia.
  destruct (walk 3 _ _ va) as [[l d]|]; [|done]. cbn [mbind option_bind].
  destruct (leaf_pa l d va) as [pa'|]; [|done]. destruct (_ =? 0); [done|].
  unfold permitted_el0 in He. destruct (ap d =? AP_RW_ALL); [|done]. by injection He as ->.
Qed.

Lemma store_bytes_reach n b va v mm e : here b = Running → reaches b0 b → is_u64 va →
  store_bytes (λ mm va, el0_translate regs (ttbr0 (kern b)) mm Write va) n (memory (mach (kern b))) va v = (mm, e) →
  reaches b0 (with_ram mm b).
Proof.
  revert b va v. induction n as [|n IH]; intros b va v Hh Hr Hva; cbn [store_bytes].
  { intros [= <- _]. by rewrite with_ram_same. }
  destruct (el0_translate _ _ _ _ va) as [st|pa] eqn:He; [intros [= <- _]; by rewrite with_ram_same|]. intros Hst.
  destruct (el0_store b va pa (v mod 256) Hr Hva He) as [Hc Hs].
  pose proof (Z.mod_pos_bound v 256 ltac:(lia)) as Hv.
  assert (Hr1 : reaches b0 (with_ram (fill_range (memory (mach (kern b))) pa 1 (v mod 256)) b)).
  { eapply reach_step; [exact Hr|]. exact (step_store _ _ _ _ b va (v mod 256) _ Hh Hc Hv Hs). }
  assert (Hva' : is_u64 (as_u64 (va + 1))) by (unfold is_u64, as_u64; pose proof (Z.mod_pos_bound (va + 1) (2 ^ 64)); lia).
  exact (IH (with_ram (fill_range (memory (mach (kern b))) pa 1 (v mod 256)) b) (as_u64 (va + 1)) (Z.shiftr v 8) Hh Hr1 Hva' Hst).
Qed.

Lemma as_u64_ok v : is_u64 (as_u64 v).
Proof. unfold is_u64, as_u64. pose proof (Z.mod_pos_bound v (2 ^ 64)). lia. Qed.

Lemma exec_store i f sp n va v f' sp' : exec i f sp = Stores n va v f' sp' → is_u64 va.
Proof.
  destruct i; cbn [exec]; try done; try (by intros [= _ <- _ _ _]; apply as_u64_ok);
    try (unfold put_sp; by destruct (_ =? 31)); try (by destruct (post_index _ _ _ _)).
  - destruct (post_index _ _ _ _). intros [= _ <- _ _ _]. apply as_u64_ok.
  - by destruct (holds _ _) as [[]|].
Qed.

Lemma track_put my t r : on_track r → on_track (put my t r).
Proof. done. Qed.
Lemma track_mask my t r : on_track r → on_track (put_mask my t r).
Proof. done. Qed.
Lemma track_pass n r : on_track r → on_track (pass n r).
Proof. done. Qed.
Lemma track_sp v r : on_track r → on_track (set_wd (set_sp v (wd r)) r).
Proof. done. Qed.

Lemma pc_moved my f sp r Q : on_track r → (∀ r', on_track r' → Q true r') →
  pc (_ ← modify (put my (User f)); _ ← in_world (modify (set_sp sp)); mret true) r Q.
Proof. intros Hr HQ. pc_steps. apply pc_zoom_in. pc_steps. by apply HQ. Qed.

Lemma pc_user_step my f (r : run (T := T)) Q :
  on_track r → my = me (rkern r) → here (rboard r) = Running → registers_ok f →
  current_space_root (rkern r) ≠ None → (∀ a r', on_track r' → Q a r') →
  pc (user_step respond frequency user_task_entry task_trampoline my f) r Q.
Proof.
  intros Hr -> Hh Hf Hc HQ. unfold user_step. pc_step. pc_step. rewrite (proj2 Hr).
  assert (Hfault : ∀ r1 f1, on_track r1 → me (rkern r1) = me (rkern r) → here (rboard r1) = Running → registers_ok f1 →
    current_space_root (rkern r1) ≠ None →
    pc (trap_el0 respond frequency user_task_entry task_trampoline (me (rkern r)) f1 8) r1 Q).
  { intros r1 f1 Hr1 Hme Hh1 Hf1 Hc1. apply pc_trap; [done|done|done|by right|intros; by apply HQ]. }
  assert (Hmoved : ∀ r1 f1 sp1, on_track r1 →
    pc (_ ← modify (put (me (rkern r)) (User f1)); _ ← in_world (modify (set_sp sp1)); mret true) r1 Q).
  { intros. apply pc_moved; [done|intros; by apply HQ]. }
  destruct (el0_translate _ _ _ Fetch _) as [st|pa]; [by apply Hfault|].
  destruct (decode _) as [i|]; [|by apply Hfault].
  destruct (exec i f _) as [f' sp'|n va t f' sp'|n va v f' sp'| |] eqn:He; [by apply Hmoved| | |by apply Hfault|by apply Hfault].
  - destruct (load_bytes _ _ _ _) as [[va' st]|v]; [by apply Hfault|by apply Hmoved].
  - destruct (store_bytes _ _ _ _ _) as [mm e] eqn:Hst. pc_step.
    assert (Hr1 : on_track (set_wd (set_co (set_bd (with_ram mm (rboard r)) (co (wd r))) (wd r)) r)).
    { destruct Hr as [Hr Hcpu]. split; [|done]. eapply store_bytes_reach; [exact Hh|exact Hr|by eapply exec_store|exact Hst]. }
    apply pc_zoom_in, pc_zoom_in, pc_zoom_in, pc_zoom_in. pc_step.
    destruct e as [[va' st]|]; [|by apply Hmoved]. by apply Hfault.
Qed.

(** ** Threads *)

Lemma track_co w r : on_track r → on_track (set_wd (set_statics w (wd r)) r).
Proof. done. Qed.

Lemma pc_call my c (r : run (T := T)) Q :
  on_track r → my = me (rkern r) → here (rboard r) = Running → may_call (rkern r) c →
  (∀ v r', on_track r' → Q v r') →
  pc (in_world (in_board (in_kernel (
    ret ← perform user_task_entry task_trampoline c; _ ← settle_kernel ret my;
    mret (match ret with Kernel.Ret (v, _, _) => v | Sus _ => 0 end))))) r Q.
Proof.
  intros Hr -> Hh Hc HQ. apply pc_board; [exact Hr|]. intros v b' He. split; [|intros; by apply HQ].
  eapply reach_step; [apply Hr|]. apply (step_call _ _ _ _ _ _ c); [done|done|]. revert He.
  unfold in_kernel, zoom, mbind, M_bind. change (me (kern (rboard r))) with (me (rkern r)).
  destruct (perform _ _ c _) as [[ret k1]|]; [|done]. destruct (settle_kernel ret _ k1) as [[[] k2]|]; [|done].
  by intros [= _ <-].
Qed.

Lemma pc_thread_event my {A} (e : event (T := T) A) next (r : run (T := T)) Q :
  on_track r → my = me (rkern r) → here (rboard r) = Running → event_fit (rkern r) e = true →
  (∀ a r', on_track r' → Q a r') →
  pc (thread_event user_task_entry task_trampoline my e next) r Q.
Proof.
  intros Hr Hmy Hh Hf HQ. destruct e as [c|A' op|f|A' op|n|b]; cbn [thread_event event_fit] in *.
  - pc_step. apply pc_call; [done|done|done|by apply may_callb_ok|]. intros v r' Hr'. pc_steps. by apply HQ.
  - pc_step. pc_step. pc_step. apply pc_lift. intros a _. pc_steps. by apply HQ.
  - pc_step. apply pc_zoom_in. pc_steps. by apply HQ.
  - done.
  - pc_step. pc_step. destruct (_ && _); pc_steps; by apply HQ.
  - pc_steps. by apply HQ.
Qed.

Lemma pc_begin my entry arg (r : run (T := T)) Q :
  on_track r → my = me (rkern r) → here (rboard r) = Fresh entry arg → (∀ a r', on_track r' → Q a r') →
  pc (begin user_task_entry code entry_regs my entry arg) r Q.
Proof.
  intros Hr -> Hh HQ. unfold begin. pc_step. apply pc_board; [exact Hr|]. intros [] b' He. split.
  - eapply reach_step; [apply Hr|]. revert He. unfold in_kernel, zoom.
    destruct (settle_kernel _ _ (kern (rboard r))) as [[[] k1]|] eqn:Hs; [|done]. intros [= <-].
    by apply (step_start _ _ _ _ _ _ entry arg).
  - intros r' Hr'. pc_step. pc_step. destruct (_ =? _).
    + pc_step. apply pc_zoom_in. pc_steps. by apply HQ.
    + pc_steps. by apply HQ.
Qed.

Lemma pc_continue my c (r : run (T := T)) Q :
  on_track r → my = me (rkern r) → here (rboard r) = Inside c → me (rkern r) ≠ 0 ∨ c = KYield ∨ c = KReturn →
  (∀ a r', on_track r' → Q a r') → pc (continue my c) r Q.
Proof.
  intros Hr -> Hh Hc HQ. unfold continue. pc_step. pc_step. pc_step. apply pc_board; [exact Hr|]. intros e b' He. split.
  - eapply reach_step; [apply Hr|]. revert He. unfold mbind, M_bind.
    destruct (wake c _ (rboard r)) as [[e1 b1]|] eqn:Hw; [|done].
    destruct (settle e1 _ b1) as [[[] b2]|] eqn:Hs; [|done]. intros [= _ <-].
    eapply (step_wake _ _ _ _ _ _ c); [done|done|]. unfold mbind, M_bind. by rewrite Hw.
  - intros r' Hr'. destruct e, (slot r (me (rkern r))); pc_steps; by apply HQ.
Qed.

Lemma pc_turn (r : run (T := T)) : on_track r → fit r = true → pc turn_of_run r (λ _ r', on_track r').
Proof.
  intros Hr Hf. unfold turn_of_run, turn, fit in *. pc_step. pc_step.
  destruct (here (rboard r)) as [|entry arg|c|] eqn:Hh; [|by apply pc_begin| |done].
  2: { apply pc_continue; [done|done|done| |done]. apply orb_true_iff in Hf as [Hf|Hf]; [left; lia|right].
       destruct c; try done; [by left|by right]. }
  destruct (timer_pending r && negb (irq_masked r (me (rkern r)))); cbn [orb] in Hf.
  - destruct (slot r (me (rkern r))) as [t|f]; [|by apply pc_trap; [| | |left|]].
    pc_step. apply pc_board; [exact Hr|]. intros e b' He%handle_done. split; [|intros; by pc_steps].
    eapply reach_step; [apply Hr|]. exact (step_irq _ _ _ _ _ _ el1_frame 5 (now (wd r)) Hh eq_refl He).
  - destruct (slot r (me (rkern r))) as [t|f].
    + unfold thread_step. destruct (observe t) as [[]|t'|A e next]; [by pc_steps|by pc_steps|by apply pc_thread_event].
    + apply andb_true_iff in Hf as [Hx Hs%bool_decide_eq_true]. pc_step. pc_step.
      apply pc_user_step; [done|done|done| |by apply not_eq_None_Some|done].
      intros i. unfold reg. destruct (x f !! Z.to_nat i) as [v|] eqn:Hv; [|done]. simpl.
      apply list_elem_of_lookup_2 in Hv. apply forallb_forall with (x := v) in Hx; [lia|by apply list_elem_of_In].
Qed.

(** ** Runs *)

Lemma pc_doubled (one : M (run (T := T)) bool) (P : run (T := T) → Prop) n r :
  (∀ r, P r → pc one r (λ _ r', P r')) → P r → pc (doubled one n) r (λ _ r', P r').
Proof.
  intros H. revert r. induction n as [|n IH]; intros r Hr; cbn [doubled]; [by apply H|].
  pc_step. eapply pc_mono; [by apply IH|]. intros [] r' Hr'; [by apply IH|by pc_step].
Qed.

Lemma doubled_mono (one one' : M (run (T := T)) bool) n r more r' :
  (∀ r more r', one r = Done (more, r') → one' r = Done (more, r')) →
  doubled one n r = Done (more, r') → doubled one' n r = Done (more, r').
Proof.
  intros H. revert r more r'. induction n as [|n IH]; intros r more r'; cbn [doubled]; [apply H|].
  unfold mbind, M_bind. destruct (doubled one n r) as [[b r1]|] eqn:He; [|done]. rewrite (IH r b r1 He).
  destruct b; [apply IH|done].
Qed.

(** What threads, programs and the timer do is what the transition system
    does: a run of up to [2 ^ n] lawful turns, of kernel threads calling the
    kernel, EL0 programs executing instruction by instruction, interrupts and
    switches, from a state the kernel can reach, is a run, and ends in a state
    that [System.step] reaches, on a CPU whose translation registers are as they
    were. *)
Theorem runs_are_steps n r more r' : on_track r → lawful_turns n r = Done (more, r') →
  turns respond frequency user_task_entry task_trampoline code entry_regs n r = Done (more, r') ∧
  reaches b0 (rboard r') ∧ cpu (co (wd r')) = regs.
Proof.
  intros Hr He. split.
  - eapply doubled_mono; [|exact He]. intros r1 b r2. unfold lawful_turn, mbind, M_bind. cbn [getS].
    by destruct (fit r1).
  - apply (pc_elim (lawful_turns n) r more r' (λ _ r', on_track r')); [|exact He].
    apply pc_doubled; [|exact Hr]. intros r1 Hr1. unfold lawful_turn. pc_step. pc_step.
    destruct (fit r1) eqn:Hf; [by apply pc_turn|by pc_step].
Qed.

End machine.
End lawful.

(** ** A run *)

(** The board of [TestRuns], with a table for the kernel's half that maps nothing. *)
Definition plain : machine := set_memory image_memory virt.
Definition half : Z := match AddressSpace_new plain with Done (root, _) => root | Panic _ => 0 end.
Definition armed : machine := match AddressSpace_new plain with Done (_, m) => m | Panic _ => plain end.
Definition armed_board : board :=
  mkBoard (state_of (kernel_new armed) (bring_up (kernel_new armed)))
    (mkDevices GICD_BOOTSTRAP GICC_BOOTSTRAP [] 0 0) 0 false 0.
Definition armed_regs : mmu :=
  mkMmu MAIR_VALUE (Z.land (Z.lor (tcr_value 0x1125) (Z.shiftl 1 7)) (not64 (Z.shiftl 1 7))) half 1 0 KERNEL_BASE.
Definition armed_run : run (T := statics) :=
  mkRun (mkWorld (mkCore armed_board armed_regs) 0 0 statics_new)
    (replicate 8 (Thread (user_self_test user_start user_end))) (replicate 8 true).

Lemma byte_range (l : list (list Z)) i j :
  forallb (forallb (λ v, (0 <=? v) && (v <? 256))) l = true → 0 ≤ default 0 (default [] (l !! i) !! j) < 256.
Proof.
  intros Hall. destruct (l !! i) as [bs|] eqn:Hl; [|done]. cbn [default from_option id].
  apply list_elem_of_lookup_2, list_elem_of_In in Hl. pose proof (proj1 (forallb_forall _ _) Hall bs Hl) as Hbs.
  destruct (bs !! j) as [v|] eqn:Hv; [|done].
  apply list_elem_of_lookup_2, list_elem_of_In in Hv. pose proof (proj1 (forallb_forall _ _) Hbs v Hv) as Hb.
  simpl in *. lia.
Qed.

Lemma image_bytes : bytes_ok image_memory.
Proof.
  intros a. unfold image_memory. destruct (_ && _); [|lia]. apply byte_range.
  vm_compute. reflexivity.
Qed.

Lemma plain_ok : tables_ok plain ∅.
Proof.
  destruct virt_no_tables as [H _ _]. split.
  - exact (fa_set_ok (FrameAllocLaws := frames_laws) image_memory virt H image_bytes).
  - split; [intros f k Hf|intros f k i g Hf|intros f f' k k' i i' g Hf]; by rewrite lookup_empty in Hf.
  - intros f k Hf. by rewrite lookup_empty in Hf.
Qed.

Lemma armed_made : AddressSpace_new plain = Done (half, armed) ∧
  tables_ok armed {[half := 3%nat]} ∧ ∀ x, walk 3 (memory armed) half x = None.
Proof.
  assert (Hroom : room 1 plain).
  { destruct (virt_room 1) as (l & Hn & Hl & Hav); [lia|]. exists l. split_and!; [done|done|].
    intros f Hf. exact (proj2 (fa_set_avail (FrameAllocLaws := frames_laws) image_memory virt f) (Hav f Hf)). }
  destruct (wp_elim _ _ _ (wp_new plain ∅ (λ root m', tables_ok m' {[root := 3%nat]} ∧
    ∀ x, walk 3 (memory m') root x = None) plain_ok Hroom
    (λ root m' _ Hok Hw _ _ _ _, conj Hok Hw))) as (root & m' & He & H).
  unfold half, armed. rewrite He. by split.
Qed.

Lemma armed_fortified : fortified armed [] half.
Proof.
  destruct armed_made as (_ & Hok & Hw). split; [apply Hok|exists {[half := 3%nat]}; split; [exact Hok|]|by intros p _; apply Hw|done].
  apply lookup_singleton_eq.
Qed.

Lemma armed_booted : booted armed (kern armed_board).
Proof. apply done_state. vm_compute. reflexivity. Qed.

Lemma armed_running : running_regs 0x1125 half armed_regs.
Proof. split; [reflexivity|split; reflexivity]. Qed.

(** The test of a user program, from its spawning to its end: system calls, a
    privileged instruction and an exit. *)
Definition user_run : res (bool * run) :=
  lawful_turns timer_bus counter_frequency user_entry trampoline_entry
    (code_at timer_bus counter_frequency user_entry trampoline_entry entry_of [] 0 0) (replicate 31 0) 10 armed_run.
Definition result_of {A} (a : A) (r : res A) : A := match r with Done a' => a' | Panic _ => a end.
Definition user_run_end : bool * run := result_of (true, armed_run) user_run.

Lemma result_done {A B} (p : A * B) (r : res (A * B)) : is_done r = true → r = Done (fst (result_of p r), snd (result_of p r)).
Proof. by destruct r as [[]|]. Qed.

Lemma user_run_done : user_run = Done (fst user_run_end, snd user_run_end).
Proof. apply (result_done (true, armed_run)). vm_compute. reflexivity. Qed.

Lemma runs_are_steps_witness :
  fst user_run_end = false ∧
  reachable timer_bus counter_frequency user_entry trampoline_entry armed_board (rboard (snd user_run_end)).
Proof.
  split; [vm_compute; reflexivity|].
  destruct (runs_are_steps timer_bus counter_frequency user_entry trampoline_entry
    (code_at timer_bus counter_frequency user_entry trampoline_entry entry_of [] 0 0) (replicate 31 0)
    armed armed_board 0x1125 [] half armed_regs armed_fortified armed_booted armed_running
    10 armed_run (fst user_run_end) (snd user_run_end)
    (conj (reach_here _ _ _ _ armed_board) eq_refl) user_run_done) as (_ & Hr & _).
  exact Hr.
Defined.
