(* ===== verification/KernelMain.v ===== *)
(** * KernelMain: the boot sequence ([main.rs])

    [kernel_main], the jump, and [kernel_main_high] from its first line to the
    loop it ends in.  The machine is the [computer]: the kernel on its CPU, as
    [Mmu] has it, and the statics of the drivers, over which it is also the
    [system] of [Boot].  The tasks begin in the middle of the sequence; from
    there on it is the thread [kernel_main_tasks] of [TaskTests], whose lines
    are collected instead of sent. *)

From ITree Require Import ITree.
From S2P Require Import Prelude Memory Fmt FrameAlloc Frames FramesBoot Paging Kernel Sched Devices Exceptions System Mmu.
From S2P Require Import Sync Uart Fdt FdtTest Virtio Boot Threads Reports TaskTests.

(** ** The machine *)

(** The statics of [uart.rs], [fdt.rs], [virtio.rs] and [sync.rs], and the
    interrupt mask. *)
Record drivers : Type := mkDrivers {
  dr_base : Z;
  dr_console : Z;
  dr_daif : Z;
  dr_blob : option Blob;
  dr_transports : list (option Transport);
  dr_slots : Z;
  dr_probe : Z;
  dr_other : Z
}.

Record computer : Type := mkComputer { cr : core; dr : drivers }.
Definition set_cr (c : core) (k : computer) : computer := mkComputer c (dr k).
Definition set_dr (d : drivers) (k : computer) : computer := mkComputer (cr k) d.

(** What [Boot] works on. *)
Definition system_of (k : computer) : system :=
  let b := bd (cr k) in let d := dr k in
  mkSystem (Kernel.mach (kern b)) (mkConsole (dr_base d) (dr_console d) (devs b) (dr_daif d))
    (dr_blob d) (dr_transports d) (dr_slots d).
Definition put_system (s : system) (k : computer) : computer :=
  let b := bd (cr k) in let c := con s in
  mkComputer (set_bd (set_devs (BUS c) (set_kern (Kernel.set_mach (mach s) (kern b)) b)) (cr k))
    (mkDrivers (BASE c) (CONSOLE c) (Uart.DAIF c) (BLOB s) (TRANSPORTS s) (SLOTS_SEEN s) (dr_probe (dr k)) (dr_other (dr k))).

Definition on_core {A} (op : M core A) : M computer A := zoom cr set_cr op.
Definition on_system {A} (op : M system A) : M computer A := zoom system_of put_system op.

Definition get_daif (k : computer) : Z := dr_daif (dr k).
Definition put_daif (v : Z) (k : computer) : computer :=
  set_dr (mkDrivers (dr_base (dr k)) (dr_console (dr k)) v (dr_blob (dr k)) (dr_transports (dr k)) (dr_slots (dr k))
    (dr_probe (dr k)) (dr_other (dr k))) k.
Definition put_probe (v : Z) (k : computer) : computer :=
  set_dr (mkDrivers (dr_base (dr k)) (dr_console (dr k)) (dr_daif (dr k)) (dr_blob (dr k)) (dr_transports (dr k))
    (dr_slots (dr k)) v (dr_other (dr k))) k.
Definition put_other (v : Z) (k : computer) : computer :=
  set_dr (mkDrivers (dr_base (dr k)) (dr_console (dr k)) (dr_daif (dr k)) (dr_blob (dr k)) (dr_transports (dr k))
    (dr_slots (dr k)) (dr_probe (dr k)) v) k.

Section boot.
Context (respond : list Devices.access → Z → Z → Z) (polls : nat) (frequency : Z).
Context (user_task_entry task_trampoline : Z).

(** What the linker and the build decide: the layout, the addresses of the vector
    table, of [paging::self_test] and of [.text], and the version of the package. *)
Context (ly : layout) (vectors running_at : Z) (version : string).

(** What the CPU has in its identification registers, and in the others where a
    test traps on purpose. *)
Context (mmfr0 el : Z) (regs : list Z) (pc pstate count : Z).

Definition out (text : list Z) : M computer unit := on_system (print respond polls text).
Definition outln (text : list Z) : M computer unit := out (ln text).

(** ** [kernel_main] *)

(** With the MMU off at first; what it ends with is where the CPU goes on, with
    what stack and argument. *)
Definition kernel_main (continuation sp dtb : Z) : M computer (Z * Z * Z) :=
  '(ttbr0, ttbr1) ← on_system (make_tables respond polls ly dtb);
  _ ← on_core (enable mmfr0 ttbr0 ttbr1);
  _ ← on_system (Boot.say respond polls (line "the_rack: mmu on, jumping to the high half"));
  lift (jump_to_high_half continuation sp dtb).

(** ** [kernel_main_high] *)

Definition banner : M computer unit :=
  _ ← outln [];
  _ ← outln (bytes_of "the_rack " ++ bytes_of version);
  _ ← out (line "aarch64 / qemu-virt");
  _ ← outln [];
  _ ← outln (bytes_of "  exception level : EL" ++ dec (current_el el));
  _ ← outln (bytes_of "  kernel loaded   : " ++ hex18 0x40080000 ++ bytes_of " physical");
  _ ← outln (bytes_of "  kernel end      : " ++ hex18 (kernel_end ly + KERNEL_BASE) ++ bytes_of " virtual");
  base ← on_core vector_base;
  _ ← outln (bytes_of "  vector table    : " ++ hex18 base);
  outln [].

(** The report is what the handler prints before it steps over the breakpoint. *)
Definition brk_syndrome : Z := Z.lor (Z.lor (Z.shiftl 0x3c 26) (Z.shiftl 1 25)) 0x42.
Definition exceptions_test : M computer unit :=
  _ ← out (line "trap self test: executing brk #0x42");
  _ ← out (report (mkFrame regs pc pstate brk_syndrome 0) 4 brk_syndrome);
  _ ← on_core (breakpoint_self_test respond frequency user_task_entry task_trampoline regs pc pstate count);
  out (line "trap self test: resumed, registers intact").

(** The two tests of [fdt.rs], with the buffers they build at [scratch]. *)
Definition fdt_tests (scratch : Z) : M computer unit :=
  _ ← out (bytes_of "fdt self test: ");
  s ← gets system_of;
  _ ← lift (FdtTest.self_test (high_view (mach s)) scratch (Frames.ram_base (mach s)) (Frames.ram_size (mach s)) KERNEL_BASE);
  _ ← out (line "passed, a good header parses and ten broken ones are refused");
  _ ← out (bytes_of "device tree self test: ");
  s ← gets system_of;
  live ← lift (tree_self_test (high_view (mach s)) scratch (Frames.ram_base (mach s)) (Frames.ram_size (mach s)) (BLOB s));
  match live with
  | Some (model, base, size) =>
    outln (bytes_of "passed, this machine is a " ++ model ++ bytes_of " with " ++ dec (size / 1024 / 1024) ++
      bytes_of " MiB at " ++ hex base)
  | None => out (line "passed, no live tree to check against")
  end.

(** [{}] of a [bool]. *)
Definition fmt_bool (b : bool) : list Z := bytes_of (if b then "true" else "false").

Definition sync_test : M computer unit :=
  '(unlocked, locked, nested, released, counted) ←
    Sync.self_test get_daif put_daif (λ k, dr_probe (dr k)) (λ k, dr_other (dr k)) put_probe put_other;
  _ ← outln (bytes_of "lock self test: unlocked=" ++ fmt_bool unlocked ++ bytes_of " locked=" ++ fmt_bool locked ++
    bytes_of " nested=" ++ fmt_bool nested ++ bytes_of " released=" ++ fmt_bool released);
  outln (bytes_of "lock self test: passed, guarded counter reached " ++ dec counted).

Definition frames_test : M computer unit :=
  '(a, before) ← on_system (on_machine Frames.self_test);
  outln (bytes_of "frame self test: passed, reuse of " ++ hex a ++ bytes_of " came back clean, " ++ dec before ++
    bytes_of " frames free").

Definition paging_test : M computer unit :=
  seen ← on_core (Mmu.self_test respond frequency user_task_entry task_trampoline regs pc pstate count running_at
    (text_start ly + KERNEL_BASE) (rodata_start ly + KERNEL_BASE));
  _ ← outln (bytes_of "paging self test: passed, running at " ++ hex18 running_at);
  _ ← outln (bytes_of "  write to .text   : " ++ bytes_of (default EmptyString (seen !! 0%nat)));
  _ ← outln (bytes_of "  write to .rodata : " ++ bytes_of (default EmptyString (seen !! 1%nat)));
  outln (bytes_of "  read low half    : " ++ bytes_of (default EmptyString (seen !! 2%nat))).

(** How the entropy device works on memory, how long [virtqueue::self_test] waits
    for it, and where the tests of [fdt.rs] put their buffers. *)
Context (dma : list Devices.access → mem → mem) (spins : nat) (scratch : Z).

(** Up to the tests that need nothing. *)
Definition describe_machine (dtb : Z) : M computer unit :=
  _ ← on_core finish_high_half;
  _ ← on_system (on_con (Uart.init respond polls));
  _ ← on_core (init_vectors vectors);
  _ ← banner;
  c ← gets cr;
  _ ← out (print_config (cpu c) (ttbr0 (kern (bd c))));
  _ ← outln [];
  root ← on_core kernel_root;
  _ ← on_system (read_tree respond polls root dtb);
  _ ← outln [];
  _ ← on_system (print_map respond polls);
  outln [].

Definition early_tests : M computer unit :=
  _ ← exceptions_test;
  _ ← fdt_tests scratch;
  _ ← on_system (virtio_self_test respond polls);
  _ ← on_system (virtqueue_self_test respond polls dma spins);
  _ ← sync_test;
  _ ← frames_test;
  paging_test.

(** The part before there are tasks. *)
Definition before_tasks (dtb : Z) : M computer unit := _ ← describe_machine dtb; early_tests.

(** The rest runs as the boot task, in slot 0, with interrupts masked. *)
Definition kernel_main_high (address : function → Z) (image_start image_end : image_name → Z) (sp0 dtb : Z)
    (k : computer) : res (run (T := statics)) :=
  '(_, k) ← before_tasks dtb k;
  let boot := kernel_main_tasks respond frequency task_trampoline address image_start image_end in
  Done (mkRun (mkWorld (cr k) sp0 count statics_new) (replicate (Z.to_nat MAX_TASKS) (Thread boot))
    (replicate (Z.to_nat MAX_TASKS) true)).
End boot.
