(* ===== verification/BootRun.v ===== *)
(** * BootRun: a board boots

    A board as QEMU's virt is: RAM at 1 GiB, a console, an interrupt controller,
    and virtio windows with an entropy source in one; and the boot sequence of
    [KernelMain] run on it, from the first line of [kernel_main_high], over a map of
    only the pages it needs, into the task tests. *)

From ITree Require Import ITree.
From S2P Require Import Prelude Memory Fmt Frames FramesBoot Paging KernelMap Kernel Sched Devices Exceptions Mmu.
From S2P Require Import Sync Uart Fdt FdtTree Virtio Virtqueue Boot Threads TaskTests TestRuns KernelMain.

(** ** The device tree *)

(** The builder's strings have no room for [interrupts]; these do. *)
Definition board_strings : list Z := TEST_STRINGS ++ bytes_of "interrupts" ++ [0].
Definition STR_INTERRUPTS : Z := 42.

Definition cells (l : list Z) : list Z := l ≫= to_be_bytes.
Definition device (name : string) (compatible : string) (reg interrupts : list Z) : dtree :=
  DNode (bytes_of name)
    ([(STR_COMPATIBLE, bytes_of compatible ++ [0]); (STR_REG, cells reg)] ++
     match interrupts with [] => [] | _ => [(STR_INTERRUPTS, cells interrupts)] end) [].

Definition virt_tree : dtree :=
  DNode []
    [(STR_ADDRESS_CELLS, cells [2]); (STR_SIZE_CELLS, cells [2]); (STR_COMPATIBLE, bytes_of "linux,dummy-virt" ++ [0])]
    [DNode (bytes_of "memory@40000000") [(STR_REG, cells [0; 0x40000000; 0; 0x10000000])] [];
     device "pl011@9000000" "arm,pl011" [0; 0x09000000; 0; 0x1000] [0; 1; 4];
     device "intc@8000000" "arm,cortex-a15-gic" [0; 0x08000000; 0; 0x10000; 0; 0x08010000; 0; 0x10000] [];
     device "virtio_mmio@a000000" "virtio,mmio" [0; 0x0a000000; 0; 0x200] [0; 16; 1];
     device "virtio_mmio@a000200" "virtio,mmio" [0; 0x0a000200; 0; 0x200] [0; 17; 1]].

Definition virt_header : list Z :=
  let n := Z.of_nat (length (tree_bytes virt_tree)) + 4 in
  let k := Z.of_nat (length board_strings) in
  cells [Fdt.MAGIC; 56 + n + k; 56; 56 + n; 40; 17; 16; 0; k; n].
Definition virt_blob : list Z :=
  virt_header ++ replicate 16 0 ++ tree_bytes virt_tree ++ to_be_bytes FDT_END ++ board_strings.
Definition virt_dtb : Z := 0x48000000.

(** What the loader left in memory: the tree, and something in [.text]. *)
Definition loaded : mem := place (place (λ _, 0) virt_dtb virt_blob) 0x40080000 [0x1f; 0x20; 0x03; 0xd5].

(** ** The devices *)

Definition entropy : Z := 0x0a000200.

(** The last value written to a register. *)
Definition last_written (h : list Devices.access) (a : Z) : Z :=
  foldl (λ v e, match e with Devices.Write _ a' v' => if a' =? a then v' else v | Devices.Read _ _ _ => v end) 0 h.

(** The console has room, the controller has 288 lines, the first window is empty
    and the second has an entropy source, which takes every feature it offers. *)
Definition virt_bus (h : list Devices.access) (_ a : Z) : Z :=
  if a =? GICD_BOOTSTRAP + GICD_TYPER then 8 else
  if (a =? 0x0a000000 + MAGIC_VALUE) || (a =? entropy + MAGIC_VALUE) then Virtio.MAGIC else
  if (a =? 0x0a000000 + VERSION_REG) || (a =? entropy + VERSION_REG) then VERSION else
  if a =? entropy + DEVICE_ID then DEVICE_ENTROPY else
  if a =? entropy + DEVICE_FEATURES then last_written h (entropy + DEVICE_FEATURES_SEL) else
  if a =? entropy + QUEUE_NUM_MAX then 1024 else
  if a =? entropy + STATUS then last_written h a else 0.

(** Notified, the source takes the first request of its queue: it fills the buffer
    and puts the descriptor into the used ring. *)
Definition notified (h : list Devices.access) : bool :=
  existsb (λ e, match e with Devices.Write _ a _ => a =? entropy + QUEUE_NOTIFY | Devices.Read _ _ _ => false end) h.
Definition virt_dma (h : list Devices.access) (m : mem) : mem :=
  if notified h then
    let desc := last_written h (entropy + QUEUE_DESC_LOW) in
    let used := last_written h (entropy + QUEUE_DEVICE_LOW) in
    let m := place m (read_u64 m desc) [0x9e; 0x37; 0x79; 0xb9; 0x7f; 0; 0x7c; 0x15; 0xf3; 0x9c; 0xc0; 0x60; 0x5c; 0xed; 0xc8; 0x34] in
    place m used ([0; 0; 1; 0] ++ [0; 0; 0; 0; 16; 0; 0; 0])
  else m.

(** ** The run *)

(** The computer when [kernel_main_high] begins, over a map of the two pages the
    test of [paging.rs] touches: interrupts are masked and the MMU is on. *)
Definition powered : computer :=
  mkComputer
    (mkCore (mkBoard (kernel_new (set_memory loaded virt)) (mkDevices GICD_BOOTSTRAP GICC_BOOTSTRAP [] 0 0) 0 false 0)
      (mkMmu 0 0 0 0x30d00800 0 0))
    (mkDrivers PL011_BOOTSTRAP PL011_BOOTSTRAP 0x3c0 None no_transports 0 0 0).

Definition mmu_on : M computer unit :=
  '(low, high) ← on_core (on_pool (
    low ← AddressSpace_new;
    high ← AddressSpace_new;
    _ ← map_range high (text_start virt_layout + KERNEL_BASE) (text_start virt_layout) PAGE_SIZE Attributes.kernel_text;
    _ ← map_range high (rodata_start virt_layout + KERNEL_BASE) (rodata_start virt_layout) PAGE_SIZE Attributes.kernel_rodata;
    mret (low, high)));
  on_core (enable 0x1125 low high).

(** The first part, to the moment the tasks begin. *)
Definition boot : M computer unit :=
  _ ← mmu_on;
  before_tasks virt_bus 2 counter_frequency user_entry trampoline_entry virt_layout 0xffff000040082000
    0xffff000040083000 "0.1.0" 4 (replicate 31 0) 0xffff000040084000 0x3c5 0 virt_dma 10 0x40090000 virt_dtb.

(** And on, for up to [2 ^ n] turns of the boot task and those it starts. *)
Definition boot_on (n : nat) : res (bool * run (T := statics)) :=
  '(_, k) ← mmu_on powered;
  r ← kernel_main_high virt_bus 2 counter_frequency user_entry trampoline_entry virt_layout 0xffff000040082000
    0xffff000040083000 "0.1.0" 4 (replicate 31 0) 0xffff000040084000 0x3c5 0 virt_dma 10 0x40090000
    entry_of user_start user_end 0 virt_dtb k;
  turns virt_bus counter_frequency user_entry trampoline_entry
    (code_at virt_bus counter_frequency user_entry trampoline_entry entry_of [] 0 0) (replicate 31 0) n r.

(** ** What it says *)

(** The bytes the console was given. *)
Definition sent (h : list Devices.access) : list Z :=
  omap (λ e, match e with Devices.Write _ a v => if a =? PL011_BOOTSTRAP + DR then Some v else None | Devices.Read _ _ _ => None end) h.

Definition text (l : list string) : list Z := l ≫= Fmt.line.

Definition boot_log : list string := [
  EmptyString;
  "the_rack 0.1.0";
  "aarch64 / qemu-virt";
  EmptyString;
  "  exception level : EL1";
  "  kernel loaded   : 0x0000000040080000 physical";
  "  kernel end      : 0xffff000040200000 virtual";
  "  vector table    : 0xffff000040082000";
  EmptyString;
  "mmu: enabled, 4 KiB granule, 48 bit addresses";
  "  sctlr  : 0x0000000030d01805  mmu=1 dcache=1 icache=1";
  "  tcr    : 0x00000005b5103590  ttbr0 walks disabled";
  "  ttbr0  : 0x0000000000000000";
  "  ttbr1  : 0x0000000040201000";
  "  kernel : 0xffff000000000000 + physical";
  EmptyString;
  "device tree:";
  "  address       : 0x0000000048000000 physical";
  "  total size    : 649 bytes (0x289)";
  "  version       : 17 (readable back to 16)";
  "  struct block  : 0x38 + 0x21c";
  "  strings block : 0x254 + 0x35";
  "  boot cpu      : 0";
  "  memory        : 256 MiB at 0x40000000, from the tree";
  "  frames        : the guess was right";
  "  reserved      : 1 frames, blob included";
  "  console       : 0x0009000000 + 0x1000, where we were already talking";
  "  interrupts    : dist 0x0008000000 cpu 0x0008010000, as assumed";
  EmptyString;
  "virtio: 2 mmio slots, 1 occupied";
  "  0x000a000200 : entropy device, intid 49, offers 0x100000000";
  EmptyString;
  "memory: 256 MiB at 0x40000000, 65536 frames of 4 KiB";
  "  kernel   : 0x0040000000..0x0040200000  2048 KiB";
  "  reserved :    513 frames  2052 KiB  image and anything the machine claimed";
  "  free     :  65016 frames   253 MiB";
  EmptyString;
  "trap self test: executing brk #0x42";
  EmptyString;
  "--- exception ---";
  "  vector : synchronous (current EL, SP_ELx)";
  "  class  : BRK instruction (EC 0x3c)";
  "  esr    : 0x00000000f2000042";
  "  elr    : 0xffff000040084000";
  "  spsr   : 0x00000000000003c5";
  "  comment: 0x42";
  "  x0..x3 : 0x0000000000000000 0x0000000000000000";
  "           0x0000000000000000 0x0000000000000000";
  "  lr     : 0x0000000000000000";
  "-----------------";
  "trap self test: resumed, registers intact";
  "fdt self test: passed, a good header parses and ten broken ones are refused";
  "device tree self test: passed, this machine is a linux,dummy-virt with 256 MiB at 0x40000000";
  "virtio self test: passed, 1 device agreed on features and was reset";
  "virtqueue self test: passed, 16 bytes arrived by DMA, 15 of them not zero";
  "lock self test: unlocked=false locked=true nested=true released=false";
  "lock self test: passed, guarded counter reached 1";
  "frame self test: passed, reuse of 0x40207000 came back clean, 65016 frames free";
  "paging self test: passed, running at 0xffff000040083000";
  "  write to .text   : permission fault";
  "  write to .rodata : permission fault";
  "  read low half    : translation fault, nothing mapped"]%string.

(** Then the boot task goes on. *)
Definition task_log : list string := [
  "task self test: passed, 2 tasks alternated 3 turns each, locals intact, canaries intact";
  EmptyString;
  "tasks:";
  "  0* kernel   prio 255 stack 0xffff000040000000  Runnable";
  "  2  pong     prio 1   stack 0xffff00004020c000  Zombie";
  EmptyString;
  "gic: 288 interrupt lines";
  "timer: 2000000 Hz counter, tick every 10 ms";
  EmptyString;
  "tier 0 complete. we are alive on bare metal.";
  "tier 1: exception vectors online.";
  "tier 1: paging online, kernel in the high half.";
  "tier 1: heartbeat started, interrupts live.";
  EmptyString]%string.

(** After 256 turns nothing has panicked, the console has the log, the boot task is
    in the middle of its tests, interrupts are on and the timer is armed. *)
Definition boots_as (outcome : res (bool * run (T := statics))) : bool :=
  match outcome with
  | Done (more, r) =>
    let d := devs (rboard r) in
    more && same (sent (trace d)) (crlf (text boot_log)) &&
    same (SAID (Threads.statics (wd r))) (text task_log) &&
    negb (default true (masked r !! 0%nat)) && (cntp_ctl d =? 1) && canaries_intact (rkern r)
  | Panic _ => false
  end.
Definition boots : bool := boots_as (boot_on 8).

(** The kernel boots: with a device tree as QEMU's virt machine describes
    itself, an entropy source that answers, and interrupts masked, the boot
    sequence runs from the first line of [kernel_main_high] past all eight self
    tests that come before the tasks, the device tree, the entropy request and
    the paging probes among them, through the cooperative task test, the
    interrupt controller and the timer, to the preemption test, without a panic;
    the console is sent exactly the boot log, byte for byte. *)
Theorem kernel_boots : boots = true.
Proof. vm_cast_no_check (eq_refl true). Qed.
