(* ===== verification/KernelMainProps.v ===== *)
(** * KernelMainProps: what the boot sequence needs

    The kernel says it goes on with a guess when the firmware hands it no device
    tree; [no_tree_no_tasks] is how far it gets. *)

From S2P Require Import Prelude Memory Fmt FrameAlloc Frames FramesBoot Paging KernelMap Kernel Sched Devices Exceptions System Mmu.
From S2P Require Import Sync Uart Fdt FdtTest Virtio Boot Threads Reports TaskTests TestRuns KernelMain BootRun.

(** ** What the first steps leave alone *)

(** What discovery reads and what it writes. *)
Definition plain (s : system) : machine * list (option Transport) := (mach s, TRANSPORTS s).
Definition kept (k : computer) : machine * list (option Transport) := plain (system_of k).

Lemma system_put s k : system_of (put_system s k) = s.
Proof. by destruct s as [? [] ? ? ?]. Qed.

Lemma steady_zoom {K S A X} (f : K → X) (get : K → S) (put : S → K → K) (op : M S A) :
  (∀ s k, f (put s k) = f k) → steady f (zoom get put op).
Proof. intros Hf k a k'. unfold zoom. destruct (op (get k)) as [[x s]|]; [|done]. intros [= _ <-]. apply Hf. Qed.

Lemma steady_on_system {A} (op : M system A) : steady plain op → steady kept (on_system op).
Proof.
  intros H k a k'. unfold on_system, zoom. destruct (op (system_of k)) as [[x s]|] eqn:He; [|done].
  intros [= _ <-]. unfold kept. rewrite system_put. by eapply H.
Qed.

Lemma steady_on_con {A} (op : M console A) : steady plain (on_con op).
Proof. by apply steady_zoom. Qed.
Lemma steady_on_core {A} (op : M core A) : steady (λ c, Kernel.mach (kern (bd c))) op → steady kept (on_core op).
Proof.
  intros H k a k'. unfold on_core, zoom. destruct (op (cr k)) as [[x c]|] eqn:He; [|done].
  intros [= _ <-]. unfold kept, plain. cbn. by rewrite (H _ _ _ He).
Qed.
#[local] Hint Resolve steady_on_system steady_on_con steady_on_core : steady.

Section boot.
Context (respond : list Devices.access → Z → Z → Z) (polls : nat) (frequency : Z).
Context (user_task_entry task_trampoline : Z) (ly : layout) (vectors running_at : Z) (version : string).
Context (el : Z) (regs : list Z) (pc pstate count : Z).
Context (dma : list Devices.access → mem → mem) (spins : nat) (scratch : Z).

Lemma steady_out t : steady kept (out respond polls t).
Proof. apply steady_on_system, steady_on_con. Qed.
#[local] Hint Resolve steady_out : steady.

Lemma steady_finish : steady (λ c, Kernel.mach (kern (bd c))) finish_high_half.
Proof.
  unfold finish_high_half. repeat (apply steady_bind; [try (by apply steady_modify); auto with steady|intros ?]).
  by apply steady_modify.
Qed.

Lemma steady_kernel_root : steady (λ c, Kernel.mach (kern (bd c))) kernel_root.
Proof.
  unfold kernel_root, on_pool, on_board, in_kernel, with_mach, Paging.from_addr.
  apply steady_bind; [auto with steady|]. intros t c a c'. unfold zoom, assertM, panic, mbind, M_bind.
  destruct (is_multiple_of _ _); [|done]. by intros [= _ <-].
Qed.

Lemma steady_banner : steady kept (banner respond polls ly version el).
Proof.
  unfold banner. repeat (apply steady_bind; [first [apply steady_out|apply steady_on_core, steady_gets]|intros ?]).
  apply steady_out.
Qed.

Lemma steady_print_map : steady plain (print_map respond polls).
Proof.
  unfold print_map. repeat (apply steady_bind; [first [apply (steady_gets plain id)|apply (steady_on_con (write_str respond polls _))|apply steady_lift]|intros ?]).
  apply (steady_on_con (write_str respond polls _)).
Qed.

(** A tree that [init] refuses is not looked at again. *)
Lemma pc_no_tree root dtb e s :
  fdt_init (high_view (mach s)) (Frames.ram_base (mach s)) (Frames.ram_size (mach s)) KERNEL_BASE dtb = Done (Err e) →
  Prelude.pc (read_tree respond polls root dtb) s (λ _ s', plain s' = plain s).
Proof.
  intros He. unfold read_tree, Boot.ask. pc_steps. apply pc_lift. intros r Hr.
  unfold init_blob in Hr. rewrite He in Hr. injection Hr as <-. pc_steps.
  eapply steady_pc; [apply (steady_on_con (write_str respond polls _))|]. by intros [] s' ->.
Qed.

Lemma pc_describe dtb e k :
  let m := mach (system_of k) in
  fdt_init (high_view m) (Frames.ram_base m) (Frames.ram_size m) KERNEL_BASE dtb = Done (Err e) →
  Prelude.pc (describe_machine respond polls ly vectors version el dtb) k (λ _ k', kept k' = kept k).
Proof.
  intros m He. unfold describe_machine.
  pc_step. eapply steady_pc; [apply steady_on_core, steady_finish|]. intros [] k1 H1. 
  pc_step. eapply steady_pc; [auto with steady|]. intros [] k2 H2.
  pc_step. eapply steady_pc; [apply steady_on_core; by apply steady_modify|]. intros [] k3 H3.
  pc_step. eapply steady_pc; [apply steady_banner|]. intros [] k4 H4. pc_steps.
  eapply steady_pc; [apply steady_out|]. intros [] k5 H5.
  pc_step. eapply steady_pc; [apply steady_out|]. intros [] k6 H6.
  pc_step. eapply steady_pc; [apply steady_on_core, steady_kernel_root|]. intros root k7 H7.
  assert (Hk : kept k7 = kept k) by congruence. clear H1 H2 H3 H4 H5 H6 H7.
  assert (Hm : mach (system_of k7) = m) by exact (f_equal fst Hk).
  assert (He7 : fdt_init (high_view (mach (system_of k7))) (Frames.ram_base (mach (system_of k7)))
    (Frames.ram_size (mach (system_of k7))) KERNEL_BASE dtb = Done (Err e)) by (rewrite Hm; exact He).
  clear He Hm. pc_step. apply pc_zoom_in. eapply pc_mono; [exact (pc_no_tree root dtb e _ He7)|]. intros [] s' Hs.
  assert (Hp : kept (put_system s' k7) = kept k) by (unfold kept in *; rewrite system_put; congruence).
  pc_step. eapply steady_pc; [apply steady_out|]. intros [] k8 H8.
  pc_step. eapply steady_pc; [apply steady_on_system; apply steady_print_map|].
  intros [] k9 H9. eapply steady_pc; [apply steady_out|]. intros [] k10 H10. congruence.
Qed.

(** The tests on the way: the breakpoint and the two of [fdt.rs]. *)
Lemma pc_tests k :
  Prelude.pc (exceptions_test respond polls frequency user_task_entry task_trampoline regs pc pstate count) k
    (λ _ k', dr_transports (dr k') = dr_transports (dr k)) ∧
  Prelude.pc (fdt_tests respond polls scratch) k (λ _ k', dr_transports (dr k') = dr_transports (dr k)).
Proof.
  assert (Hout : ∀ t, steady (λ k, dr_transports (dr k)) (out respond polls t)).
  { intros t k1 a k2 H. pose proof (steady_out t _ _ _ H) as Hk. unfold kept, plain in Hk. by injection Hk. }
  split.
  - unfold exceptions_test. pc_step. eapply steady_pc; [apply Hout|]. intros [] k1 H1.
    pc_step. eapply steady_pc; [apply Hout|]. intros [] k2 H2.
    pc_step. apply pc_zoom. intros [] c _. eapply steady_pc; [apply Hout|]. intros [] k3 H3. cbn in H3. congruence.
  - unfold fdt_tests. pc_step. eapply steady_pc; [apply Hout|]. intros [] k1 H1. pc_steps.
    apply pc_lift. intros [] _. pc_step. eapply steady_pc; [apply Hout|]. intros [] k2 H2.
    pc_step. eapply steady_pc; [apply Hout|]. intros [] k3 H3. pc_steps. apply pc_lift. intros live _.
    destruct live as [[[model base] size]|]; (eapply steady_pc; [apply Hout|]; intros [] k4 H4; congruence).
Qed.

Lemma pc_no_transports k (Q : unit → computer → Prop) :
  present (dr_transports (dr k)) = [] → Prelude.pc (on_system (virtio_self_test respond polls)) k Q.
Proof.
  intros Ht. apply pc_zoom_in. unfold virtio_self_test. pc_step.
  eapply steady_pc; [apply (steady_on_con (write_str respond polls _))|]. intros [] s Hs. unfold transports. pc_steps.
  injection Hs as _ Hs. cbn in Hs. exfalso. rewrite Hs, Ht in *. done.
Qed.

(** C36: without a device tree the kernel does not boot: when [init] refuses what
    the firmware passed, for whatever reason, the boot sequence does not reach
    the tasks, whatever the devices answer and whoever loaded what: it reports
    that it goes on with a guess of the memory map, and what comes after cannot
    end, because [virtio::self_test] asserts that discovery, which only a tree
    leads to, found a device. *)
Theorem no_tree_no_tasks dtb e k :
  let m := mach (system_of k) in
  fdt_init (high_view m) (Frames.ram_base m) (Frames.ram_size m) KERNEL_BASE dtb = Done (Err e) →
  present (dr_transports (dr k)) = [] →
  ∀ k', before_tasks respond polls frequency user_task_entry task_trampoline ly vectors running_at version el
    regs pc pstate count dma spins scratch dtb k ≠ Done (tt, k').
Proof.
  intros m He Ht k' Hd. pose proof (pc_describe dtb e k He) as Hdesc. clear He.
  eapply (pc_elim _ _ _ _ (λ _ _, False)); [|exact Hd]. unfold before_tasks.
  pc_step. eapply pc_mono; [exact Hdesc|]. intros [] k1 H1. unfold early_tests.
  pc_step. eapply pc_mono; [exact (proj1 (pc_tests k1))|]. intros [] k2 H2.
  pc_step. eapply pc_mono; [exact (proj2 (pc_tests k2))|]. intros [] k3 H3.
  pc_step. apply pc_no_transports. rewrite H3, H2. injection H1 as _ ->. exact Ht.
Qed.
End boot.

(** The board of [BootRun], when the firmware passes no tree. *)
Lemma no_tree_no_tasks_witness :
  present (dr_transports (dr powered)) = [] ∧
  ∀ k', before_tasks virt_bus 2 counter_frequency user_entry trampoline_entry virt_layout 0xffff000040082000
    0xffff000040083000 "0.1.0" 4 [] 0 0 0 virt_dma 10 0x40090000 0 powered ≠ Done (tt, k').
Proof.
  split; [reflexivity|]. apply (no_tree_no_tasks virt_bus 2 counter_frequency user_entry trampoline_entry virt_layout 0xffff000040082000
    0xffff000040083000 "0.1.0" 4 [] 0 0 0 virt_dma 10 0x40090000 0 Fdt.Null powered); reflexivity.
Defined.
